(** * Velocity: the per-method route trie, its resolver, the middleware
      composer and the router surface, embedded from the Go sources
      (tree code of package velocity, router.go). *)

From Stdlib Require Import String Ascii List Arith Lia Bool.
From stdpp Require Import gmap strings sorting.

Import ListNotations.
Local Open Scope string_scope.
Local Open Scope list_scope.

(** ** Outcomes

    Go code either returns or aborts with a run-time panic (index out of
    range, nil dereference).  Loops whose termination is not structural are
    run on fuel; [OutOfFuel] is never a result of the entry points below
    (see [find_total] and [insert_total]). *)

Inductive outcome (A : Type) : Type :=
| Ok (a : A)
| Panic
| OutOfFuel.
Arguments Ok {A} a.
Arguments Panic {A}.
Arguments OutOfFuel {A}.

Definition obind {A B} (x : outcome A) (f : A -> outcome B) : outcome B :=
  match x with
  | Ok a => f a
  | Panic => Panic
  | OutOfFuel => OutOfFuel
  end.

Notation "'do' x <- e1 ; e2" := (obind e1 (fun x => e2))
  (at level 10, x pattern, e1 at level 100, e2 at level 200).

(** ** Byte strings

    A Go [string] is an immutable byte sequence: [String.string] over
    [ascii] (eight bits).  [sfrom n s] is the slice [s[n:]], [sto n s] is
    [s[:n]]; both are only used where the Go bounds hold. *)

Fixpoint sfrom (n : nat) (s : string) : string :=
  match n, s with
  | 0, _ => s
  | S n', String _ s' => sfrom n' s'
  | S _, EmptyString => EmptyString
  end.

Fixpoint sto (n : nat) (s : string) : string :=
  match n, s with
  | 0, _ => EmptyString
  | S n', String c s' => String c (sto n' s')
  | S _, EmptyString => EmptyString
  end.

(** [s[i]], [None] when the index is out of range (a panic in Go). *)
Definition sidx (s : string) (i : nat) : option ascii := String.get i s.

Definition slash : ascii := "/"%char.

(** [strings.TrimPrefix(p, "/")] *)
Definition TrimPrefix (p : string) : string :=
  match p with
  | String c p' => if Ascii.eqb c slash then p' else p
  | EmptyString => p
  end.

(** [strings.TrimSuffix(p, "/")] *)
Fixpoint TrimSuffix (p : string) : string :=
  match p with
  | EmptyString => EmptyString
  | String c EmptyString => if Ascii.eqb c slash then EmptyString else p
  | String c p' => String c (TrimSuffix p')
  end.

(** [strings.Split(p, "/")]: one more piece than there are separators,
    so [Split "" = [""]]. *)
Fixpoint Split (p : string) : list string :=
  match p with
  | EmptyString => [EmptyString]
  | String c p' =>
      if Ascii.eqb c slash then EmptyString :: Split p'
      else match Split p' with
           | hd :: tl => String c hd :: tl
           | [] => [String c EmptyString]
           end
  end.

(** [strings.Join(l, "/")] *)
Fixpoint Join (l : list string) : string :=
  match l with
  | [] => EmptyString
  | [s] => s
  | s :: l' => s ++ String slash (Join l')
  end.

(** [strings.IndexByte(p, '/')], [None] for -1. *)
Fixpoint IndexByte (p : string) : option nat :=
  match p with
  | EmptyString => None
  | String c p' =>
      if Ascii.eqb c slash then Some 0
      else match IndexByte p' with
           | Some j => Some (S j)
           | None => None
           end
  end.

(** ** Path lexer and validator *)

Inductive nType : Set := static | param | catchAll.

Definition nType_eqb (a b : nType) : bool :=
  match a, b with
  | static, static | param, param | catchAll, catchAll => true
  | _, _ => false
  end.

(** [getSegmentType] reads [s[0]] unconditionally: on the empty string the
    index is out of range. *)
Definition getSegmentType (s : string) : outcome nType :=
  match sidx s 0 with
  | None => Panic
  | Some c =>
      if Ascii.eqb c ":"%char then Ok param
      else if Ascii.eqb c "*"%char then Ok catchAll
      else Ok static
  end.

(** The loop of [splitPath] over the raw segments; [cur] is the literal
    run collected so far, [segments] the tokens already emitted. *)
Fixpoint splitPath_loop (raw : list string) (segments : list string) (cur : string)
  : outcome (list string) :=
  match raw with
  | [] => Ok (if String.eqb cur "" then segments else segments ++ [cur])
  | seg :: raw' =>
      do ty <- getSegmentType seg;
      match ty with
      | static => splitPath_loop raw' segments (cur ++ seg)
      | _ =>
          let segments := if String.eqb cur "" then segments else segments ++ [cur] in
          splitPath_loop raw' (segments ++ [seg]) ""
      end
  end.

Definition splitPath (p : string) : outcome (list string) :=
  splitPath_loop (Split (TrimPrefix p)) [] "".

Definition cleanPath (p : string) : string :=
  let p := TrimPrefix p in
  let p := TrimSuffix p in
  let final := List.filter (fun seg => negb (String.eqb seg "")) (Split p) in
  String slash (Join final).

(** [longestPrefix]: the index loop of the source. [k] counts the
    iterations left ([min - i]). *)
Fixpoint longestPrefix_loop (k i : nat) (min : nat) (s1 s2 : string) : string :=
  match k with
  | 0 => sto min s1
  | S k' =>
      match sidx s1 i, sidx s2 i with
      | Some a, Some b =>
          if Ascii.eqb a b then longestPrefix_loop k' (S i) min s1 s2 else sto i s1
      | _, _ => sto i s1
      end
  end.

Definition longestPrefix (s1 s2 : string) : string :=
  let min := String.length s1 in
  let min := if Nat.ltb (String.length s2) min then String.length s2 else min in
  longestPrefix_loop min 0 min s1 s2.

(** [paramRegex] is [^[a-zA-Z_][a-zA-Z0-9_]*$]; Go's [$] without the
    multi-line flag matches at the end of the text only. *)
Definition is_letter_ (c : ascii) : bool :=
  (Ascii.leb "a" c && Ascii.leb c "z") || (Ascii.leb "A" c && Ascii.leb c "Z")
  || Ascii.eqb c "_".

Definition is_digit (c : ascii) : bool := Ascii.leb "0" c && Ascii.leb c "9".

Fixpoint all_chars (f : ascii -> bool) (s : string) : bool :=
  match s with
  | EmptyString => true
  | String c s' => f c && all_chars f s'
  end.

Definition paramRegex_MatchString (s : string) : bool :=
  match s with
  | EmptyString => false
  | String c s' => is_letter_ c && all_chars (fun c => is_letter_ c || is_digit c) s'
  end.

(** The loop of [isValidPath]; [i] is the index of [seg], [len] is
    [len(segments)], [keys] the set of parameter segments already seen. *)
Fixpoint isValidPath_loop (segs : list string) (i len : nat)
    (prevTyp : option nType) (keys : gset string) : outcome bool :=
  match segs with
  | [] => Ok true
  | seg :: segs' =>
      if String.eqb seg "" then isValidPath_loop segs' (S i) len prevTyp keys
      else
        do typ <- getSegmentType seg;
        if match prevTyp with
           | Some pt => negb (nType_eqb pt static) && negb (nType_eqb typ static)
           | None => false
           end
        then Ok false
        else if nType_eqb typ catchAll && negb (Nat.eqb i (len - 1)) then Ok false
        else if nType_eqb typ param && bool_decide (seg ∈ keys) then Ok false
        else
          let keys := if nType_eqb typ param then {[ seg ]} ∪ keys else keys in
          if nType_eqb typ param && negb (paramRegex_MatchString (sfrom 1 seg)) then Ok false
          else if nType_eqb typ catchAll && negb (String.eqb seg "*") then Ok false
          else isValidPath_loop segs' (S i) len (Some typ) keys
  end.

Definition isValidPath (p : string) : outcome bool :=
  do segments <- splitPath p;
  isValidPath_loop segments 0 (List.length segments) None ∅.

(** ** Trie nodes

    [children] is a Go [map[byte]*node]: an association list with unique
    keys ([addChild] replaces an existing key).  Go's iteration order over
    a map is unspecified; the only iteration ([recurseCapture]) feeds
    [slices.Sort].  [special] is the array [[catchAll+1]*node], one slot per
    [nType].  Below the root every node is reached through exactly one
    pointer, so the heap of nodes is the tree itself and a pointer is the
    path from the root ([cursor]).  The fields [nType] and [endpoint] of
    the Go struct are [kind] and [endpt] here, their names being taken by
    the types. *)

Record slots (N : Type) : Type := Slots {
  at_static : option N;
  at_param : option N;
  at_catchAll : option N
}.
Arguments Slots {N} _ _ _.
Arguments at_static {N} _.
Arguments at_param {N} _.
Arguments at_catchAll {N} _.

Definition no_slots {N} : slots N := Slots None None None.

Definition slot_get {N} (s : slots N) (t : nType) : option N :=
  match t with
  | static => at_static s
  | param => at_param s
  | catchAll => at_catchAll s
  end.

Definition slot_set {N} (s : slots N) (t : nType) (n : N) : slots N :=
  match t with
  | static => Slots (Some n) (at_param s) (at_catchAll s)
  | param => Slots (at_static s) (Some n) (at_catchAll s)
  | catchAll => Slots (at_static s) (at_param s) (Some n)
  end.

Record endpoint (H : Type) : Type := Endpoint {
  fn : H;
  fullPath : string;
  pKeys : list string
}.
Arguments Endpoint {H} _ _ _.
Arguments fn {H} _.
Arguments fullPath {H} _.
Arguments pKeys {H} _.

#[warnings="-register-all"] Inductive node (H : Type) : Type := Node {
  kind : nType;
  prefix : string;
  children : list (ascii * node H);
  special : slots (node H);
  endpt : option (endpoint H)
}.
Arguments Node {H} _ _ _ _ _.
Arguments kind {H} _.
Arguments prefix {H} _.
Arguments children {H} _.
Arguments special {H} _.
Arguments endpt {H} _.

Abbreviation tree := node (only parsing).

Inductive edge : Set :=
| EChild (label : ascii)
| ESpecial (t : nType).

Definition cursor := list edge.

Section Trie.
Context {H : Type}.

Definition newNode (t : nType) (pre : string) : node H :=
  Node t pre [] no_slots None.

Definition newTree : tree H := Node static "" [] no_slots None.

Definition newEndpoint (path : string) (f : H) (keys : list string) : endpoint H :=
  Endpoint f path keys.

(** [n.children[label]] *)
Fixpoint lookup_child (cs : list (ascii * node H)) (label : ascii) : option (node H) :=
  match cs with
  | [] => None
  | (k, c) :: cs' => if Ascii.eqb k label then Some c else lookup_child cs' label
  end.

(** [m[label] = c] *)
Fixpoint put_child (cs : list (ascii * node H)) (label : ascii) (c : node H)
  : list (ascii * node H) :=
  match cs with
  | [] => [(label, c)]
  | (k, c0) :: cs' =>
      if Ascii.eqb k label then (k, c) :: cs' else (k, c0) :: put_child cs' label c
  end.

Definition addChild (n : node H) (label : ascii) (c : node H) : node H :=
  Node (kind n) (prefix n) (put_child (children n) label c) (special n) (endpt n).

Definition addSpecial (n : node H) (t : nType) (c : node H) : node H :=
  Node (kind n) (prefix n) (children n) (slot_set (special n) t c) (endpt n).

Definition clearChildren (n : node H) : node H :=
  Node (kind n) (prefix n) [] no_slots (endpt n).

Definition copyFrom (n : node H) (src : node H) : node H :=
  Node (kind n) (prefix n) (children src) (special src) (endpt src).

Definition setEndpoint (n : node H) (e : option (endpoint H)) : node H :=
  Node (kind n) (prefix n) (children n) (special n) e.

Definition setPrefix (n : node H) (pre : string) : node H :=
  Node (kind n) pre (children n) (special n) (endpt n).

(** Pointers into the tree. *)
Definition follow (n : node H) (e : edge) : option (node H) :=
  match e with
  | EChild label => lookup_child (children n) label
  | ESpecial t => slot_get (special n) t
  end.

Fixpoint deref (t : tree H) (cur : cursor) : option (node H) :=
  match cur with
  | [] => Some t
  | e :: cur' =>
      match follow t e with
      | Some c => deref c cur'
      | None => None
      end
  end.

Definition replace_at (n : node H) (e : edge) (c : node H) : node H :=
  match e with
  | EChild label => addChild n label c
  | ESpecial t => addSpecial n t c
  end.

(** [*cur = v]: the tree with the node under [cur] replaced. *)
Fixpoint assign (t : tree H) (cur : cursor) (v : node H) : tree H :=
  match cur with
  | [] => v
  | e :: cur' =>
      match follow t e with
      | Some c => replace_at t e (assign c cur' v)
      | None => t
      end
  end.

(** The longest chain of pointers below a node, counting the node. *)
Fixpoint height (n : node H) : nat :=
  let fix over (cs : list (ascii * node H)) : nat :=
    match cs with
    | [] => 0
    | (_, c) :: cs' => Nat.max (height c) (over cs')
    end in
  let opt (o : option (node H)) : nat :=
    match o with Some c => height c | None => 0 end in
  match n with
  | Node _ _ cs sp _ =>
      S (Nat.max (over cs)
           (Nat.max (opt (at_static sp)) (Nat.max (opt (at_param sp)) (opt (at_catchAll sp)))))
  end.

(** The inner loop [for len(search) > 0] of [insert], on a literal token.
    An iteration either stops ([search = ""]) or moves [cur] to a child of
    [cur]; the fuel bounds the descents. *)
Fixpoint insert_static (fuel : nat) (t : tree H) (cur : cursor) (search : string)
  : outcome (tree H * cursor) :=
  match search with
  | EmptyString => Ok (t, cur)
  | String c0 _ =>
      match fuel with
      | 0 => OutOfFuel
      | S fuel' =>
          match deref t cur with
          | None => Panic
          | Some curN =>
              match lookup_child (children curN) c0 with
              | None =>
                  let new := newNode static search in
                  Ok (assign t cur (addChild curN c0 new), cur ++ [EChild c0])
              | Some next =>
                  let lcp := longestPrefix search (prefix next) in
                  if Nat.ltb (String.length lcp) (String.length (prefix next)) then
                    let rem := sfrom (String.length lcp) (prefix next) in
                    let next1 := setPrefix next lcp in
                    let new := copyFrom (newNode static rem) next1 in
                    let next2 := setEndpoint (clearChildren next1) None in
                    match sidx rem 0 with
                    | None => Panic
                    | Some r0 =>
                        let next3 := addChild next2 r0 new in
                        if Nat.ltb (String.length lcp) (String.length search) then
                          let newSearch := newNode static (sfrom (String.length lcp) search) in
                          match sidx (sfrom (String.length lcp) search) 0 with
                          | None => Panic
                          | Some s0 =>
                              let next4 := addChild next3 s0 newSearch in
                              Ok (assign t (cur ++ [EChild c0]) next4,
                                  cur ++ [EChild c0; EChild s0])
                          end
                        else Ok (assign t (cur ++ [EChild c0]) next3, cur ++ [EChild c0])
                    end
                  else
                    insert_static fuel' t (cur ++ [EChild c0])
                      (sfrom (String.length lcp) search)
              end
          end
      end
  end.

(** The cases [param] and [catchAll] of the token switch. *)
Definition insert_special (t : tree H) (cur : cursor) (ty : nType)
  : outcome (tree H * cursor) :=
  match deref t cur with
  | None => Panic
  | Some curN =>
      match slot_get (special curN) ty with
      | None =>
          let new := newNode ty "" in
          Ok (assign t cur (addSpecial curN ty new), cur ++ [ESpecial ty])
      | Some _ => Ok (t, cur ++ [ESpecial ty])
      end
  end.

(** The loop of [insert] over the tokens of [splitPath]. *)
Fixpoint insert_loop (segs : list string) (t : tree H) (cur : cursor) (keys : list string)
  : outcome (tree H * cursor * list string) :=
  match segs with
  | [] => Ok (t, cur, keys)
  | seg :: segs' =>
      do ty <- getSegmentType seg;
      match ty with
      | static =>
          do (t', cur') <- insert_static (S (height t)) t cur seg;
          insert_loop segs' t' cur' keys
      | param =>
          do (t', cur') <- insert_special t cur param;
          insert_loop segs' t' cur' (keys ++ [sfrom 1 seg])
      | catchAll =>
          do (t', cur') <- insert_special t cur catchAll;
          insert_loop segs' t' cur' (keys ++ ["*"])
      end
  end.

(** [(t *tree) insert(p, fn)]: the tree after the call. *)
Definition insert (t : tree H) (p : string) (f : H) : outcome (tree H) :=
  let p := cleanPath p in
  do ok <- isValidPath p;
  if negb ok then Ok t
  else
    do segs <- splitPath p;
    do (t', cur, keys) <- insert_loop segs t [] [];
    let e := newEndpoint p f keys in
    match deref t' cur with
    | None => Panic
    | Some curN => Ok (assign t' cur (setEndpoint curN (Some e)))
    end.

(** The tail of [find]: [pMap[k] = params[i]] for the keys of the
    endpoint. *)
Fixpoint fill_pMap (keys : list string) (i : nat) (params : list string)
    (pMap : gmap string string) : outcome (gmap string string) :=
  match keys with
  | [] => Ok pMap
  | k :: keys' =>
      match nth_error params i with
      | None => Panic
      | Some v => fill_pMap keys' (S i) params (<[k := v]> pMap)
      end
  end.

(** [None] is the miss [(nil, map[string]string{})]. *)
Definition find_result (cur : node H) (params : list string)
  : outcome (option (endpoint H * gmap string string)) :=
  match endpt cur with
  | None => Ok None
  | Some e =>
      do pMap <- fill_pMap (pKeys e) 0 params ∅;
      Ok (Some (e, pMap))
  end.

(** The loop [for len(p) > 0] of [find]; every iteration that continues
    shortens [p]. *)
Fixpoint find_loop (fuel : nat) (params : list string) (cur : node H)
    (prevLabel : option ascii) (start : nat) (p : string)
  : outcome (option (endpoint H * gmap string string)) :=
  match p with
  | EmptyString => find_result cur params
  | String c p' =>
      match fuel with
      | 0 => OutOfFuel
      | S fuel' =>
          if Ascii.eqb c slash then find_loop fuel' params cur prevLabel start p'
          else
            let label := match prevLabel with Some l => l | None => c end in
            match lookup_child (children cur) label with
            | Some st =>
                if Nat.ltb (String.length (prefix st)) start then Panic
                else
                  let lcp := longestPrefix p (sfrom start (prefix st)) in
                  if Nat.eqb (String.length lcp) 0 then find_result cur params
                  else if Nat.eqb (String.length lcp + start) (String.length (prefix st))
                  then find_loop fuel' params st None 0 (sfrom (String.length lcp) p)
                  else find_loop fuel' params cur (Some label)
                         (start + String.length lcp) (sfrom (String.length lcp) p)
            | None =>
                match slot_get (special cur) param with
                | Some pn =>
                    match IndexByte p with
                    | None => find_loop fuel' (params ++ [p]) pn prevLabel start ""
                    | Some j =>
                        find_loop fuel' (params ++ [sto j p]) pn prevLabel start
                          (sfrom (j + 1) p)
                    end
                | None =>
                    match slot_get (special cur) catchAll with
                    | Some cn => find_loop fuel' (params ++ [p]) cn prevLabel start ""
                    | None => Ok None
                    end
                end
            end
      end
  end.

Definition find (t : tree H) (p : string)
  : outcome (option (endpoint H * gmap string string)) :=
  find_loop (String.length p) [] t None 0 p.

(** [recurseCapture]: the special slots in index order, then the
    children. *)
Fixpoint recurseCapture (m : string) (n : node H) (r : list string) : list string :=
  let visit (c : node H) (r : list string) : list string :=
    match endpt c with
    | Some e => r ++ [(m ++ " " ++ fullPath e)%string]
    | None => r
    end in
  let slot (o : option (node H)) (r : list string) : list string :=
    match o with
    | Some c => recurseCapture m c (visit c r)
    | None => r
    end in
  let fix over (cs : list (ascii * node H)) (r : list string) : list string :=
    match cs with
    | [] => r
    | (_, c) :: cs' => over cs' (recurseCapture m c (visit c r))
    end in
  match n with
  | Node _ _ cs sp _ =>
      over cs (slot (at_catchAll sp) (slot (at_param sp) (slot (at_static sp) r)))
  end.

Definition captureRoutes (t : tree H) (m : string) : list string :=
  recurseCapture m t [].

End Trie.

(** ** Handlers and middleware

    A handler [func(w, r)] acts on the world [W] (the response writer and
    whatever state its closure captured).  A [Middleware] is itself a Go
    function: calling it on the next handler runs its body, which may act on
    the world, and returns the wrapping handler. *)

Definition HandlerFunc (R W : Type) : Type := R -> W -> W.
Definition Middleware (R W : Type) : Type :=
  HandlerFunc R W -> W -> HandlerFunc R W * W.

Section Chain.
Context {R W : Type}.

(** The closure [func(w, r) { mw(next)(w, r) }] built by one iteration. *)
Definition wrap (mw : Middleware R W) (next : HandlerFunc R W) : HandlerFunc R W :=
  fun r w => let (h, w') := mw next w in h r w'.

(** [for i := len(mws) - 1; i >= 0; i--]; the counter is [i + 1]. *)
Fixpoint chainMws_loop (i : nat) (mws : list (Middleware R W)) (handler : HandlerFunc R W)
  : HandlerFunc R W :=
  match i with
  | 0 => handler
  | S j =>
      match nth_error mws j with
      | Some mw => chainMws_loop j mws (wrap mw handler)
      | None => handler
      end
  end.

Definition chainMws (mws : list (Middleware R W)) (f : HandlerFunc R W) : HandlerFunc R W :=
  chainMws_loop (List.length mws) mws f.

(** A middleware written as [func(next) HandlerFunc { return func(w, r) {...} }]:
    its body only builds the closure. *)
Definition closure_mw (m : HandlerFunc R W -> HandlerFunc R W) : Middleware R W :=
  fun next w => (m next, w).

End Chain.

(** ** The application and its routers *)

Inductive method : Set := mGET | mPOST | mPUT | mPATCH | mDELETE | mWEBSOCKET.

Definition method_eqb (a b : method) : bool :=
  match a, b with
  | mGET, mGET | mPOST, mPOST | mPUT, mPUT | mPATCH, mPATCH
  | mDELETE, mDELETE | mWEBSOCKET, mWEBSOCKET => true
  | _, _ => false
  end.

Definition methodLookup (m : string) : option method :=
  if String.eqb m "GET" then Some mGET
  else if String.eqb m "HEAD" then Some mGET
  else if String.eqb m "POST" then Some mPOST
  else if String.eqb m "PUT" then Some mPUT
  else if String.eqb m "PATCH" then Some mPATCH
  else if String.eqb m "DELETE" then Some mDELETE
  else if String.eqb m "WS" then Some mWEBSOCKET
  else None.

Definition reverseMethodLookup (m : method) : string :=
  match m with
  | mGET => "GET"
  | mPOST => "POST"
  | mPUT => "PUT"
  | mPATCH => "PATCH"
  | mDELETE => "DELETE"
  | mWEBSOCKET => "WS"
  end.

(** The part of [*http.Request] the router reads, and the parameter map it
    attaches to the request context under [paramKey]. *)
Record Request : Type := mkRequest {
  Method : string;
  Path : string;
  Connection : string;
  Upgrade : string;
  reqParams : option (gmap string string)
}.

Definition withMethod (r : Request) (m : string) : Request :=
  mkRequest m (Path r) (Connection r) (Upgrade r) (reqParams r).

Definition withParams (r : Request) (p : gmap string string) : Request :=
  mkRequest (Method r) (Path r) (Connection r) (Upgrade r) (Some p).

Definition GetParams (r : Request) : gmap string string :=
  match reqParams r with
  | Some p => p
  | None => ∅
  end.

Section Velocity.
Context {W : Type}.

Abbreviation handler := (HandlerFunc Request W).
Abbreviation mware := (Middleware Request W).

(** [strings.EqualFold] and the package-level default handlers [options],
    [notFound], [notAllowed], whose bodies write to the response. *)
Context (EqualFold : string -> string -> bool).
Context (options_default notFound_default notAllowed_default : handler).

Record Router : Type := mkRouter {
  rpath : string;
  rmws : list mware
}.

(** [trees] is a [map[method]tree] whose values are node structs, not
    pointers. *)
Record App : Type := mkApp {
  AllowTrace : bool;
  notAllowed : handler;
  notFound : handler;
  options : handler;
  trees : list (method * tree handler);
  rootRouter : option Router
}.

Fixpoint trees_get (ts : list (method * tree handler)) (m : method) : option (tree handler) :=
  match ts with
  | [] => None
  | (k, t) :: ts' => if method_eqb k m then Some t else trees_get ts' m
  end.

Fixpoint trees_set (ts : list (method * tree handler)) (m : method) (t : tree handler)
  : list (method * tree handler) :=
  match ts with
  | [] => [(m, t)]
  | (k, t0) :: ts' =>
      if method_eqb k m then (k, t) :: ts' else (k, t0) :: trees_set ts' m t
  end.

Definition New (allowTrace : bool) : App :=
  mkApp allowTrace notAllowed_default notFound_default options_default
    (map (fun m => (m, newTree)) [mGET; mPOST; mPUT; mPATCH; mDELETE; mWEBSOCKET])
    None.

(** [(a *App) Router(path, mws...)] *)
Definition App_Router (a : App) (path : string) (mws : list mware) : Router * App :=
  let r := mkRouter path mws in
  (r, mkApp (AllowTrace a) (notAllowed a) (notFound a) (options a) (trees a) (Some r)).

(** [(r *Router) Group(path, mws...)] *)
Definition Group (r : Router) (path : string) (mws : list mware) : Router :=
  mkRouter (cleanPath (rpath r ++ path)) mws.

(** [getTree] is [if n, ok := r.app.trees[m]; ok { return &n }]: the
    pointer it returns addresses [n], a copy of the struct stored in the
    map.  The copy's [children] field is the same Go map as the stored
    one's; its [special] array, [endpoint], [prefix] and [nType] are its
    own.  [copy] holds the fields of [n]; its children are read from the
    stored entry of [bucket] when the pointer is used. *)
Record treeRef : Type := mkTreeRef {
  bucket : method;
  copy : tree handler
}.

Definition getTree (a : App) (m : method) : option treeRef :=
  match trees_get (trees a) m with
  | Some n => Some (mkTreeRef m n)
  | None => None
  end.

Record route : Type := mkRoute {
  route_t : option treeRef;
  route_path : string;
  route_mws : list mware
}.

Definition newRoute (a : App) (r : Router) (m : method) (p : string) (ms : list mware) : route :=
  mkRoute (getTree a m) (cleanPath (rpath r ++ p)) (rmws r ++ ms).

Definition Get (a : App) (r : Router) (p : string) (ms : list mware) : route :=
  newRoute a r mGET p ms.
Definition Post (a : App) (r : Router) (p : string) (ms : list mware) : route :=
  newRoute a r mPOST p ms.
Definition Put (a : App) (r : Router) (p : string) (ms : list mware) : route :=
  newRoute a r mPUT p ms.
Definition Patch (a : App) (r : Router) (p : string) (ms : list mware) : route :=
  newRoute a r mPATCH p ms.
Definition Delete (a : App) (r : Router) (p : string) (ms : list mware) : route :=
  newRoute a r mDELETE p ms.
Definition Websocket (a : App) (r : Router) (p : string) (ms : list mware) : route :=
  newRoute a r mWEBSOCKET p ms.

(** The node seen through a [treeRef]: the copy's own fields around the
    shared children map. *)
Definition through (a : App) (ref : treeRef) : option (tree handler) :=
  match trees_get (trees a) (bucket ref) with
  | Some stored =>
      Some (Node (kind (copy ref)) (prefix (copy ref)) (children stored)
              (special (copy ref)) (endpt (copy ref)))
  | None => None
  end.

(** What an insertion through the pointer leaves in the application: the
    writes into the shared children map (and below it) reach the stored
    entry, the writes to the copy's own fields do not. *)
Definition write_back (a : App) (ref : treeRef) (n' : tree handler) : App :=
  match trees_get (trees a) (bucket ref) with
  | Some stored =>
      mkApp (AllowTrace a) (notAllowed a) (notFound a) (options a)
        (trees_set (trees a) (bucket ref)
           (Node (kind stored) (prefix stored) (children n') (special stored) (endpt stored)))
        (rootRouter a)
  | None => a
  end.

(** [(r route) Handle(h)]: the application after
    [r.t.insert(r.path, chainMws(r.mws, h))].  The route value and the
    copy it points at are dropped, as in [router.Get(p).Handle(h)]. *)
Definition Handle (rt : route) (h : handler) (a : App) : outcome App :=
  match route_t rt with
  | None => Panic
  | Some ref =>
      match through a ref with
      | None => Panic
      | Some n =>
          do n' <- insert n (route_path rt) (chainMws (route_mws rt) h);
          Ok (write_back a ref n')
      end
  end.

(** [Routes]: every bucket's [captureRoutes], sorted. *)
Definition Routes (a : App) : list string :=
  merge_sort String.le
    (concat (map (fun '(l, tr) => captureRoutes tr (reverseMethodLookup l)) (trees a))).

(** What [internalHandler] does with a request: echo it (TRACE), or call
    one handler on a request. *)
Inductive served : Type :=
| Trace
| Serve (h : handler) (r : Request).

Definition internalHandler (a : App) (r : Request) : outcome served :=
  if String.eqb (Method r) "TRACE" && AllowTrace a then Ok Trace
  else if String.eqb (Method r) "OPTIONS" then Ok (Serve (options a) r)
  else
    let r :=
      if negb (String.eqb (Connection r) "") && negb (String.eqb (Upgrade r) "")
         && EqualFold (Upgrade r) "websocket"
      then withMethod r "WS" else r in
    match methodLookup (Method r) with
    | None => Ok (Serve (notAllowed a) r)
    | Some m =>
        match trees_get (trees a) m with
        | None => Ok (Serve (notFound a) r)
        | Some tr =>
            do res <- find tr (Path r);
            match res with
            | None => Ok (Serve (notFound a) r)
            | Some (e, p) => Ok (Serve (fn e) (withParams r p))
            end
        end
    end.

(** [ServeHTTP]; [trace_echo] is the reply written for TRACE. *)
Definition ServeHTTP (trace_echo : Request -> W -> W) (a : App) (r : Request) (w : W)
  : outcome W :=
  do s <- internalHandler a r;
  match s with
  | Trace => Ok (trace_echo r w)
  | Serve h r' => Ok (h r' w)
  end.

End Velocity.

(** ** Scenarios used by the statements below *)

(** Registering a list of routes in order, on one tree. *)
Fixpoint register_all {H : Type} (routes : list (string * H)) (t : tree H) : outcome (tree H) :=
  match routes with
  | [] => Ok t
  | (p, f) :: routes' => do t' <- insert t p f; register_all routes' t'
  end.

(** The middlewares and handler of [TestMiddlewareOrder]: the world is the
    slice [order]. *)
Definition tracer (name : string) : Middleware Request (list string) :=
  closure_mw (fun next r w => next r (w ++ [("before_" ++ name)%string]) ++ [("after_" ++ name)%string]).

Definition trace_handler : HandlerFunc Request (list string) :=
  fun _ w => w ++ ["handler"].

(** A middleware whose body counts its own calls and wraps nothing; the
    world is the counter. *)
Definition counting_mw : Middleware Request nat :=
  fun next w => (next, S w).

Definition idle_handler : HandlerFunc Request nat := fun _ w => w.

Definition GET_request (p : string) : Request := mkRequest "GET" p "" "" None.

(** The three routes of the priority scenario. *)
Definition priority_routes {H : Type} (h1 h2 h3 : H) : list (string * H) :=
  [("/a/b", h1); ("/a/:x", h2); ("/a/*", h3)].

(** The patterns of [TestInvalidRoutes], [TestParamValidation] and
    [TestCatchAllValidation] that the validator is to reject. *)
Definition rejected_patterns : list string :=
  ["/users/:123id"; "/users/:user@id"; "/users/:"; "/users/:id/:name";
   "/users/*/posts"; "/files/*filename"; "/files/*/*"].

(** ** Definitions used to state the properties *)

(** The longest common prefix, by structure. *)
Fixpoint common_prefix (s1 s2 : string) : string :=
  match s1, s2 with
  | String a r1, String b r2 =>
      if Ascii.eqb a b then String a (common_prefix r1 r2) else EmptyString
  | _, _ => EmptyString
  end.

(** [unslash s] is [s] without its ['/'] bytes; [no_slash s] says there is
    none. *)
Fixpoint unslash (s : string) : string :=
  match s with
  | EmptyString => EmptyString
  | String c s' => if Ascii.eqb c slash then unslash s' else String c (unslash s')
  end.

Definition no_slash (s : string) : bool :=
  all_chars (fun c => negb (Ascii.eqb c slash)) s.

(** A raw segment: not empty and without ['/']. *)
Definition seg_ok (s : string) : bool := negb (String.eqb s "") && no_slash s.

(** The literal run emitted by [splitPath] when a dynamic segment or the
    end is reached. *)
Definition flush (cur : string) : list string :=
  if String.eqb cur "" then [] else [cur].

(** ** Patterns and the requests that instantiate them

    A pattern in structured form: maximal runs of literal segments
    alternating with single dynamic segments. *)

Inductive piece : Type :=
| Lit (segs : list string)
| Par (name : string)
| Star.

Definition is_lit (x : piece) : bool :=
  match x with Lit _ => true | _ => false end.

(** A literal segment: not empty, no ['/'], not starting with [':'] or
    ['*']. *)
Definition lit_seg (s : string) : bool :=
  match s with
  | EmptyString => false
  | String c _ =>
      negb (Ascii.eqb c ":"%char) && negb (Ascii.eqb c "*"%char) && no_slash s
  end.

(** Concatenation without separator. *)
Definition cat (l : list string) : string := fold_right String.append "" l.

Definition raw_of (x : piece) : list string :=
  match x with
  | Lit segs => segs
  | Par name => [String ":"%char name]
  | Star => ["*"]
  end.

Definition token_of (x : piece) : string :=
  match x with
  | Lit segs => cat segs
  | Par name => String ":"%char name
  | Star => "*"
  end.

Definition name_of (x : piece) : list string :=
  match x with
  | Lit _ => []
  | Par name => [name]
  | Star => ["*"]
  end.

Definition pattern_segs (ps : list piece) : list string := concat (map raw_of ps).
Definition tokens (ps : list piece) : list string := map token_of ps.
Definition names (ps : list piece) : list string := concat (map name_of ps).

(** The pattern string: ["/"] and the segments joined by ["/"]. *)
Definition render (ps : list piece) : string := String slash (Join (pattern_segs ps)).

Definition piece_ok (x : piece) : bool :=
  match x with
  | Lit segs => negb (Nat.eqb (List.length segs) 0) && forallb lit_seg segs
  | Par name => paramRegex_MatchString name
  | Star => true
  end.

(** Literal runs are maximal and no two dynamic segments are adjacent. *)
Fixpoint alternates (ps : list piece) : bool :=
  match ps with
  | x :: ((y :: _) as ps') => negb (Bool.eqb (is_lit x) (is_lit y)) && alternates ps'
  | _ => true
  end.

Fixpoint star_last (ps : list piece) : bool :=
  match ps with
  | [] => true
  | [_] => true
  | Star :: _ => false
  | _ :: ps' => star_last ps'
  end.

Definition well_formed (ps : list piece) : bool :=
  negb (Nat.eqb (List.length ps) 0) && forallb piece_ok ps && alternates ps
  && star_last ps && bool_decide (NoDup (names ps)).

(** A value for a parameter is a non-empty run without ['/']; the value
    for the catch-all is a non-empty remainder not starting with ['/']. *)
Definition value_ok (x : piece) (v : string) : bool :=
  match x with
  | Lit _ => false
  | Par _ => negb (String.eqb v "") && no_slash v
  | Star => match v with
            | EmptyString => false
            | String c _ => negb (Ascii.eqb c slash)
            end
  end.

Fixpoint values_ok (ps : list piece) (vals : list string) : bool :=
  match ps, vals with
  | [], [] => true
  | Lit _ :: ps', _ => values_ok ps' vals
  | x :: ps', v :: vals' => value_ok x v && values_ok ps' vals'
  | _, _ => false
  end.

(** The segments of the request that fills the dynamic segments with
    [vals]. *)
Fixpoint request_segs (ps : list piece) (vals : list string) : list string :=
  match ps with
  | [] => []
  | Lit segs :: ps' => segs ++ request_segs ps' vals
  | _ :: ps' =>
      match vals with
      | v :: vals' => v :: request_segs ps' vals'
      | [] => []
      end
  end.

Definition request (ps : list piece) (vals : list string) : string :=
  String slash (Join (request_segs ps vals)).

(** The tree left by registering one all-literal pattern whose token is
    [tok]. *)
Definition one_edge {H : Type} (tok : string) (e : endpoint H) : tree H :=
  match tok with
  | EmptyString => newTree
  | String c0 _ => Node static "" [(c0, Node static tok [] no_slots (Some e))] no_slots None
  end.

(** ** The tree of one pattern

    What [insert] builds from a node without children: one edge per token
    and the endpoint on the last node. *)

Fixpoint graft {H : Type} (n : node H) (ps : list piece) (e : endpoint H) : node H :=
  match ps with
  | [] => setEndpoint n (Some e)
  | Lit segs :: ps' =>
      match cat segs with
      | String c0 _ => addChild n c0 (graft (newNode static (cat segs)) ps' e)
      | EmptyString => n
      end
  | Par _ :: ps' => addSpecial n param (graft (newNode param "") ps' e)
  | Star :: ps' => addSpecial n catchAll (graft (newNode catchAll "") ps' e)
  end.

(** The result of [find] at a node that carries [e]. *)
Definition hit {H : Type} (e : endpoint H) (params : list string)
  : outcome (option (endpoint H * gmap string string)) :=
  do pMap <- fill_pMap (pKeys e) 0 params ∅;
  Ok (Some (e, pMap)).

(** The endpoints stored in a tree. *)
Fixpoint endpoints {H : Type} (n : node H) : list (endpoint H) :=
  let fix over (cs : list (ascii * node H)) : list (endpoint H) :=
    match cs with
    | [] => []
    | (_, c) :: cs' => endpoints c ++ over cs'
    end in
  let opt (o : option (node H)) : list (endpoint H) :=
    match o with Some c => endpoints c | None => [] end in
  match n with
  | Node _ _ cs sp ep =>
      match ep with Some e => [e] | None => [] end
      ++ over cs ++ opt (at_static sp) ++ opt (at_param sp) ++ opt (at_catchAll sp)
  end.

(** The endpoints below a special slot. *)
Definition slot_endpoints {H : Type} (o : option (node H)) : list (endpoint H) :=
  match o with Some c => endpoints c | None => [] end.

(** The parameter names [insert] collects from the tokens of a pattern. *)
Fixpoint param_keys (segs : list string) : list string :=
  match segs with
  | [] => []
  | seg :: segs' =>
      match getSegmentType seg with
      | Ok param => sfrom 1 seg :: param_keys segs'
      | Ok catchAll => "*"%string :: param_keys segs'
      | _ => param_keys segs'
      end
  end.

(** The endpoint record that registering [(p, f)] creates. *)
Definition registered {H : Type} (e : endpoint H) (p : string) (f : H) : Prop :=
  exists segs, splitPath (cleanPath p) = Ok segs /\
               e = Endpoint f (cleanPath p) (param_keys segs).

(** The tree of a method bucket, as [internalHandler] reads it. *)
Definition bucket_tree {W : Type} (a : App (W := W)) (m : method)
  : outcome (tree (HandlerFunc Request W)) :=
  match trees_get (trees a) m with
  | Some tr => Ok tr
  | None => Panic
  end.

(** The group chain [("/api") -> ("/v1") -> ("/admin")] under a root router
    on ["/"], with [GET /settings] bound on the innermost group. *)
Definition settings_app {W : Type} (o nf na h : HandlerFunc Request W)
    (P C1 C2 C3 Rm : list (Middleware Request W)) : outcome App :=
  let '(r, a1) := App_Router (New o nf na false) "/" P in
  let admin := Group (Group (Group r "/api" C1) "/v1" C2) "/admin" C3 in
  Handle (Get a1 admin "/settings" Rm) h a1.

(** ** The shape of the trees built by registrations

    [sdepth cur] counts the special edges of a pointer.  [node_ok d n]
    describes a node [n] that lies below [d] special edges, and everything
    under it: a literal child has kind [static] and is stored under the
    first byte of its prefix (which is therefore not empty), the keys of a
    children map are distinct, the slot of kind [static] is never used, the
    node in the slot of kind [ty] has kind [ty] and the empty prefix, and an
    endpoint carries as many parameter names as there are special edges
    above its node. *)

Definition edepth (e : edge) : nat :=
  match e with EChild _ => 0 | ESpecial _ => 1 end.

Fixpoint sdepth (cur : cursor) : nat :=
  match cur with
  | [] => 0
  | e :: cur' => edepth e + sdepth cur'
  end.

Fixpoint node_ok {H : Type} (d : nat) (n : node H) {struct n} : Prop :=
  let fix over (cs : list (ascii * node H)) : Prop :=
    match cs with
    | [] => True
    | (k, c) :: cs' =>
        (sidx (prefix c) 0 = Some k /\ kind c = static /\ node_ok d c) /\ over cs'
    end in
  let opt (ty : nType) (o : option (node H)) : Prop :=
    match o with
    | Some c => prefix c = ""%string /\ kind c = ty /\ node_ok (S d) c
    | None => True
    end in
  match n with
  | Node _ _ cs sp ep =>
      match ep with Some e => List.length (pKeys e) = d | None => True end
      /\ over cs /\ List.NoDup (map fst cs) /\ at_static sp = None
      /\ opt param (at_param sp) /\ opt catchAll (at_catchAll sp)
  end.

Definition child_ok {H : Type} (d : nat) (kc : ascii * node H) : Prop :=
  sidx (prefix (snd kc)) 0 = Some (fst kc) /\ kind (snd kc) = static /\ node_ok d (snd kc).

Definition slot_ok {H : Type} (ty : nType) (d : nat) (o : option (node H)) : Prop :=
  match o with
  | Some c => prefix c = ""%string /\ kind c = ty /\ node_ok (S d) c
  | None => True
  end.

(** A root: the node made by [newTree], with whatever was inserted under
    it.  No registration leaves an endpoint on the root itself. *)
Definition tree_ok {H : Type} (t : tree H) : Prop :=
  node_ok 0 t /\ kind t = static /\ prefix t = ""%string /\ endpt t = None.

(** The states of the loop of [find]: at the start of an edge, or [start]
    bytes into the prefix of the child stored under [prevLabel]. *)
Definition find_state_ok {H : Type} (cur : node H) (prevLabel : option ascii) (start : nat)
  : Prop :=
  match prevLabel with
  | None => start = 0
  | Some l =>
      exists st, lookup_child (children cur) l = Some st /\ start < String.length (prefix st)
  end.

(** ** The path that the tokens of a pattern spell in a tree

    [spells n ext s]: the pointer [ext] leads from [n] down literal edges
    whose prefixes, concatenated, are [s], each edge being stored under
    the first byte of what is left of [s].  [follows n segs ext]: [ext] is
    made of one such path per literal token of [segs] and one special edge
    per dynamic token. *)

Fixpoint spells {H : Type} (n : node H) (ext : cursor) (s : string) : Prop :=
  match ext with
  | [] => s = ""%string
  | EChild c0 :: ext' =>
      exists next s',
        lookup_child (children n) c0 = Some next /\ sidx s 0 = Some c0 /\
        s = (prefix next ++ s')%string /\ spells next ext' s'
  | ESpecial _ :: _ => False
  end.

Fixpoint follows {H : Type} (n : node H) (segs : list string) (ext : cursor) : Prop :=
  match segs with
  | [] => ext = []
  | seg :: segs' =>
      exists ext1 ext2 mid,
        ext = ext1 ++ ext2 /\ deref n ext1 = Some mid /\ follows mid segs' ext2 /\
        match getSegmentType seg with
        | Ok static => spells n ext1 seg
        | Ok ty => ext1 = [ESpecial ty]
        | _ => False
        end
  end.

(** ** The listing of routes

    [route_entry m e] is the line [recurseCapture] writes for an endpoint;
    [capture_node] is what one step of its loops does with a child: the
    child's own line, then the lines of what is below the child. *)

Definition route_entry {H : Type} (m : string) (e : endpoint H) : string :=
  (m ++ " " ++ fullPath e)%string.

Definition capture_node {H : Type} (m : string) (c : node H) (r : list string) : list string :=
  recurseCapture m c
    (match endpt c with Some e => r ++ [route_entry m e] | None => r end).

Definition capture_slot {H : Type} (m : string) (o : option (node H)) (r : list string)
  : list string :=
  match o with Some c => capture_node m c r | None => r end.

(** ** [Listen] and the setters of the fallback handlers

    [Listen] first wraps the three fallback handlers in the middlewares of
    [a.rootRouter] and then starts the server; the embedding stops where the
    server starts.  [a.rootRouter] is a pointer that [New] leaves nil. *)

Definition Listen {W : Type} (a : App (W := W)) : outcome (App (W := W)) :=
  match rootRouter a with
  | None => Panic
  | Some r =>
      Ok (mkApp (AllowTrace a)
            (chainMws (rmws r) (notAllowed a))
            (chainMws (rmws r) (notFound a))
            (chainMws (rmws r) (options a))
            (trees a) (rootRouter a))
  end.

Definition NotAllowed {W : Type} (a : App (W := W)) (h : HandlerFunc Request W) : App :=
  mkApp (AllowTrace a) h (notFound a) (options a) (trees a) (rootRouter a).

Definition NotFound {W : Type} (a : App (W := W)) (h : HandlerFunc Request W) : App :=
  mkApp (AllowTrace a) (notAllowed a) h (options a) (trees a) (rootRouter a).

(** ** Package middleware

    The part of [*http.Request] the middlewares read: [hHeader r k] is
    [r.Header.Get(k)] (the empty string when the header is absent), [hTLS]
    is [r.TLS != nil], [hCtx] holds the values stored in the request
    context under the package's keys, most recent first.  The keys
    [clientIPKey] and [reqIDKey] are two values of one struct type that
    differ in their [name] field, which stands for them here.  The response
    writer is seen through the calls made on it, oldest first; [World] adds
    the lines written to the logger. *)

Record HttpRequest : Type := mkHttpRequest {
  hMethod : string;
  hURLPath : string;
  hHeader : string -> string;
  hRemoteAddr : string;
  hHost : string;
  hTLS : bool;
  hCtx : list (string * string)
}.

Inductive wcall : Type :=
| HeaderSet (k v : string)
| WriteHeader (code : nat)
| WriteBody (b : string).

Record World : Type := mkWorld {
  out : list wcall;
  logged : list string
}.

Definition call (c : wcall) (w : World) : World := mkWorld (out w ++ [c]) (logged w).

Definition clientIPKey : string := "clientIP".
Definition reqIDKey : string := "reqID".

(** [r.WithContext(context.WithValue(r.Context(), k, v))] *)
Definition WithValue (r : HttpRequest) (k v : string) : HttpRequest :=
  mkHttpRequest (hMethod r) (hURLPath r) (hHeader r) (hRemoteAddr r) (hHost r) (hTLS r)
    ((k, v) :: hCtx r).

(** [r.Context().Value(k).(string)] with its [ok]. *)
Fixpoint ctx_lookup (ctx : list (string * string)) (k : string) : option string :=
  match ctx with
  | [] => None
  | (k', v) :: ctx' => if String.eqb k' k then Some v else ctx_lookup ctx' k
  end.

(** [strings.Split(s, sep)] for a one-byte separator, and
    [strings.Join(l, sep)]. *)
Fixpoint SplitBy (sep : ascii) (s : string) : list string :=
  match s with
  | EmptyString => [EmptyString]
  | String c s' =>
      if Ascii.eqb c sep then EmptyString :: SplitBy sep s'
      else match SplitBy sep s' with
           | hd :: tl => String c hd :: tl
           | [] => [String c EmptyString]
           end
  end.

Fixpoint JoinWith (sep : string) (l : list string) : string :=
  match l with
  | [] => EmptyString
  | [s] => s
  | s :: l' => s ++ sep ++ JoinWith sep l'
  end.

(** *** ClientIP *)

Record ClientIPConfig : Type := mkClientIPConfig {
  cip_Header : option string;
  cip_TrustProxy : option bool
}.

(** The configuration in force: the defaults, overridden by the non-nil
    fields of [cfg[0]]. *)
Definition ClientIP_config (cfg : list ClientIPConfig) : string * bool :=
  match cfg with
  | c :: _ =>
      (match cip_Header c with Some h => h | None => "X-Real-IP"%string end,
       match cip_TrustProxy c with Some b => b | None => true end)
  | [] => ("X-Real-IP"%string, true)
  end.

Section ClientIP.
(** [net.SplitHostPort], [None] for an error. *)
Context (SplitHostPort : string -> option (string * string)).

(** The value of the local [clientIP] when the handler sets the header. *)
Definition clientIP_of (header : string) (trust : bool) (r : HttpRequest) : string :=
  let clientIP := ""%string in
  let clientIP :=
    if trust then
      let clientIP :=
        let xff := hHeader r "X-Forwarded-For" in
        if negb (String.eqb xff "") then nth 0 (SplitBy ","%char xff) ""%string
        else clientIP in
      if String.eqb clientIP "" && negb (String.eqb header "") then hHeader r header
      else clientIP
    else clientIP in
  if String.eqb clientIP "" then
    match SplitHostPort (hRemoteAddr r) with
    | None => hRemoteAddr r
    | Some (ip, _) => ip
    end
  else clientIP.

Definition ClientIP (cfg : list ClientIPConfig) (next : HandlerFunc HttpRequest World)
  : HandlerFunc HttpRequest World :=
  fun r w =>
    let clientIP := clientIP_of (fst (ClientIP_config cfg)) (snd (ClientIP_config cfg)) r in
    let w := call (HeaderSet "X-Client-IP" clientIP) w in
    next (WithValue r clientIPKey clientIP) w.

End ClientIP.

Definition GetClientIP (r : HttpRequest) : string :=
  match ctx_lookup (hCtx r) clientIPKey with
  | Some id => id
  | None => ""%string
  end.

(** *** RequestID *)

Record RequestIDConfig : Type := mkRequestIDConfig {
  rid_Header : option string;
  rid_Generator : option (unit -> string)
}.

Section RequestID.
(** [defaultRequestIDConfig.Generator] is the method value
    [uuid.New().String]: the receiver [uuid.New()] is evaluated once, when
    the package variable is initialised, and every call of the generator
    renders that one UUID. *)
Context (init_uuid : string).

(** Only the [Header] field of [cfg[0]] is read. *)
Definition RequestID_config (cfg : list RequestIDConfig) : string * (unit -> string) :=
  (match cfg with
   | c :: _ => match rid_Header c with Some h => h | None => "X-Request-ID"%string end
   | [] => "X-Request-ID"%string
   end,
   fun _ => init_uuid).

Definition RequestID (cfg : list RequestIDConfig) (next : HandlerFunc HttpRequest World)
  : HandlerFunc HttpRequest World :=
  fun r w =>
    let header := fst (RequestID_config cfg) in
    let requestID := hHeader r header in
    let requestID :=
      if String.eqb requestID "" then snd (RequestID_config cfg) tt else requestID in
    let w := call (HeaderSet header requestID) w in
    next (WithValue r reqIDKey requestID) w.

End RequestID.

Definition GetRequestID (r : HttpRequest) : string :=
  match ctx_lookup (hCtx r) reqIDKey with
  | Some id => id
  | None => ""%string
  end.

(** *** CORS *)

Record CorsConfig : Type := mkCorsConfig {
  AllowedMethods : option (list string);
  AllowedHeaders : option (list string);
  ExposedHeaders : option (list string);
  AllowedOrigins : option (list string)
}.

Definition defaultConfig : CorsConfig :=
  mkCorsConfig
    (Some ["GET"; "POST"; "PUT"; "DELETE"; "OPTIONS"; "PATCH"; "HEAD"]%string)
    (Some ["Accept"; "Content-Type"; "Content-Length"; "Accept-Encoding"; "Authorization"]%string)
    (Some [])
    (Some ["*"%string]).

(** The configuration in force: each field is the default unless
    [cfg[0]] gives a non-nil slice pointer for it. *)
Definition cors_field (f : CorsConfig -> option (list string)) (cfg : list CorsConfig)
  : list string :=
  match cfg with
  | c :: _ =>
      match f c with
      | Some l => l
      | None => match f defaultConfig with Some l => l | None => [] end
      end
  | [] => match f defaultConfig with Some l => l | None => [] end
  end.

Definition GetOrigin (r : HttpRequest) : string :=
  if negb (String.eqb (hHeader r "Origin") "") then hHeader r "Origin"
  else if negb (String.eqb (hHeader r "Referer") "") then hHeader r "Referer"
  else
    let scheme := if hTLS r then "https"%string else "http"%string in
    (scheme ++ "://" ++ hHost r)%string.

Fixpoint contains (slice : list string) (item : string) : bool :=
  match slice with
  | [] => false
  | s :: slice' => if String.eqb s item then true else contains slice' item
  end.

(** Element 0 of the allowed origins is read on every request: on an
    empty slice the index is out of range. *)
Definition CORS (cfg : list CorsConfig) (next : HandlerFunc HttpRequest World)
    (r : HttpRequest) (w : World) : outcome World :=
  let origin := hHeader r "Origin" in
  let origin := if String.eqb origin "" then GetOrigin r else origin in
  match cors_field AllowedOrigins cfg with
  | [] => Panic
  | o0 :: _ =>
      let w :=
        if String.eqb o0 "*" then call (HeaderSet "Access-Control-Allow-Origin" "*") w
        else if contains (cors_field AllowedOrigins cfg) origin
             then call (HeaderSet "Access-Control-Allow-Origin" origin) w
             else w in
      if String.eqb (hMethod r) "OPTIONS" then
        let w := call (HeaderSet "Access-Control-Allow-Methods"
                         (JoinWith ", " (cors_field AllowedMethods cfg))) w in
        let w := call (HeaderSet "Access-Control-Allow-Headers"
                         (JoinWith ", " (cors_field AllowedHeaders cfg))) w in
        let w :=
          if Nat.ltb 0 (List.length (cors_field ExposedHeaders cfg))
          then call (HeaderSet "Access-Control-Expose-Headers"
                       (JoinWith ", " (cors_field ExposedHeaders cfg))) w
          else w in
        Ok (call (WriteHeader 204) w)
      else Ok (next r w)
  end.

(** *** ErrRecover *)

Section ErrRecover.
(** The values a handler can panic with; [nil_call] is the run-time error
    raised by calling a nil function, [fmt_v] the rendering [%v]. *)
Context {V : Type} (nil_call : V) (fmt_v : V -> string).

(** A handler that may panic: the world it leaves, and the value it
    panicked with. *)
Definition PanicHandler : Type := HttpRequest -> World -> World * option V.

Record ErrRecoverConfig : Type := mkErrRecoverConfig {
  Cb : option (V -> World -> World)
}.

Definition defaultCb (v : V) (w : World) : World :=
  mkWorld (out w) (logged w ++ [("Recovered from panic: " ++ fmt_v v ++ String "010"%char "")%string]).

Definition ErrRecover (cfg : list ErrRecoverConfig) (next : PanicHandler) : PanicHandler :=
  let cb := match cfg with
            | c :: _ => Cb c
            | [] => Some defaultCb
            end in
  fun r w =>
    match next r w with
    | (w', None) => (w', None)
    | (w', Some v) =>
        match cb with
        | None => (w', Some nil_call)
        | Some f => (call (WriteHeader 500) (f v w'), None)
        end
    end.

End ErrRecover.

(** *** The response writer of Logger *)

Record responseWriter : Type := mkResponseWriter {
  ResponseWriter : World;
  status : nat
}.

Definition rw_WriteHeader (code : nat) (rw : responseWriter) : responseWriter :=
  mkResponseWriter (call (WriteHeader code) (ResponseWriter rw)) code.

Definition rw_Write (b : string) (rw : responseWriter) : responseWriter :=
  mkResponseWriter (call (WriteBody b) (ResponseWriter rw))
    (if Nat.eqb (status rw) 0 then 200 else status rw).

(** [Header()] is promoted from the embedded writer. *)
Definition rw_HeaderSet (k v : string) (rw : responseWriter) : responseWriter :=
  mkResponseWriter (call (HeaderSet k v) (ResponseWriter rw)) (status rw).

(** A handler that makes the calls [cs] on the writer it is given. *)
Definition rw_call (rw : responseWriter) (c : wcall) : responseWriter :=
  match c with
  | HeaderSet k v => rw_HeaderSet k v rw
  | WriteHeader code => rw_WriteHeader code rw
  | WriteBody b => rw_Write b rw
  end.

Definition rw_calls (cs : list wcall) (rw : responseWriter) : responseWriter :=
  fold_left rw_call cs rw.

(** The status that the calls [cs] leave in a fresh wrapper, spelled out:
    the code of the last [WriteHeader], else 200 if the body was written,
    else 0. *)
Fixpoint last_code (cs : list wcall) : option nat :=
  match cs with
  | [] => None
  | c :: cs' =>
      match last_code cs' with
      | Some code => Some code
      | None => match c with WriteHeader code => Some code | _ => None end
      end
  end.

Definition wrote_body (cs : list wcall) : bool :=
  existsb (fun c => match c with WriteBody _ => true | _ => false end) cs.

Definition is_zero_header (c : wcall) : bool :=
  match c with WriteHeader 0 => true | _ => false end.

(** ** Reading a pattern back from its segments

    The raw segments of a cleaned pattern, grouped the way [splitPath]
    groups them: maximal runs of literal segments, and dynamic segments one
    by one. *)

Inductive chunk : Type :=
| Run (segs : list string)
| Dyn (seg : string).

Fixpoint chunks (segs : list string) : list chunk :=
  match segs with
  | [] => []
  | seg :: rest =>
      match getSegmentType seg with
      | Ok static =>
          match chunks rest with
          | Run run :: cs => Run (seg :: run) :: cs
          | cs => Run [seg] :: cs
          end
      | _ => Dyn seg :: chunks rest
      end
  end.

Definition chunk_token (c : chunk) : string :=
  match c with
  | Run segs => cat segs
  | Dyn seg => seg
  end.

Definition chunk_segs (c : chunk) : list string :=
  match c with
  | Run segs => segs
  | Dyn seg => [seg]
  end.

(** The tokens [splitPath] emits for the chunks [cs] when it enters them
    with the literal run [cur] pending. *)
Definition glue (cur : string) (cs : list chunk) : list string :=
  match cs with
  | Run run :: cs' => (cur ++ cat run)%string :: map chunk_token cs'
  | _ => flush cur ++ map chunk_token cs
  end.

(** The piece a chunk stands for. *)
Definition to_piece (c : chunk) : piece :=
  match c with
  | Run segs => Lit segs
  | Dyn seg =>
      match getSegmentType seg with
      | Ok catchAll => Star
      | _ => Par (sfrom 1 seg)
      end
  end.

Definition chunk_ok (c : chunk) : Prop :=
  match c with
  | Run segs => segs <> [] /\ forallb lit_seg segs = true
  | Dyn seg => seg_ok seg = true /\
               (getSegmentType seg = Ok param \/ getSegmentType seg = Ok catchAll)
  end.

Fixpoint no_adjacent_runs (cs : list chunk) : Prop :=
  match cs with
  | Run _ :: ((Run _ :: _) as cs') => False
  | _ :: cs' => no_adjacent_runs cs'
  | [] => True
  end.

(** ** The table of routes a tree stands for

    A route is stored under a key: the bytes of its literal tokens and one
    symbol per dynamic token (the name of a parameter is not part of the
    key).  [stored n w] is the endpoint found by walking [w] down from
    [n]: a byte selects the child stored under it, whose whole prefix must
    come next in [w]; a slot symbol selects the node in that slot; at the
    end of [w] the endpoint of the node reached, if it has one.
    [cursor_key t cur] is the key that the pointer [cur] spells in [t]. *)

Inductive sym : Type :=
| SByte (a : ascii)
| SSlot (ty : nType).

Fixpoint bytes (s : string) : list sym :=
  match s with
  | EmptyString => []
  | String a s' => SByte a :: bytes s'
  end.

Definition sym_eqb (x y : sym) : bool :=
  match x, y with
  | SByte a, SByte b => Ascii.eqb a b
  | SSlot s, SSlot t => nType_eqb s t
  | _, _ => false
  end.

(** [strip u w]: [w] without its leading [u], if it starts with [u]. *)
Fixpoint strip (u w : list sym) : option (list sym) :=
  match u with
  | [] => Some w
  | x :: u' =>
      match w with
      | y :: w' => if sym_eqb x y then strip u' w' else None
      | [] => None
      end
  end.

Definition token_key (seg : string) : list sym :=
  match getSegmentType seg with
  | Ok static => bytes seg
  | Ok ty => [SSlot ty]
  | _ => []
  end.

Definition route_key (segs : list string) : list sym := flat_map token_key segs.

Fixpoint stored {H : Type} (n : node H) (w : list sym) {struct n} : option (endpoint H) :=
  match n with
  | Node _ _ cs sp ep =>
      match w with
      | [] => ep
      | SByte a :: _ =>
          (fix look (cs : list (ascii * node H)) : option (endpoint H) :=
             match cs with
             | [] => None
             | (k, c) :: cs' =>
                 if Ascii.eqb k a then
                   match strip (bytes (prefix c)) w with
                   | Some w' => stored c w'
                   | None => None
                   end
                 else look cs'
             end) cs
      | SSlot ty :: w' =>
          match slot_get sp ty with
          | Some c => stored c w'
          | None => None
          end
      end
  end.

Definition edge_key {H : Type} (c : node H) (ed : edge) : list sym :=
  match ed with
  | EChild _ => bytes (prefix c)
  | ESpecial ty => [SSlot ty]
  end.

Fixpoint cursor_key {H : Type} (n : node H) (cur : cursor) : list sym :=
  match cur with
  | [] => []
  | ed :: cur' =>
      match follow n ed with
      | Some c => edge_key c ed ++ cursor_key c cur'
      | None => []
      end
  end.

(** ** The values [find] captures

    [slots_of w] lists the slot symbols of a key in order; [key_type k] is
    the kind of token that gives the parameter name [k] (["*"] is the name
    [insert] gives to the catch-all, and no parameter can be named so).
    [value_fits q ty v]: [v] is a value that a token of kind [ty] may
    capture from the request [q]. *)

Definition slots_of (w : list sym) : list nType :=
  flat_map (fun x => match x with SSlot ty => [ty] | SByte _ => [] end) w.

Definition key_type (k : string) : nType :=
  if String.eqb k "*" then catchAll else param.

Definition value_fits (q : string) (ty : nType) (v : string) : Prop :=
  (exists c r, v = String c r /\ c <> slash) /\
  match ty with
  | catchAll => exists a : string, q = (a ++ v)%string
  | _ => no_slash v = true /\ exists a b : string, q = (a ++ v ++ b)%string
  end.

(** In the table of a tree built by registrations, the parameter names of
    an endpoint are of the kinds of the slots of its key, in order, and the
    key is the key of the pattern the endpoint was registered with. *)
Definition table_ok {H : Type} (t : tree H) : Prop :=
  forall w e, stored t w = Some e ->
    map key_type (pKeys e) = slots_of w /\
    exists segs, splitPath (fullPath e) = Ok segs /\ route_key segs = w.

(** ** A session of registrations through routers

    A registration is one call [r.<Method>(p, ms...).Handle(h)];
    [register_regs] makes them in order on an application.
    [first_static p] says that the first token of the cleaned path is
    literal: only such routes are written through the children map that the
    copy made by [getTree] shares with the stored root.  [tree_routes m
    regs] are the insertions that reach the tree of the method [m]. *)

Definition registration (W : Type) : Type :=
  (method * Router (W := W) * string * list (Middleware Request W) * HandlerFunc Request W)%type.

Definition first_static (p : string) : bool :=
  match splitPath (cleanPath p) with
  | Ok (seg :: _) =>
      match getSegmentType seg with
      | Ok static => true
      | _ => false
      end
  | _ => false
  end.

Fixpoint register_regs {W : Type} (regs : list (registration W)) (a : App (W := W))
  : outcome (App (W := W)) :=
  match regs with
  | [] => Ok a
  | (m, r, p, ms, h) :: regs' =>
      do a' <- Handle (newRoute a r m p ms) h a;
      register_regs regs' a'
  end.

Definition tree_route {W : Type} (m : method) (g : registration W)
  : list (string * HandlerFunc Request W) :=
  let '(m', r, p, ms, h) := g in
  if method_eqb m' m && first_static (rpath r ++ p)
  then [(cleanPath (rpath r ++ p), chainMws (rmws r ++ ms) h)]
  else [].

Definition tree_routes {W : Type} (m : method) (regs : list (registration W))
  : list (string * HandlerFunc Request W) :=
  flat_map (tree_route m) regs.

(** ** Trees without dead branches

    [full n]: some endpoint is stored at [n] or below.  [live n]: every
    child and slot node below [n] is full.  [ctx_live t cur]: whatever full
    and live node is put under the pointer [cur], the tree is live. *)

Definition full {H : Type} (n : node H) : Prop := endpoints n <> [].

Fixpoint live {H : Type} (n : node H) {struct n} : Prop :=
  let fix over (cs : list (ascii * node H)) : Prop :=
    match cs with
    | [] => True
    | (_, c) :: cs' => (full c /\ live c) /\ over cs'
    end in
  let opt (o : option (node H)) : Prop :=
    match o with
    | Some c => full c /\ live c
    | None => True
    end in
  match n with
  | Node _ _ cs sp _ =>
      over cs /\ opt (at_static sp) /\ opt (at_param sp) /\ opt (at_catchAll sp)
  end.

Definition child_live {H : Type} (kc : ascii * node H) : Prop :=
  full (snd kc) /\ live (snd kc).

Definition slot_live {H : Type} (o : option (node H)) : Prop :=
  match o with
  | Some c => full c /\ live c
  | None => True
  end.

Definition ctx_live {H : Type} (t : tree H) (cur : cursor) : Prop :=
  forall v, live v -> full v -> live (assign t cur v).

(** ** Middlewares that count their calls

    [calling_mw c] counts its own calls, as [counting_mw] does, and returns
    a wrapper that calls the next handler [c] times: not at all for a
    middleware that answers the request itself, once for one that passes
    the request on.  [calls [c1; ...; cn]] is [1 + c1 * (1 + c2 * (...))]. *)

Definition calling_mw (c : nat) : Middleware Request nat :=
  fun next w => (fun r w' => Nat.iter c (next r) w', S w).

Fixpoint calls (cs : list nat) : nat :=
  match cs with
  | [] => 0
  | c :: cs' => 1 + c * calls cs'
  end.

(** ** Requests that no other route takes

    [unshadowed t K ps vals]: on the way of the request [request ps vals]
    down the pattern [ps], from the key [K] on, no route of the table of
    [t] stands before the pattern.  At a dynamic segment whose value
    starts with the byte [c], no key goes on with [c]; at the catch-all,
    no key goes on with a parameter either. *)

Fixpoint unshadowed {H : Type} (t : tree H) (K : list sym) (ps : list piece)
    (vals : list string) : Prop :=
  match ps with
  | [] => True
  | Lit segs :: ps' => unshadowed t (K ++ bytes (cat segs)) ps' vals
  | Par _ :: ps' =>
      match vals with
      | v :: vals' =>
          (forall c r w, v = String c r -> stored t (K ++ SByte c :: w) = None) /\
          unshadowed t (K ++ [SSlot param]) ps' vals'
      | [] => True
      end
  | Star :: ps' =>
      match vals with
      | v :: vals' =>
          (forall c r w, v = String c r -> stored t (K ++ SByte c :: w) = None) /\
          (forall w, stored t (K ++ SSlot param :: w) = None) /\
          unshadowed t (K ++ [SSlot catchAll]) ps' vals'
      | [] => True
      end
  end.

(** ** Checks of the embedding on concrete inputs *)

Example splitPath_ex1 : splitPath "/foo/:id/bar" = Ok ["foo"; ":id"; "bar"].
Proof. reflexivity. Qed.
Example splitPath_ex2 : splitPath "/foo/bar" = Ok ["foobar"].
Proof. reflexivity. Qed.
Example splitPath_ex3 : splitPath "/" = Panic.
Proof. reflexivity. Qed.
Example cleanPath_ex1 : cleanPath "//api//v1/" = "/api/v1".
Proof. reflexivity. Qed.
Example lp_ex1 : longestPrefix "foo/bar" "foobar" = "foo".
Proof. reflexivity. Qed.
Example valid_ex1 : map isValidPath ["/users/:id"; "/users/:123id"; "/users/:"; "/files/*"; "/files/*/*"; "/a/:x/b/:x"]
  = [Ok true; Ok false; Ok false; Ok true; Ok false; Ok false].
Proof. vm_compute. reflexivity. Qed.

Section TrieExamples.
Context {H : Type} (h1 h2 h3 : H).

Example insert_ex1 :
  insert newTree "/a/b" h1 =
  Ok (Node static "" [("a"%char, Node static "ab" [] no_slots (Some (Endpoint h1 "/a/b" [])))]
        no_slots None).
Proof. reflexivity. Qed.

Example insert_ex2 :
  (do t <- insert newTree "/a/b" h1; do t <- insert t "/a/:x" h2; insert t "/a/*" h3) =
  Ok (Node static ""
        [("a"%char,
          Node static "a"
            [("b"%char, Node static "b" [] no_slots (Some (Endpoint h1 "/a/b" [])))]
            (Slots None
               (Some (Node param "" [] no_slots (Some (Endpoint h2 "/a/:x" ["x"]))))
               (Some (Node catchAll "" [] no_slots (Some (Endpoint h3 "/a/*" ["*"])))))
            None)]
        no_slots None).
Proof. reflexivity. Qed.

Example find_ex1 :
  (do t <- insert newTree "/files/*" h1; find t "/files/a/b/c") =
  Ok (Some (Endpoint h1 "/files/*" ["*"], {[ "*" := "a/b/c" ]})).
Proof. vm_compute. reflexivity. Qed.

End TrieExamples.

Example render_ex :
  render [Lit ["api"; "v1"; "users"]; Par "id"; Lit ["files"]; Star] = "/api/v1/users/:id/files/*"
  /\ tokens [Lit ["api"; "v1"; "users"]; Par "id"; Lit ["files"]; Star]
     = ["apiv1users"; ":id"; "files"; "*"]
  /\ well_formed [Lit ["api"; "v1"; "users"]; Par "id"; Lit ["files"]; Star] = true
  /\ request [Lit ["api"; "v1"; "users"]; Par "id"; Lit ["files"]; Star] ["42"; "a/b.txt"]
     = "/api/v1/users/42/files/a/b.txt"
  /\ values_ok [Lit ["api"; "v1"; "users"]; Par "id"; Lit ["files"]; Star] ["42"; "a/b.txt"] = true
  /\ (do t <- insert newTree "/api/v1/users/:id/files/*" 0;
      find t "/api/v1/users/42/files/a/b.txt")
     = Ok (Some (Endpoint 0 "/api/v1/users/:id/files/*" ["id"; "*"],
                 list_to_map (zip ["id"; "*"] ["42"; "a/b.txt"]))).
Proof. repeat split; vm_compute; reflexivity. Qed.

(** * Properties *)

(** ** Helper facts on the stores *)

Lemma node_eta {H : Type} (n : node H) :
  Node (kind n) (prefix n) (children n) (special n) (endpt n) = n.
Proof. destruct n; reflexivity. Qed.

Lemma trees_set_same {W : Type} (ts : list (method * tree (HandlerFunc Request W))) m n :
  trees_get ts m = Some n -> trees_set ts m n = ts.
Proof.
  induction ts as [|[k n0] ts IH]; simpl; [discriminate|].
  destruct (method_eqb k m); intros Hn.
  - injection Hn as ->. reflexivity.
  - rewrite IH by assumption. reflexivity.
Qed.

(** An insertion that the validator refuses leaves the tree as it is. *)
Lemma insert_invalid {H : Type} (t : tree H) p f :
  isValidPath (cleanPath p) = Ok false -> insert t p f = Ok t.
Proof. intros Hv. unfold insert. rewrite Hv. reflexivity. Qed.

(** Through the router: a refused registration leaves the application as
    it is. *)
Lemma Handle_invalid {W : Type} (a : App (W := W)) m r p ms h :
  isValidPath (cleanPath (cleanPath (rpath r ++ p))) = Ok false ->
  is_Some (trees_get (trees a) m) ->
  Handle (newRoute a r m p ms) h a = Ok a.
Proof.
  intros Hv [stored Hs]. unfold Handle, newRoute, getTree.
  rewrite Hs. cbn [route_t route_path route_mws].
  unfold through, write_back. cbn [bucket copy]. rewrite Hs.
  rewrite (insert_invalid _ _ _ Hv). cbn [obind children].
  rewrite !node_eta. rewrite (trees_set_same _ _ _ Hs).
  destruct a; reflexivity.
Qed.

(** ** C10 *)

(** C10 (fails on the code): [insert] is not total.  Whenever [cleanPath]
    normalizes the pattern to ["/"] ("/" itself, "//", the empty string),
    [splitPath] hands the empty raw segment to [getSegmentType], whose
    [s[0]] is out of range: the validator called by [insert] panics, on
    every tree, before anything is written. *)
Theorem C10_insert_panics_on_root_pattern :
  forall (H : Type) (t : tree H) (p : string) (f : H),
    cleanPath p = "/" ->
    getSegmentType "" = Panic /\
    splitPath (cleanPath p) = Panic /\
    isValidPath (cleanPath p) = Panic /\
    insert t p f = Panic.
Proof.
  intros H t p f Hp. unfold insert. rewrite Hp. repeat split; reflexivity.
Qed.

Lemma C10_insert_panics_on_root_pattern_witness :
  cleanPath "/" = "/" /\
  (getSegmentType "" = Panic /\
   splitPath (cleanPath "/") = Panic /\
   isValidPath (cleanPath "/") = Panic /\
   insert (newTree (H := nat)) "/" 0 = Panic).
Proof.
  split; [reflexivity|].
  apply (C10_insert_panics_on_root_pattern nat newTree "/" 0). reflexivity.
Defined.

(** The same through the router surface: binding the root of a ["/"]
    router. *)
Lemma root_binding_panics {W : Type} (o nf na h : HandlerFunc Request W) :
  let '(r, a1) := App_Router (New o nf na false) "/" [] in
  Handle (Get a1 r "/" []) h a1 = Panic.
Proof. reflexivity. Qed.

(** ** C2 *)

(** C2 as stated fails: with the three routes registered, [/a/c/d] is a
    miss, not the catch-all. *)
Lemma C2_counterexample :
  (do t <- register_all (priority_routes 1 2 3) newTree; find t "/a/c/d") = Ok None /\
  ~ (exists m, (do t <- register_all (priority_routes 1 2 3) newTree; find t "/a/c/d")
               = Ok (Some (Endpoint 3 "/a/*" ["*"], m))).
Proof.
  assert (E : (do t <- register_all (priority_routes 1 2 3) newTree; find t "/a/c/d")
              = Ok None) by (vm_compute; reflexivity).
  split; [exact E|]. intros [m Hm]. rewrite E in Hm. discriminate.
Qed.

(** C2 (amended): in whatever order [/a/b], [/a/:x] and [/a/*] are
    registered, [/a/b] resolves to the literal route, [/a/c] to the
    parameter route with [x = "c"], and [/a/c/d] is a miss: at the node of
    [/a] the parameter child takes ["c"] and [find] never returns to the
    catch-all.  With the parameter route absent, [/a/c/d] resolves to the
    catch-all with ["*" = "c/d"]. *)
Theorem C2_priority_without_backtracking :
  forall (H : Type) (h1 h2 h3 : H) (order : list (string * H)),
    order ≡ₚ priority_routes h1 h2 h3 ->
    (do t <- register_all order newTree; find t "/a/b")
      = Ok (Some (Endpoint h1 "/a/b" [], ∅)) /\
    (do t <- register_all order newTree; find t "/a/c")
      = Ok (Some (Endpoint h2 "/a/:x" ["x"], {[ "x" := "c" ]})) /\
    (do t <- register_all order newTree; find t "/a/c/d") = Ok None /\
    (do t <- register_all [("/a/b", h1); ("/a/*", h3)] newTree; find t "/a/c/d")
      = Ok (Some (Endpoint h3 "/a/*" ["*"], {[ "*" := "c/d" ]})).
Proof.
  intros H h1 h2 h3 order Hp.
  symmetry in Hp. apply permutations_Permutation in Hp.
  apply list_elem_of_In in Hp. vm_compute in Hp.
  destruct Hp as [<- | [<- | [<- | [<- | [<- | [<- | []]]]]]];
    repeat split; vm_compute; reflexivity.
Qed.

Lemma C2_priority_without_backtracking_witness :
  [("/a/*", 3); ("/a/b", 1); ("/a/:x", 2)] ≡ₚ priority_routes 1 2 3 /\
  (do t <- register_all [("/a/*", 3); ("/a/b", 1); ("/a/:x", 2)] newTree; find t "/a/c/d")
    = Ok None.
Proof.
  assert (Hp : [("/a/*", 3); ("/a/b", 1); ("/a/:x", 2)] ≡ₚ priority_routes 1 2 3).
  { symmetry. apply permutations_Permutation. apply list_elem_of_In.
    vm_compute. tauto. }
  split; [exact Hp|].
  apply (C2_priority_without_backtracking nat 1 2 3 _ Hp).
Defined.

(** ** The middleware composer *)

Section ChainFacts.
Context {R W : Type}.
Implicit Types (mw : Middleware R W) (mws : list (Middleware R W)) (f : HandlerFunc R W).

(** The loop, run over the first [length l1] entries, folds them from the
    right. *)
Lemma chainMws_loop_app l1 l2 f :
  chainMws_loop (List.length l1) (l1 ++ l2) f = fold_right wrap f l1.
Proof.
  revert l2 f. induction l1 as [|x l IH] using rev_ind; intros l2 f.
  - reflexivity.
  - rewrite length_app, Nat.add_comm. cbn [List.length Nat.add chainMws_loop].
    rewrite <- app_assoc.
    rewrite nth_error_app2 by lia. rewrite Nat.sub_diag. cbn [nth_error app].
    rewrite IH. rewrite fold_right_app. reflexivity.
Qed.

Lemma chainMws_fold mws f : chainMws mws f = fold_right wrap f mws.
Proof.
  unfold chainMws. rewrite <- (app_nil_r mws) at 2. apply chainMws_loop_app.
Qed.

Lemma chainMws_cons mw mws f : chainMws (mw :: mws) f = wrap mw (chainMws mws f).
Proof. rewrite !chainMws_fold. reflexivity. Qed.


End ChainFacts.


Lemma chainMws_counting (n : nat) (r : Request) (w : nat) :
  chainMws (repeat counting_mw n) idle_handler r w = w + n.
Proof.
  rewrite chainMws_fold. revert w. induction n as [|n IH]; intros w.
  - cbn. unfold idle_handler. lia.
  - cbn [repeat fold_right]. unfold wrap at 1, counting_mw at 1.
    rewrite IH. lia.
Qed.

(** ** C7 *)


(** ** C4 *)

(** C4 as stated fails: the handler returned for one counting middleware
    calls the middleware function again on every invocation. *)
Lemma C4_counterexample :
  let h := chainMws [counting_mw] idle_handler in
  h (GET_request "/x") 0 = 1 /\
  h (GET_request "/x") (h (GET_request "/x") 0) = 2 /\
  h (GET_request "/x") 0 <> 0.
Proof. repeat split. discriminate. Qed.

Lemma chainMws_append {R W : Type} (l1 l2 : list (Middleware R W)) (f : HandlerFunc R W) :
  chainMws (l1 ++ l2) f = chainMws l1 (chainMws l2 f).
Proof. rewrite !chainMws_fold. apply fold_right_app. Qed.

Lemma chainMws_calling (cs : list nat) (r : Request) (w : nat) :
  chainMws (map calling_mw cs) idle_handler r w = w + calls cs.
Proof.
  rewrite chainMws_fold. revert w. induction cs as [|c cs IH]; intros w.
  - cbn. unfold idle_handler. lia.
  - cbn [map fold_right calls]. unfold wrap at 1, calling_mw at 1.
    assert (Hit : forall x, Nat.iter c (fold_right wrap idle_handler (map calling_mw cs) r) x
                            = x + c * calls cs).
    { intros x. unfold Nat.iter. induction c as [|c IHc]; cbn [nat_rect].
      - lia.
      - rewrite IHc, IH. lia. }
    rewrite Hit. lia.
Qed.

Lemma calls_once (n : nat) : calls (repeat 1 n) = n.
Proof. induction n as [|n IH]; cbn [repeat calls]; [reflexivity|]. rewrite IH. lia. Qed.

(** C4 (amended): [chainMws] runs once per route, inside [Handle], on the
    middlewares of the router followed by those of the route, and the trie
    stores the closure it returns; building that closure calls no
    middleware function.  The closure built for a middleware calls the
    middleware function on its next handler at every invocation, and then
    the wrapper that this call returns.  The handler returned for
    [mw :: mws] is the closure of [mw], and the next handler of the last
    middleware of [l1] in [l1 ++ mw :: l2] is the closure of [mw]: the
    first middleware function is called once per request, and each
    further one once each time the wrapper before it calls its next
    handler.  With counting middlewares whose wrappers call next
    [c1; ...; cn] times, one request makes [1 + c1 * (1 + c2 * (...))]
    calls, and [k] requests [k] times as many: [k * n] calls through [n]
    middlewares whose wrappers call next once each, as [counting_mw]'s do,
    and one call per request when the first wrapper does not call next,
    whatever follows it. *)
Theorem C4_middlewares_applied_per_request :
  (forall (W : Type) (a : App (W := W)) (m : method) (r : Router)
          (p : string) (ms : list (Middleware Request W)) (h : HandlerFunc Request W)
          (tr0 : tree (HandlerFunc Request W)),
      trees_get (trees a) m = Some tr0 ->
      Handle (newRoute a r m p ms) h a
      = (do n' <- insert tr0 (cleanPath (rpath r ++ p)) (chainMws (rmws r ++ ms) h);
         Ok (write_back a (mkTreeRef m tr0) n'))) /\
  (forall (R W : Type) (mws : list (Middleware R W)) (f : HandlerFunc R W),
      chainMws mws f = fold_right wrap f mws) /\
  (forall (R W : Type) (f : HandlerFunc R W), chainMws [] f = f) /\
  (forall (R W : Type) (mw : Middleware R W) (mws : list (Middleware R W))
          (f : HandlerFunc R W) (r : R) (w : W),
      chainMws (mw :: mws) f r w = (mw (chainMws mws f) w).1 r (mw (chainMws mws f) w).2) /\
  (forall (R W : Type) (l1 l2 : list (Middleware R W)) (mw : Middleware R W)
          (f : HandlerFunc R W),
      chainMws (l1 ++ mw :: l2) f = chainMws l1 (chainMws (mw :: l2) f)) /\
  (forall (n k : nat) (r : Request) (w : nat),
      Nat.iter k (chainMws (repeat counting_mw n) idle_handler r) w = w + k * n) /\
  (forall (cs : list nat) (k : nat) (r : Request) (w : nat),
      chainMws (map calling_mw cs) idle_handler r w = w + calls cs /\
      Nat.iter k (chainMws (map calling_mw cs) idle_handler r) w = w + k * calls cs) /\
  (counting_mw = calling_mw 1 /\
   (forall n : nat, calls (repeat 1 n) = n) /\
   (forall cs : list nat, calls (0 :: cs) = 1) /\
   (forall (r : Request) (w : nat),
       chainMws [calling_mw 0; counting_mw] idle_handler r w = w + 1)) /\
  (forall (W : Type) (EqualFold : string -> string -> bool)
          (o nf na h : HandlerFunc Request W) (P ms : list (Middleware Request W)),
      let a1 := snd (App_Router (New o nf na false) "/" P) in
      let r := fst (App_Router (New o nf na false) "/" P) in
      (do a2 <- Handle (Get a1 r "/test" ms) h a1;
       internalHandler EqualFold a2 (GET_request "/test"))
      = Ok (Serve (chainMws (P ++ ms) h) (withParams (GET_request "/test") ∅))).
Proof.
  split; [|split; [|split; [|split; [|split; [|split; [|split; [|split]]]]]]].
  - intros W a m r p ms h tr0 Eg. unfold Handle, newRoute, getTree. rewrite Eg.
    cbn [route_t route_path route_mws]. unfold through. cbn [bucket copy].
    rewrite Eg, node_eta. reflexivity.
  - intros. apply chainMws_fold.
  - intros. reflexivity.
  - intros. rewrite chainMws_cons. unfold wrap.
    destruct (mw (chainMws mws f) w); reflexivity.
  - intros. apply chainMws_append.
  - intros n k r w. unfold Nat.iter. induction k as [|k IH]; cbn [nat_rect].
    + lia.
    + rewrite IH, chainMws_counting. lia.
  - intros cs k r w. split; [apply chainMws_calling|].
    unfold Nat.iter. induction k as [|k IH]; cbn [nat_rect].
    + lia.
    + rewrite IH, chainMws_calling. lia.
  - split; [reflexivity|]. split; [exact calls_once|]. split.
    + intros cs. cbn [calls]. lia.
    + intros r w. apply (chainMws_calling [0; 1] r w).
  - intros. vm_compute. reflexivity.
Qed.

Lemma C4_middlewares_applied_per_request_witness :
  trees_get (trees (New idle_handler idle_handler idle_handler false)) mGET = Some newTree /\
  Handle (newRoute (New idle_handler idle_handler idle_handler false)
            (mkRouter "/api" [counting_mw]) mGET "/ping" [calling_mw 0])
    idle_handler (New idle_handler idle_handler idle_handler false)
  = (do n' <- insert newTree (cleanPath ("/api" ++ "/ping"))
                (chainMws ([counting_mw] ++ [calling_mw 0]) idle_handler);
     Ok (write_back (New idle_handler idle_handler idle_handler false)
           (mkTreeRef mGET newTree) n')).
Proof.
  split; [reflexivity|].
  apply (proj1 C4_middlewares_applied_per_request nat
           (New idle_handler idle_handler idle_handler false) mGET
           (mkRouter "/api" [counting_mw]) "/ping" [calling_mw 0] idle_handler newTree).
  reflexivity.
Defined.

(** ** C1 *)

(** C1 (fails on the code): a route registered on a sub-group carries the
    group's and its own middlewares only.  [Group] starts the child from
    [mws] alone, so the list composed around the handler is [C ++ R] and
    the parent's [P] never runs: with tracers [m1] on the root router, [m2]
    on the group and [m3] on the route, a request logs no event of [m1]. *)
Theorem C1_group_route_omits_parent_middlewares :
  (forall (W : Type) (a : App (W := W)) (r : Router) (gp p : string)
          (C Rm : list (Middleware Request W)),
      rmws (Group r gp C) = C /\
      route_mws (Get a (Group r gp C) p Rm) = C ++ Rm) /\
  (forall (W : Type) (EqualFold : string -> string -> bool)
          (o nf na h : HandlerFunc Request W) (P C Rm : list (Middleware Request W)),
      let a1 := snd (App_Router (New o nf na false) "/" P) in
      let r := fst (App_Router (New o nf na false) "/" P) in
      (do a2 <- Handle (Get a1 (Group r "/g" C) "/x" Rm) h a1;
       internalHandler EqualFold a2 (GET_request "/g/x"))
      = Ok (Serve (chainMws (C ++ Rm) h) (withParams (GET_request "/g/x") ∅))) /\
  (forall (EqualFold : string -> string -> bool)
          (o nf na : HandlerFunc Request (list string))
          (echo : Request -> list string -> list string),
      let a1 := snd (App_Router (New o nf na false) "/" [tracer "m1"]) in
      let r := fst (App_Router (New o nf na false) "/" [tracer "m1"]) in
      (do a2 <- Handle (Get a1 (Group r "/g" [tracer "m2"]) "/x" [tracer "m3"])
                  trace_handler a1;
       ServeHTTP EqualFold echo a2 (GET_request "/g/x") [])
      = Ok ["before_m2"; "before_m3"; "handler"; "after_m3"; "after_m2"]).
Proof.
  split; [|split].
  - intros. split; reflexivity.
  - intros. vm_compute. reflexivity.
  - intros. vm_compute. reflexivity.
Qed.

(** ** Byte-string facts *)

#[local] Arguments String.append !_ _ / : simpl nomatch.
Local Open Scope string_scope.

Lemma append_nil_r (s : string) : s ++ "" = s.
Proof. induction s as [|c s IH]; simpl; [reflexivity|]. rewrite IH. reflexivity. Qed.

Lemma append_assoc (a b c : string) : (a ++ b) ++ c = a ++ (b ++ c).
Proof. induction a as [|x a IH]; simpl; [reflexivity|]. rewrite IH. reflexivity. Qed.

Lemma length_append (a b : string) :
  String.length (a ++ b) = String.length a + String.length b.
Proof. induction a as [|x a IH]; simpl; [reflexivity|]. rewrite IH. reflexivity. Qed.

Lemma length_zero (s : string) : String.length s = 0 -> s = "".
Proof. destruct s; simpl; [reflexivity | discriminate]. Qed.

Lemma length_sfrom (n : nat) (s : string) :
  String.length (sfrom n s) = String.length s - n.
Proof.
  revert s. induction n as [|n IH]; intros [|c s]; simpl; try reflexivity.
  apply IH.
Qed.

Lemma sfrom_app_length (a b : string) : sfrom (String.length a) (a ++ b) = b.
Proof. induction a as [|x a IH]; simpl; [destruct b; reflexivity | exact IH]. Qed.

Lemma sto_app_length (a b : string) : sto (String.length a) (a ++ b) = a.
Proof.
  induction a as [|x a IH]; simpl; [destruct b; reflexivity|]. rewrite IH. reflexivity.
Qed.

Lemma sfrom_0 (s : string) : sfrom 0 s = s.
Proof. destruct s; reflexivity. Qed.

Lemma sfrom_add (n m : nat) (s : string) : sfrom (n + m) s = sfrom m (sfrom n s).
Proof.
  revert s. induction n as [|n IH]; intros s; simpl.
  - reflexivity.
  - destruct s as [|c s]; [destruct m; reflexivity | apply IH].
Qed.

Lemma sidx_sfrom (s : string) (i : nat) :
  sidx s i = match sfrom i s with String c _ => Some c | EmptyString => None end.
Proof.
  unfold sidx. revert s. induction i as [|i IH]; intros [|c s]; simpl; try reflexivity.
  apply IH.
Qed.

Lemma sfrom_S (s : string) (i : nat) (c : ascii) (r : string) :
  sfrom i s = String c r -> sfrom (S i) s = r /\ sto (S i) s = sto i s ++ String c "".
Proof.
  revert s. induction i as [|i IH]; intros [|x s]; simpl; try discriminate.
  - intros [= -> ->]. split; reflexivity.
  - intros Hs. destruct (IH _ Hs) as [F E]. split; [exact F|].
    f_equal. exact E.
Qed.

Lemma longestPrefix_loop_spec (s1 s2 : string) (k i : nat) :
  i + k = Nat.min (String.length s1) (String.length s2) ->
  longestPrefix_loop k i (i + k) s1 s2
  = sto i s1 ++ common_prefix (sfrom i s1) (sfrom i s2).
Proof.
  revert i. induction k as [|k IH]; intros i Hk.
  - rewrite Nat.add_0_r in *. simpl.
    assert (Hz : common_prefix (sfrom i s1) (sfrom i s2) = "").
    { pose proof (length_sfrom i s1). pose proof (length_sfrom i s2).
      destruct (sfrom i s1), (sfrom i s2); simpl in *; try reflexivity. lia. }
    rewrite Hz, append_nil_r. reflexivity.
  - cbn [longestPrefix_loop]. rewrite !sidx_sfrom.
    pose proof (length_sfrom i s1) as L1. pose proof (length_sfrom i s2) as L2.
    destruct (sfrom i s1) as [|a r1] eqn:E1; [simpl in L1; lia|].
    destruct (sfrom i s2) as [|b r2] eqn:E2; [simpl in L2; lia|].
    cbn [common_prefix].
    destruct (Ascii.eqb a b) eqn:Eab.
    + apply Ascii.eqb_eq in Eab as <-.
      destruct (sfrom_S _ _ _ _ E1) as [F1 T1]. destruct (sfrom_S _ _ _ _ E2) as [F2 _].
      replace (i + S k) with (S i + k) by lia.
      rewrite IH by lia. rewrite F1, F2, T1, append_assoc. reflexivity.
    + rewrite append_nil_r. reflexivity.
Qed.

Lemma longestPrefix_spec (s1 s2 : string) : longestPrefix s1 s2 = common_prefix s1 s2.
Proof.
  unfold longestPrefix.
  set (m := if Nat.ltb _ _ then _ else _).
  assert (Hm : m = Nat.min (String.length s1) (String.length s2)).
  { subst m. destruct (Nat.ltb_spec (String.length s2) (String.length s1)); lia. }
  exact (longestPrefix_loop_spec s1 s2 m 0 Hm).
Qed.

Lemma no_slash_cons (c : ascii) (s : string) :
  no_slash (String c s) = true <-> Ascii.eqb c slash = false /\ no_slash s = true.
Proof.
  unfold no_slash. simpl. rewrite andb_true_iff, negb_true_iff. reflexivity.
Qed.

Lemma no_slash_app (a b : string) :
  no_slash (a ++ b) = true <-> no_slash a = true /\ no_slash b = true.
Proof.
  induction a as [|c a IH]; simpl.
  - unfold no_slash at 2. simpl. tauto.
  - rewrite !no_slash_cons, IH. tauto.
Qed.

Lemma unslash_no_slash (s : string) : no_slash s = true -> unslash s = s.
Proof.
  induction s as [|c s IH]; [reflexivity|]. rewrite no_slash_cons. intros [Hc Hs].
  simpl. rewrite Hc, IH by assumption. reflexivity.
Qed.

Lemma unslash_app (a b : string) : unslash (a ++ b) = unslash a ++ unslash b.
Proof.
  induction a as [|c a IH]; simpl; [reflexivity|].
  destruct (Ascii.eqb c slash); simpl; rewrite IH; reflexivity.
Qed.

Lemma common_prefix_app (a x y : string) :
  common_prefix (a ++ x) (a ++ y) = a ++ common_prefix x y.
Proof.
  induction a as [|c a IH]; simpl; [reflexivity|].
  rewrite Ascii.eqb_refl, IH. reflexivity.
Qed.

Lemma common_prefix_nil_r (s : string) : common_prefix s "" = "".
Proof. destruct s; reflexivity. Qed.

Lemma common_prefix_self_app (a x : string) : common_prefix (a ++ x) a = a.
Proof.
  rewrite <- (append_nil_r a) at 2. rewrite common_prefix_app, common_prefix_nil_r.
  apply append_nil_r.
Qed.

Lemma common_prefix_app_diff (a x y : string) :
  match x, y with
  | String cx _, String cy _ => Ascii.eqb cx cy = false
  | _, _ => True
  end ->
  common_prefix (a ++ x) (a ++ y) = a.
Proof.
  intros Hd. rewrite common_prefix_app.
  assert (Hz : common_prefix x y = "").
  { destruct x as [|cx x], y as [|cy y]; try reflexivity. simpl. rewrite Hd. reflexivity. }
  rewrite Hz. apply append_nil_r.
Qed.

(** What [longestPrefix] returns splits both arguments, and the remainders
    disagree on their first byte when both have one. *)
Lemma common_prefix_split (s1 s2 : string) :
  exists r1 r2,
    s1 = common_prefix s1 s2 ++ r1 /\ s2 = common_prefix s1 s2 ++ r2 /\
    match r1, r2 with
    | String a _, String b _ => a <> b
    | _, _ => True
    end.
Proof.
  revert s2. induction s1 as [|a s1 IH]; intros [|b s2]; simpl.
  - exists "", "". auto.
  - exists "", (String b s2). auto.
  - exists (String a s1), "". auto.
  - destruct (Ascii.eqb a b) eqn:Eab.
    + apply Ascii.eqb_eq in Eab as <-.
      destruct (IH s2) as (r1 & r2 & E1 & E2 & Hd).
      exists r1, r2. simpl. rewrite <- E1, <- E2. auto.
    + apply Ascii.eqb_neq in Eab. exists (String a s1), (String b s2). simpl. auto.
Qed.

Lemma common_prefix_no_slash (s1 s2 : string) :
  no_slash s2 = true -> no_slash (common_prefix s1 s2) = true.
Proof.
  revert s2. induction s1 as [|a s1 IH]; intros [|b s2]; simpl; try reflexivity.
  rewrite no_slash_cons. intros [Hb Hs].
  destruct (Ascii.eqb a b) eqn:Eab; [|reflexivity].
  apply Ascii.eqb_eq in Eab as ->. rewrite no_slash_cons. auto.
Qed.

Lemma no_slash_sfrom (n : nat) (s : string) : no_slash s = true -> no_slash (sfrom n s) = true.
Proof.
  revert s. induction n as [|n IH]; intros [|c s]; simpl; auto.
  rewrite no_slash_cons. intros [_ Hs]. auto.
Qed.

Lemma eqb_append_head (a x y : string) : String.eqb (a ++ x) (a ++ y) = String.eqb x y.
Proof.
  induction a as [|c a IH]; simpl; [reflexivity|]. rewrite Ascii.eqb_refl. exact IH.
Qed.

(** ** Fuel of [find_loop]

    Every iteration that goes on shortens [p], so [length p] iterations are
    enough, and more fuel changes nothing. *)

Section FindFuel.
Context {H : Type}.

Lemma find_loop_fuel (n fuel : nat) params (cur : node H) pl start (p : string) :
  String.length p <= n -> n <= fuel ->
  find_loop fuel params cur pl start p = find_loop n params cur pl start p.
Proof.
  revert fuel params cur pl start p.
  induction n as [|n IH]; intros fuel params cur pl start p Hp Hn.
  - assert (p = "") by (apply length_zero; lia); subst p. destruct fuel; reflexivity.
  - destruct p as [|c p]; [destruct fuel; reflexivity|].
    destruct fuel as [|fuel]; [lia|]. simpl in Hp.
    cbn [find_loop].
    destruct (Ascii.eqb c slash); [apply IH; lia|].
    destruct (lookup_child _ _) as [st|].
    + destruct (Nat.ltb _ _); [reflexivity|].
      set (lcp := longestPrefix _ _).
      destruct (Nat.eqb_spec (String.length lcp) 0); [reflexivity|].
      assert (String.length (sfrom (String.length lcp) (String c p)) <= n).
      { rewrite length_sfrom. simpl. lia. }
      destruct (Nat.eqb _ _); apply IH; auto; lia.
    + destruct (slot_get _ param).
      * destruct (IndexByte _).
        -- apply IH; [|lia]. rewrite length_sfrom. simpl. lia.
        -- apply IH; simpl; lia.
      * destruct (slot_get _ catchAll); [|reflexivity]. apply IH; simpl; lia.
Qed.

Lemma find_loop_total (n : nat) params (cur : node H) pl start (p : string) :
  String.length p <= n -> find_loop n params cur pl start p <> OutOfFuel.
Proof.
  revert params cur pl start p.
  assert (Hres : forall (c : node H) ps, find_result c ps <> OutOfFuel).
  { intros c ps. unfold find_result. destruct (endpt c); [|discriminate].
    generalize (∅ : gmap string string). generalize 0.
    induction (pKeys e) as [|k ks IHk]; intros i m; simpl; [discriminate|].
    destruct (nth_error ps i); [|discriminate]. specialize (IHk (S i) (<[k:=s]> m)).
    destruct (fill_pMap ks (S i) ps (<[k:=s]> m)); simpl in *; congruence. }
  induction n as [|n IH]; intros params cur pl start p Hp.
  - assert (p = "") by (apply length_zero; lia); subst p. apply Hres.
  - destruct p as [|c p]; [apply Hres|]. simpl in Hp. cbn [find_loop].
    destruct (Ascii.eqb c slash); [apply IH; lia|].
    destruct (lookup_child _ _) as [st|].
    + destruct (Nat.ltb _ _); [discriminate|].
      set (lcp := longestPrefix _ _).
      destruct (Nat.eqb_spec (String.length lcp) 0); [apply Hres|].
      assert (String.length (sfrom (String.length lcp) (String c p)) <= n).
      { rewrite length_sfrom. simpl. lia. }
      destruct (Nat.eqb _ _); apply IH; auto.
    + destruct (slot_get _ param).
      * destruct (IndexByte _).
        -- apply IH. rewrite length_sfrom. simpl. lia.
        -- apply IH; simpl; lia.
      * destruct (slot_get _ catchAll); [|discriminate]. apply IH; simpl; lia.
Qed.

(** [find] always returns or panics; it never runs out of fuel. *)
Lemma find_total (t : tree H) (p : string) : find t p <> OutOfFuel.
Proof. apply find_loop_total. lia. Qed.

End FindFuel.

(** ** A tree with one literal edge

    The tree left by registering one all-literal pattern: the root, and
    under the first byte of [tok] a leaf whose prefix is [tok]. *)

Section OneEdge.
Context {H : Type} (e : endpoint H) (c0 : ascii) (tk : string).
Hypothesis e_keys : pKeys e = [].
Let tok : string := String c0 tk.
Hypothesis tok_no_slash : no_slash tok = true.
Let leaf : node H := Node static tok [] no_slots (Some e).
Let root : tree H := Node static "" [(c0, leaf)] no_slots None.

Lemma find_loop_leaf (n : nat) pl start (p : string) :
  String.length p <= n ->
  find_loop n [] leaf pl start p
  = if String.eqb (unslash p) "" then Ok (Some (e, ∅)) else Ok None.
Proof.
  revert p. induction n as [|n IH]; intros p Hp.
  - assert (p = "") by (apply length_zero; lia); subst p. simpl.
    unfold find_result. simpl. rewrite e_keys. reflexivity.
  - destruct p as [|c p].
    + simpl. unfold find_result. simpl. rewrite e_keys. reflexivity.
    + simpl in Hp. cbn [find_loop unslash].
      destruct (Ascii.eqb c slash); [apply IH; lia|]. reflexivity.
Qed.

Lemma find_loop_root (n : nat) pl start (p : string) :
  String.length p <= n ->
  start < String.length tok ->
  (pl = None /\ start = 0) \/ pl = Some c0 ->
  find_loop n [] root pl start p
  = if String.eqb (unslash p) (sfrom start tok) then Ok (Some (e, ∅)) else Ok None.
Proof.
  revert p pl start. induction n as [|n IH]; intros p pl start Hp Hst Hpl.
  - assert (p = "") by (apply length_zero; lia); subst p. simpl.
    pose proof (length_sfrom start tok) as L.
    destruct (sfrom start tok); [simpl in *; lia | reflexivity].
  - destruct p as [|c p].
    + simpl. pose proof (length_sfrom start tok) as L.
      destruct (sfrom start tok); [simpl in *; lia | reflexivity].
    + simpl in Hp. cbn [find_loop unslash].
      destruct (Ascii.eqb c slash) eqn:Ec; [apply IH; auto; lia|].
      set (label := match pl with Some l => l | None => c end).
      cbn [root children lookup_child].
      destruct (Ascii.eqb c0 label) eqn:El.
      * (* the edge is tried *)
        cbn [leaf prefix].
        destruct (Nat.ltb_spec (String.length tok) start) as [|_]; [lia|].
        rewrite longestPrefix_spec.
        destruct (common_prefix_split (String c p) (sfrom start tok))
          as (r1 & r2 & E1 & E2 & Hd).
        set (l := common_prefix (String c p) (sfrom start tok)) in *.
        assert (Hl : no_slash l = true).
        { apply common_prefix_no_slash, no_slash_sfrom, tok_no_slash. }
        assert (Hu : unslash (String c p) = l ++ unslash r1).
        { rewrite E1 at 1. rewrite unslash_app, unslash_no_slash by exact Hl. reflexivity. }
        cbn [unslash] in Hu. rewrite Ec in Hu. rewrite Hu.
        pose proof (length_sfrom start tok) as L. rewrite E2, length_append in L.
        assert (Hr1 : sfrom (String.length l) (String c p) = r1).
        { rewrite E1 at 1. apply sfrom_app_length. }
        rewrite Hr1. rewrite E2. rewrite eqb_append_head.
        destruct (Nat.eqb_spec (String.length l) 0) as [Hz|Hz].
        -- pose proof (length_zero _ Hz) as Hz'.
           destruct r2 as [|b r2]; [simpl in *; lia|].
           rewrite Hz' in E1. simpl in E1. subst r1.
           simpl. rewrite Ec. simpl.
           destruct (Ascii.eqb_spec c b) as [->|]; [contradiction | reflexivity].
        -- destruct (Nat.eqb_spec (String.length l + start) (String.length tok)) as [Hf|Hf].
           ++ assert (r2 = "") by (apply length_zero; lia). subst r2.
              apply find_loop_leaf.
              rewrite <- Hr1, length_sfrom. simpl. lia.
           ++ rewrite IH.
              ** rewrite sfrom_add, E2, sfrom_app_length. reflexivity.
              ** rewrite <- Hr1, length_sfrom. simpl. lia.
              ** lia.
              ** right. apply Ascii.eqb_eq in El. subst label. f_equal.
                 destruct Hpl as [[-> ->]| ->]; [|reflexivity]. symmetry; exact El.
      * (* another first byte: no child, no special slot *)
        cbn [special no_slots slot_get at_param at_catchAll].
        destruct Hpl as [[-> ->]| ->].
        -- subst label. rewrite sfrom_0. subst tok. simpl.
           rewrite Ascii.eqb_sym, El. reflexivity.
        -- subst label. rewrite Ascii.eqb_refl in El. discriminate.
Qed.

Lemma find_one_edge (q : string) :
  find (one_edge tok e) q
  = if String.eqb (unslash q) tok then Ok (Some (e, ∅)) else Ok None.
Proof.
  unfold find. change (one_edge tok e) with root.
  rewrite find_loop_root; auto. simpl. lia.
Qed.

End OneEdge.

(** ** C3 *)

(** C3 as stated fails: the request path [/apiv1adminsettings], which is
    not [/api/v1/admin/settings] with or without a trailing slash, resolves
    to the endpoint bound through the group chain. *)
Lemma C3_counterexample :
  "/apiv1adminsettings" <> "/api/v1/admin/settings" /\
  "/apiv1adminsettings" <> "/api/v1/admin/settings/" /\
  (do a <- settings_app idle_handler idle_handler idle_handler idle_handler [] [] [] [] [];
   do tr <- bucket_tree a mGET;
   find tr "/apiv1adminsettings")
  = Ok (Some (Endpoint (chainMws [] idle_handler) "/api/v1/admin/settings" [], ∅)).
Proof.
  split; [discriminate|]. split; [discriminate|]. vm_compute. reflexivity.
Qed.

(** C3 (amended): after the group chain and the binding of [GET
    /settings], the GET tree holds one literal edge [apiv1adminsettings],
    and a request path resolves to the route's endpoint exactly when its
    bytes other than ['/'] spell [apiv1adminsettings]; every other path is
    a miss.  So [/api/v1/admin/settings] resolves to it, with or without
    further slashes, and so does [/apiv1adminsettings]. *)
Theorem C3_group_chain_route :
  forall (W : Type) (o nf na h : HandlerFunc Request W)
         (P C1 C2 C3 Rm : list (Middleware Request W)),
    let e := Endpoint (chainMws (C3 ++ Rm) h) "/api/v1/admin/settings" [] in
    (do a <- settings_app o nf na h P C1 C2 C3 Rm; bucket_tree a mGET)
      = Ok (one_edge "apiv1adminsettings" e) /\
    (forall q : string,
        find (one_edge "apiv1adminsettings" e) q
        = if String.eqb (unslash q) "apiv1adminsettings"
          then Ok (Some (e, ∅)) else Ok None) /\
    find (one_edge "apiv1adminsettings" e) "/api/v1/admin/settings" = Ok (Some (e, ∅)) /\
    find (one_edge "apiv1adminsettings" e) "/api/v1/admin/settings/" = Ok (Some (e, ∅)) /\
    find (one_edge "apiv1adminsettings" e) "/api/v1/admin" = Ok None /\
    find (one_edge "apiv1adminsettings" e) "/api/v1/admin/settings/x" = Ok None.
Proof.
  intros W o nf na h P C1 C2 C3 Rm e.
  assert (Hq : forall q : string,
             find (one_edge "apiv1adminsettings" e) q
             = if String.eqb (unslash q) "apiv1adminsettings"
               then Ok (Some (e, ∅)) else Ok None).
  { intros q. apply (find_one_edge e "a"%char "piv1adminsettings"); reflexivity. }
  split; [vm_compute; reflexivity|]. split; [exact Hq|].
  repeat split; rewrite Hq; reflexivity.
Qed.

(** ** [Split], [Join], [TrimSuffix] and [IndexByte] on joined segments *)

Lemma seg_ok_inv (s : string) : seg_ok s = true -> s <> "" /\ no_slash s = true.
Proof.
  unfold seg_ok. rewrite andb_true_iff, negb_true_iff, String.eqb_neq. tauto.
Qed.

Lemma Split_no_slash (s : string) : no_slash s = true -> Split s = [s].
Proof.
  induction s as [|c s IH]; [reflexivity|]. rewrite no_slash_cons. intros [Hc Hs].
  simpl. rewrite Hc, IH by assumption. reflexivity.
Qed.

Lemma Split_app (s rest : string) :
  no_slash s = true -> Split (s ++ String slash rest) = s :: Split rest.
Proof.
  induction s as [|c s IH]; simpl.
  - intros _. reflexivity.
  - rewrite no_slash_cons. intros [Hc Hs]. rewrite Hc, IH by assumption. reflexivity.
Qed.

Lemma Join_cons2 (s s' : string) (l : list string) :
  Join (s :: s' :: l) = s ++ String slash (Join (s' :: l)).
Proof. reflexivity. Qed.

Lemma Split_Join (segs : list string) :
  segs <> [] -> forallb seg_ok segs = true -> Split (Join segs) = segs.
Proof.
  induction segs as [|s segs IH]; [congruence|]. intros _ Hall.
  simpl in Hall. apply andb_true_iff in Hall as [Hs Hall].
  apply seg_ok_inv in Hs as [_ Hs].
  destruct segs as [|s' segs].
  - simpl. apply Split_no_slash, Hs.
  - rewrite Join_cons2, Split_app by exact Hs. rewrite IH; [reflexivity|discriminate|exact Hall].
Qed.

Lemma Join_not_empty (segs : list string) :
  segs <> [] -> forallb seg_ok segs = true -> Join segs <> "".
Proof.
  destruct segs as [|s segs]; [congruence|]. intros _ Hall.
  simpl in Hall. apply andb_true_iff in Hall as [Hs _].
  apply seg_ok_inv in Hs as [Hs _].
  destruct segs; simpl; [exact Hs|]. destruct s; [congruence | discriminate].
Qed.

Lemma TrimSuffix_app (a b : string) : b <> "" -> TrimSuffix (a ++ b) = a ++ TrimSuffix b.
Proof.
  intros Hb. induction a as [|c a IH]; [reflexivity|].
  change (String c a ++ b) with (String c (a ++ b)). cbn [TrimSuffix].
  destruct (a ++ b) eqn:E.
  - destruct a; simpl in E; [congruence | discriminate].
  - rewrite IH. reflexivity.
Qed.

Lemma TrimSuffix_no_slash (s : string) : no_slash s = true -> TrimSuffix s = s.
Proof.
  induction s as [|c s IH]; [reflexivity|]. rewrite no_slash_cons. intros [Hc Hs].
  cbn [TrimSuffix]. destruct s; [rewrite Hc; reflexivity|]. rewrite IH by exact Hs.
  reflexivity.
Qed.

Lemma TrimSuffix_Join (segs : list string) :
  forallb seg_ok segs = true -> TrimSuffix (Join segs) = Join segs.
Proof.
  induction segs as [|s segs IH]; [reflexivity|]. intros Hall.
  simpl in Hall. apply andb_true_iff in Hall as [Hs Hall].
  destruct segs as [|s' segs].
  - simpl. apply TrimSuffix_no_slash. apply seg_ok_inv in Hs. tauto.
  - rewrite Join_cons2. rewrite TrimSuffix_app by discriminate.
    change (String slash (Join (s' :: segs))) with ("/" ++ Join (s' :: segs)).
    rewrite TrimSuffix_app by (apply Join_not_empty; [discriminate | exact Hall]).
    rewrite IH by exact Hall. reflexivity.
Qed.

Lemma filter_seg_ok (segs : list string) :
  forallb seg_ok segs = true ->
  List.filter (fun seg => negb (String.eqb seg "")) segs = segs.
Proof.
  induction segs as [|s segs IH]; [reflexivity|]. simpl. intros Hall.
  apply andb_true_iff in Hall as [Hs Hall]. unfold seg_ok in Hs.
  apply andb_true_iff in Hs as [-> _]. rewrite IH by exact Hall. reflexivity.
Qed.

(** A path made of good segments is its own normal form. *)
Lemma cleanPath_Join (segs : list string) :
  segs <> [] -> forallb seg_ok segs = true ->
  cleanPath (String slash (Join segs)) = String slash (Join segs).
Proof.
  intros Hne Hall. unfold cleanPath. cbn [TrimPrefix]. rewrite Ascii.eqb_refl.
  rewrite TrimSuffix_Join, Split_Join, filter_seg_ok by assumption. reflexivity.
Qed.

Lemma IndexByte_no_slash (s : string) : no_slash s = true -> IndexByte s = None.
Proof.
  induction s as [|c s IH]; [reflexivity|]. rewrite no_slash_cons. intros [Hc Hs].
  simpl. rewrite Hc, IH by exact Hs. reflexivity.
Qed.

Lemma IndexByte_app (s rest : string) :
  no_slash s = true -> IndexByte (s ++ String slash rest) = Some (String.length s).
Proof.
  induction s as [|c s IH]; simpl.
  - intros _. reflexivity.
  - rewrite no_slash_cons. intros [Hc Hs]. rewrite Hc, IH by exact Hs. reflexivity.
Qed.

(** ** The lexer on structured patterns *)

Lemma regex_char_not_slash (c : ascii) :
  is_letter_ c || is_digit c = true -> Ascii.eqb c slash = false.
Proof.
  intros Hc. destruct (Ascii.eqb_spec c slash) as [->|]; [|reflexivity].
  vm_compute in Hc. discriminate.
Qed.

Lemma regex_no_slash (name : string) :
  paramRegex_MatchString name = true -> name <> "" /\ no_slash name = true.
Proof.
  destruct name as [|c name]; [discriminate|]. cbn [paramRegex_MatchString].
  rewrite andb_true_iff. intros [Hc Hn]. split; [discriminate|].
  rewrite no_slash_cons. split.
  - apply regex_char_not_slash. rewrite Hc. reflexivity.
  - induction name as [|d name IH]; [reflexivity|]. cbn [all_chars] in Hn.
    apply andb_true_iff in Hn as [Hd Hn]. rewrite no_slash_cons.
    split; [apply regex_char_not_slash, Hd | apply IH, Hn].
Qed.

Lemma lit_seg_inv (s : string) :
  lit_seg s = true ->
  exists c r, s = String c r /\ Ascii.eqb c ":"%char = false /\ Ascii.eqb c "*"%char = false
              /\ Ascii.eqb c slash = false /\ no_slash s = true.
Proof.
  destruct s as [|c r]; [discriminate|]. cbn [lit_seg].
  rewrite !andb_true_iff, !negb_true_iff. intros [[H1 H2] H3].
  exists c, r. repeat split; auto. apply no_slash_cons in H3. tauto.
Qed.

Lemma lit_seg_ok (s : string) : lit_seg s = true -> seg_ok s = true.
Proof.
  intros Hs. destruct (lit_seg_inv s Hs) as (c & r & -> & _ & _ & _ & Hn).
  unfold seg_ok. rewrite Hn. reflexivity.
Qed.

Lemma piece_segs_ok (x : piece) : piece_ok x = true -> forallb seg_ok (raw_of x) = true.
Proof.
  destruct x as [segs|name|]; cbn [piece_ok raw_of].
  - rewrite andb_true_iff. intros [_ Hall].
    induction segs as [|s segs IH]; [reflexivity|]. simpl in *.
    apply andb_true_iff in Hall as [Hs Hall]. rewrite lit_seg_ok, IH by assumption.
    reflexivity.
  - intros Hn. apply regex_no_slash in Hn as [_ Hn]. simpl.
    unfold seg_ok. simpl. rewrite andb_true_r. rewrite no_slash_cons. split; [reflexivity|exact Hn].
  - intros _. reflexivity.
Qed.

Lemma pattern_segs_ok (ps : list piece) :
  forallb piece_ok ps = true -> forallb seg_ok (pattern_segs ps) = true.
Proof.
  induction ps as [|x ps IH]; [reflexivity|]. simpl. rewrite andb_true_iff.
  intros [Hx Hps]. unfold pattern_segs. simpl. rewrite forallb_app.
  rewrite piece_segs_ok by exact Hx. apply IH, Hps.
Qed.

Lemma pattern_segs_not_nil (ps : list piece) :
  ps <> [] -> forallb piece_ok ps = true -> pattern_segs ps <> [].
Proof.
  destruct ps as [|x ps]; [congruence|]. intros _. simpl. rewrite andb_true_iff.
  intros [Hx _]. unfold pattern_segs. simpl.
  destruct x as [[|s segs]|name|]; simpl in *; try discriminate.
Qed.

Lemma cleanPath_render (ps : list piece) :
  ps <> [] -> forallb piece_ok ps = true -> cleanPath (render ps) = render ps.
Proof.
  intros Hne Hok. apply cleanPath_Join.
  - apply pattern_segs_not_nil; assumption.
  - apply pattern_segs_ok, Hok.
Qed.

Lemma getSegmentType_lit (s : string) : lit_seg s = true -> getSegmentType s = Ok static.
Proof.
  intros Hs. destruct (lit_seg_inv s Hs) as (c & r & -> & H1 & H2 & _).
  unfold getSegmentType. simpl. rewrite H1, H2. reflexivity.
Qed.

Lemma cat_lits (segs : list string) :
  segs <> [] -> forallb lit_seg segs = true ->
  exists c r, cat segs = String c r /\ getSegmentType (cat segs) = Ok static
              /\ no_slash (cat segs) = true.
Proof.
  destruct segs as [|s segs]; [congruence|]. intros _. simpl.
  rewrite andb_true_iff. intros [Hs Hall].
  destruct (lit_seg_inv s Hs) as (c & r & -> & H1 & H2 & H3 & Hn).
  exists c, (r ++ cat segs). split; [reflexivity|]. split.
  - unfold getSegmentType. simpl. rewrite H1, H2. reflexivity.
  - change (no_slash (String c r ++ cat segs) = true). rewrite no_slash_app.
    split; [exact Hn|]. clear -Hall.
    induction segs as [|s segs IH]; [reflexivity|]. simpl in *.
    apply andb_true_iff in Hall as [Hs Hall]. rewrite no_slash_app.
    split; [|apply IH, Hall]. destruct (lit_seg_inv s Hs) as (? & ? & _ & _ & _ & _ & Hn).
    exact Hn.
Qed.

Lemma splitPath_loop_lits (segs rest acc : list string) (cur : string) :
  forallb lit_seg segs = true ->
  splitPath_loop (segs ++ rest)%list acc cur = splitPath_loop rest acc (cur ++ cat segs).
Proof.
  revert cur. induction segs as [|s segs IH]; intros cur Hall.
  - simpl. rewrite append_nil_r. reflexivity.
  - simpl in Hall. apply andb_true_iff in Hall as [Hs Hall].
    cbn [app splitPath_loop]. rewrite getSegmentType_lit by exact Hs. cbn [obind].
    rewrite IH by exact Hall. cbn [cat fold_right]. rewrite append_assoc. reflexivity.
Qed.

Lemma splitPath_loop_pieces (ps : list piece) (acc : list string) (cur : string) :
  forallb piece_ok ps = true -> alternates ps = true ->
  cur = "" \/ match ps with Lit _ :: _ => False | _ => True end ->
  splitPath_loop (pattern_segs ps) acc cur = Ok (acc ++ flush cur ++ tokens ps)%list.
Proof.
  revert acc cur. induction ps as [|x ps IH]; intros acc cur Hok Halt Hcur.
  - simpl. unfold flush. destruct (String.eqb cur ""); [|reflexivity].
    rewrite app_nil_r. reflexivity.
  - cbn [forallb] in Hok. apply andb_true_iff in Hok as [Hx Hok].
    assert (Halt' : alternates ps = true).
    { destruct ps; [reflexivity|]. cbn [alternates] in Halt.
      apply andb_true_iff in Halt. tauto. }
    unfold pattern_segs. cbn [map concat]. fold (pattern_segs ps).
    destruct x as [segs|name|].
    + destruct Hcur as [->|[]]. cbn [piece_ok] in Hx.
      apply andb_true_iff in Hx as [Hne Hall].
      cbn [raw_of]. rewrite splitPath_loop_lits by exact Hall.
      destruct (cat_lits segs) as (c & r & Hc & _); [|exact Hall|].
      { destruct segs; [discriminate | discriminate]. }
      rewrite IH; [| exact Hok | exact Halt' |].
      * cbn [tokens map token_of]. unfold flush. simpl String.append. rewrite Hc.
        reflexivity.
      * right. destruct ps as [|[]]; auto. discriminate.
    + cbn [raw_of app splitPath_loop]. unfold getSegmentType. cbn [sidx String.get].
      cbn [Ascii.eqb Bool.eqb obind].
      rewrite IH; [| exact Hok | exact Halt' | left; reflexivity].
      cbn [tokens map token_of]. unfold flush.
      destruct (String.eqb cur ""); cbn [String.eqb]; rewrite <- ?app_assoc; reflexivity.
    + cbn [raw_of app splitPath_loop]. unfold getSegmentType. cbn [sidx String.get].
      cbn [Ascii.eqb Bool.eqb obind].
      rewrite IH; [| exact Hok | exact Halt' | left; reflexivity].
      cbn [tokens map token_of]. unfold flush.
      destruct (String.eqb cur ""); cbn [String.eqb]; rewrite <- ?app_assoc; reflexivity.
Qed.

Lemma splitPath_render (ps : list piece) :
  ps <> [] -> forallb piece_ok ps = true -> alternates ps = true ->
  splitPath (render ps) = Ok (tokens ps).
Proof.
  intros Hne Hok Halt. unfold splitPath, render. cbn [TrimPrefix].
  rewrite Ascii.eqb_refl.
  rewrite Split_Join by (auto using pattern_segs_not_nil, pattern_segs_ok).
  rewrite splitPath_loop_pieces by auto. reflexivity.
Qed.

(** ** The validator on structured patterns *)

Lemma isValidPath_loop_pieces (ps : list piece) (i len : nat)
    (prev : option nType) (keys : gset string) :
  forallb piece_ok ps = true -> alternates ps = true -> star_last ps = true ->
  NoDup (names ps) ->
  len = i + List.length ps ->
  match prev, ps with
  | Some pt, x :: _ => pt = static \/ is_lit x = true
  | _, _ => True
  end ->
  (forall n, In n (names ps) -> String ":"%char n ∉ keys) ->
  isValidPath_loop (tokens ps) i len prev keys = Ok true.
Proof.
  revert i prev keys.
  induction ps as [|x ps IH]; intros i prev keys Hok Halt Hstar Hnd Hlen Hprev Hkeys;
    [reflexivity|].
  cbn [forallb] in Hok. apply andb_true_iff in Hok as [Hx Hok].
  assert (Halt' : alternates ps = true).
  { destruct ps; [reflexivity|]. cbn [alternates] in Halt.
    apply andb_true_iff in Halt. tauto. }
  assert (Hnext : is_lit x = false -> forall t : nType,
            match Some t, ps with
            | Some pt, y :: _ => pt = static \/ is_lit y = true
            | _, _ => True
            end).
  { intros Hx' t. destruct ps as [|y ps]; [exact I|]. right.
    cbn [alternates] in Halt. apply andb_true_iff in Halt as [Hxy _].
    rewrite Hx' in Hxy. destruct (is_lit y); [reflexivity | discriminate]. }
  cbn [tokens map isValidPath_loop]. fold (tokens ps).
  destruct x as [segs|name|].
  - cbn [piece_ok] in Hx. apply andb_true_iff in Hx as [Hne Hall].
    destruct (cat_lits segs) as (c & r & Hc & Hty & _); [|exact Hall|].
    { destruct segs; discriminate. }
    cbn [token_of]. rewrite Hty, Hc. cbn [String.eqb obind nType_eqb negb andb].
    destruct prev; cbn [andb]; rewrite ?andb_false_r.
    + apply IH; auto.
      * destruct ps; [reflexivity|]. cbn [star_last] in Hstar. exact Hstar.
      * cbn [List.length] in Hlen. lia.
      * destruct ps; auto.
    + apply IH; auto.
      * destruct ps; [reflexivity|]. cbn [star_last] in Hstar. exact Hstar.
      * cbn [List.length] in Hlen. lia.
      * destruct ps; auto.
  - cbn [piece_ok] in Hx. cbn [token_of String.eqb].
    unfold getSegmentType. cbn [sidx String.get Ascii.eqb Bool.eqb obind].
    assert (Hp : match prev with
                 | Some pt => negb (nType_eqb pt static) && negb (nType_eqb param static)
                 | None => false
                 end = false).
    { destruct prev as [pt|]; [|reflexivity]. destruct Hprev as [->|Hl]; [reflexivity|].
      discriminate. }
    rewrite Hp. cbn [nType_eqb andb negb sfrom].
    assert (Hk : String ":"%char name ∉ keys) by (apply Hkeys; left; reflexivity).
    rewrite bool_decide_eq_false_2 by exact Hk. rewrite Hx. cbn [negb].
    cbn [names map concat name_of app] in Hnd. fold (names ps) in Hnd.
    apply NoDup_cons in Hnd as [Hnin Hnd].
    apply IH; auto.
    + destruct ps; [reflexivity|]. cbn [star_last] in Hstar. exact Hstar.
    + cbn [List.length] in Hlen. lia.
    + apply Hnext. reflexivity.
    + intros n Hn. rewrite elem_of_union, elem_of_singleton.
      intros [[= ->]|Hin]; [apply Hnin, list_elem_of_In, Hn|].
      revert Hin. apply Hkeys. right. exact Hn.
  - cbn [token_of String.eqb].
    unfold getSegmentType. cbn [sidx String.get Ascii.eqb Bool.eqb obind].
    assert (Hp : match prev with
                 | Some pt => negb (nType_eqb pt static) && negb (nType_eqb catchAll static)
                 | None => false
                 end = false).
    { destruct prev as [pt|]; [|reflexivity]. destruct Hprev as [->|Hl]; [reflexivity|].
      discriminate. }
    rewrite Hp. cbn [nType_eqb andb negb].
    destruct ps as [|y ps]; [|cbn [star_last] in Hstar; discriminate].
    cbn [List.length] in Hlen. replace (len - 1) with i by lia.
    rewrite Nat.eqb_refl. reflexivity.
Qed.

Lemma well_formed_inv (ps : list piece) :
  well_formed ps = true ->
  ps <> [] /\ forallb piece_ok ps = true /\ alternates ps = true
  /\ star_last ps = true /\ NoDup (names ps).
Proof.
  unfold well_formed. rewrite !andb_true_iff, negb_true_iff, Nat.eqb_neq.
  intros [[[[H1 H2] H3] H4] H5]. apply bool_decide_eq_true in H5.
  repeat split; auto. intros ->. apply H1. reflexivity.
Qed.

Lemma isValidPath_render (ps : list piece) :
  well_formed ps = true -> isValidPath (render ps) = Ok true.
Proof.
  intros Hwf. destruct (well_formed_inv ps Hwf) as (Hne & Hok & Halt & Hstar & Hnd).
  unfold isValidPath. rewrite splitPath_render by assumption. cbn [obind].
  apply isValidPath_loop_pieces; auto.
  - unfold tokens. rewrite length_map. reflexivity.
  - intros n _. apply not_elem_of_empty.
Qed.

(** ** Pointers into the tree *)

Local Open Scope list_scope.

Section Cursors.
Context {H : Type}.
Implicit Types (n t v : node H) (cur : cursor) (e : edge).

Lemma lookup_put_child (cs : list (ascii * node H)) (l : ascii) (c : node H) :
  lookup_child (put_child cs l c) l = Some c.
Proof.
  induction cs as [|[k c0] cs IH]; simpl.
  - rewrite Ascii.eqb_refl. reflexivity.
  - destruct (Ascii.eqb k l) eqn:E; simpl; rewrite E; [reflexivity | exact IH].
Qed.

Lemma put_put_child (cs : list (ascii * node H)) (l : ascii) (c1 c2 : node H) :
  put_child (put_child cs l c1) l c2 = put_child cs l c2.
Proof.
  induction cs as [|[k c0] cs IH]; simpl.
  - rewrite Ascii.eqb_refl. reflexivity.
  - destruct (Ascii.eqb k l) eqn:E; simpl; rewrite E; [reflexivity|]. rewrite IH. reflexivity.
Qed.

Lemma follow_replace_at n e (c : node H) : follow (replace_at n e c) e = Some c.
Proof.
  destruct e as [l|ty]; simpl.
  - apply lookup_put_child.
  - destruct ty; reflexivity.
Qed.

Lemma replace_replace_at n e (c1 c2 : node H) :
  replace_at (replace_at n e c1) e c2 = replace_at n e c2.
Proof.
  destruct e as [l|ty]; simpl.
  - unfold addChild. simpl. rewrite put_put_child. reflexivity.
  - destruct ty; reflexivity.
Qed.

Lemma deref_app t cur cur' :
  deref t (cur ++ cur') = match deref t cur with
                          | Some n => deref n cur'
                          | None => None
                          end.
Proof.
  revert t. induction cur as [|e cur IH]; intros t; simpl; [reflexivity|].
  destruct (follow t e); [apply IH | reflexivity].
Qed.

Lemma deref_assign t cur n v : deref t cur = Some n -> deref (assign t cur v) cur = Some v.
Proof.
  revert t. induction cur as [|e cur IH]; intros t; simpl; [reflexivity|].
  destruct (follow t e) as [c|] eqn:E; [|discriminate]. intros Hc.
  rewrite follow_replace_at. apply IH, Hc.
Qed.

Lemma assign_assign t cur n v1 v2 :
  deref t cur = Some n -> assign (assign t cur v1) cur v2 = assign t cur v2.
Proof.
  revert t. induction cur as [|e cur IH]; intros t; simpl; [reflexivity|].
  destruct (follow t e) as [c|] eqn:E; [|discriminate]. intros Hc.
  rewrite follow_replace_at, replace_replace_at, IH by exact Hc. reflexivity.
Qed.

Lemma assign_app t cur cur' n v :
  deref t cur = Some n -> assign t (cur ++ cur') v = assign t cur (assign n cur' v).
Proof.
  revert t. induction cur as [|e cur IH]; intros t; simpl.
  - intros [= ->]. reflexivity.
  - destruct (follow t e) as [c|] eqn:E; [|discriminate]. intros Hc.
    rewrite IH by exact Hc. reflexivity.
Qed.

(** Writing a new child under the node at [cur], then writing below that
    child. *)
Lemma assign_below t cur n e (c g : node H) :
  deref t cur = Some n ->
  assign (assign t cur (replace_at n e c)) (cur ++ [e]) g = assign t cur (replace_at n e g).
Proof.
  intros Hn.
  rewrite (assign_app _ cur [e] (replace_at n e c)) by (eapply deref_assign; exact Hn).
  cbn [assign]. rewrite follow_replace_at, replace_replace_at.
  apply (assign_assign _ _ n), Hn.
Qed.

Lemma deref_below t cur n e (c : node H) :
  deref t cur = Some n ->
  deref (assign t cur (replace_at n e c)) (cur ++ [e]) = Some c.
Proof.
  intros Hn. rewrite deref_app, (deref_assign _ _ n) by exact Hn.
  cbn [deref]. rewrite follow_replace_at. reflexivity.
Qed.

End Cursors.

(** ** Fuel of [insert_static]

    An iteration that goes on moves [cur] to a child, so the height of the
    node under [cur] bounds the iterations. *)

Section InsertFuel.
Context {H : Type}.

Lemma height_follow (n c : node H) (e : edge) : follow n e = Some c -> height c < height n.
Proof.
  destruct n as [k pre cs sp ep]. destruct e as [l|ty]; cbn [follow children special].
  - intros Hl. cbn [height].
    match goal with |- _ < S (Nat.max ?o _) => assert (Ho : height c <= o) end; [|lia].
    induction cs as [|[k' c'] cs IH]; cbn [lookup_child] in Hl; [discriminate|].
    destruct (Ascii.eqb k' l).
    + injection Hl as ->. lia.
    + specialize (IH Hl). lia.
  - intros Hs. cbn [height]. destruct sp as [s0 s1 s2].
    destruct ty; cbn [slot_get at_static at_param at_catchAll] in *; subst; lia.
Qed.

Lemma height_deref (t n : node H) (cur : cursor) : deref t cur = Some n -> height n <= height t.
Proof.
  revert t. induction cur as [|e cur IH]; intros t; cbn [deref].
  - intros [= ->]. lia.
  - destruct (follow t e) as [c|] eqn:E; [|discriminate]. intros Hn.
    specialize (IH c Hn). pose proof (height_follow t c e E). lia.
Qed.

Lemma insert_static_fuel (fuel : nat) (t : tree H) (cur : cursor) (n : node H)
    (search : string) :
  deref t cur = Some n -> height n <= fuel ->
  insert_static fuel t cur search <> OutOfFuel.
Proof.
  revert cur n search. induction fuel as [|fuel IH]; intros cur n search Hn Hh.
  - destruct n; cbn [height] in Hh. lia.
  - destruct search as [|c0 search]; [discriminate|]. cbn [insert_static]. rewrite Hn.
    destruct (lookup_child (children n) c0) as [next|] eqn:El; [|discriminate].
    destruct (Nat.ltb _ _).
    + destruct (sidx _ 0); [|discriminate].
      destruct (Nat.ltb _ _); [|discriminate]. destruct (sidx _ 0); discriminate.
    + apply (IH _ next).
      * rewrite deref_app, Hn. cbn [deref follow]. rewrite El. reflexivity.
      * pose proof (height_follow n next (EChild c0) El). lia.
Qed.

Lemma getSegmentType_cases (s : string) :
  getSegmentType s = Panic \/ exists ty, getSegmentType s = Ok ty.
Proof.
  unfold getSegmentType. destruct (sidx s 0); [|left; reflexivity].
  right. destruct (Ascii.eqb _ _); [eauto|]. destruct (Ascii.eqb _ _); eauto.
Qed.

Lemma insert_loop_fuel (segs : list string) (t : tree H) (cur : cursor)
    (keys : list string) :
  insert_loop segs t cur keys <> OutOfFuel.
Proof.
  revert t cur keys. induction segs as [|seg segs IH]; intros t cur keys; [discriminate|].
  cbn [insert_loop].
  destruct (getSegmentType_cases seg) as [->|[ty ->]]; [discriminate|].
  destruct ty; cbn [obind].
  - destruct (insert_static (S (height t)) t cur seg) as [[t' cur']| |] eqn:E;
      cbn [obind]; [apply IH | discriminate |].
    exfalso. destruct (deref t cur) as [m|] eqn:Em.
    + revert E. apply (insert_static_fuel _ _ _ m); [exact Em|].
      pose proof (height_deref t m cur Em). lia.
    + destruct seg as [|c0 seg]; cbn [insert_static] in E; [discriminate|].
      rewrite Em in E. discriminate.
  - destruct (insert_special t cur param) as [[t' cur']| |] eqn:E; cbn [obind];
      [apply IH | discriminate |].
    unfold insert_special in E. destruct (deref t cur); [|discriminate].
    destruct (slot_get _ _); discriminate.
  - destruct (insert_special t cur catchAll) as [[t' cur']| |] eqn:E; cbn [obind];
      [apply IH | discriminate |].
    unfold insert_special in E. destruct (deref t cur); [|discriminate].
    destruct (slot_get _ _); discriminate.
Qed.

(** [insert] returns or panics; it never runs out of fuel. *)
Lemma insert_total (t : tree H) (p : string) (f : H) : insert t p f <> OutOfFuel.
Proof.
  unfold insert.
  assert (Hs : splitPath (cleanPath p) <> OutOfFuel).
  { unfold splitPath. generalize (@nil string). generalize ""%string.
    induction (Split (TrimPrefix (cleanPath p))) as [|seg raw IHr]; intros cur acc;
      [discriminate|].
    cbn [splitPath_loop]. unfold getSegmentType. destruct (sidx seg 0); [|discriminate].
    destruct (Ascii.eqb _ _); [apply IHr|]. destruct (Ascii.eqb _ _); apply IHr. }
  unfold isValidPath.
  destruct (splitPath (cleanPath p)) as [segs| |]; cbn [obind]; [|discriminate|congruence].
  assert (Hv : forall i len prev keys,
             isValidPath_loop segs i len prev keys <> OutOfFuel).
  { clear. induction segs as [|seg segs IHs]; intros i len prev keys; [discriminate|].
    cbn [isValidPath_loop]. destruct (String.eqb seg ""); [apply IHs|].
    unfold getSegmentType. destruct (sidx seg 0); [|discriminate].
    destruct (Ascii.eqb _ _); [|destruct (Ascii.eqb _ _)]; cbn [obind];
      repeat (match goal with |- context [if ?b then _ else _] => destruct b end;
              try discriminate); apply IHs. }
  destruct (isValidPath_loop segs 0 (List.length segs) None ∅) as [[|]| |] eqn:Ev;
    cbn [obind negb]; try discriminate; [|exfalso; exact (Hv _ _ _ _ Ev)].
  destruct (insert_loop segs t [] []) as [[[t' cur] keys]| |] eqn:El; cbn [obind].
  - destruct (deref t' cur); discriminate.
  - discriminate.
  - exfalso. exact (insert_loop_fuel segs t [] [] El).
Qed.

End InsertFuel.

Section InsertPattern.
Context {H : Type}.

Lemma insert_loop_fresh (ps : list piece) (t : tree H) (cur : cursor) (n : node H)
    (keys : list string) :
  deref t cur = Some n -> children n = [] -> special n = no_slots ->
  forallb piece_ok ps = true ->
  exists t' cur' n',
    insert_loop (tokens ps) t cur keys = Ok (t', cur', keys ++ names ps) /\
    deref t' cur' = Some n' /\
    forall e, assign t' cur' (setEndpoint n' (Some e)) = assign t cur (graft n ps e).
Proof.
  revert t cur n keys.
  induction ps as [|x ps IH]; intros t cur n keys Hn Hch Hsp Hok.
  - exists t, cur, n. cbn. rewrite app_nil_r. auto.
  - cbn [forallb] in Hok. apply andb_true_iff in Hok as [Hx Hok].
    cbn [tokens map insert_loop]. fold (tokens ps).
    destruct x as [segs|name|].
    + cbn [piece_ok] in Hx. apply andb_true_iff in Hx as [Hne Hall].
      destruct (cat_lits segs) as (c0 & r & Hc & Hty & _); [|exact Hall|].
      { destruct segs; discriminate. }
      cbn [token_of]. rewrite Hty. cbn [obind]. rewrite Hc.
      cbn [insert_static]. rewrite Hn, Hch. cbn [lookup_child obind].
      set (new := newNode static (String c0 r)).
      destruct (IH (assign t cur (addChild n c0 new)) (cur ++ [EChild c0]) new keys)
        as (t' & cur' & n' & Hl & Hd & Hfin); auto.
      { apply (deref_below t cur n (EChild c0) new Hn). }
      exists t', cur', n'. split; [|split].
      * rewrite Hl. reflexivity.
      * exact Hd.
      * intros e. rewrite Hfin. cbn [graft]. rewrite Hc.
        apply (assign_below t cur n (EChild c0) new _ Hn).
    + cbn [token_of]. unfold getSegmentType. cbn [sidx String.get Ascii.eqb Bool.eqb obind].
      unfold insert_special. rewrite Hn, Hsp. cbn [slot_get no_slots at_param obind sfrom].
      set (new := newNode param "").
      destruct (IH (assign t cur (addSpecial n param new)) (cur ++ [ESpecial param]) new
                  (keys ++ [name]))
        as (t' & cur' & n' & Hl & Hd & Hfin); auto.
      { apply (deref_below t cur n (ESpecial param) new Hn). }
      exists t', cur', n'. split; [|split].
      * rewrite Hl. rewrite <- app_assoc. reflexivity.
      * exact Hd.
      * intros e. rewrite Hfin. cbn [graft].
        apply (assign_below t cur n (ESpecial param) new _ Hn).
    + cbn [token_of]. unfold getSegmentType. cbn [sidx String.get Ascii.eqb Bool.eqb obind].
      unfold insert_special. rewrite Hn, Hsp. cbn [slot_get no_slots at_catchAll obind].
      set (new := newNode catchAll "").
      destruct (IH (assign t cur (addSpecial n catchAll new)) (cur ++ [ESpecial catchAll]) new
                  (keys ++ ["*"%string]))
        as (t' & cur' & n' & Hl & Hd & Hfin); auto.
      { apply (deref_below t cur n (ESpecial catchAll) new Hn). }
      exists t', cur', n'. split; [|split].
      * rewrite Hl. rewrite <- app_assoc. reflexivity.
      * exact Hd.
      * intros e. rewrite Hfin. cbn [graft].
        apply (assign_below t cur n (ESpecial catchAll) new _ Hn).
Qed.

(** Registering a well-formed pattern in the empty tree. *)
Lemma insert_render (ps : list piece) (f : H) :
  well_formed ps = true ->
  insert newTree (render ps) f
  = Ok (graft newTree ps (Endpoint f (render ps) (names ps))).
Proof.
  intros Hwf. destruct (well_formed_inv ps Hwf) as (Hne & Hok & Halt & Hstar & Hnd).
  unfold insert. rewrite cleanPath_render by assumption.
  rewrite isValidPath_render by exact Hwf. cbn [obind negb].
  rewrite splitPath_render by assumption. cbn [obind].
  destruct (insert_loop_fresh ps newTree [] newTree []) as (t' & cur' & n' & Hl & Hd & Hfin);
    auto.
  rewrite Hl. cbn [obind app]. rewrite Hd. unfold newEndpoint. rewrite Hfin. reflexivity.
Qed.

End InsertPattern.

(** ** The resolver along one pattern *)

Lemma Join_app (segs more : list string) :
  segs <> [] ->
  Join (segs ++ more)
  = (Join segs ++ match more with [] => "" | _ => String slash (Join more) end)%string.
Proof.
  induction segs as [|s segs IH]; [congruence|]. intros _.
  destruct segs as [|s' segs].
  - destruct more; simpl; [rewrite append_nil_r|]; reflexivity.
  - change ((s :: s' :: segs) ++ more) with (s :: (s' :: segs) ++ more).
    cbn [app]. rewrite !Join_cons2. change (s' :: segs ++ more) with ((s' :: segs) ++ more).
    rewrite IH by discriminate. rewrite append_assoc. reflexivity.
Qed.

Section FindPattern.
Context {H : Type}.

(** One iteration on a path that does not start with ['/']. *)
Lemma find_loop_step (fuel : nat) params (cur : node H) pl start (c : ascii) (p' : string) :
  Ascii.eqb c slash = false ->
  find_loop (S fuel) params cur pl start (String c p')
  = match lookup_child (children cur) (match pl with Some l => l | None => c end) with
    | Some st =>
        if Nat.ltb (String.length (prefix st)) start then Panic
        else
          if Nat.eqb (String.length (longestPrefix (String c p') (sfrom start (prefix st)))) 0
          then find_result cur params
          else if Nat.eqb
                    (String.length (longestPrefix (String c p') (sfrom start (prefix st)))
                     + start)
                    (String.length (prefix st))
          then find_loop fuel params st None 0
                 (sfrom (String.length (longestPrefix (String c p') (sfrom start (prefix st))))
                    (String c p'))
          else find_loop fuel params cur (Some (match pl with Some l => l | None => c end))
                 (start + String.length (longestPrefix (String c p') (sfrom start (prefix st))))
                 (sfrom (String.length (longestPrefix (String c p') (sfrom start (prefix st))))
                    (String c p'))
    | None =>
        match slot_get (special cur) param with
        | Some pn =>
            match IndexByte (String c p') with
            | None => find_loop fuel (params ++ [String c p']) pn pl start ""
            | Some j =>
                find_loop fuel (params ++ [sto j (String c p')]) pn pl start
                  (sfrom (j + 1) (String c p'))
            end
        | None =>
            match slot_get (special cur) catchAll with
            | Some cn => find_loop fuel (params ++ [String c p']) cn pl start ""
            | None => Ok None
            end
        end
    end.
Proof. intros Hc. cbn [find_loop]. rewrite Hc. reflexivity. Qed.

(** A literal edge [N] below [cur] whose prefix is [done ++ cat segs], of
    which [done] is consumed: the request run [Join segs] takes the
    resolver into [N]. *)
Lemma find_loop_lit_run (segs : list string) :
  forall (done : string) (fuel : nat) params (cur N : node H) (c0 : ascii) (r0 : string)
         (pl : option ascii) (rest : string),
    segs <> [] -> forallb lit_seg segs = true ->
    lookup_child (children cur) c0 = Some N ->
    prefix N = (done ++ cat segs)%string ->
    (done ++ cat segs)%string = String c0 r0 ->
    (pl = None /\ done = "") \/ pl = Some c0 ->
    rest = "" \/ (exists rest', rest = String slash rest') ->
    String.length (Join segs ++ rest)%string <= fuel ->
    find_loop fuel params cur pl (String.length done) (Join segs ++ rest)%string
    = find_loop (String.length rest) params N None 0 rest.
Proof.
  induction segs as [|s segs IH]; [congruence|].
  intros done fuel params cur N c0 r0 pl rest _ Hall Hch Hpre Hc0 Hpl Hrest Hfuel.
  cbn [forallb] in Hall. apply andb_true_iff in Hall as [Hs Hall].
  destruct (lit_seg_inv s Hs) as (c & r & -> & _ & _ & Hc & Hns).
  assert (Hlabel : match pl with Some l => l | None => c end = c0).
  { destruct Hpl as [[-> ->]| ->]; [|reflexivity].
    cbn in Hc0. injection Hc0 as -> _. reflexivity. }
  assert (Hlen : String.length (prefix N)
                 = String.length done + (String.length (String c r) + String.length (cat segs))).
  { rewrite Hpre. cbn [cat fold_right]. rewrite !length_append. reflexivity. }
  assert (Hfrom : sfrom (String.length done) (prefix N) = (String c r ++ cat segs)%string).
  { rewrite Hpre. apply sfrom_app_length. }
  set (s := String c r) in *.
  assert (Hs0 : Nat.eqb (String.length s) 0 = false) by reflexivity.
  destruct segs as [|s2 segs].
  - (* last segment of the run: the edge is consumed *)
    cbn [Join] in *. cbn [cat fold_right] in Hfrom, Hlen. rewrite append_nil_r in Hfrom.
    destruct fuel as [|fuel]; [cbn in Hfuel; lia|].
    rewrite (find_loop_step fuel params cur pl _ c (r ++ rest)%string Hc).
    change (String c (r ++ rest)%string) with (s ++ rest)%string.
    rewrite Hlabel, Hch.
    destruct (Nat.ltb_spec (String.length (prefix N)) (String.length done)) as [|_]; [lia|].
    rewrite longestPrefix_spec, Hfrom, common_prefix_self_app, Hs0.
    rewrite (proj2 (Nat.eqb_eq _ _)) by (cbn [String.length] in Hlen; lia).
    rewrite sfrom_app_length.
    apply find_loop_fuel; [lia|].
    rewrite length_append in Hfuel.
    assert (String.length s = S (String.length r)) by reflexivity. lia.
  - (* more segments follow: the edge is consumed in part *)
    rewrite Join_cons2, append_assoc.
    cbn [forallb] in Hall. pose proof Hall as Hall2.
    apply andb_true_iff in Hall2 as [Hs2 _].
    destruct (lit_seg_inv s2 Hs2) as (c2 & r2 & -> & _ & _ & Hc2 & _).
    set (more := (String slash (Join (String c2 r2 :: segs)) ++ rest)%string).
    destruct fuel as [|fuel]; [cbn in Hfuel; lia|].
    rewrite (find_loop_step fuel params cur pl _ c (r ++ more)%string Hc).
    change (String c (r ++ more)%string) with (s ++ more)%string.
    rewrite Hlabel, Hch.
    destruct (Nat.ltb_spec (String.length (prefix N)) (String.length done)) as [|_]; [lia|].
    rewrite longestPrefix_spec, Hfrom.
    rewrite common_prefix_app_diff.
    2:{ subst more. change (Ascii.eqb slash c2 = false). rewrite Ascii.eqb_sym. exact Hc2. }
    rewrite Hs0.
    rewrite (proj2 (Nat.eqb_neq _ _)).
    2:{ rewrite Hlen. cbn. lia. }
    rewrite sfrom_app_length.
    assert (Hfuel' : String.length more <= fuel).
    { assert (String.length s = S (String.length r)) by reflexivity.
      subst more. rewrite Join_cons2 in Hfuel.
      rewrite !length_append in Hfuel. rewrite length_append.
      cbn [String.length] in Hfuel |- *. lia. }
    subst more.
    change (String slash (Join (String c2 r2 :: segs)) ++ rest)%string
      with (String slash (Join (String c2 r2 :: segs) ++ rest)) in *.
    destruct fuel as [|fuel]; [cbn in Hfuel'; lia|].
    cbn [find_loop]. rewrite Ascii.eqb_refl.
    replace (String.length done + String.length s)
      with (String.length (done ++ s)%string) by apply length_append.
    apply (IH (done ++ s)%string fuel params cur N c0 r0 (Some c0) rest).
    + discriminate.
    + exact Hall.
    + exact Hch.
    + rewrite Hpre. cbn [cat fold_right]. rewrite !append_assoc. reflexivity.
    + rewrite <- Hc0. cbn [cat fold_right]. rewrite !append_assoc. reflexivity.
    + right. reflexivity.
    + exact Hrest.
    + cbn [String.length] in Hfuel'. lia.
Qed.

Lemma prefix_graft (n : node H) (ps : list piece) (e : endpoint H) :
  prefix (graft n ps e) = prefix n.
Proof.
  destruct ps as [|[segs|name|] ps]; cbn [graft]; try reflexivity.
  destruct (cat segs); reflexivity.
Qed.

Lemma find_result_hit (n : node H) (e : endpoint H) params :
  endpt n = Some e -> find_result n params = hit e params.
Proof. intros He. unfold find_result, hit. rewrite He. reflexivity. Qed.

(** The resolver on the tree of one pattern, from the node the pattern
    was grafted on. *)
Lemma find_loop_graft (ps : list piece) (e : endpoint H) :
  forall (vals : list string) (n0 : node H) params (fuel : nat),
    forallb piece_ok ps = true -> values_ok ps vals = true -> star_last ps = true ->
    children n0 = [] -> special n0 = no_slots ->
    String.length (Join (request_segs ps vals)) <= fuel ->
    find_loop fuel params (graft n0 ps e) None 0 (Join (request_segs ps vals))
    = hit e (params ++ vals).
Proof.
  induction ps as [|x ps IH]; intros vals n0 params fuel Hok Hv Hstar Hch Hsp Hfuel.
  - destruct vals; [|discriminate]. cbn [request_segs Join graft]. rewrite app_nil_r.
    destruct fuel; cbn [find_loop]; apply find_result_hit; reflexivity.
  - cbn [forallb] in Hok. apply andb_true_iff in Hok as [Hx Hok].
    assert (Hstar' : star_last ps = true).
    { destruct ps; [reflexivity|]. destruct x; cbn [star_last] in Hstar;
        try exact Hstar; discriminate. }
    destruct x as [segs|name|].
    + (* a literal run *)
      cbn [piece_ok] in Hx. apply andb_true_iff in Hx as [Hne Hall].
      assert (Hne' : segs <> []) by (destruct segs; [discriminate | congruence]).
      destruct (cat_lits segs Hne' Hall) as (c0 & r0 & Hc & _ & _).
      cbn [values_ok] in Hv. cbn [request_segs graft] in *. rewrite Hc.
      set (N := graft (newNode static (String c0 r0)) ps e).
      rewrite Join_app in Hfuel |- * by exact Hne'.
      rewrite (find_loop_lit_run segs "" fuel params _ N c0 r0 None); auto.
      * destruct (request_segs ps vals) as [|m more] eqn:Em.
        -- specialize (IH vals (newNode static (String c0 r0)) params 0
                         Hok Hv Hstar' eq_refl eq_refl).
           rewrite Em in IH. apply IH. cbn. lia.
        -- cbn [String.length find_loop]. rewrite Ascii.eqb_refl.
           rewrite <- Em. subst N. apply (IH vals); auto.
      * cbn [addChild children]. rewrite Hch. cbn. rewrite Ascii.eqb_refl. reflexivity.
      * subst N. rewrite prefix_graft, Hc. reflexivity.
      * destruct (request_segs ps vals); [left; reflexivity | right; eauto].
    + (* a parameter *)
      destruct vals as [|v vals]; [discriminate|].
      cbn [values_ok value_ok] in Hv. apply andb_true_iff in Hv as [Hval Hv].
      apply andb_true_iff in Hval as [Hv1 Hv2]. apply negb_true_iff, String.eqb_neq in Hv1.
      destruct v as [|c r]; [congruence|]. pose proof Hv2 as Hv2'.
      apply no_slash_cons in Hv2' as [Hc _].
      cbn [request_segs graft] in *.
      set (N := graft (newNode param "") ps e).
      destruct fuel as [|fuel]; [destruct (request_segs ps vals); cbn in Hfuel; lia|].
      destruct (request_segs ps vals) as [|m more] eqn:Em.
      * cbn [Join]. rewrite (find_loop_step fuel params _ None 0 c r Hc).
        cbn [addSpecial children special slot_set slot_get at_param]. rewrite Hch.
        cbn [lookup_child]. rewrite IndexByte_no_slash by exact Hv2.
        change (String c r :: vals) with ([String c r] ++ vals). rewrite app_assoc.
        specialize (IH vals (newNode param "") (params ++ [String c r]) fuel
                      Hok Hv Hstar' eq_refl eq_refl).
        rewrite Em in IH. apply IH. cbn. lia.
      * rewrite Join_cons2 in Hfuel |- *.
        change (String c r ++ String slash (Join (m :: more)))%string
          with (String c (r ++ String slash (Join (m :: more)))).
        rewrite (find_loop_step fuel params _ None 0 c _ Hc).
        change (String c (r ++ String slash (Join (m :: more))))
          with (String c r ++ String slash (Join (m :: more)))%string.
        cbn [addSpecial children special slot_set slot_get at_param]. rewrite Hch.
        cbn [lookup_child]. rewrite IndexByte_app by exact Hv2.
        rewrite sto_app_length, sfrom_add, sfrom_app_length. cbn [sfrom].
        change (String c r :: vals) with ([String c r] ++ vals). rewrite app_assoc.
        rewrite <- Em. apply (IH vals); auto.
        rewrite Em. rewrite length_append in Hfuel. cbn [String.length] in Hfuel. lia.
    + (* the catch-all *)
      destruct ps; [|discriminate].
      destruct vals as [|v vals]; [discriminate|].
      cbn [values_ok] in Hv. apply andb_true_iff in Hv as [Hv Hv'].
      destruct vals; [|discriminate].
      cbn [value_ok] in Hv. destruct v as [|c r]; [discriminate|].
      apply negb_true_iff in Hv.
      cbn [request_segs graft Join] in *.
      destruct fuel as [|fuel]; [cbn in Hfuel; lia|].
      rewrite (find_loop_step fuel params _ None 0 c r Hv).
      cbn [addSpecial children special slot_set slot_get at_param at_catchAll]. rewrite Hch, Hsp.
      cbn [lookup_child no_slots at_param]. destruct fuel; cbn [find_loop];
        apply find_result_hit; reflexivity.
Qed.

End FindPattern.

(** ** The endpoints of a tree built by registrations *)

Section Endpoints.
Context {H : Type}.
Implicit Types (n t v c : node H) (e : endpoint H) (cur : cursor).

Lemma endpoints_unfold n :
  endpoints n
  = match endpt n with Some e => [e] | None => [] end
    ++ flat_map (fun kc => endpoints (snd kc)) (children n)
    ++ slot_endpoints (at_static (special n)) ++ slot_endpoints (at_param (special n))
    ++ slot_endpoints (at_catchAll (special n)).
Proof.
  destruct n as [k pre cs sp ep]. cbn [endpoints endpt children special].
  f_equal. f_equal. induction cs as [|[l c] cs IH]; [reflexivity|].
  cbn [flat_map snd]. rewrite <- IH. reflexivity.
Qed.

Lemma lookup_child_In (cs : list (ascii * node H)) (l : ascii) c :
  lookup_child cs l = Some c -> exists k, In (k, c) cs.
Proof.
  induction cs as [|[k c0] cs IH]; cbn [lookup_child]; [discriminate|].
  destruct (Ascii.eqb k l).
  - intros [= ->]. exists k. left. reflexivity.
  - intros Hc. destruct (IH Hc) as [k' Hk]. exists k'. right. exact Hk.
Qed.

Lemma put_child_In (cs : list (ascii * node H)) (l k : ascii) c c' :
  In (k, c') (put_child cs l c) -> c' = c \/ In (k, c') cs.
Proof.
  induction cs as [|[k0 c0] cs IH]; cbn [put_child].
  - intros [[= _ <-]|[]]. left. reflexivity.
  - destruct (Ascii.eqb k0 l); cbn [In].
    + intros [[= _ <-]|Hin]; [left; reflexivity | right; right; exact Hin].
    + intros [Heq|Hin]; [right; left; exact Heq|].
      destruct (IH Hin) as [->|Hin']; [left; reflexivity | right; right; exact Hin'].
Qed.

Lemma endpoints_follow n c (ed : edge) e :
  follow n ed = Some c -> In e (endpoints c) -> In e (endpoints n).
Proof.
  intros Hf He. rewrite (endpoints_unfold n). rewrite !in_app_iff.
  destruct ed as [l|ty]; cbn [follow] in Hf.
  - right. left. apply in_flat_map. destruct (lookup_child_In _ _ _ Hf) as [k Hk].
    exists (k, c). split; [exact Hk | exact He].
  - destruct ty; cbn [slot_get] in Hf; rewrite Hf; cbn [slot_endpoints]; tauto.
Qed.

Lemma endpoints_deref t cur n e :
  deref t cur = Some n -> In e (endpoints n) -> In e (endpoints t).
Proof.
  revert t. induction cur as [|ed cur IH]; intros t; cbn [deref].
  - intros [= ->]. auto.
  - destruct (follow t ed) as [c|] eqn:E; [|discriminate]. intros Hn He.
    apply (endpoints_follow t c ed e E). apply IH; assumption.
Qed.

Lemma endpoints_addChild n (l : ascii) c e :
  In e (endpoints (addChild n l c)) -> In e (endpoints n) \/ In e (endpoints c).
Proof.
  rewrite (endpoints_unfold (addChild n l c)), (endpoints_unfold n).
  cbn [addChild endpt children special]. rewrite !in_app_iff, !in_flat_map.
  intros [He|[[[k c'] [Hin He]]|He]]; [tauto| |tauto].
  cbn [snd] in He. destruct (put_child_In _ _ _ _ _ Hin) as [->|Hin'].
  - right. exact He.
  - left. right. left. exists (k, c'). auto.
Qed.

Lemma endpoints_addSpecial n (ty : nType) c e :
  In e (endpoints (addSpecial n ty c)) -> In e (endpoints n) \/ In e (endpoints c).
Proof.
  rewrite (endpoints_unfold (addSpecial n ty c)), (endpoints_unfold n).
  cbn [addSpecial endpt children special]. rewrite !in_app_iff.
  destruct ty; cbn [slot_set at_static at_param at_catchAll slot_endpoints]; tauto.
Qed.

Lemma endpoints_replace_at n (ed : edge) c e :
  In e (endpoints (replace_at n ed c)) -> In e (endpoints n) \/ In e (endpoints c).
Proof.
  destruct ed; cbn [replace_at]; [apply endpoints_addChild | apply endpoints_addSpecial].
Qed.

Lemma endpoints_assign t cur v e :
  In e (endpoints (assign t cur v)) -> In e (endpoints t) \/ In e (endpoints v).
Proof.
  revert t. induction cur as [|ed cur IH]; intros t; cbn [assign]; [tauto|].
  destruct (follow t ed) as [c|] eqn:E; [|tauto]. intros He.
  apply endpoints_replace_at in He as [He|He]; [tauto|].
  apply IH in He as [He|He]; [|tauto]. left. exact (endpoints_follow t c ed e E He).
Qed.

(** [insert_static] moves endpoints and creates none. *)
Lemma endpoints_insert_static (fuel : nat) t cur (search : string) t' cur' e :
  insert_static fuel t cur search = Ok (t', cur') ->
  In e (endpoints t') -> In e (endpoints t).
Proof.
  revert cur search. induction fuel as [|fuel IH]; intros cur search.
  - destruct search; cbn [insert_static]; [|discriminate]. intros [= <- <-]. auto.
  - destruct search as [|c0 search]; cbn [insert_static]; [intros [= <- <-]; auto|].
    destruct (deref t cur) as [curN|] eqn:Ec; [|discriminate].
    destruct (lookup_child (children curN) c0) as [next|] eqn:El.
    + assert (Hnext : forall x, In x (endpoints next) -> In x (endpoints t)).
      { intros x Hx. apply (endpoints_deref t cur curN x Ec).
        apply (endpoints_follow curN next (EChild c0) x El Hx). }
      set (lcp := longestPrefix (String c0 search) (prefix next)).
      set (rem := sfrom (String.length lcp) (prefix next)).
      set (new := copyFrom (newNode static rem) (setPrefix next lcp)).
      assert (Hnew : forall x, In x (endpoints new) -> In x (endpoints next)).
      { intros x. rewrite (endpoints_unfold new), (endpoints_unfold next). auto. }
      set (next2 := setEndpoint (clearChildren (setPrefix next lcp)) None).
      assert (Hn2 : endpoints next2 = []) by reflexivity.
      destruct (Nat.ltb _ _).
      * destruct (sidx rem 0) as [r0|]; [|discriminate].
        destruct (Nat.ltb _ _).
        -- destruct (sidx _ 0) as [s0|]; [|discriminate]. intros [= <- <-] He.
           apply endpoints_assign in He as [He|He]; [exact He|].
           apply endpoints_addChild in He as [He|He]; [|destruct He].
           apply endpoints_addChild in He as [He|He]; [rewrite Hn2 in He; destruct He|].
           auto.
        -- intros [= <- <-] He.
           apply endpoints_assign in He as [He|He]; [exact He|].
           apply endpoints_addChild in He as [He|He]; [rewrite Hn2 in He; destruct He|].
           auto.
      * apply IH.
    + intros [= <- <-] He.
      apply endpoints_assign in He as [He|He]; [exact He|].
      apply endpoints_addChild in He as [He|He]; [|destruct He].
      exact (endpoints_deref t cur curN e Ec He).
Qed.

Lemma endpoints_insert_special t cur (ty : nType) t' cur' e :
  insert_special t cur ty = Ok (t', cur') ->
  In e (endpoints t') -> In e (endpoints t).
Proof.
  unfold insert_special. destruct (deref t cur) as [curN|] eqn:Ec; [|discriminate].
  destruct (slot_get (special curN) ty); intros [= <- <-]; [auto|]. intros He.
  apply endpoints_assign in He as [He|He]; [exact He|].
  apply endpoints_addSpecial in He as [He|He]; [|destruct He].
  exact (endpoints_deref t cur curN e Ec He).
Qed.

Lemma insert_loop_endpoints (segs : list string) t cur (keys : list string) t' cur' keys' :
  insert_loop segs t cur keys = Ok (t', cur', keys') ->
  keys' = keys ++ param_keys segs /\
  forall e, In e (endpoints t') -> In e (endpoints t).
Proof.
  revert t cur keys. induction segs as [|seg segs IH]; intros t cur keys.
  - cbn. intros [= <- <- <-]. rewrite app_nil_r. auto.
  - cbn [insert_loop param_keys].
    destruct (getSegmentType seg) as [[| |]| |]; cbn [obind]; try discriminate.
    + destruct (insert_static _ t cur seg) as [[t1 cur1]| |] eqn:E1; cbn [obind];
        try discriminate.
      intros Hl. destruct (IH _ _ _ Hl) as [-> Hin]. split; [reflexivity|].
      intros e He. exact (endpoints_insert_static _ _ _ _ _ _ e E1 (Hin e He)).
    + destruct (insert_special t cur param) as [[t1 cur1]| |] eqn:E1; cbn [obind];
        try discriminate.
      intros Hl. destruct (IH _ _ _ Hl) as [-> Hin]. split.
      * rewrite <- app_assoc. reflexivity.
      * intros e He. exact (endpoints_insert_special _ _ _ _ _ e E1 (Hin e He)).
    + destruct (insert_special t cur catchAll) as [[t1 cur1]| |] eqn:E1; cbn [obind];
        try discriminate.
      intros Hl. destruct (IH _ _ _ Hl) as [-> Hin]. split.
      * rewrite <- app_assoc. reflexivity.
      * intros e He. exact (endpoints_insert_special _ _ _ _ _ e E1 (Hin e He)).
Qed.

(** After [insert t p f], an endpoint of the tree is an endpoint of [t] or
    the record registered for [(p, f)]. *)
Lemma endpoints_insert t (p : string) (f : H) t' e :
  insert t p f = Ok t' -> In e (endpoints t') ->
  In e (endpoints t) \/ registered e p f.
Proof.
  unfold insert. destruct (isValidPath (cleanPath p)) as [[|]| |]; cbn [obind negb];
    try discriminate; [|intros [= <-]; auto].
  destruct (splitPath (cleanPath p)) as [segs| |] eqn:Es; cbn [obind]; try discriminate.
  destruct (insert_loop segs t [] []) as [[[t1 cur] keys]| |] eqn:El; cbn [obind];
    try discriminate.
  destruct (insert_loop_endpoints _ _ _ _ _ _ _ El) as [-> Hin].
  destruct (deref t1 cur) as [curN|] eqn:Ec; [|discriminate]. intros [= <-] He.
  apply endpoints_assign in He as [He|He]; [left; auto|].
  rewrite (endpoints_unfold (setEndpoint curN _)) in He.
  cbn [setEndpoint endpt children special] in He.
  cbn [app In] in He. destruct He as [<-|He].
  - right. exists segs. split; [exact Es | reflexivity].
  - left. apply Hin. apply (endpoints_deref t1 cur curN e Ec).
    rewrite (endpoints_unfold curN). apply in_app_iff. right. exact He.
Qed.

Lemma endpoints_register_all (routes : list (string * H)) t t' e :
  register_all routes t = Ok t' -> In e (endpoints t') ->
  In e (endpoints t) \/ exists p f, In (p, f) routes /\ registered e p f.
Proof.
  revert t. induction routes as [|[p f] routes IH]; intros t; cbn [register_all].
  - intros [= <-]. auto.
  - destruct (insert t p f) as [t1| |] eqn:Ei; cbn [obind]; try discriminate.
    intros Hr He. destruct (IH _ Hr He) as [He1|(p' & f' & Hin & Hreg)].
    + destruct (endpoints_insert _ _ _ _ _ Ei He1) as [He0|Hreg]; [left; exact He0|].
      right. exists p, f. split; [left; reflexivity | exact Hreg].
    + right. exists p', f'. split; [right; exact Hin | exact Hreg].
Qed.

(** What a successful [fill_pMap] returns has the keys it was given. *)
Lemma fill_pMap_dom (keys : list string) (i : nat) (params : list string)
    (m m' : gmap string string) :
  fill_pMap keys i params m = Ok m' -> dom m' = list_to_set keys ∪ dom m.
Proof.
  revert i m. induction keys as [|k keys IH]; intros i m; cbn [fill_pMap].
  - intros [= <-]. cbn. rewrite (left_id_L ∅ (∪)). reflexivity.
  - destruct (nth_error params i) as [v|]; [|discriminate]. intros Hf.
    rewrite (IH _ _ Hf). rewrite dom_insert_L. cbn [list_to_set].
    rewrite (assoc_L (∪)). rewrite (comm_L (∪) (list_to_set keys) {[k]}). reflexivity.
Qed.

(** A hit of [find] returns an endpoint stored in the tree and a map whose
    key set is the endpoint's list of parameter names. *)
Lemma find_loop_hit (fuel : nat) params (c0 : node H) pl start (p : string) e
    (m : gmap string string) :
  find_loop fuel params c0 pl start p = Ok (Some (e, m)) ->
  In e (endpoints c0) /\ dom m = list_to_set (pKeys e).
Proof.
  assert (Hres : forall c ps, find_result c ps = Ok (Some (e, m)) ->
                   In e (endpoints c) /\ dom m = list_to_set (pKeys e)).
  { intros c ps. unfold find_result. destruct (endpt c) as [e0|] eqn:Ee; [|discriminate].
    destruct (fill_pMap (pKeys e0) 0 ps ∅) as [m0| |] eqn:Ef; cbn [obind]; try discriminate.
    intros [= <- <-]. split.
    - rewrite (endpoints_unfold c), Ee. left. reflexivity.
    - rewrite (fill_pMap_dom _ _ _ _ _ Ef). rewrite dom_empty_L.
      apply (right_id_L ∅ (∪)). }
  revert params c0 pl start p. induction fuel as [|fuel IH]; intros params c0 pl start p.
  - destruct p; cbn [find_loop]; [apply Hres | discriminate].
  - destruct p as [|c p]; cbn [find_loop]; [apply Hres|].
    destruct (Ascii.eqb c slash); [apply IH|].
    destruct (lookup_child _ _) as [st|] eqn:El.
    + destruct (Nat.ltb _ _); [discriminate|].
      destruct (Nat.eqb _ 0); [apply Hres|].
      destruct (Nat.eqb _ _).
      * intros Hf. destruct (IH _ _ _ _ _ Hf) as [He Hd]. split; [|exact Hd].
        exact (endpoints_follow c0 st (EChild _) e El He).
      * apply IH.
    + destruct (slot_get (special c0) param) as [pn|] eqn:Ep.
      * assert (Hpn : forall x, In x (endpoints pn) -> In x (endpoints c0)).
        { intros x. exact (endpoints_follow c0 pn (ESpecial param) x Ep). }
        destruct (IndexByte _); intros Hf; destruct (IH _ _ _ _ _ Hf); auto.
      * destruct (slot_get (special c0) catchAll) as [cn|] eqn:Ecn; [|discriminate].
        intros Hf. destruct (IH _ _ _ _ _ Hf) as [He Hd]. split; [|exact Hd].
        exact (endpoints_follow c0 cn (ESpecial catchAll) e Ecn He).
Qed.

(** On a tree built by registrations, a hit is the endpoint of a registered
    route, and the keys of the map are the parameter names of its
    pattern. *)
Lemma find_registered (routes : list (string * H)) t (q : string) e (m : gmap string string) :
  register_all routes newTree = Ok t -> find t q = Ok (Some (e, m)) ->
  (exists p f, In (p, f) routes /\ registered e p f) /\ dom m = list_to_set (pKeys e).
Proof.
  intros Hr Hf. destruct (find_loop_hit _ _ _ _ _ _ _ _ Hf) as [He Hd]. split; [|exact Hd].
  destruct (endpoints_register_all _ _ _ _ Hr He) as [[]|Hreg]. exact Hreg.
Qed.

End Endpoints.

(** ** Insertions that start below a special slot of the root

    When the first token of a pattern is dynamic, [insert] writes the root's
    [special] array and then only below that slot: the root's children map
    is left as it was. *)

Section BelowSpecial.
Context {H : Type}.
Implicit Types (t v : node H) (cur : cursor).

Lemma children_assign_special t (ty : nType) cur v :
  children (assign t (ESpecial ty :: cur) v) = children t.
Proof.
  cbn [assign]. destruct (follow t (ESpecial ty)); reflexivity.
Qed.

Lemma insert_static_below (fuel : nat) t (ty : nType) cur (search : string) t' cur' :
  insert_static fuel t (ESpecial ty :: cur) search = Ok (t', cur') ->
  children t' = children t /\ exists c', cur' = ESpecial ty :: c'.
Proof.
  revert cur search. induction fuel as [|fuel IH]; intros cur search.
  - destruct search; cbn [insert_static]; [|discriminate]. intros [= <- <-]. eauto.
  - destruct search as [|c0 search]; cbn [insert_static]; [intros [= <- <-]; eauto|].
    destruct (deref t (ESpecial ty :: cur)) as [curN|]; [|discriminate].
    destruct (lookup_child (children curN) c0) as [next|].
    + destruct (Nat.ltb _ _).
      * destruct (sidx _ 0) as [r0|]; [|discriminate].
        destruct (Nat.ltb _ _).
        -- destruct (sidx _ 0) as [s0|]; [|discriminate]. intros [= <- <-].
           split; [apply (children_assign_special t ty (cur ++ [EChild c0]))|]. eauto.
        -- intros [= <- <-].
           split; [apply (children_assign_special t ty (cur ++ [EChild c0]))|]. eauto.
      * apply (IH (cur ++ [EChild c0])).
    + intros [= <- <-]. split; [apply children_assign_special|]. eauto.
Qed.

Lemma insert_special_below t (ty ty' : nType) cur t' cur' :
  insert_special t (ESpecial ty :: cur) ty' = Ok (t', cur') ->
  children t' = children t /\ exists c', cur' = ESpecial ty :: c'.
Proof.
  unfold insert_special. destruct (deref t (ESpecial ty :: cur)) as [curN|]; [|discriminate].
  destruct (slot_get (special curN) ty'); intros [= <- <-]; [eauto|].
  split; [apply children_assign_special|]. eauto.
Qed.

Lemma insert_loop_below (segs : list string) t (ty : nType) cur (keys : list string)
    t' cur' keys' :
  insert_loop segs t (ESpecial ty :: cur) keys = Ok (t', cur', keys') ->
  children t' = children t /\ exists c', cur' = ESpecial ty :: c'.
Proof.
  revert t cur keys. induction segs as [|seg segs IH]; intros t cur keys.
  - cbn. intros [= <- <- <-]. eauto.
  - cbn [insert_loop].
    destruct (getSegmentType seg) as [[| |]| |]; cbn [obind]; try discriminate.
    + destruct (insert_static _ t _ seg) as [[t1 cur1]| |] eqn:E1; cbn [obind];
        try discriminate.
      destruct (insert_static_below _ _ _ _ _ _ _ E1) as [Hc [c1 ->]].
      intros Hl. destruct (IH _ _ _ Hl) as [Hc' Hcur]. rewrite Hc', Hc. auto.
    + destruct (insert_special t _ param) as [[t1 cur1]| |] eqn:E1; cbn [obind];
        try discriminate.
      destruct (insert_special_below _ _ _ _ _ _ E1) as [Hc [c1 ->]].
      intros Hl. destruct (IH _ _ _ Hl) as [Hc' Hcur]. rewrite Hc', Hc. auto.
    + destruct (insert_special t _ catchAll) as [[t1 cur1]| |] eqn:E1; cbn [obind];
        try discriminate.
      destruct (insert_special_below _ _ _ _ _ _ E1) as [Hc [c1 ->]].
      intros Hl. destruct (IH _ _ _ Hl) as [Hc' Hcur]. rewrite Hc', Hc. auto.
Qed.

Lemma insert_special_root t (ty : nType) t1 cur1 :
  insert_special t [] ty = Ok (t1, cur1) ->
  children t1 = children t /\ cur1 = [ESpecial ty].
Proof.
  unfold insert_special. cbn [deref].
  destruct (slot_get (special t) ty); intros [= <- <-]; auto.
Qed.

Lemma insert_first_dynamic t (p : string) (f : H) t' (seg : string) (segs : list string)
    (ty : nType) :
  splitPath (cleanPath p) = Ok (seg :: segs) ->
  getSegmentType seg = Ok ty -> ty <> static ->
  insert t p f = Ok t' -> children t' = children t.
Proof.
  intros Hs Hty Hdyn. unfold insert.
  destruct (isValidPath (cleanPath p)) as [[|]| |]; cbn [obind negb]; try discriminate;
    [|intros [= <-]; reflexivity].
  rewrite Hs. cbn [obind insert_loop]. rewrite Hty. cbn [obind].
  destruct ty; [congruence| |].
  - destruct (insert_special t [] param) as [[t1 cur1]| |] eqn:E1; cbn [obind];
      try discriminate.
    destruct (insert_special_root _ _ _ _ E1) as [Hc ->].
    destruct (insert_loop segs t1 [ESpecial param] _) as [[[t2 cur2] keys]| |] eqn:El;
      cbn [obind]; try discriminate.
    destruct (insert_loop_below _ _ _ _ _ _ _ _ El) as [Hc2 [c2 ->]].
    destruct (deref t2 _); [|discriminate]. intros [= <-].
    transitivity (children t2); [exact (children_assign_special t2 param c2 _) | congruence].
  - destruct (insert_special t [] catchAll) as [[t1 cur1]| |] eqn:E1; cbn [obind];
      try discriminate.
    destruct (insert_special_root _ _ _ _ E1) as [Hc ->].
    destruct (insert_loop segs t1 [ESpecial catchAll] _) as [[[t2 cur2] keys]| |] eqn:El;
      cbn [obind]; try discriminate.
    destruct (insert_loop_below _ _ _ _ _ _ _ _ El) as [Hc2 [c2 ->]].
    destruct (deref t2 _); [|discriminate]. intros [= <-].
    transitivity (children t2); [exact (children_assign_special t2 catchAll c2 _) | congruence].
Qed.

End BelowSpecial.

(** Through the router, such a registration leaves the application as it
    was. *)
Lemma Handle_first_dynamic {W : Type} (a a' : App (W := W)) (m : method) (r : Router)
    (p : string) (ms : list (Middleware Request W)) (h : HandlerFunc Request W)
    (seg : string) (segs : list string) (ty : nType) :
  splitPath (cleanPath (cleanPath (rpath r ++ p))) = Ok (seg :: segs) ->
  getSegmentType seg = Ok ty -> ty <> static ->
  Handle (newRoute a r m p ms) h a = Ok a' -> a' = a.
Proof.
  intros Hs Hty Hdyn. unfold Handle, newRoute, getTree.
  destruct (trees_get (trees a) m) as [stored|] eqn:Eg; [|discriminate].
  cbn [route_t route_path route_mws]. unfold through, write_back. cbn [bucket copy].
  rewrite Eg. rewrite node_eta.
  destruct (insert stored _ _) as [n'| |] eqn:Ei; cbn [obind]; try discriminate.
  intros [= <-].
  rewrite (insert_first_dynamic _ _ _ _ _ _ _ Hs Hty Hdyn Ei).
  rewrite node_eta, (trees_set_same _ _ _ Eg). destruct a; reflexivity.
Qed.

(** ** C9 *)

(** C9 (fails on the code): a valid pattern whose first segment is a
    parameter or the catch-all is accepted and then lost.  Registered
    through the router, ["/:id"] and ["/*"] leave the application exactly
    as it was, and the matching request is answered by [notFound]; on the
    tree itself (same pointer for [insert] and [find]) the route resolves.
    The same holds of every pattern whose first token is dynamic: whenever
    its registration returns, the application is unchanged. *)
Theorem C9_root_dynamic_route_is_lost :
  forall (W : Type) (EqualFold : string -> string -> bool)
         (o nf na h : HandlerFunc Request W),
    let a1 := snd (App_Router (New o nf na false) "/" []) in
    let r := fst (App_Router (New o nf na false) "/" []) in
    isValidPath (cleanPath "/:id") = Ok true /\
    Handle (Get a1 r "/:id" []) h a1 = Ok a1 /\
    internalHandler EqualFold a1 (GET_request "/42") = Ok (Serve nf (GET_request "/42")) /\
    (do t <- insert newTree "/:id" h; find t "/42")
      = Ok (Some (Endpoint h "/:id" ["id"%string], {[ "id"%string := "42"%string ]})) /\
    isValidPath (cleanPath "/*") = Ok true /\
    Handle (Get a1 r "/*" []) h a1 = Ok a1 /\
    internalHandler EqualFold a1 (GET_request "/a/b") = Ok (Serve nf (GET_request "/a/b")) /\
    (do t <- insert newTree "/*" h; find t "/a/b")
      = Ok (Some (Endpoint h "/*" ["*"%string], {[ "*"%string := "a/b"%string ]})) /\
    (forall (a a' : App (W := W)) (rt : Router) (p seg : string) (segs : list string)
            (ty : nType) (ms : list (Middleware Request W)),
        splitPath (cleanPath (cleanPath (rpath rt ++ p))) = Ok (seg :: segs) ->
        getSegmentType seg = Ok ty -> ty <> static ->
        Handle (Get a rt p ms) h a = Ok a' -> a' = a).
Proof.
  intros. repeat split; try (vm_compute; reflexivity).
  intros a a' rt p seg segs ty ms Hs Hty Hdyn Hh.
  exact (Handle_first_dynamic a a' mGET rt p ms h seg segs ty Hs Hty Hdyn Hh).
Qed.

Lemma C9_root_dynamic_route_is_lost_witness :
  splitPath (cleanPath (cleanPath ("/" ++ "/:id/posts"))) = Ok [":id"%string; "posts"%string] /\
  getSegmentType ":id" = Ok param /\ param <> static /\
  Handle (Get (New idle_handler idle_handler idle_handler false) (mkRouter "/" [])
            "/:id/posts" []) idle_handler
    (New idle_handler idle_handler idle_handler false)
  = Ok (New idle_handler idle_handler idle_handler false) /\
  New idle_handler idle_handler idle_handler false
  = New idle_handler idle_handler idle_handler false.
Proof.
  assert (Hs : splitPath (cleanPath (cleanPath ("/" ++ "/:id/posts")))
               = Ok [":id"%string; "posts"%string]) by reflexivity.
  assert (Hty : getSegmentType ":id" = Ok param) by reflexivity.
  assert (Hdyn : param <> static) by discriminate.
  assert (Hh : Handle (Get (New idle_handler idle_handler idle_handler false)
                         (mkRouter "/" []) "/:id/posts" []) idle_handler
                 (New idle_handler idle_handler idle_handler false)
               = Ok (New idle_handler idle_handler idle_handler false))
    by (vm_compute; reflexivity).
  split; [exact Hs|]. split; [exact Hty|]. split; [exact Hdyn|]. split; [exact Hh|].
  exact (proj2 (proj2 (proj2 (proj2 (proj2 (proj2 (proj2 (proj2
           (C9_root_dynamic_route_is_lost nat (fun _ _ => false)
              idle_handler idle_handler idle_handler idle_handler))))))))
           _ _ (mkRouter "/" []) "/:id/posts"%string ":id"%string ["posts"%string]
           param [] Hs Hty Hdyn Hh).
Defined.

(** ** The parameter map *)

Lemma fill_pMap_zip (keys vals pre : list string) (m : gmap string string) :
  NoDup keys -> List.length keys = List.length vals ->
  fill_pMap keys (List.length pre) (pre ++ vals) m
  = Ok (list_to_map (zip keys vals) ∪ m).
Proof.
  revert vals pre m. induction keys as [|k keys IH]; intros vals pre m Hnd Hlen.
  - destruct vals; [|discriminate]. cbn. rewrite (left_id_L ∅ (∪)). reflexivity.
  - destruct vals as [|v vals]; [discriminate|]. cbn [fill_pMap].
    rewrite nth_error_app2 by lia. rewrite Nat.sub_diag. cbn [nth_error].
    apply NoDup_cons in Hnd as [Hnin Hnd].
    change (pre ++ v :: vals) with (pre ++ [v] ++ vals). rewrite app_assoc.
    replace (S (List.length pre)) with (List.length (pre ++ [v]))
      by (rewrite length_app; cbn; lia).
    rewrite IH by (auto; cbn in Hlen; lia).
    f_equal. cbn [zip zip_with list_to_map foldr]. cbn.
    rewrite <- insert_union_l. symmetry. apply insert_union_r.
    apply not_elem_of_list_to_map_1. intros Hin. apply Hnin.
    apply list_elem_of_fmap in Hin as [[k' v'] [-> Hin]].
    apply elem_of_zip_l in Hin. exact Hin.
Qed.

Lemma values_ok_length (ps : list piece) (vals : list string) :
  values_ok ps vals = true -> List.length (names ps) = List.length vals.
Proof.
  revert vals. induction ps as [|x ps IH]; intros vals Hv.
  - destruct vals; [reflexivity | discriminate].
  - destruct x as [segs|name|]; cbn [values_ok] in Hv.
    + apply IH, Hv.
    + destruct vals as [|v vals]; [discriminate|]. apply andb_true_iff in Hv as [_ Hv].
      cbn. f_equal. apply IH, Hv.
    + destruct vals as [|v vals]; [discriminate|]. apply andb_true_iff in Hv as [_ Hv].
      cbn. f_equal. apply IH, Hv.
Qed.

(** Registering a well-formed pattern in an empty tree and resolving a
    request that instantiates it. *)
Lemma find_insert_render {H : Type} (ps : list piece) (vals : list string) (f : H) :
  well_formed ps = true -> values_ok ps vals = true ->
  (do t <- insert newTree (render ps) f; find t (request ps vals))
  = Ok (Some (Endpoint f (render ps) (names ps), list_to_map (zip (names ps) vals))).
Proof.
  intros Hwf Hv. rewrite insert_render by exact Hwf. cbn [obind].
  destruct (well_formed_inv ps Hwf) as (Hne & Hok & Halt & Hstar & Hnd).
  unfold find, request. cbn [String.length find_loop]. rewrite Ascii.eqb_refl.
  rewrite find_loop_graft; auto.
  unfold hit. cbn [pKeys app].
  rewrite (fill_pMap_zip (names ps) vals [] ∅ Hnd (values_ok_length ps vals Hv)).
  cbn [obind]. rewrite (right_id_L ∅ (∪)). reflexivity.
Qed.

(** ** C5 *)

(** C5 as stated fails: the token for [/foo/bar] is [foobar]; the
    separator is not kept. *)
Lemma C5_counterexample :
  splitPath "/foo/bar" = Ok ["foobar"%string] /\
  splitPath "/foo/bar" <> Ok ["foo/bar"%string].
Proof. split; [reflexivity | discriminate]. Qed.

(** C5 (amended): the splitter merges every maximal run of consecutive
    literal segments into a single token, their concatenation without the
    separators, and leaves each dynamic segment as a token of its own.  An
    all-literal pattern is one token; [splitPath "/foo/bar" = ["foobar"]]
    and [splitPath "/foo/:id/bar" = ["foo"; ":id"; "bar"]]. *)
Theorem C5_splitPath_merges_literal_runs :
  forall ps : list piece,
    ps <> [] -> forallb piece_ok ps = true -> alternates ps = true ->
    splitPath (render ps) = Ok (tokens ps) /\
    (forall segs, ps = [Lit segs] ->
       splitPath (String slash (Join segs)) = Ok [cat segs]) /\
    splitPath "/foo/bar" = Ok ["foobar"%string] /\
    splitPath "/foo/:id/bar" = Ok ["foo"%string; ":id"%string; "bar"%string].
Proof.
  intros ps Hne Hok Halt.
  pose proof (splitPath_render ps Hne Hok Halt) as Hs.
  split; [exact Hs|]. split; [|split; reflexivity].
  intros segs ->. unfold render, pattern_segs in Hs. cbn in Hs.
  rewrite app_nil_r in Hs. exact Hs.
Qed.

Lemma C5_splitPath_merges_literal_runs_witness :
  [Lit ["api"%string; "v1"%string]; Par "id"; Lit ["files"%string]; Star] <> [] /\
  forallb piece_ok [Lit ["api"%string; "v1"%string]; Par "id"; Lit ["files"%string]; Star] = true /\
  alternates [Lit ["api"%string; "v1"%string]; Par "id"; Lit ["files"%string]; Star] = true /\
  splitPath "/api/v1/:id/files/*" = Ok ["apiv1"%string; ":id"%string; "files"%string; "*"%string].
Proof.
  split; [discriminate|]. split; [reflexivity|]. split; [reflexivity|].
  apply (C5_splitPath_merges_literal_runs
           [Lit ["api"%string; "v1"%string]; Par "id"; Lit ["files"%string]; Star]);
    [discriminate | reflexivity | reflexivity].
Defined.

(** * Further properties of the code *)

(** ** [cleanPath]: the non-empty segments, joined *)

Local Open Scope string_scope.

Lemma Split_not_nil (p : string) : Split p <> [].
Proof.
  destruct p as [|c p]; simpl; [discriminate|].
  destruct (Ascii.eqb c slash); [discriminate|].
  destruct (Split p); discriminate.
Qed.

Lemma Split_forall_no_slash (p : string) : forallb no_slash (Split p) = true.
Proof.
  induction p as [|c p IH]; [reflexivity|].
  simpl. destruct (Ascii.eqb c slash) eqn:Hc.
  - exact IH.
  - destruct (Split p) as [|hd tl]; simpl in *.
    + unfold no_slash. simpl. rewrite Hc. reflexivity.
    + apply andb_true_iff in IH as [Hh Ht]. rewrite Ht, andb_true_r.
      unfold no_slash in *. simpl. rewrite Hc, Hh. reflexivity.
Qed.

Lemma Split_snoc_slash (q : string) :
  Split (q ++ String slash "") = (Split q ++ [""])%list.
Proof.
  induction q as [|c q IH]; [reflexivity|].
  simpl. destruct (Ascii.eqb c slash).
  - rewrite IH. reflexivity.
  - rewrite IH. pose proof (Split_not_nil q) as Hq.
    destruct (Split q); [congruence|reflexivity].
Qed.

Lemma TrimSuffix_cases (p : string) :
  TrimSuffix p = p \/ p = TrimSuffix p ++ String slash "".
Proof.
  induction p as [|c p IH]; [left; reflexivity|].
  destruct p as [|c' p'].
  - simpl. destruct (Ascii.eqb c slash) eqn:Hc.
    + right. apply Ascii.eqb_eq in Hc. subst c. reflexivity.
    + left. reflexivity.
  - change (TrimSuffix (String c (String c' p')))
      with (String c (TrimSuffix (String c' p'))).
    destruct IH as [IH|IH].
    + left. rewrite IH. reflexivity.
    + right. simpl. f_equal. exact IH.
Qed.

Lemma filter_Split_TrimSuffix (p : string) :
  List.filter (fun seg => negb (String.eqb seg "")) (Split (TrimSuffix p))
  = List.filter (fun seg => negb (String.eqb seg "")) (Split p).
Proof.
  destruct (TrimSuffix_cases p) as [E|E]; [rewrite E; reflexivity|].
  rewrite E at 2. rewrite Split_snoc_slash, List.filter_app. simpl.
  rewrite app_nil_r. reflexivity.
Qed.

Lemma filter_Split_TrimPrefix (p : string) :
  List.filter (fun seg => negb (String.eqb seg "")) (Split (TrimPrefix p))
  = List.filter (fun seg => negb (String.eqb seg "")) (Split p).
Proof.
  destruct p as [|c p]; [reflexivity|].
  simpl. destruct (Ascii.eqb c slash) eqn:Hc; [reflexivity|].
  simpl. rewrite Hc. reflexivity.
Qed.

Lemma cleanPath_spec (p : string) :
  cleanPath p = String slash (Join (List.filter (fun seg => negb (String.eqb seg "")) (Split p))).
Proof.
  unfold cleanPath. rewrite filter_Split_TrimSuffix, filter_Split_TrimPrefix. reflexivity.
Qed.

Lemma cleanPath_segs_ok (p : string) :
  forallb seg_ok (List.filter (fun seg => negb (String.eqb seg "")) (Split p)) = true.
Proof.
  pose proof (Split_forall_no_slash p) as Hs.
  induction (Split p) as [|s l IH]; [reflexivity|].
  simpl in Hs. apply andb_true_iff in Hs as [Hs Hl].
  simpl. destruct (String.eqb s "") eqn:Es; simpl; [exact (IH Hl)|].
  rewrite (IH Hl), andb_true_r. unfold seg_ok. rewrite Es, Hs. reflexivity.
Qed.

Lemma cleanPath_idem (p : string) : cleanPath (cleanPath p) = cleanPath p.
Proof.
  rewrite (cleanPath_spec p).
  pose proof (cleanPath_segs_ok p) as Hok.
  destruct (List.filter (fun seg => negb (String.eqb seg "")) (Split p)) as [|s l] eqn:E.
  - reflexivity.
  - apply cleanPath_Join; [discriminate|exact Hok].
Qed.

Lemma cleanPath_root_iff (p : string) :
  cleanPath p = "/" <-> List.filter (fun seg => negb (String.eqb seg "")) (Split p) = [].
Proof.
  rewrite cleanPath_spec. pose proof (cleanPath_segs_ok p) as Hok.
  destruct (List.filter (fun seg => negb (String.eqb seg "")) (Split p)) as [|s l] eqn:E.
  - split; reflexivity.
  - split; [|discriminate]. intros Hj. exfalso.
    apply (Join_not_empty (s :: l)); [discriminate|exact Hok|].
    injection Hj as Hj. exact Hj.
Qed.

(** X1.  [cleanPath] keeps exactly the non-empty segments of its argument
    and joins them behind one ["/"]: the result has no empty segment, no
    trailing ['/'] other than the root's, cleaning it again changes nothing,
    and one more ['/'] in front of or behind the argument makes no
    difference. *)
Theorem cleanPath_normal_form :
  forall p : string,
    cleanPath p
      = String slash (Join (List.filter (fun seg => negb (String.eqb seg "")) (Split p))) /\
    forallb seg_ok (List.filter (fun seg => negb (String.eqb seg "")) (Split p)) = true /\
    cleanPath (cleanPath p) = cleanPath p /\
    cleanPath (String slash p) = cleanPath p /\
    cleanPath (p ++ String slash "") = cleanPath p.
Proof.
  intros p. split; [apply cleanPath_spec|]. split; [apply cleanPath_segs_ok|].
  split; [apply cleanPath_idem|]. split.
  - rewrite !cleanPath_spec. simpl. reflexivity.
  - rewrite !cleanPath_spec, Split_snoc_slash, List.filter_app. simpl.
    rewrite app_nil_r. reflexivity.
Qed.

(** ** What one insertion does to the node it starts from

    The loops of [insert] only ever move the pointer downwards and write at
    or below the node they start from.  The facts below describe a run from
    the node [n] under [cur]: it returns (no index and no pointer is out of
    range), the tree it leaves is [t] with [n] replaced by some [v], and the
    pointer it leaves is [cur] extended by a valid path [ext] of [v]. *)

Local Open Scope list_scope.

Section InsertShape.
Context {H : Type}.
Implicit Types (t n v c leaf : node H) (cur ext : cursor).

Lemma put_child_self (cs : list (ascii * node H)) (l : ascii) c :
  lookup_child cs l = Some c -> put_child cs l c = cs.
Proof.
  induction cs as [|[k c'] cs IH]; cbn [lookup_child put_child]; [discriminate|].
  destruct (Ascii.eqb k l); [intros [= ->]; reflexivity|].
  intros Hl. rewrite (IH Hl). reflexivity.
Qed.

Lemma replace_at_self n (e : edge) c : follow n e = Some c -> replace_at n e c = n.
Proof.
  destruct n as [k pre cs sp ep]. destruct e as [l|ty]; cbn [follow replace_at children special].
  - intros Hl. unfold addChild. cbn [kind prefix children special endpt].
    rewrite (put_child_self _ _ _ Hl). reflexivity.
  - intros Hs. unfold addSpecial. cbn [kind prefix children special endpt].
    destruct sp as [s0 s1 s2].
    destruct ty; cbn [slot_get slot_set at_static at_param at_catchAll] in *; subst; reflexivity.
Qed.

Lemma assign_self t cur n : deref t cur = Some n -> assign t cur n = t.
Proof.
  revert t. induction cur as [|e cur IH]; intros t; cbn [deref assign].
  - intros [= ->]. reflexivity.
  - destruct (follow t e) as [c|] eqn:E; [|discriminate]. intros Hn.
    rewrite (IH c Hn). apply replace_at_self. exact E.
Qed.

Lemma assign_snoc t cur n (e : edge) c v :
  deref t cur = Some n -> follow n e = Some c ->
  assign t (cur ++ [e]) v = assign t cur (replace_at n e v).
Proof.
  intros Hn He. rewrite (assign_app t cur [e] n v Hn). cbn [assign]. rewrite He. reflexivity.
Qed.

Lemma assign_trans t cur n ext v1 v2 :
  deref t cur = Some n ->
  assign (assign t cur v1) (cur ++ ext) v2 = assign t cur (assign v1 ext v2).
Proof.
  intros Hn.
  rewrite (assign_app (assign t cur v1) cur ext v1 v2 (deref_assign t cur n v1 Hn)).
  apply (assign_assign t cur n). exact Hn.
Qed.

Lemma deref_assign_app t cur n ext v :
  deref t cur = Some n -> deref (assign t cur v) (cur ++ ext) = deref v ext.
Proof.
  intros Hn. rewrite deref_app, (deref_assign t cur n v Hn). reflexivity.
Qed.

Lemma sidx_sfrom_lt (k : nat) (s : string) :
  k < String.length s -> exists a : ascii, sidx (sfrom k s) 0 = Some a.
Proof.
  intros Hk. pose proof (length_sfrom k s) as Hl.
  destruct (sfrom k s) as [|a r]; cbn [String.length] in Hl; [lia|].
  exists a. reflexivity.
Qed.

(** The fields of a node other than its children map. *)
Lemma assign_child_fields t (l : ascii) cur v :
  kind (assign t (EChild l :: cur) v) = kind t /\
  prefix (assign t (EChild l :: cur) v) = prefix t /\
  special (assign t (EChild l :: cur) v) = special t /\
  endpt (assign t (EChild l :: cur) v) = endpt t.
Proof.
  cbn [assign follow]. destruct (lookup_child (children t) l); repeat split; reflexivity.
Qed.

Lemma assign_fields t cur n v :
  deref t cur = Some n ->
  kind v = kind n -> prefix v = prefix n -> endpt v = endpt n ->
  kind (assign t cur v) = kind t /\ prefix (assign t cur v) = prefix t /\
  endpt (assign t cur v) = endpt t.
Proof.
  destruct cur as [|e cur]; cbn [deref assign].
  - intros [= ->]. auto.
  - destruct (follow t e) as [c|]; [|discriminate]. intros _ _ _ _.
    destruct e; repeat split; reflexivity.
Qed.

Lemma assign_prefix t cur n v :
  deref t cur = Some n -> prefix v = prefix n -> prefix (assign t cur v) = prefix t.
Proof.
  destruct cur as [|e cur]; cbn [deref assign].
  - intros [= ->]. auto.
  - destruct (follow t e) as [c|]; [|discriminate]. intros _ _. destruct e; reflexivity.
Qed.

Lemma prefix_sfrom (a r s : string) :
  s = (a ++ r)%string -> s = (a ++ sfrom (String.length a) s)%string.
Proof. intros ->. rewrite sfrom_app_length. reflexivity. Qed.

Lemma lcp_split (s p : string) :
  s = (longestPrefix s p ++ sfrom (String.length (longestPrefix s p)) s)%string /\
  p = (longestPrefix s p ++ sfrom (String.length (longestPrefix s p)) p)%string.
Proof.
  rewrite longestPrefix_spec.
  destruct (common_prefix_split s p) as (r1 & r2 & E1 & E2 & _).
  split.
  - exact (prefix_sfrom _ r1 s E1).
  - exact (prefix_sfrom _ r2 p E2).
Qed.

Lemma spells_assign ext : forall v (s : string) leaf x,
  spells v ext s -> deref v ext = Some leaf -> prefix x = prefix leaf ->
  spells (assign v ext x) ext s.
Proof.
  induction ext as [|e ext IH]; intros v s leaf x Hs Hd Hp; [exact Hs|].
  destruct e as [c0|ty]; cbn [spells] in Hs |- *; [|contradiction].
  destruct Hs as (next & s' & Hl & H0 & Es & Hs').
  cbn [deref follow] in Hd. rewrite Hl in Hd.
  exists (assign next ext x), s'. cbn [assign follow]. rewrite Hl.
  cbn [replace_at addChild children]. rewrite lookup_put_child.
  split; [reflexivity|]. split; [exact H0|]. split.
  - rewrite (assign_prefix next ext leaf x Hd Hp). exact Es.
  - exact (IH next s' leaf x Hs' Hd Hp).
Qed.

Lemma follows_assign (segs : list string) : forall v ext leaf x,
  follows v segs ext -> deref v ext = Some leaf -> prefix x = prefix leaf ->
  follows (assign v ext x) segs ext.
Proof.
  induction segs as [|seg segs IH]; intros v ext leaf x Hf Hd Hp; cbn [follows] in Hf |- *.
  - exact Hf.
  - destruct Hf as (ext1 & ext2 & mid & -> & Hm & Hf & Hstep).
    assert (Hd2 : deref mid ext2 = Some leaf).
    { rewrite deref_app, Hm in Hd. exact Hd. }
    exists ext1, ext2, (assign mid ext2 x).
    rewrite (assign_app v ext1 ext2 mid x Hm).
    split; [reflexivity|]. split; [exact (deref_assign v ext1 mid _ Hm)|].
    split; [exact (IH mid ext2 leaf x Hf Hd2 Hp)|].
    destruct (getSegmentType seg) as [[| |]| |]; try exact Hstep.
    apply (spells_assign ext1 v seg mid); [exact Hstep|exact Hm|].
    exact (assign_prefix mid ext2 leaf x Hd2 Hp).
Qed.

Lemma insert_static_shape (fuel : nat) :
  forall t cur n (search : string),
    deref t cur = Some n -> height n <= fuel ->
    exists ext v leaf,
      insert_static fuel t cur search = Ok (assign t cur v, cur ++ ext) /\
      kind v = kind n /\ prefix v = prefix n /\ special v = special n /\ endpt v = endpt n /\
      deref v ext = Some leaf /\
      (search <> ""%string -> exists l ext', ext = EChild l :: ext') /\
      spells v ext search.
Proof.
  induction fuel as [|fuel IH]; intros t cur n search Hn Hh.
  { destruct n; cbn [height] in Hh. lia. }
  destruct search as [|c0 search].
  { exists [], n, n. cbn [insert_static]. rewrite app_nil_r, (assign_self t cur n Hn).
    repeat split; try reflexivity. intros E. congruence. }
  cbn [insert_static]. rewrite Hn.
  destruct (lookup_child (children n) c0) as [next|] eqn:El.
  2:{ exists [EChild c0], (addChild n c0 (newNode static (String c0 search))),
        (newNode static (String c0 search)).
      split; [reflexivity|]. do 4 (split; [reflexivity|]). split; [|split].
      - cbn [deref follow addChild children]. rewrite lookup_put_child. reflexivity.
      - intros _. eauto.
      - cbn [spells addChild children]. rewrite lookup_put_child.
        exists (newNode static (String c0 search)), ""%string.
        split; [reflexivity|]. split; [reflexivity|]. split; [|reflexivity].
        cbn [newNode prefix]. rewrite append_nil_r. reflexivity. }
  destruct (lcp_split (String c0 search) (prefix next)) as [Hsplit_s Hsplit_p].
  set (lcp := longestPrefix (String c0 search) (prefix next)) in *.
  destruct (Nat.ltb (String.length lcp) (String.length (prefix next))) eqn:Elt.
  - apply Nat.ltb_lt in Elt.
    destruct (sidx_sfrom_lt _ _ Elt) as [r0 Hr0]. rewrite Hr0.
    destruct (Nat.ltb (String.length lcp) (String.length (String c0 search))) eqn:Els.
    + apply Nat.ltb_lt in Els. destruct (sidx_sfrom_lt _ _ Els) as [s0 Hs0]. rewrite Hs0.
      match goal with
      | |- context [assign t (cur ++ [EChild c0]) ?x] => set (next4 := x)
      end.
      exists [EChild c0; EChild s0], (addChild n c0 next4),
        (newNode static (sfrom (String.length lcp) (String c0 search))).
      rewrite (assign_snoc t cur n (EChild c0) next next4 Hn El).
      split; [reflexivity|]. do 4 (split; [reflexivity|]). split; [|split].
      * cbn [deref follow addChild children]. rewrite lookup_put_child.
        subst next4. cbn [addChild children]. rewrite lookup_put_child. reflexivity.
      * intros _. eauto.
      * cbn [spells addChild children]. rewrite lookup_put_child.
        exists next4, (sfrom (String.length lcp) (String c0 search)).
        split; [reflexivity|]. split; [reflexivity|]. split; [exact Hsplit_s|].
        subst next4. cbn [addChild children]. rewrite lookup_put_child.
        exists (newNode static (sfrom (String.length lcp) (String c0 search))), ""%string.
        split; [reflexivity|]. split; [exact Hs0|]. split; [|reflexivity].
        cbn [newNode prefix]. rewrite append_nil_r. reflexivity.
    + match goal with
      | |- context [assign t (cur ++ [EChild c0]) ?x] => set (next3 := x)
      end.
      exists [EChild c0], (addChild n c0 next3), next3.
      rewrite (assign_snoc t cur n (EChild c0) next next3 Hn El).
      split; [reflexivity|]. do 4 (split; [reflexivity|]). split; [|split].
      * cbn [deref follow addChild children]. rewrite lookup_put_child. reflexivity.
      * intros _. eauto.
      * cbn [spells addChild children]. rewrite lookup_put_child.
        exists next3, ""%string.
        split; [reflexivity|]. split; [reflexivity|]. split; [|reflexivity].
        apply Nat.ltb_ge in Els.
        assert (Hz : sfrom (String.length lcp) (String c0 search) = ""%string).
        { apply length_zero. rewrite length_sfrom. lia. }
        rewrite Hz in Hsplit_s. exact Hsplit_s.
  - assert (Hnext : deref t (cur ++ [EChild c0]) = Some next).
    { rewrite deref_app, Hn. cbn [deref follow]. rewrite El. reflexivity. }
    assert (Hh' : height next <= fuel).
    { pose proof (height_follow n next (EChild c0) El). lia. }
    destruct (IH t (cur ++ [EChild c0]) next
                (sfrom (String.length lcp) (String c0 search)) Hnext Hh')
      as (ext & v & leaf & E & Hk & Hp & Hs & He & Hd & _ & Hsp).
    exists (EChild c0 :: ext), (addChild n c0 v), leaf.
    rewrite E, (assign_snoc t cur n (EChild c0) next v Hn El), <- app_assoc.
    split; [reflexivity|]. do 4 (split; [reflexivity|]). split; [|split].
    + cbn [deref follow addChild children]. rewrite lookup_put_child. exact Hd.
    + intros _. eauto.
    + cbn [spells addChild children]. rewrite lookup_put_child.
      exists v, (sfrom (String.length lcp) (String c0 search)).
      split; [reflexivity|]. split; [reflexivity|]. split; [|exact Hsp].
      apply Nat.ltb_ge in Elt.
      assert (Hz : sfrom (String.length lcp) (prefix next) = ""%string).
      { apply length_zero. rewrite length_sfrom. lia. }
      rewrite Hz, append_nil_r in Hsplit_p. rewrite Hp, Hsplit_p. exact Hsplit_s.
Qed.

Lemma insert_special_shape t cur n (ty : nType) :
  deref t cur = Some n ->
  exists v leaf,
    insert_special t cur ty = Ok (assign t cur v, cur ++ [ESpecial ty]) /\
    kind v = kind n /\ prefix v = prefix n /\ children v = children n /\ endpt v = endpt n /\
    deref v [ESpecial ty] = Some leaf.
Proof.
  intros Hn. unfold insert_special. rewrite Hn.
  destruct (slot_get (special n) ty) as [c|] eqn:Es.
  - exists n, c. rewrite (assign_self t cur n Hn). repeat split; try reflexivity.
    cbn [deref follow]. rewrite Es. reflexivity.
  - exists (addSpecial n ty (newNode ty "")), (newNode ty "").
    repeat split; try reflexivity.
    cbn [deref].
    change (addSpecial n ty (newNode ty "")) with (replace_at n (ESpecial ty) (newNode ty "")).
    rewrite follow_replace_at. reflexivity.
Qed.

Lemma insert_loop_shape (segs : list string) :
  forall t cur n (keys : list string),
    forallb (fun seg => negb (String.eqb seg "")) segs = true ->
    deref t cur = Some n ->
    exists ext v leaf,
      insert_loop segs t cur keys = Ok (assign t cur v, cur ++ ext, keys ++ param_keys segs) /\
      kind v = kind n /\ prefix v = prefix n /\ endpt v = endpt n /\
      deref v ext = Some leaf /\
      (segs <> [] -> ext <> []) /\
      (forall seg rest, segs = seg :: rest -> getSegmentType seg = Ok static ->
         special v = special n /\ exists l ext', ext = EChild l :: ext') /\
      follows v segs ext.
Proof.
  induction segs as [|seg segs IH]; intros t cur n keys Hne Hn.
  { exists [], n, n. cbn [insert_loop param_keys].
    rewrite !app_nil_r, (assign_self t cur n Hn).
    split; [reflexivity|]. do 4 (split; [reflexivity|]).
    split; [congruence|]. split; [discriminate|reflexivity]. }
  cbn [forallb] in Hne. apply andb_true_iff in Hne as [Hseg Hne].
  assert (Hty : exists ty, getSegmentType seg = Ok ty).
  { destruct (getSegmentType_cases seg) as [E|E]; [|exact E]. exfalso.
    unfold getSegmentType in E. destruct seg; [discriminate|]. cbn in E.
    destruct (Ascii.eqb _ _); [discriminate|]. destruct (Ascii.eqb _ _); discriminate. }
  destruct Hty as [ty Hty]. cbn [insert_loop param_keys]. rewrite Hty. cbn [obind].
  assert (Hstep : exists ext1 v1 leaf1,
             (match ty with
              | static => insert_static (S (height t)) t cur seg
              | param => insert_special t cur param
              | catchAll => insert_special t cur catchAll
              end) = Ok (assign t cur v1, cur ++ ext1) /\
             kind v1 = kind n /\ prefix v1 = prefix n /\ endpt v1 = endpt n /\
             deref v1 ext1 = Some leaf1 /\ ext1 <> [] /\
             (ty = static -> special v1 = special n /\ exists l ext', ext1 = EChild l :: ext') /\
             match ty with
             | static => spells v1 ext1 seg
             | _ => ext1 = [ESpecial ty]
             end).
  { destruct ty.
    - assert (Hh : height n <= S (height t)) by (pose proof (height_deref t n cur Hn); lia).
      destruct (insert_static_shape (S (height t)) t cur n seg Hn Hh)
        as (ext1 & v1 & leaf1 & E & Hk & Hp & Hs & He & Hd & Hx & Hsp).
      assert (Hseg' : seg <> ""%string).
      { intros ->. discriminate. }
      destruct (Hx Hseg') as (l & ext' & ->).
      exists (EChild l :: ext'), v1, leaf1.
      split; [exact E|]. split; [exact Hk|]. split; [exact Hp|]. split; [exact He|].
      split; [exact Hd|]. split; [discriminate|]. split; [|exact Hsp].
      intros _. split; [exact Hs|eauto].
    - destruct (insert_special_shape t cur n param Hn) as (v1 & leaf1 & E & Hk & Hp & _ & He & Hd).
      exists [ESpecial param], v1, leaf1.
      split; [exact E|]. split; [exact Hk|]. split; [exact Hp|]. split; [exact He|].
      split; [exact Hd|]. split; [discriminate|]. split; [discriminate|reflexivity].
    - destruct (insert_special_shape t cur n catchAll Hn)
        as (v1 & leaf1 & E & Hk & Hp & _ & He & Hd).
      exists [ESpecial catchAll], v1, leaf1.
      split; [exact E|]. split; [exact Hk|]. split; [exact Hp|]. split; [exact He|].
      split; [exact Hd|]. split; [discriminate|]. split; [discriminate|reflexivity]. }
  destruct Hstep as (ext1 & v1 & leaf1 & E1 & Hk1 & Hp1 & He1 & Hd1 & Hx1 & Hs1 & Hstep).
  assert (Hleaf : deref (assign t cur v1) (cur ++ ext1) = Some leaf1).
  { rewrite (deref_assign_app t cur n ext1 v1 Hn). exact Hd1. }
  set (keys1 := match ty with
                | static => keys
                | param => keys ++ [sfrom 1 seg]
                | catchAll => keys ++ ["*"%string]
                end).
  destruct (IH (assign t cur v1) (cur ++ ext1) leaf1 keys1 Hne Hleaf)
    as (ext2 & v2 & leaf2 & E2 & Hk2 & Hp2 & He2 & Hd2 & _ & _ & Hf2).
  exists (ext1 ++ ext2), (assign v1 ext1 v2), leaf2.
  destruct (assign_fields v1 ext1 leaf1 v2 Hd1 Hk2 Hp2 He2) as (Hka & Hpa & Hea).
  assert (Hres : (match ty with
                  | static =>
                      do (t', cur') <- insert_static (S (height t)) t cur seg;
                      insert_loop segs t' cur' keys
                  | param =>
                      do (t', cur') <- insert_special t cur param;
                      insert_loop segs t' cur' (keys ++ [sfrom 1 seg])
                  | catchAll =>
                      do (t', cur') <- insert_special t cur catchAll;
                      insert_loop segs t' cur' (keys ++ ["*"%string])
                  end)
                 = Ok (assign t cur (assign v1 ext1 v2), cur ++ ext1 ++ ext2,
                       keys ++ match ty with
                               | static => param_keys segs
                               | param => sfrom 1 seg :: param_keys segs
                               | catchAll => "*"%string :: param_keys segs
                               end)).
  { rewrite <- (assign_trans t cur n ext1 v1 v2 Hn), app_assoc.
    destruct ty; subst keys1; cbn beta iota in E2; rewrite E1; cbn [obind]; rewrite E2;
      rewrite <- ?app_assoc; reflexivity. }
  split; [exact Hres|].
  split; [congruence|]. split; [congruence|]. split; [congruence|].
  split. { rewrite deref_app, (deref_assign v1 ext1 leaf1 v2 Hd1). exact Hd2. }
  split. { intros _ E. apply app_eq_nil in E as [E _]. exact (Hx1 E). }
  split.
  { intros seg' rest [= <- <-] Hst. rewrite Hty in Hst. injection Hst as ->.
    destruct (Hs1 eq_refl) as (Hsp & l & ext' & ->). split.
    - destruct (assign_child_fields v1 l ext' v2) as (_ & _ & Hsa & _). congruence.
    - exists l, (ext' ++ ext2). reflexivity. }
  cbn [follows]. exists ext1, ext2, v2.
  split; [reflexivity|]. split; [exact (deref_assign v1 ext1 leaf1 v2 Hd1)|].
  split; [exact Hf2|]. rewrite Hty.
  destruct ty; try exact Hstep.
  exact (spells_assign ext1 v1 seg leaf1 v2 Hstep Hd1 Hp2).
Qed.

End InsertShape.

(** ** [insert] returns on every pattern but the root's *)

Lemma getSegmentType_ok (s : string) :
  negb (String.eqb s "") = true -> exists ty, getSegmentType s = Ok ty.
Proof.
  destruct s as [|a s]; [discriminate|]. intros _. unfold getSegmentType. cbn [sidx String.get].
  destruct (Ascii.eqb _ _); [eauto|]. destruct (Ascii.eqb _ _); eauto.
Qed.

Lemma splitPath_loop_ok (raw : list string) :
  forall (acc : list string) (cur : string),
    forallb (fun seg => negb (String.eqb seg "")) raw = true ->
    exists more,
      splitPath_loop raw acc cur = Ok (acc ++ more) /\
      forallb (fun seg => negb (String.eqb seg "")) more = true /\
      (cur <> ""%string \/ raw <> [] -> more <> []).
Proof.
  induction raw as [|seg raw IH]; intros acc cur Hraw.
  - cbn [splitPath_loop]. destruct (String.eqb cur "") eqn:Ec.
    + exists []. rewrite app_nil_r. split; [reflexivity|]. split; [reflexivity|].
      intros [Hc|Hc]; [|congruence]. apply String.eqb_eq in Ec. congruence.
    + exists [cur]. split; [reflexivity|]. split; [|discriminate].
      cbn [forallb]. rewrite Ec. reflexivity.
  - cbn [forallb] in Hraw. apply andb_true_iff in Hraw as [Hseg Hraw].
    destruct (getSegmentType_ok seg Hseg) as [ty Hty].
    cbn [splitPath_loop]. rewrite Hty. cbn [obind].
    assert (Hdyn : exists more,
               splitPath_loop raw
                 ((if String.eqb cur "" then acc else acc ++ [cur]) ++ [seg]) ""
               = Ok (acc ++ more) /\
               forallb (fun seg => negb (String.eqb seg "")) more = true /\
               more <> []).
    { destruct (IH ((if String.eqb cur "" then acc else acc ++ [cur]) ++ [seg]) ""%string Hraw)
        as (more & E & Hm & _).
      destruct (String.eqb cur "") eqn:Ec.
      - exists (seg :: more). rewrite E, <- app_assoc.
        split; [reflexivity|]. split; [|discriminate].
        cbn [forallb]. rewrite Hseg, Hm. reflexivity.
      - exists (cur :: seg :: more). rewrite E, <- !app_assoc.
        split; [reflexivity|]. split; [|discriminate].
        cbn [forallb]. rewrite Ec, Hseg, Hm. reflexivity. }
    destruct ty; [|destruct Hdyn as (more & E & Hm & Hn); exists more; auto..].
    destruct (IH acc (cur ++ seg)%string Hraw) as (more & E & Hm & Hn).
    exists more. split; [exact E|]. split; [exact Hm|]. intros _. apply Hn. left.
    destruct seg as [|a seg]; [discriminate|]. destruct cur; discriminate.
Qed.

Lemma splitPath_cleanPath (p : string) :
  cleanPath p <> "/"%string ->
  exists toks,
    splitPath (cleanPath p) = Ok toks /\
    forallb (fun seg => negb (String.eqb seg "")) toks = true /\ toks <> [].
Proof.
  intros Hp. pose proof (cleanPath_spec p) as E. pose proof (cleanPath_segs_ok p) as Hok.
  pose proof (cleanPath_root_iff p) as Hroot.
  destruct (List.filter (fun seg => negb (String.eqb seg "")) (Split p)) as [|s l] eqn:Ef.
  { exfalso. apply Hp. apply Hroot. reflexivity. }
  rewrite E. unfold splitPath.
  change (TrimPrefix (String slash (Join (s :: l)))) with (Join (s :: l)).
  rewrite Split_Join; [|discriminate|exact Hok].
  assert (Hne : forallb (fun seg => negb (String.eqb seg "")) (s :: l) = true).
  { apply forallb_forall. intros x Hx.
    pose proof (proj1 (forallb_forall _ _) Hok x Hx) as Hx'.
    unfold seg_ok in Hx'. apply andb_true_iff in Hx' as [Hx' _]. exact Hx'. }
  destruct (splitPath_loop_ok (s :: l) [] ""%string Hne) as (more & E' & Hm & Hn).
  exists more. split; [exact E'|]. split; [exact Hm|]. apply Hn. right. discriminate.
Qed.

Lemma isValidPath_loop_no_panic (segs : list string) :
  forall (i len : nat) (prev : option nType) (keys : gset string),
    forallb (fun seg => negb (String.eqb seg "")) segs = true ->
    isValidPath_loop segs i len prev keys <> Panic.
Proof.
  induction segs as [|seg segs IH]; intros i len prev keys Hne; [discriminate|].
  cbn [forallb] in Hne. apply andb_true_iff in Hne as [Hseg Hne].
  destruct (getSegmentType_ok seg Hseg) as [ty Hty].
  cbn [isValidPath_loop]. destruct (String.eqb seg ""); [apply IH; exact Hne|].
  rewrite Hty. cbn [obind].
  repeat (match goal with |- context [if ?b then _ else _] => destruct b end;
          try discriminate); apply IH; exact Hne.
Qed.

Lemma insert_root_panics {H : Type} (t : tree H) (p : string) (f : H) :
  cleanPath p = "/"%string -> insert t p f = Panic.
Proof. intros E. unfold insert. rewrite E. reflexivity. Qed.

Lemma insert_returns {H : Type} (t : tree H) (p : string) (f : H) :
  cleanPath p <> "/"%string -> exists t', insert t p f = Ok t'.
Proof.
  intros Hp. destruct (splitPath_cleanPath p Hp) as (toks & Es & Hne & _).
  unfold insert, isValidPath. rewrite Es. cbn [obind].
  destruct (isValidPath_loop toks 0 (List.length toks) None ∅) as [[|]| |] eqn:Ev;
    cbn [obind negb].
  - destruct (insert_loop_shape toks t [] t [] Hne eq_refl)
      as (ext & v & leaf & E & _ & _ & _ & Hd & _ & _ & _).
    rewrite E. cbn [obind assign app]. rewrite Hd. eauto.
  - eauto.
  - exfalso. exact (isValidPath_loop_no_panic toks _ _ _ _ Hne Ev).
  - exfalso. revert Ev. clear. generalize 0 (List.length toks) (@None nType) (∅ : gset string).
    induction toks as [|seg segs IHs]; intros i len prev keys; [discriminate|].
    cbn [isValidPath_loop]. destruct (String.eqb seg ""); [apply IHs|].
    unfold getSegmentType. destruct (sidx seg 0); [|discriminate].
    destruct (Ascii.eqb _ _); [|destruct (Ascii.eqb _ _)]; cbn [obind];
      repeat (match goal with |- context [if ?b then _ else _] => destruct b end;
              try discriminate); apply IHs.
Qed.

(** X2.  [insert] panics on exactly the patterns that clean to ["/"] (the
    empty pattern and the runs of ['/']); on every other pattern, valid or
    not, and on every tree it returns. *)
Theorem insert_panics_iff_root_pattern :
  forall (H : Type) (t : tree H) (p : string) (f : H),
    (insert t p f = Panic <-> cleanPath p = "/"%string) /\
    ((exists t', insert t p f = Ok t') <-> cleanPath p <> "/"%string).
Proof.
  intros H t p f.
  destruct (String.eqb (cleanPath p) "/") eqn:E.
  - apply String.eqb_eq in E. pose proof (insert_root_panics t p f E) as Hp. split.
    + split; auto.
    + split; [intros [t' Ht']; congruence|intros Hn; congruence].
  - apply String.eqb_neq in E. destruct (insert_returns t p f E) as [t' Ht']. split.
    + split; [intros Hp; congruence|intros Hr; congruence].
    + split; eauto.
Qed.

(** ** An invariant of the trees built by registrations *)

Section Invariant.
Context {H : Type}.
Implicit Types (t n v c leaf : node H) (cur ext : cursor) (d : nat).

Lemma node_ok_unfold d n :
  node_ok d n <->
  match endpt n with Some e => List.length (pKeys e) = d | None => True end
  /\ Forall (child_ok d) (children n) /\ List.NoDup (map fst (children n))
  /\ at_static (special n) = None
  /\ slot_ok param d (at_param (special n)) /\ slot_ok catchAll d (at_catchAll (special n)).
Proof.
  destruct n as [k pre cs sp ep]. cbn [endpt children special node_ok].
  match goal with
  | |- _ /\ ?o /\ _ <-> _ => assert (Ho : o <-> Forall (child_ok d) cs)
  end.
  { induction cs as [|[k' c'] cs IH].
    - split; [constructor|exact (fun _ => I)].
    - split.
      + intros [Hc Hcs]. constructor; [exact Hc|]. apply IH. exact Hcs.
      + intros Hf. inversion Hf as [|x l Hc Hcs]; subst. split; [exact Hc|].
        apply IH. exact Hcs. }
  unfold slot_ok. rewrite Ho. reflexivity.
Qed.

Lemma node_ok_newNode d (ty : nType) (pre : string) : node_ok d (newNode ty pre : node H).
Proof.
  apply node_ok_unfold. cbn. repeat split; constructor.
Qed.

Lemma sdepth_app cur ext : sdepth (cur ++ ext) = sdepth cur + sdepth ext.
Proof. induction cur as [|e cur IH]; cbn [app sdepth]; [reflexivity|]. rewrite IH. lia. Qed.

Lemma sidx0_none (s : string) : sidx s 0 = None -> s = ""%string.
Proof. destruct s; [reflexivity|discriminate]. Qed.

Lemma ok_lookup d (cs : list (ascii * node H)) (l : ascii) c :
  Forall (child_ok d) cs -> lookup_child cs l = Some c ->
  sidx (prefix c) 0 = Some l /\ kind c = static /\ node_ok d c.
Proof.
  induction 1 as [|[k c'] cs Hc Hcs IH]; cbn [lookup_child]; [discriminate|].
  destruct (Ascii.eqb k l) eqn:E; [|exact IH].
  intros [= ->]. apply Ascii.eqb_eq in E. subst k. exact Hc.
Qed.

Lemma ok_follow d n (e : edge) c :
  node_ok d n -> follow n e = Some c ->
  node_ok (edepth e + d) c /\
  match e with
  | EChild l => sidx (prefix c) 0 = Some l /\ kind c = static
  | ESpecial ty => prefix c = ""%string /\ kind c = ty
  end.
Proof.
  intros Hn. apply node_ok_unfold in Hn as (_ & Hcs & _ & Hst & Hpa & Hca).
  destruct e as [l|ty]; cbn [follow edepth].
  - intros Hl. destruct (ok_lookup d _ l c Hcs Hl) as (? & ? & ?). auto.
  - destruct ty; cbn [slot_get]; intros Hs.
    + congruence.
    + rewrite Hs in Hpa. destruct Hpa as (? & ? & ?). auto.
    + rewrite Hs in Hca. destruct Hca as (? & ? & ?). auto.
Qed.

Lemma ok_deref cur : forall d t n,
  node_ok d t -> deref t cur = Some n -> node_ok (sdepth cur + d) n.
Proof.
  induction cur as [|e cur IH]; intros d t n Ht; cbn [deref sdepth].
  - intros [= ->]. exact Ht.
  - destruct (follow t e) as [c|] eqn:E; [|discriminate]. intros Hn.
    destruct (ok_follow d t e c Ht E) as [Hc _].
    pose proof (IH _ c n Hc Hn) as Hr.
    replace (edepth e + sdepth cur + d) with (sdepth cur + (edepth e + d)) by lia. exact Hr.
Qed.

Lemma put_child_keys (cs : list (ascii * node H)) (l : ascii) c (x : ascii) :
  In x (map fst (put_child cs l c)) -> x = l \/ In x (map fst cs).
Proof.
  induction cs as [|[k c'] cs IH]; cbn [put_child map fst In].
  - intros [<-|[]]. left. reflexivity.
  - destruct (Ascii.eqb k l); cbn [map fst In]; [tauto|].
    intros [<-|Hx]; [tauto|]. destruct (IH Hx); tauto.
Qed.

Lemma ok_put_child d (cs : list (ascii * node H)) (l : ascii) v :
  Forall (child_ok d) cs -> List.NoDup (map fst cs) -> child_ok d (l, v) ->
  Forall (child_ok d) (put_child cs l v) /\ List.NoDup (map fst (put_child cs l v)).
Proof.
  intros Hcs Hnd Hv. induction cs as [|[k c'] cs IH]; cbn [put_child].
  - split; [constructor; [exact Hv|constructor]|]. cbn. constructor; [intros []|constructor].
  - inversion Hcs as [|x xs Hc Hcs']; subst. cbn [map fst] in Hnd.
    inversion Hnd as [|x xs Hk Hnd']; subst.
    destruct (Ascii.eqb k l) eqn:E.
    + apply Ascii.eqb_eq in E. subst k. split; [constructor; assumption|].
      cbn [map fst]. constructor; assumption.
    + destruct (IH Hcs' Hnd') as [Hf Hn]. split; [constructor; assumption|].
      cbn [map fst]. constructor; [|exact Hn].
      intros Hin. destruct (put_child_keys cs l v k Hin) as [->|Hin']; [|exact (Hk Hin')].
      rewrite Ascii.eqb_refl in E. discriminate.
Qed.

Lemma ok_addChild d n (l : ascii) v :
  node_ok d n -> child_ok d (l, v) -> node_ok d (addChild n l v).
Proof.
  intros Hn Hv. apply node_ok_unfold in Hn as (He & Hcs & Hnd & Hst & Hpa & Hca).
  apply node_ok_unfold. cbn [addChild endpt children special].
  destruct (ok_put_child d (children n) l v Hcs Hnd Hv) as [Hf Hk]. auto 10.
Qed.

Lemma ok_addSpecial d n (ty : nType) v :
  node_ok d n -> ty <> static -> slot_ok ty d (Some v) -> node_ok d (addSpecial n ty v).
Proof.
  intros Hn Hty Hv. apply node_ok_unfold in Hn as (He & Hcs & Hnd & Hst & Hpa & Hca).
  apply node_ok_unfold. cbn [addSpecial endpt children special].
  destruct ty; [congruence| |]; cbn [slot_set at_static at_param at_catchAll]; auto 10.
Qed.

Lemma ok_setEndpoint d n (e : endpoint H) :
  node_ok d n -> List.length (pKeys e) = d -> node_ok d (setEndpoint n (Some e)).
Proof.
  intros Hn He. apply node_ok_unfold in Hn as (_ & Hcs & Hnd & Hst & Hpa & Hca).
  apply node_ok_unfold. cbn [setEndpoint endpt children special]. auto 10.
Qed.

Lemma ok_replace d n (e : edge) c v :
  node_ok d n -> follow n e = Some c -> node_ok (edepth e + d) v ->
  kind v = kind c -> sidx (prefix v) 0 = sidx (prefix c) 0 ->
  node_ok d (replace_at n e v).
Proof.
  intros Hn He Hv Hk Hp. destruct (ok_follow d n e c Hn He) as [_ Hc].
  destruct e as [l|ty]; cbn [replace_at edepth] in *.
  - apply ok_addChild; [exact Hn|]. destruct Hc as [Hc1 Hc2].
    unfold child_ok. cbn [fst snd]. split; [congruence|]. split; [congruence|exact Hv].
  - destruct Hc as [Hc1 Hc2]. apply ok_addSpecial; [exact Hn| |].
    + intros ->. apply node_ok_unfold in Hn as (_ & _ & _ & Hst & _).
      cbn [follow slot_get] in He. congruence.
    + cbn [slot_ok]. split; [|split; [congruence|exact Hv]].
      apply sidx0_none. rewrite Hp, Hc1. reflexivity.
Qed.

Lemma replace_at_head n (e : edge) v :
  kind (replace_at n e v) = kind n /\ prefix (replace_at n e v) = prefix n.
Proof. destruct e; split; reflexivity. Qed.

Lemma assign_head t cur n v :
  deref t cur = Some n -> kind v = kind n -> sidx (prefix v) 0 = sidx (prefix n) 0 ->
  kind (assign t cur v) = kind t /\ sidx (prefix (assign t cur v)) 0 = sidx (prefix t) 0.
Proof.
  destruct cur as [|e cur]; cbn [deref assign].
  - intros [= ->]. auto.
  - destruct (follow t e) as [c|]; [|discriminate]. intros _ _ _.
    destruct (replace_at_head t e (assign c cur v)) as [-> ->]. auto.
Qed.

Lemma ok_assign cur : forall d t n v,
  node_ok d t -> deref t cur = Some n -> node_ok (sdepth cur + d) v ->
  kind v = kind n -> sidx (prefix v) 0 = sidx (prefix n) 0 ->
  node_ok d (assign t cur v).
Proof.
  induction cur as [|e cur IH]; intros d t n v Ht; cbn [deref assign sdepth].
  - intros _ Hv _ _. exact Hv.
  - destruct (follow t e) as [c|] eqn:E; [|discriminate]. intros Hn Hv Hk Hp.
    destruct (ok_follow d t e c Ht E) as [Hc _].
    destruct (assign_head c cur n v Hn Hk Hp) as [Hk' Hp'].
    apply (ok_replace d t e c); [exact Ht|exact E| |exact Hk'|exact Hp'].
    apply (IH _ c n); [exact Hc|exact Hn| |exact Hk|exact Hp].
    replace (sdepth cur + (edepth e + d)) with (edepth e + sdepth cur + d) by lia. exact Hv.
Qed.

Lemma common_prefix_head (a : ascii) (r1 r2 : string) :
  sidx (common_prefix (String a r1) (String a r2)) 0 = Some a.
Proof. cbn [common_prefix]. rewrite Ascii.eqb_refl. reflexivity. Qed.

Lemma ok_insert_static (fuel : nat) :
  forall d t cur n (search : string) t' cur',
    node_ok d t -> deref t cur = Some n ->
    insert_static fuel t cur search = Ok (t', cur') ->
    node_ok d t' /\ sdepth cur' = sdepth cur.
Proof.
  induction fuel as [|fuel IH]; intros d t cur n search t' cur' Ht Hn.
  { destruct search; cbn [insert_static]; [|discriminate]. intros [= <- <-]. auto. }
  destruct search as [|c0 search]; cbn [insert_static]; [intros [= <- <-]; auto|].
  rewrite Hn. pose proof (ok_deref cur d t n Ht Hn) as Hnok.
  destruct (lookup_child (children n) c0) as [next|] eqn:El.
  2:{ intros [= <- <-]. split.
      - apply (ok_assign cur d t n); [exact Ht|exact Hn| |reflexivity|reflexivity].
        apply ok_addChild; [exact Hnok|]. unfold child_ok. cbn [fst snd].
        split; [reflexivity|]. split; [reflexivity|apply node_ok_newNode].
      - rewrite sdepth_app. cbn. lia. }
  assert (Hnx : node_ok (sdepth cur + d) next /\ sidx (prefix next) 0 = Some c0
                /\ kind next = static).
  { destruct (ok_follow _ n (EChild c0) next Hnok El) as [H1 [H2 H3]]. auto. }
  destruct Hnx as (Hnok' & Hhd & Hkd).
  assert (Hnext : deref t (cur ++ [EChild c0]) = Some next).
  { rewrite deref_app, Hn. cbn [deref follow]. rewrite El. reflexivity. }
  assert (Hsd : sdepth (cur ++ [EChild c0]) = sdepth cur).
  { rewrite sdepth_app. cbn. lia. }
  set (lcp := longestPrefix (String c0 search) (prefix next)).
  assert (Hlcp : sidx lcp 0 = Some c0).
  { subst lcp. rewrite longestPrefix_spec. destruct (prefix next) as [|a pr]; [discriminate|].
    cbn in Hhd. injection Hhd as ->. apply common_prefix_head. }
  destruct (Nat.ltb (String.length lcp) (String.length (prefix next))) eqn:Elt.
  - destruct (sidx (sfrom (String.length lcp) (prefix next)) 0) as [r0|] eqn:Er0; [|discriminate].
    set (new := copyFrom (newNode static (sfrom (String.length lcp) (prefix next)))
                  (setPrefix next lcp)).
    set (next2 := setEndpoint (clearChildren (setPrefix next lcp)) None).
    assert (Hnew : child_ok (sdepth cur + d) (r0, new)).
    { unfold child_ok. cbn [fst snd]. split; [exact Er0|]. split; [reflexivity|].
      apply node_ok_unfold. apply node_ok_unfold in Hnok'. exact Hnok'. }
    assert (H2 : node_ok (sdepth cur + d) next2).
    { apply node_ok_unfold. cbn. repeat split; constructor. }
    assert (H3 : node_ok (sdepth cur + d) (addChild next2 r0 new)).
    { apply ok_addChild; assumption. }
    destruct (Nat.ltb (String.length lcp) (String.length (String c0 search))).
    + destruct (sidx (sfrom (String.length lcp) (String c0 search)) 0) as [s0|] eqn:Es0;
        [|discriminate].
      intros [= <- <-]. split.
      * apply (ok_assign _ d t next); [exact Ht|exact Hnext| | |].
        -- rewrite Hsd. apply ok_addChild; [exact H3|]. unfold child_ok. cbn [fst snd].
           split; [exact Es0|]. split; [reflexivity|apply node_ok_newNode].
        -- reflexivity.
        -- change (sidx lcp 0 = sidx (prefix next) 0). rewrite Hlcp, Hhd. reflexivity.
      * rewrite sdepth_app. cbn. lia.
    + intros [= <- <-]. split.
      * apply (ok_assign _ d t next); [exact Ht|exact Hnext| | |].
        -- rewrite Hsd. exact H3.
        -- reflexivity.
        -- change (sidx lcp 0 = sidx (prefix next) 0). rewrite Hlcp, Hhd. reflexivity.
      * exact Hsd.
  - intros E. destruct (IH d t _ next _ t' cur' Ht Hnext E) as [Hr Hs].
    split; [exact Hr|]. rewrite Hs. exact Hsd.
Qed.

Lemma ok_insert_special d t cur n (ty : nType) t' cur' :
  node_ok d t -> deref t cur = Some n -> ty <> static ->
  insert_special t cur ty = Ok (t', cur') ->
  node_ok d t' /\ sdepth cur' = S (sdepth cur).
Proof.
  intros Ht Hn Hty. unfold insert_special. rewrite Hn.
  assert (Hsd : sdepth (cur ++ [ESpecial ty]) = S (sdepth cur)).
  { rewrite sdepth_app. cbn. lia. }
  destruct (slot_get (special n) ty); intros [= <- <-]; (split; [|exact Hsd]); [exact Ht|].
  apply (ok_assign cur d t n); [exact Ht|exact Hn| |reflexivity|reflexivity].
  apply ok_addSpecial; [exact (ok_deref cur d t n Ht Hn)|exact Hty|].
  cbn [slot_ok]. split; [reflexivity|]. split; [reflexivity|apply node_ok_newNode].
Qed.

Lemma ok_insert_loop (segs : list string) :
  forall d t cur n (keys : list string) t' cur' keys',
    node_ok d t -> deref t cur = Some n ->
    insert_loop segs t cur keys = Ok (t', cur', keys') ->
    node_ok d t' /\ (exists n', deref t' cur' = Some n') /\
    List.length keys' + sdepth cur = List.length keys + sdepth cur'.
Proof.
  induction segs as [|seg segs IH]; intros d t cur n keys t' cur' keys' Ht Hn;
    cbn [insert_loop].
  { intros [= <- <- <-]. eauto. }
  destruct (getSegmentType seg) as [ty| |] eqn:Ety; cbn [obind]; try discriminate.
  destruct ty.
  - destruct (insert_static (S (height t)) t cur seg) as [[t1 cur1]| |] eqn:E1;
      cbn [obind]; try discriminate.
    assert (Hh : height n <= S (height t)) by (pose proof (height_deref t n cur Hn); lia).
    destruct (insert_static_shape (S (height t)) t cur n seg Hn Hh)
      as (ext & v & leaf & E & _ & _ & _ & _ & Hd & _).
    rewrite E in E1. injection E1 as <- <-.
    destruct (ok_insert_static _ d t cur n seg _ _ Ht Hn E) as [Ht1 Hs1].
    intros E2.
    destruct (IH d _ _ leaf _ _ _ _ Ht1
                (eq_trans (deref_assign_app t cur n ext v Hn) Hd) E2) as (Hr & Hx & Hl).
    split; [exact Hr|]. split; [exact Hx|]. lia.
  - destruct (insert_special t cur param) as [[t1 cur1]| |] eqn:E1;
      cbn [obind]; try discriminate.
    destruct (insert_special_shape t cur n param Hn) as (v & leaf & E & _ & _ & _ & _ & Hd).
    rewrite E in E1. injection E1 as <- <-.
    destruct (ok_insert_special d t cur n param _ _ Ht Hn ltac:(discriminate) E) as [Ht1 Hs1].
    intros E2.
    destruct (IH d _ _ leaf _ _ _ _ Ht1
                (eq_trans (deref_assign_app t cur n _ v Hn) Hd) E2) as (Hr & Hx & Hl).
    split; [exact Hr|]. split; [exact Hx|]. rewrite length_app in Hl. cbn in Hl. lia.
  - destruct (insert_special t cur catchAll) as [[t1 cur1]| |] eqn:E1;
      cbn [obind]; try discriminate.
    destruct (insert_special_shape t cur n catchAll Hn) as (v & leaf & E & _ & _ & _ & _ & Hd).
    rewrite E in E1. injection E1 as <- <-.
    destruct (ok_insert_special d t cur n catchAll _ _ Ht Hn ltac:(discriminate) E)
      as [Ht1 Hs1].
    intros E2.
    destruct (IH d _ _ leaf _ _ _ _ Ht1
                (eq_trans (deref_assign_app t cur n _ v Hn) Hd) E2) as (Hr & Hx & Hl).
    split; [exact Hr|]. split; [exact Hx|]. rewrite length_app in Hl. cbn in Hl. lia.
Qed.

Lemma assign_fields_below t (e : edge) cur v :
  kind (assign t (e :: cur) v) = kind t /\ prefix (assign t (e :: cur) v) = prefix t /\
  endpt (assign t (e :: cur) v) = endpt t.
Proof.
  cbn [assign]. destruct (follow t e); [|auto]. destruct e; auto.
Qed.

Lemma tree_ok_insert t (p : string) (f : H) t' :
  tree_ok t -> insert t p f = Ok t' -> tree_ok t'.
Proof.
  intros (Ht & Hk & Hp & He). unfold insert.
  destruct (isValidPath (cleanPath p)) as [[|]| |]; cbn [obind negb]; try discriminate.
  2:{ intros [= <-]. repeat split; assumption. }
  destruct (String.eqb (cleanPath p) "/") eqn:Eroot.
  { apply String.eqb_eq in Eroot. rewrite Eroot. discriminate. }
  apply String.eqb_neq in Eroot.
  destruct (splitPath_cleanPath p Eroot) as (toks & Es & Hne & Hnn). rewrite Es. cbn [obind].
  destruct (insert_loop_shape toks t [] t [] Hne eq_refl)
    as (ext & v & leaf & E & Hkv & Hpv & Hev & Hd & Hext & _).
  cbn [assign app] in E. rewrite E. cbn [obind]. rewrite Hd. intros [= <-].
  destruct (ok_insert_loop toks 0 t [] t [] _ _ _ Ht eq_refl E) as (Hv & _ & Hl).
  cbn [sdepth List.length] in Hl.
  specialize (Hext Hnn). destruct ext as [|e ext]; [congruence|].
  destruct (assign_fields_below v e ext (setEndpoint leaf (Some (newEndpoint (cleanPath p) f
              (param_keys toks))))) as (Hka & Hpa & Hea).
  split; [|split; [congruence|split; congruence]].
  apply (ok_assign _ 0 v leaf); [exact Hv|exact Hd| |reflexivity|reflexivity].
  apply ok_setEndpoint; [exact (ok_deref _ 0 v leaf Hv Hd)|].
  cbn [newEndpoint pKeys]. lia.
Qed.

Lemma tree_ok_newTree : tree_ok (newTree (H := H)).
Proof.
  split; [|auto]. apply node_ok_unfold. cbn. repeat split; constructor.
Qed.

Lemma tree_ok_register_all (routes : list (string * H)) :
  forall t t', tree_ok t -> register_all routes t = Ok t' -> tree_ok t'.
Proof.
  induction routes as [|[p f] routes IH]; intros t t' Ht; cbn [register_all].
  - intros [= <-]. exact Ht.
  - destruct (insert t p f) as [t1| |] eqn:E; cbn [obind]; try discriminate.
    apply IH. exact (tree_ok_insert t p f t1 Ht E).
Qed.

End Invariant.

(** X3.  Every tree built from [newTree] by registrations has the shape
    [tree_ok]: literal children are keyed by the first byte of their
    (non-empty) prefix with distinct keys, the slots hold nodes of their own
    kind with empty prefix, each endpoint carries as many parameter names as
    there are parameter and catch-all edges above it, and the root itself
    never carries an endpoint.  One more [insert] that returns keeps it. *)
Theorem registered_trees_are_well_shaped :
  forall (H : Type) (routes : list (string * H)) (t : tree H),
    register_all routes newTree = Ok t ->
    tree_ok t /\
    (forall (p : string) (f : H) (t' : tree H), insert t p f = Ok t' -> tree_ok t').
Proof.
  intros H routes t Hr.
  pose proof (tree_ok_register_all routes newTree t tree_ok_newTree Hr) as Ht.
  split; [exact Ht|]. intros p f t'. apply tree_ok_insert. exact Ht.
Qed.

Lemma registered_trees_are_well_shaped_witness :
  register_all [("/users"%string, 1); ("/users/:id"%string, 2); ("/us/*"%string, 3)] newTree
  = Ok (Node static ""
          [("u"%char,
            Node static "us"
              [("e"%char,
                Node static "ers" []
                  (Slots None (Some (Node param "" [] no_slots
                                       (Some (Endpoint 2 "/users/:id" ["id"%string])))) None)
                  (Some (Endpoint 1 "/users" [])))]
              (Slots None None
                 (Some (Node catchAll "" [] no_slots (Some (Endpoint 3 "/us/*" ["*"%string])))))
              None)]
          no_slots None) /\
  tree_ok (Node static ""
          [("u"%char,
            Node static "us"
              [("e"%char,
                Node static "ers" []
                  (Slots None (Some (Node param "" [] no_slots
                                       (Some (Endpoint 2 "/users/:id" ["id"%string])))) None)
                  (Some (Endpoint 1 "/users" [])))]
              (Slots None None
                 (Some (Node catchAll "" [] no_slots (Some (Endpoint 3 "/us/*" ["*"%string])))))
              None)]
          no_slots None).
Proof.
  split; [vm_compute; reflexivity|].
  apply (registered_trees_are_well_shaped nat
           [("/users"%string, 1); ("/users/:id"%string, 2); ("/us/*"%string, 3)]).
  vm_compute. reflexivity.
Defined.

(** ** [find] on a well-shaped tree *)

Section FindSafe.
Context {H : Type}.
Implicit Types (cur st : node H).

Lemma fill_pMap_ok (keys : list string) :
  forall (i : nat) (params : list string) (m : gmap string string),
    i + List.length keys <= List.length params ->
    exists m', fill_pMap keys i params m = Ok m'.
Proof.
  induction keys as [|k keys IH]; intros i params m Hl; cbn [fill_pMap]; [eauto|].
  cbn [List.length] in Hl. destruct (nth_error params i) as [v|] eqn:E.
  - apply IH. lia.
  - apply nth_error_None in E. lia.
Qed.

Lemma find_result_ok cur (params : list string) :
  node_ok (List.length params) cur -> exists r, find_result cur params = Ok r.
Proof.
  intros Hc. apply node_ok_unfold in Hc as (He & _). unfold find_result.
  destruct (endpt cur) as [e|]; [|eauto].
  destruct (fill_pMap_ok (pKeys e) 0 params ∅) as [m' ->]; [lia|]. cbn [obind]. eauto.
Qed.

Lemma common_prefix_length_r (a b : string) :
  String.length (common_prefix a b) <= String.length b.
Proof.
  destruct (common_prefix_split a b) as (r1 & r2 & _ & E & _).
  rewrite E at 2. rewrite length_append. lia.
Qed.

Lemma find_loop_ok (fuel : nat) :
  forall (params : list string) cur (pl : option ascii) (start : nat) (p : string),
    node_ok (List.length params) cur -> find_state_ok cur pl start ->
    String.length p <= fuel ->
    exists r, find_loop fuel params cur pl start p = Ok r.
Proof.
  induction fuel as [|fuel IH]; intros params cur pl start p Hc Hst Hp.
  { destruct p; cbn [String.length] in Hp; [|lia]. apply find_result_ok. exact Hc. }
  destruct p as [|c p']; [apply find_result_ok; exact Hc|].
  cbn [String.length] in Hp. cbn [find_loop].
  destruct (Ascii.eqb c slash); [apply IH; [exact Hc|exact Hst|lia]|].
  pose proof Hc as Hc'. apply node_ok_unfold in Hc' as (_ & Hcs & _ & _ & Hpa & Hca).
  set (label := match pl with Some l => l | None => c end).
  destruct (lookup_child (children cur) label) as [st|] eqn:El.
  - assert (Hstart : start < String.length (prefix st) \/ (start = 0 /\ pl = None)).
    { destruct pl as [l|]; unfold find_state_ok in Hst.
      - destruct Hst as (st' & El' & Hlt). subst label. left. congruence.
      - right. auto. }
    assert (Hle : start <= String.length (prefix st)) by lia.
    destruct (Nat.ltb (String.length (prefix st)) start) eqn:Elt;
      [apply Nat.ltb_lt in Elt; lia|].
    set (lcp := longestPrefix (String c p') (sfrom start (prefix st))).
    assert (Hlcp : String.length lcp <= String.length (prefix st) - start).
    { subst lcp. rewrite longestPrefix_spec, <- length_sfrom. apply common_prefix_length_r. }
    destruct (Nat.eqb (String.length lcp) 0) eqn:E0; [apply find_result_ok; exact Hc|].
    apply Nat.eqb_neq in E0.
    assert (Hrest : String.length (sfrom (String.length lcp) (String c p')) <= fuel).
    { rewrite length_sfrom. cbn [String.length]. lia. }
    destruct (Nat.eqb (String.length lcp + start) (String.length (prefix st))) eqn:Efull.
    + apply IH; [|reflexivity|exact Hrest].
      destruct (ok_lookup _ _ label st Hcs El) as (_ & _ & Hok). exact Hok.
    + apply Nat.eqb_neq in Efull. apply IH; [exact Hc| |exact Hrest].
      unfold find_state_ok. exists st. split; [exact El|lia].
  - assert (Hpl : pl = None /\ start = 0).
    { destruct pl as [l|]; unfold find_state_ok in Hst; [|auto].
      destruct Hst as (st' & El' & _). subst label. congruence. }
    destruct Hpl as [-> ->].
    destruct (slot_get (special cur) param) as [pn|] eqn:Epn.
    + cbn [slot_get] in Epn. rewrite Epn in Hpa. destruct Hpa as (_ & _ & Hok).
      destruct (IndexByte (String c p')) as [j|].
      * apply IH; [rewrite length_app; cbn; rewrite Nat.add_1_r; exact Hok|reflexivity|].
        rewrite length_sfrom. cbn [String.length]. lia.
      * apply IH; [rewrite length_app; cbn; rewrite Nat.add_1_r; exact Hok|reflexivity|].
        cbn. lia.
    + destruct (slot_get (special cur) catchAll) as [cn|] eqn:Ecn; [|eauto].
      cbn [slot_get] in Ecn. rewrite Ecn in Hca. destruct Hca as (_ & _ & Hok).
      apply IH; [rewrite length_app; cbn; rewrite Nat.add_1_r; exact Hok|reflexivity|].
      cbn. lia.
Qed.

Lemma find_ok (t : tree H) (q : string) : node_ok 0 t -> exists r, find t q = Ok r.
Proof.
  intros Ht. unfold find. apply find_loop_ok; [exact Ht|reflexivity|lia].
Qed.

End FindSafe.

(** X4.  On every tree built from [newTree] by registrations, [find]
    returns for every request path: no index is out of range, neither in the
    prefix slices nor in [params[i]].  The shape of the tree is what makes
    this so: on a node whose endpoint lists a parameter name that no edge
    above it captures, the same call panics. *)
Theorem find_returns_on_registered_trees :
  forall (H : Type) (routes : list (string * H)) (t : tree H) (q : string),
    register_all routes newTree = Ok t ->
    (exists r, find t q = Ok r) /\
    (forall f : H,
        find (one_edge "a" (Endpoint f "/a" ["id"%string])) "/a" = Panic).
Proof.
  intros H routes t q Hr. split; [|intros f; reflexivity].
  apply find_ok. exact (proj1 (tree_ok_register_all routes newTree t tree_ok_newTree Hr)).
Qed.

Lemma find_returns_on_registered_trees_witness :
  register_all [("/users/:id"%string, 1); ("/users/all"%string, 2)] newTree
  = Ok (Node static ""
          [("u"%char,
            Node static "users"
              [("a"%char, Node static "all" [] no_slots (Some (Endpoint 2 "/users/all" [])))]
              (Slots None (Some (Node param "" [] no_slots
                                   (Some (Endpoint 1 "/users/:id" ["id"%string])))) None)
              None)]
          no_slots None) /\
  exists r,
    find (Node static ""
          [("u"%char,
            Node static "users"
              [("a"%char, Node static "all" [] no_slots (Some (Endpoint 2 "/users/all" [])))]
              (Slots None (Some (Node param "" [] no_slots
                                   (Some (Endpoint 1 "/users/:id" ["id"%string])))) None)
              None)]
          no_slots None) "/users/alx" = Ok r.
Proof.
  split; [vm_compute; reflexivity|].
  apply (find_returns_on_registered_trees nat
           [("/users/:id"%string, 1); ("/users/all"%string, 2)] _ "/users/alx").
  vm_compute. reflexivity.
Defined.

(** ** Registering over an existing route *)

Section Override.
Context {H : Type}.
Implicit Types (t a n v mid leaf : node H) (cur ext : cursor).

Lemma deref_length ext : forall n m,
  deref n ext = Some m -> List.length ext + height m <= height n.
Proof.
  induction ext as [|e ext IH]; intros n m; cbn [deref List.length].
  - intros [= ->]. lia.
  - destruct (follow n e) as [c|] eqn:E; [|discriminate]. intros Hm.
    specialize (IH c m Hm). pose proof (height_follow n c e E). lia.
Qed.

(** A literal token whose path is already there: the inner loop of
    [insert] walks it and writes nothing. *)
Lemma insert_static_rewalk ext : forall a cur v (s : string) (fuel : nat),
  deref a cur = Some v -> spells v ext s -> List.length ext <= fuel ->
  insert_static fuel a cur s = Ok (a, cur ++ ext).
Proof.
  induction ext as [|e ext IH]; intros a cur v s fuel Hv Hs Hf.
  - cbn [spells] in Hs. subst s. rewrite app_nil_r. destruct fuel; reflexivity.
  - destruct e as [c0|ty]; cbn [spells] in Hs; [|contradiction].
    destruct Hs as (next & s' & Hl & H0 & Es & Hs').
    destruct s as [|c rest]; [discriminate|]. cbn in H0. injection H0 as ->.
    destruct fuel as [|fuel]; cbn [List.length] in Hf; [lia|].
    assert (Hlcp : longestPrefix (String c0 rest) (prefix next) = prefix next).
    { rewrite Es, longestPrefix_spec. apply common_prefix_self_app. }
    assert (Hrest : sfrom (String.length (prefix next)) (String c0 rest) = s').
    { rewrite Es. apply sfrom_app_length. }
    cbn [insert_static]. rewrite Hv, Hl, Hlcp, Nat.ltb_irrefl, Hrest.
    rewrite (IH a (cur ++ [EChild c0]) next s' fuel); [|  |exact Hs'|lia].
    + rewrite <- app_assoc. reflexivity.
    + rewrite deref_app, Hv. cbn [deref follow]. rewrite Hl. reflexivity.
Qed.

Lemma insert_loop_rewalk (segs : list string) : forall a cur v ext (keys : list string),
  deref a cur = Some v -> follows v segs ext ->
  insert_loop segs a cur keys = Ok (a, cur ++ ext, keys ++ param_keys segs).
Proof.
  induction segs as [|seg segs IH]; intros a cur v ext keys Hv Hf; cbn [follows] in Hf.
  - subst ext. cbn [insert_loop param_keys]. rewrite !app_nil_r. reflexivity.
  - destruct Hf as (ext1 & ext2 & mid & -> & Hm & Hf & Hstep).
    assert (Hmid : deref a (cur ++ ext1) = Some mid).
    { rewrite deref_app, Hv. exact Hm. }
    cbn [insert_loop param_keys].
    destruct (getSegmentType seg) as [[| |]| |]; try contradiction; cbn [obind].
    + rewrite (insert_static_rewalk ext1 a cur v seg (S (height a)) Hv Hstep).
      2:{ pose proof (deref_length ext1 v mid Hm). pose proof (height_deref a v cur Hv). lia. }
      cbn [obind]. rewrite (IH a (cur ++ ext1) mid ext2 keys Hmid Hf), <- app_assoc.
      reflexivity.
    + subst ext1. unfold insert_special. rewrite Hv.
      cbn [deref follow] in Hm. destruct (slot_get (special v) param) as [c|]; [|discriminate].
      injection Hm as ->. cbn [obind].
      rewrite (IH a (cur ++ [ESpecial param]) mid ext2 _ Hmid Hf), <- !app_assoc.
      reflexivity.
    + subst ext1. unfold insert_special. rewrite Hv.
      cbn [deref follow] in Hm.
      destruct (slot_get (special v) catchAll) as [c|]; [|discriminate].
      injection Hm as ->. cbn [obind].
      rewrite (IH a (cur ++ [ESpecial catchAll]) mid ext2 _ Hmid Hf), <- !app_assoc.
      reflexivity.
Qed.

Lemma insert_again (t t1 : tree H) (p1 p2 : string) (f1 f2 : H) :
  splitPath (cleanPath p1) = splitPath (cleanPath p2) ->
  insert t p1 f1 = Ok t1 ->
  insert t1 p2 f2 = insert t p2 f2.
Proof.
  intros Htok Hins.
  assert (Hroot : cleanPath p1 <> "/"%string).
  { intros E. rewrite (insert_root_panics t p1 f1 E) in Hins. discriminate. }
  destruct (splitPath_cleanPath p1 Hroot) as (toks & Es & Hne & _).
  unfold insert, isValidPath in Hins |- *. rewrite <- Htok. rewrite Es in Hins |- *.
  cbn [obind] in Hins |- *.
  destruct (isValidPath_loop toks 0 (List.length toks) None ∅) as [[|]| |];
    cbn [obind negb] in Hins |- *; try discriminate.
  2:{ injection Hins as <-. reflexivity. }
  destruct (insert_loop_shape toks t [] t [] Hne eq_refl)
    as (ext & v & leaf & E & _ & _ & _ & Hd & _ & _ & Hf).
  cbn [assign app] in E. rewrite E in Hins |- *. cbn [obind] in Hins |- *.
  rewrite Hd in Hins |- *. injection Hins as <-.
  set (x := setEndpoint leaf (Some (newEndpoint (cleanPath p1) f1 (param_keys toks)))).
  assert (Hf1 : follows (assign v ext x) toks ext).
  { apply (follows_assign toks v ext leaf x Hf Hd). reflexivity. }
  rewrite (insert_loop_rewalk toks (assign v ext x) [] (assign v ext x) ext [] eq_refl Hf1).
  cbn [obind app]. rewrite (deref_assign v ext leaf x Hd).
  rewrite (assign_assign v ext leaf _ _ Hd). reflexivity.
Qed.

End Override.

(** X5.  The last registration wins and changes nothing else: when a
    pattern has been inserted, inserting a pattern with the same tokens (the
    same pattern, or one that differs only in where the ['/'] fall inside
    its literal runs) leaves the tree that inserting the second pattern
    alone would have left.  The first handler is gone and no node is
    added; registering the same route twice is the same as registering it
    once. *)
Theorem reinsert_replaces_endpoint :
  forall (H : Type) (t t1 : tree H) (p1 p2 : string) (f1 f2 : H),
    splitPath (cleanPath p1) = splitPath (cleanPath p2) ->
    insert t p1 f1 = Ok t1 ->
    insert t1 p2 f2 = insert t p2 f2 /\
    (forall t2, insert t1 p2 f2 = Ok t2 -> insert t2 p2 f2 = Ok t2).
Proof.
  intros H t t1 p1 p2 f1 f2 Htok Hins.
  split; [exact (insert_again t t1 p1 p2 f1 f2 Htok Hins)|].
  intros t2 H2. rewrite (insert_again t1 t2 p2 p2 f2 f2 eq_refl H2). exact H2.
Qed.

Lemma reinsert_replaces_endpoint_witness :
  splitPath (cleanPath "/foo/bar") = splitPath (cleanPath "/foobar/") /\
  insert (newTree (H := nat)) "/foo/bar" 1 = Ok (one_edge "foobar" (Endpoint 1 "/foo/bar" [])) /\
  insert (one_edge "foobar" (Endpoint 1 "/foo/bar" [])) "/foobar/" 2
  = Ok (one_edge "foobar" (Endpoint 2 "/foobar" [])).
Proof.
  split; [reflexivity|]. split; [reflexivity|].
  rewrite (proj1 (reinsert_replaces_endpoint nat newTree
                    (one_edge "foobar" (Endpoint 1 "/foo/bar" []))
                    "/foo/bar" "/foobar/" 1 2 eq_refl eq_refl)).
  reflexivity.
Defined.

(** ** Registration through a router

    Patterns whose first token is literal are written through the children
    map that the copy made by [getTree] shares with the stored root, so the
    application ends up with exactly the tree that [insert] returns. *)

Lemma insert_first_static_fields {H : Type} (t t' : tree H) (p : string) (f : H)
    (seg : string) (segs : list string) :
  splitPath (cleanPath p) = Ok (seg :: segs) -> getSegmentType seg = Ok static ->
  insert t p f = Ok t' ->
  kind t' = kind t /\ prefix t' = prefix t /\ special t' = special t /\ endpt t' = endpt t.
Proof.
  intros Hs Hty Hi.
  assert (Hroot : cleanPath p <> "/"%string).
  { intros E. rewrite (insert_root_panics t p f E) in Hi. discriminate. }
  destruct (splitPath_cleanPath p Hroot) as (toks & Es & Hne & _).
  rewrite Hs in Es. injection Es as <-.
  unfold insert, isValidPath in Hi. rewrite Hs in Hi. cbn [obind] in Hi.
  destruct (isValidPath_loop (seg :: segs) 0 (List.length (seg :: segs)) None ∅) as [[|]| |];
    cbn [obind negb] in Hi; try discriminate.
  2:{ injection Hi as <-. auto. }
  destruct (insert_loop_shape (seg :: segs) t [] t [] Hne eq_refl)
    as (ext & v & leaf & E & Hk & Hp & He & Hd & _ & Hfirst & _).
  destruct (Hfirst seg segs eq_refl Hty) as (Hsp & l & ext' & ->).
  cbn [assign app] in E. rewrite E in Hi. cbn [obind] in Hi. rewrite Hd in Hi.
  injection Hi as <-.
  destruct (lookup_child (children v) l); cbn [addChild kind prefix special endpt];
    repeat split; congruence.
Qed.

Lemma method_eqb_eq (k m : method) : method_eqb k m = true <-> k = m.
Proof. destruct k, m; cbn; split; congruence. Qed.

Lemma trees_get_set_same {W : Type} (ts : list (method * tree (HandlerFunc Request W)))
    (m : method) (n : tree (HandlerFunc Request W)) :
  trees_get (trees_set ts m n) m = Some n.
Proof.
  induction ts as [|[k t0] ts IH]; cbn [trees_set trees_get].
  - rewrite (proj2 (method_eqb_eq m m) eq_refl). reflexivity.
  - destruct (method_eqb k m) eqn:E; cbn [trees_get]; rewrite E; [reflexivity|exact IH].
Qed.

Lemma trees_get_set_other {W : Type} (ts : list (method * tree (HandlerFunc Request W)))
    (m m' : method) (n : tree (HandlerFunc Request W)) :
  m' <> m -> trees_get (trees_set ts m n) m' = trees_get ts m'.
Proof.
  intros Hm. induction ts as [|[k t0] ts IH]; cbn [trees_set trees_get].
  - destruct (method_eqb m m') eqn:E; [|reflexivity].
    apply method_eqb_eq in E. congruence.
  - destruct (method_eqb k m) eqn:E; cbn [trees_get].
    + apply method_eqb_eq in E. subst k.
      destruct (method_eqb m m') eqn:E'; [|reflexivity].
      apply method_eqb_eq in E'. congruence.
    + rewrite IH. reflexivity.
Qed.

Lemma Handle_first_static {W : Type} (a : App (W := W)) (m : method) (r : Router)
    (p : string) (ms : list (Middleware Request W)) (h : HandlerFunc Request W)
    (stored : tree (HandlerFunc Request W)) (seg : string) (segs : list string) :
  trees_get (trees a) m = Some stored ->
  splitPath (cleanPath (rpath r ++ p)) = Ok (seg :: segs) ->
  getSegmentType seg = Ok static ->
  Handle (newRoute a r m p ms) h a
  = do n' <- insert stored (cleanPath (rpath r ++ p)) (chainMws (rmws r ++ ms) h);
    Ok (mkApp (AllowTrace a) (notAllowed a) (notFound a) (options a)
          (trees_set (trees a) m n') (rootRouter a)).
Proof.
  intros Eg Hs Hty. unfold Handle, newRoute, getTree. rewrite Eg.
  cbn [route_t route_path route_mws]. unfold through, write_back. cbn [bucket copy].
  rewrite Eg, node_eta.
  destruct (insert stored _ _) as [n'| |] eqn:Ei; cbn [obind]; try reflexivity.
  rewrite <- (cleanPath_idem (rpath r ++ p)) in Hs.
  destruct (insert_first_static_fields _ _ _ _ _ _ Hs Hty Ei) as (Hk & Hp & Hsp & He).
  rewrite <- Hk, <- Hp, <- Hsp, <- He, node_eta. reflexivity.
Qed.

(** X6.  Binding a handler through a router, for a pattern whose cleaned
    full path starts with a literal segment: the application afterwards
    holds, in the bucket of the route's method, exactly the tree that
    [insert] makes from the stored one with the cleaned path and the
    handler wrapped in the router's and the route's middlewares; the other
    buckets and the fallback handlers are untouched, and [Handle] panics
    only if that [insert] does. *)
Theorem router_registration_is_tree_insertion :
  forall (W : Type) (a : App (W := W)) (m : method) (r : Router)
         (p : string) (ms : list (Middleware Request W)) (h : HandlerFunc Request W)
         (stored : tree (HandlerFunc Request W)) (seg : string) (segs : list string),
    trees_get (trees a) m = Some stored ->
    splitPath (cleanPath (rpath r ++ p)) = Ok (seg :: segs) ->
    getSegmentType seg = Ok static ->
    Handle (newRoute a r m p ms) h a
    = (do n' <- insert stored (cleanPath (rpath r ++ p)) (chainMws (rmws r ++ ms) h);
       Ok (mkApp (AllowTrace a) (notAllowed a) (notFound a) (options a)
             (trees_set (trees a) m n') (rootRouter a))) /\
    (forall a', Handle (newRoute a r m p ms) h a = Ok a' ->
       bucket_tree a' m
       = insert stored (cleanPath (rpath r ++ p)) (chainMws (rmws r ++ ms) h) /\
       (forall m', m' <> m -> trees_get (trees a') m' = trees_get (trees a) m') /\
       notFound a' = notFound a /\ notAllowed a' = notAllowed a /\ options a' = options a).
Proof.
  intros W a m r p ms h stored seg segs Eg Hs Hty.
  pose proof (Handle_first_static a m r p ms h stored seg segs Eg Hs Hty) as E.
  split; [exact E|]. intros a'. rewrite E.
  destruct (insert stored _ _) as [n'| |]; cbn [obind]; try discriminate.
  intros [= <-]. unfold bucket_tree. cbn [trees notFound notAllowed options].
  rewrite trees_get_set_same. split; [reflexivity|]. split; [|auto].
  intros m' Hm. apply trees_get_set_other. exact Hm.
Qed.

Lemma router_registration_is_tree_insertion_witness :
  Handle (newRoute (New idle_handler idle_handler idle_handler false)
            (mkRouter "/api" []) mPOST "/users/:id" []) idle_handler
    (New idle_handler idle_handler idle_handler false)
  = (do n' <- insert newTree (cleanPath ("/api" ++ "/users/:id")) (chainMws [] idle_handler);
     Ok (mkApp false idle_handler idle_handler idle_handler
           (trees_set (trees (New idle_handler idle_handler idle_handler false)) mPOST n')
           None)).
Proof.
  apply (proj1 (router_registration_is_tree_insertion nat
           (New idle_handler idle_handler idle_handler false) mPOST (mkRouter "/api" [])
           "/users/:id" [] idle_handler newTree "apiusers" [":id"%string]
           eq_refl eq_refl eq_refl)).
Defined.

Lemma internalHandler_plain {W : Type} (EqualFold : string -> string -> bool)
    (a : App (W := W)) (m : method) (q : string) :
  internalHandler EqualFold a (mkRequest (reverseMethodLookup m) q "" "" None)
  = match trees_get (trees a) m with
    | None => Ok (Serve (notFound a) (mkRequest (reverseMethodLookup m) q "" "" None))
    | Some tr =>
        do res <- find tr q;
        match res with
        | None => Ok (Serve (notFound a) (mkRequest (reverseMethodLookup m) q "" "" None))
        | Some (e, pm) =>
            Ok (Serve (fn e) (withParams (mkRequest (reverseMethodLookup m) q "" "" None) pm))
        end
    end.
Proof. destruct m; reflexivity. Qed.

(** X7.  The first route of a bucket, end to end.  Let the cleaned full
    path of a route be the well-formed pattern [ps], starting with a literal
    segment, and let the bucket of its method still be empty.  After
    [Handle], a request with that method whose path fills the dynamic
    segments of [ps] with [vals] is served by the handler wrapped in the
    router's middlewares followed by the route's, on the request carrying
    the map from the parameter names of [ps] to [vals]. *)
Theorem first_route_is_served :
  forall (W : Type) (EqualFold : string -> string -> bool) (a : App (W := W)) (m : method)
         (r : Router) (p : string) (ms : list (Middleware Request W))
         (h : HandlerFunc Request W) (ps : list piece) (segs : list string)
         (rest : list piece) (vals : list string),
    trees_get (trees a) m = Some newTree ->
    cleanPath (rpath r ++ p) = render ps ->
    ps = Lit segs :: rest ->
    well_formed ps = true -> values_ok ps vals = true ->
    (do a2 <- Handle (newRoute a r m p ms) h a;
     internalHandler EqualFold a2 (mkRequest (reverseMethodLookup m) (request ps vals) "" "" None))
    = Ok (Serve (chainMws (rmws r ++ ms) h)
            (withParams (mkRequest (reverseMethodLookup m) (request ps vals) "" "" None)
               (list_to_map (zip (names ps) vals)))).
Proof.
  intros W EqualFold a m r p ms h ps segs rest vals Eg Hpath Hps Hwf Hvals.
  destruct (well_formed_inv ps Hwf) as (Hne & Hok & Halt & Hstar & Hnd).
  assert (Hs : splitPath (cleanPath (rpath r ++ p)) = Ok (cat segs :: tokens rest)).
  { rewrite Hpath, (splitPath_render ps Hne Hok Halt), Hps. reflexivity. }
  assert (Hty : getSegmentType (cat segs) = Ok static).
  { rewrite Hps in Hok. cbn [forallb piece_ok] in Hok.
    apply andb_true_iff in Hok as [Hx _]. apply andb_true_iff in Hx as [Hlen Hall].
    destruct (cat_lits segs) as (c0 & r0 & _ & Hty & _); [|exact Hall|exact Hty].
    destruct segs; discriminate. }
  rewrite (Handle_first_static a m r p ms h newTree _ _ Eg Hs Hty), Hpath.
  rewrite (insert_render ps _ Hwf). cbn [obind].
  rewrite internalHandler_plain. cbn [trees]. rewrite trees_get_set_same.
  pose proof (find_insert_render ps vals (chainMws (rmws r ++ ms) h) Hwf Hvals) as Hfind.
  rewrite (insert_render ps _ Hwf) in Hfind. cbn [obind] in Hfind.
  rewrite Hfind. reflexivity.
Qed.

Lemma first_route_is_served_witness :
  (do a2 <- Handle (newRoute (New idle_handler idle_handler idle_handler false)
                      (mkRouter "/api/v1" [counting_mw]) mPUT "/users/:id" [counting_mw])
              idle_handler (New idle_handler idle_handler idle_handler false);
   internalHandler (fun _ _ => false) a2 (mkRequest "PUT" "/api/v1/users/42" "" "" None))
  = Ok (Serve (chainMws [counting_mw; counting_mw] idle_handler)
          (withParams (mkRequest "PUT" "/api/v1/users/42" "" "" None)
             (list_to_map [("id"%string, "42"%string)]))).
Proof.
  apply (first_route_is_served nat (fun _ _ => false)
           (New idle_handler idle_handler idle_handler false) mPUT
           (mkRouter "/api/v1" [counting_mw]) "/users/:id" [counting_mw] idle_handler
           [Lit ["api"%string; "v1"%string; "users"%string]; Par "id"]
           ["api"%string; "v1"%string; "users"%string] [Par "id"] ["42"%string]);
    vm_compute; reflexivity.
Defined.

(** ** The listing of routes *)

Section Listing.
Context {H : Type}.
Implicit Types (n c t : node H) (r : list string).

Lemma recurseCapture_unfold (m : string) n r :
  recurseCapture m n r
  = fold_left (fun r kc => capture_node m (snd kc) r) (children n)
      (capture_slot m (at_catchAll (special n))
         (capture_slot m (at_param (special n))
            (capture_slot m (at_static (special n)) r))).
Proof.
  destruct n as [k pre cs sp ep]. cbn [recurseCapture children special].
  match goal with
  | |- ?F cs ?X = fold_left ?g cs ?Y => change (F cs Y = fold_left g cs Y); generalize Y
  end.
  induction cs as [|[k' c'] cs IH]; intros r0; [reflexivity|].
  cbn [fold_left snd]. rewrite <- IH. reflexivity.
Qed.

Lemma height_child_In n (kc : ascii * node H) :
  In kc (children n) -> height (snd kc) < height n.
Proof.
  destruct n as [k pre cs sp ep]. cbn [children height].
  match goal with |- _ -> _ < S (Nat.max ?o _) => intros Hin; assert (Ho : height (snd kc) <= o) end;
    [|lia].
  induction cs as [|[k' c'] cs IH]; [destruct Hin|].
  destruct Hin as [<-|Hin]; cbn [snd]; [lia|]. specialize (IH Hin). lia.
Qed.

Lemma capture_children (m : string) (cs : list (ascii * node H)) :
  (forall kc, In kc cs ->
     forall r, capture_node m (snd kc) r ≡ₚ r ++ map (route_entry m) (endpoints (snd kc))) ->
  forall r0,
    fold_left (fun r kc => capture_node m (snd kc) r) cs r0
    ≡ₚ r0 ++ map (route_entry m) (flat_map (fun kc => endpoints (snd kc)) cs).
Proof.
  induction cs as [|kc cs IH]; intros Hcs r0; cbn [fold_left flat_map map].
  - rewrite app_nil_r. reflexivity.
  - rewrite IH by (intros kc' Hin; apply Hcs; right; exact Hin).
    rewrite (Hcs kc (or_introl eq_refl) r0), map_app, <- !app_assoc. reflexivity.
Qed.

Lemma capture_below (k : nat) : forall (m : string) n r,
  height n <= k ->
  recurseCapture m n r
  ≡ₚ r ++ map (route_entry m) (endpoints (setEndpoint n None)).
Proof.
  induction k as [|k IH]; intros m n r Hh.
  { destruct n; cbn [height] in Hh. lia. }
  assert (Hnode : forall c, height c <= k ->
            forall r, capture_node m c r ≡ₚ r ++ map (route_entry m) (endpoints c)).
  { intros c Hc r0. unfold capture_node. rewrite (IH m c _ Hc).
    rewrite (endpoints_unfold c), (endpoints_unfold (setEndpoint c None)).
    cbn [setEndpoint endpt children special].
    destruct (endpt c) as [e|]; cbn [app map]; [|reflexivity].
    rewrite <- app_assoc. reflexivity. }
  assert (Hslot : forall (ty : nType) o, slot_get (special n) ty = o ->
            forall r, capture_slot m o r ≡ₚ r ++ map (route_entry m) (slot_endpoints o)).
  { intros ty o Ho r0. destruct o as [c|]; cbn [capture_slot slot_endpoints map].
    - apply Hnode. pose proof (height_follow n c (ESpecial ty) Ho). lia.
    - rewrite app_nil_r. reflexivity. }
  rewrite recurseCapture_unfold.
  rewrite capture_children.
  2:{ intros kc Hin. apply Hnode. pose proof (height_child_In n kc Hin). lia. }
  rewrite (Hslot catchAll _ eq_refl), (Hslot param _ eq_refl), (Hslot static _ eq_refl).
  rewrite (endpoints_unfold (setEndpoint n None)).
  cbn [setEndpoint endpt children special app slot_get].
  rewrite !map_app, <- !app_assoc. apply Permutation_app_head.
  set (A := map _ (slot_endpoints (at_static _))).
  set (B := map _ (slot_endpoints (at_param _))).
  set (C := map _ (slot_endpoints (at_catchAll _))).
  set (D := map _ (flat_map _ _)).
  rewrite (Permutation_app_comm D (A ++ B ++ C)), <- !app_assoc. reflexivity.
Qed.

Lemma captureRoutes_endpoints (t : tree H) (m : string) :
  captureRoutes t m ≡ₚ map (route_entry m) (endpoints (setEndpoint t None)).
Proof. unfold captureRoutes. rewrite (capture_below (height t) m t [] (le_n _)). reflexivity. Qed.

Lemma setEndpoint_None_id (t : tree H) : endpt t = None -> setEndpoint t None = t.
Proof. destruct t as [k pre cs sp ep]. cbn. intros ->. reflexivity. Qed.

Lemma endpoints_insert_valid t (p : string) (f : H) t' e :
  insert t p f = Ok t' -> In e (endpoints t') ->
  In e (endpoints t) \/
  (fullPath e = cleanPath p /\ fn e = f /\ isValidPath (cleanPath p) = Ok true).
Proof.
  intros Hi He. destruct (isValidPath (cleanPath p)) as [[|]| |] eqn:Ev.
  - destruct (endpoints_insert t p f t' e Hi He) as [Hl|(segs & _ & ->)]; [left; exact Hl|].
    right. auto.
  - rewrite (insert_invalid t p f Ev) in Hi. injection Hi as <-. left. exact He.
  - unfold insert in Hi. rewrite Ev in Hi. discriminate.
  - unfold insert in Hi. rewrite Ev in Hi. discriminate.
Qed.

Lemma endpoints_register_all_valid (routes : list (string * H)) : forall t t' e,
  register_all routes t = Ok t' -> In e (endpoints t') ->
  In e (endpoints t) \/
  exists p f, In (p, f) routes /\ fullPath e = cleanPath p /\ fn e = f
              /\ isValidPath (cleanPath p) = Ok true.
Proof.
  induction routes as [|[p f] routes IH]; intros t t' e; cbn [register_all].
  - intros [= <-] He. left. exact He.
  - destruct (insert t p f) as [t1| |] eqn:E; cbn [obind]; try discriminate.
    intros Hr He. destruct (IH t1 t' e Hr He) as [H1|(p' & f' & Hin & Hrest)].
    + destruct (endpoints_insert_valid t p f t1 e E H1) as [Hl|Hv]; [left; exact Hl|].
      right. exists p, f. split; [left; reflexivity|exact Hv].
    + right. exists p', f'. split; [right; exact Hin|exact Hrest].
Qed.

End Listing.

Lemma append_inj_l (a x y : string) : (a ++ x)%string = (a ++ y)%string -> x = y.
Proof. induction a as [|c a IH]; cbn; [auto|]. intros [= E]. exact (IH E). Qed.

(** X8.  What [captureRoutes] lists.  For a tree built from [newTree] by
    registrations: the listing has one line [m ++ " " ++ fullPath] per
    endpoint of the tree and nothing else (in some order); every line is
    the cleaned pattern of a registered route that the validator accepts;
    and a pattern the validator rejects is never listed. *)
Theorem captureRoutes_lists_registered_routes :
  forall (H : Type) (routes : list (string * H)) (t : tree H) (m : string),
    register_all routes newTree = Ok t ->
    captureRoutes t m ≡ₚ map (route_entry m) (endpoints t) /\
    (forall s, In s (captureRoutes t m) ->
       exists p f, In (p, f) routes /\ isValidPath (cleanPath p) = Ok true /\
                   s = (m ++ " " ++ cleanPath p)%string) /\
    (forall p, isValidPath (cleanPath p) = Ok false ->
       ~ In (m ++ " " ++ cleanPath p)%string (captureRoutes t m)).
Proof.
  intros H routes t m Hr.
  destruct (tree_ok_register_all routes newTree t tree_ok_newTree Hr) as (_ & _ & _ & He).
  assert (Hperm : captureRoutes t m ≡ₚ map (route_entry m) (endpoints t)).
  { rewrite captureRoutes_endpoints, (setEndpoint_None_id t He). reflexivity. }
  assert (Hin : forall s, In s (captureRoutes t m) ->
            exists p f, In (p, f) routes /\ isValidPath (cleanPath p) = Ok true /\
                        s = (m ++ " " ++ cleanPath p)%string).
  { intros s Hs. apply (Permutation_in _ Hperm) in Hs. apply in_map_iff in Hs as (e & <- & Hine).
    destruct (endpoints_register_all_valid routes newTree t e Hr Hine)
      as [[]|(p & f & Hpf & Hfull & _ & Hv)].
    exists p, f. split; [exact Hpf|]. split; [exact Hv|]. unfold route_entry. rewrite Hfull.
    reflexivity. }
  split; [exact Hperm|]. split; [exact Hin|].
  intros p Hbad Hs. destruct (Hin _ Hs) as (p' & f' & _ & Hv & E).
  apply append_inj_l in E. apply (append_inj_l " ") in E. rewrite E in Hbad. congruence.
Qed.

Lemma captureRoutes_lists_registered_routes_witness :
  register_all [("/users"%string, 1); ("/users/:id"%string, 2); ("/users/:1d"%string, 3)] newTree
  = Ok (Node static ""
          [("u"%char,
            Node static "users" []
              (Slots None (Some (Node param "" [] no_slots
                                   (Some (Endpoint 2 "/users/:id" ["id"%string])))) None)
              (Some (Endpoint 1 "/users" [])))]
          no_slots None) /\
  captureRoutes (Node static ""
          [("u"%char,
            Node static "users" []
              (Slots None (Some (Node param "" [] no_slots
                                   (Some (Endpoint 2 "/users/:id" ["id"%string])))) None)
              (Some (Endpoint 1 "/users" [])))]
          no_slots None) "GET"
  ≡ₚ ["GET /users"%string; "GET /users/:id"%string].
Proof.
  split; [vm_compute; reflexivity|].
  apply (proj1 (captureRoutes_lists_registered_routes nat
                  [("/users"%string, 1); ("/users/:id"%string, 2); ("/users/:1d"%string, 3)]
                  _ "GET" eq_refl)).
Defined.

(** X9.  [Routes] returns its lines in ascending byte order, one line
    [METHOD path] per endpoint stored below the root of each method tree;
    an endpoint on a root itself would not be listed.  *)
Theorem Routes_sorted_listing :
  forall (W : Type) (a : App (W := W)),
    Sorted String.le (Routes a) /\
    Routes a
    ≡ₚ concat (map (fun lt => map (route_entry (reverseMethodLookup (fst lt)))
                                (endpoints (setEndpoint (snd lt) None)))
                 (trees a)).
Proof.
  intros W a. unfold Routes. split; [apply Sorted_merge_sort; apply _|].
  rewrite merge_sort_Permutation.
  induction (trees a) as [|[l tr] ts IH]; cbn [map concat fst snd]; [reflexivity|].
  rewrite IH, captureRoutes_endpoints. reflexivity.
Qed.

(** ** A route and a longer route with the same beginning

    Two literal routes, ["/" ++ s] and ["/" ++ s ++ u]: the second hangs
    below the first on an edge labelled [u].  A request that enters that
    edge and leaves it before its end is answered by the route above the
    edge. *)

Section StaticSteps.
Context {H : Type}.
Implicit Types (t n next : node H) (cur : cursor).

Lemma insert_static_new (fuel : nat) t cur n (c0 : ascii) (r : string) :
  deref t cur = Some n -> lookup_child (children n) c0 = None ->
  insert_static (S fuel) t cur (String c0 r)
  = Ok (assign t cur (addChild n c0 (newNode static (String c0 r))), cur ++ [EChild c0]).
Proof. intros Hn Hl. cbn [insert_static]. rewrite Hn, Hl. reflexivity. Qed.

Lemma insert_static_descend (fuel : nat) t cur n (c0 : ascii) (r : string) next (rest : string) :
  deref t cur = Some n -> lookup_child (children n) c0 = Some next ->
  String c0 r = (prefix next ++ rest)%string ->
  insert_static (S fuel) t cur (String c0 r)
  = insert_static fuel t (cur ++ [EChild c0]) rest.
Proof.
  intros Hn Hl E. cbn [insert_static]. rewrite Hn, Hl.
  assert (Hlcp : longestPrefix (String c0 r) (prefix next) = prefix next).
  { rewrite E, longestPrefix_spec. apply common_prefix_self_app. }
  assert (Hrest : sfrom (String.length (prefix next)) (String c0 r) = rest).
  { rewrite E. apply sfrom_app_length. }
  rewrite Hlcp, Nat.ltb_irrefl, Hrest. reflexivity.
Qed.

Lemma common_prefix_app_self (a x : string) : common_prefix a (a ++ x) = a.
Proof.
  induction a as [|c a IH]; cbn; [destruct x; reflexivity|].
  rewrite Ascii.eqb_refl, IH. reflexivity.
Qed.

Lemma insert_static_split_here (fuel : nat) t cur n (c0 : ascii) (r : string) next
    (r0 : ascii) (rem' : string) :
  deref t cur = Some n -> lookup_child (children n) c0 = Some next ->
  prefix next = (String c0 r ++ String r0 rem')%string ->
  insert_static (S fuel) t cur (String c0 r)
  = Ok (assign t (cur ++ [EChild c0])
          (addChild (Node (kind next) (String c0 r) [] no_slots None) r0
             (Node static (String r0 rem') (children next) (special next) (endpt next))),
        cur ++ [EChild c0]).
Proof.
  intros Hn Hl E. cbn [insert_static]. rewrite Hn, Hl.
  assert (Hlcp : longestPrefix (String c0 r) (prefix next) = String c0 r).
  { rewrite E, longestPrefix_spec. apply common_prefix_app_self. }
  rewrite Hlcp.
  assert (Hlt : Nat.ltb (String.length (String c0 r)) (String.length (prefix next)) = true).
  { apply Nat.ltb_lt. rewrite E, length_append. cbn [String.length]. lia. }
  rewrite Hlt.
  assert (Hrem : sfrom (String.length (String c0 r)) (prefix next) = String r0 rem').
  { rewrite E. apply sfrom_app_length. }
  rewrite Hrem. cbn [sidx String.get]. rewrite Nat.ltb_irrefl. reflexivity.
Qed.

Lemma lookup_child_hd (k : ascii) (c : node H) (cs : list (ascii * node H)) :
  lookup_child ((k, c) :: cs) k = Some c.
Proof. cbn [lookup_child]. rewrite Ascii.eqb_refl. reflexivity. Qed.

End StaticSteps.
Ltac crunch_tree :=
  unfold addChild, addSpecial, setEndpoint, newNode, newTree, replace_at, clearChildren,
    copyFrom, setPrefix;
  cbn [kind prefix children special endpt put_child lookup_child assign deref follow obind app
       register_all];
  rewrite ?Ascii.eqb_refl.

Section PrefixRoutes.
Context {H : Type}.
Variables (f1 f2 : H).
Variables (s0 : ascii) (s' : string) (cu : ascii) (u1' : string) (c2 : ascii) (u2' : string).

Let s : string := String s0 s'.
Let u1 : string := String cu u1'.
Let u2 : string := String c2 u2'.
Let u : string := (u1 ++ u2)%string.
Let e1 : endpoint H := Endpoint f1 (String slash s) [].
Let e2 : endpoint H := Endpoint f2 (String slash (s ++ u)) [].
Let below : node H := Node static u [] no_slots (Some e2).
Let above : node H := Node static s [(cu, below)] no_slots (Some e1).
Let both : tree H := Node static "" [(s0, above)] no_slots None.

Hypothesis Hs : lit_seg s = true.
Hypothesis Hu : no_slash u = true.

Lemma lit_seg_su : lit_seg (s ++ u) = true.
Proof.
  pose proof Hs as Hs'. unfold s in *. cbn [String.append lit_seg] in *.
  apply andb_true_iff in Hs' as [Hc Hn]. rewrite Hc. cbn [andb].
  change (no_slash ((String s0 s') ++ u) = true). apply no_slash_app. auto.
Qed.

Lemma insert_one_literal (t : tree H) (tok : string) (f : H) :
  lit_seg tok = true ->
  insert t (String slash tok) f
  = do (t', cur) <- insert_static (S (height t)) t [] tok;
    match deref t' cur with
    | None => Panic
    | Some n => Ok (assign t' cur (setEndpoint n (Some (Endpoint f (String slash tok) []))))
    end.
Proof.
  intros Htok.
  assert (Hwf : well_formed [Lit [tok]] = true).
  { unfold well_formed. cbn [List.length Nat.eqb negb forallb piece_ok alternates star_last andb].
    rewrite Htok. reflexivity. }
  destruct (well_formed_inv _ Hwf) as (Hne & Hok & Halt & _ & _).
  change (String slash tok) with (render [Lit [tok]]).
  unfold insert. rewrite (cleanPath_render _ Hne Hok), (isValidPath_render _ Hwf).
  cbn [obind negb]. rewrite (splitPath_render _ Hne Hok Halt).
  cbn [obind tokens map token_of cat fold_right]. rewrite append_nil_r.
  cbn [insert_loop]. rewrite (getSegmentType_lit tok Htok). cbn [obind].
  destruct (insert_static (S (height t)) t [] tok) as [[t' cur]| |]; reflexivity.
Qed.

Lemma short_alone :
  insert newTree (String slash s) f1
  = Ok (Node static "" [(s0, Node static s [] no_slots (Some e1))] no_slots None).
Proof.
  rewrite (insert_one_literal newTree s f1 Hs).
  unfold s at 1.
  rewrite (insert_static_new _ newTree [] newTree s0 s' eq_refl eq_refl).
  repeat (progress crunch_tree). reflexivity.
Qed.

Lemma long_alone :
  insert newTree (String slash (s ++ u)) f2
  = Ok (Node static "" [(s0, Node static (s ++ u) [] no_slots (Some e2))] no_slots None).
Proof.
  rewrite (insert_one_literal newTree (s ++ u) f2 lit_seg_su).
  change (s ++ u)%string with (String s0 (s' ++ u)) at 1.
  rewrite (insert_static_new _ newTree [] newTree s0 (s' ++ u) eq_refl eq_refl).
  repeat (progress crunch_tree). reflexivity.
Qed.

(** The short route first: the long one is hung below it. *)
Lemma short_then_long :
  register_all [(String slash s, f1); (String slash (s ++ u), f2)] newTree = Ok both.
Proof.
  cbn [register_all]. rewrite short_alone. cbn [obind].
  rewrite (insert_one_literal _ (s ++ u) f2 lit_seg_su).
  set (t1 := Node static "" [(s0, Node static s [] no_slots (Some e1))] no_slots None).
  change (s ++ u)%string with (String s0 (s' ++ u)) at 1.
  rewrite (insert_static_descend _ t1 [] t1 s0 (s' ++ u)
             (Node static s [] no_slots (Some e1)) u eq_refl (lookup_child_hd _ _ _) eq_refl).
  change (height t1) with 2. change u with (String cu (u1' ++ u2)) at 1.
  rewrite (insert_static_new _ t1 ([] ++ [EChild s0]) (Node static s [] no_slots (Some e1)) cu
             (u1' ++ u2)).
  2:{ subst t1. crunch_tree. reflexivity. }
  2:{ reflexivity. }
  subst t1. repeat (progress crunch_tree). reflexivity.
Qed.

(** The long route first: its edge is split when the short one arrives. *)
Lemma long_then_short :
  register_all [(String slash (s ++ u), f2); (String slash s, f1)] newTree = Ok both.
Proof.
  cbn [register_all]. rewrite long_alone. cbn [obind].
  rewrite (insert_one_literal _ s f1 Hs).
  set (t1 := Node static "" [(s0, Node static (s ++ u) [] no_slots (Some e2))] no_slots None).
  unfold s at 1.
  rewrite (insert_static_split_here _ t1 [] t1 s0 s'
             (Node static (s ++ u) [] no_slots (Some e2)) cu (u1' ++ u2)
             eq_refl (lookup_child_hd _ _ _) eq_refl).
  subst t1. repeat (progress crunch_tree). reflexivity.
Qed.

Lemma s0_not_slash : Ascii.eqb s0 slash = false.
Proof.
  pose proof Hs as Hs'. unfold s in Hs'. cbn [lit_seg] in Hs'.
  apply andb_true_iff in Hs' as [_ Hn]. apply no_slash_cons in Hn as [Hc _]. exact Hc.
Qed.

Lemma cu_not_slash : Ascii.eqb cu slash = false.
Proof.
  pose proof Hu as Hu'. unfold u, u1 in Hu'. cbn [String.append] in Hu'.
  apply no_slash_cons in Hu' as [Hc _]. exact Hc.
Qed.

Lemma c2_not_slash : Ascii.eqb c2 slash = false.
Proof.
  pose proof Hu as Hu'. unfold u in Hu'. apply no_slash_app in Hu' as [_ Hn].
  unfold u2 in Hn. apply no_slash_cons in Hn as [Hc _]. exact Hc.
Qed.

(** Inside the lower edge, after [u1]: the first byte that is not ['/']
    does not continue the edge, and the loop stops on the node above. *)
Lemma find_loop_diverge (w : string) : forall fuel : nat,
  String.length w <= fuel ->
  match unslash w with String a _ => Ascii.eqb a c2 = false | EmptyString => True end ->
  find_loop fuel [] above (Some cu) (String.length u1) w = Ok (Some (e1, ∅)).
Proof.
  induction w as [|c w IH]; intros fuel Hf Hw.
  - destruct fuel; reflexivity.
  - destruct fuel as [|fuel]; cbn [String.length] in Hf; [lia|].
    destruct (Ascii.eqb c slash) eqn:Ec.
    + cbn [find_loop]. rewrite Ec. apply IH; [lia|].
      cbn [unslash] in Hw. rewrite Ec in Hw. exact Hw.
    + cbn [unslash] in Hw. rewrite Ec in Hw.
      rewrite (find_loop_step _ _ _ _ _ _ _ Ec).
      change (children above) with [(cu, below)]. rewrite lookup_child_hd.
      change (prefix below) with (u1 ++ u2)%string.
      assert (Hlt : Nat.ltb (String.length (u1 ++ u2)) (String.length u1) = false).
      { apply Nat.ltb_ge. rewrite length_append. lia. }
      rewrite Hlt, sfrom_app_length, longestPrefix_spec.
      unfold u2 at 1. cbn [common_prefix]. rewrite Hw. reflexivity.
Qed.

Lemma find_falls_back (w : string) :
  match unslash w with String a _ => Ascii.eqb a c2 = false | EmptyString => True end ->
  find both (String slash (s ++ u1 ++ w)) = Ok (Some (e1, ∅)).
Proof.
  intros Hw. unfold find. cbn [String.length find_loop].
  change (Ascii.eqb slash slash) with true. cbn iota.
  change (s ++ u1 ++ w)%string with (String s0 (s' ++ u1 ++ w)).
  cbn [String.length]. rewrite (find_loop_step _ _ _ _ _ _ _ s0_not_slash).
  change (children both) with [(s0, above)]. rewrite lookup_child_hd.
  change (prefix above) with s. cbn [Nat.ltb Nat.leb sfrom].
  change (String s0 (s' ++ u1 ++ w)) with (s ++ (u1 ++ w))%string.
  rewrite longestPrefix_spec, common_prefix_self_app, sfrom_app_length.
  assert (Hz : Nat.eqb (String.length s) 0 = false) by reflexivity.
  rewrite Hz, Nat.add_0_r, Nat.eqb_refl.
  change (u1 ++ w)%string with (String cu (u1' ++ w)).
  rewrite (find_loop_fuel (S (String.length (u1' ++ w)))); [|cbn [String.length]; lia|].
  2:{ rewrite !length_append. cbn [String.length]. rewrite length_append. lia. }
  rewrite (find_loop_step _ _ _ _ _ _ _ cu_not_slash).
  change (children above) with [(cu, below)]. rewrite lookup_child_hd.
  change (prefix below) with (u1 ++ u2)%string. cbn [Nat.ltb Nat.leb sfrom].
  change (String cu (u1' ++ w)) with (u1 ++ w)%string.
  assert (Hlcp : longestPrefix (u1 ++ w) (u1 ++ u2) = u1).
  { rewrite longestPrefix_spec. apply common_prefix_app_diff.
    unfold u2. destruct w as [|c w']; [exact I|].
    cbn [unslash] in Hw. destruct (Ascii.eqb c slash) eqn:Ec; [|exact Hw].
    apply Ascii.eqb_eq in Ec. subst c. rewrite Ascii.eqb_sym. exact c2_not_slash. }
  rewrite Hlcp, sfrom_app_length.
  assert (Hz1 : Nat.eqb (String.length u1) 0 = false) by reflexivity.
  assert (Hpart : Nat.eqb (String.length u1 + 0) (String.length (u1 ++ u2)) = false).
  { apply Nat.eqb_neq. unfold u2. rewrite length_append. cbn [String.length]. lia. }
  rewrite Hz1, Hpart. cbn [Nat.add].
  apply find_loop_diverge; [|exact Hw].
  rewrite length_append. lia.
Qed.

End PrefixRoutes.

(** X10.  Two literal routes, one a proper beginning of the other by at
    least two bytes: ["/" ++ s] and ["/" ++ s ++ u1 ++ u2].  Both
    registration orders build the same tree (the second order splits the
    long edge).  A request whose path is [s ++ u1] followed by bytes that do
    not continue with [u2] matches neither pattern, and is answered by the
    endpoint of the short route: the loop of [find] breaks inside the lower
    edge and returns the endpoint of the node it stands on. *)
Theorem find_falls_back_to_prefix_route :
  forall (H : Type) (f1 f2 : H) (s u1 u2 w : string),
    lit_seg s = true -> no_slash u1 = true -> no_slash u2 = true ->
    u1 <> ""%string -> u2 <> ""%string ->
    match unslash w, u2 with
    | String a _, String b _ => Ascii.eqb a b = false
    | _, _ => True
    end ->
    register_all [(String slash s, f1); (String slash (s ++ u1 ++ u2), f2)] newTree
    = register_all [(String slash (s ++ u1 ++ u2), f2); (String slash s, f1)] newTree /\
    (do t <- register_all [(String slash s, f1); (String slash (s ++ u1 ++ u2), f2)] newTree;
     find t (String slash (s ++ u1 ++ w)))
    = Ok (Some (Endpoint f1 (String slash s) [], ∅)).
Proof.
  intros H f1 f2 s u1 u2 w Hs Hu1 Hu2 Hn1 Hn2 Hw.
  destruct s as [|s0 s']; [discriminate|].
  destruct u1 as [|cu u1']; [congruence|]. destruct u2 as [|c2 u2']; [congruence|].
  assert (Hu : no_slash (String cu u1' ++ String c2 u2') = true).
  { apply no_slash_app. auto. }
  assert (Hw' : match unslash w with
                | String a _ => Ascii.eqb a c2 = false
                | EmptyString => True
                end).
  { destruct (unslash w); [exact I|exact Hw]. }
  rewrite (short_then_long f1 f2 s0 s' cu u1' c2 u2' Hs Hu).
  rewrite (long_then_short f1 f2 s0 s' cu u1' c2 u2' Hs Hu).
  split; [reflexivity|]. cbn [obind].
  exact (find_falls_back f1 f2 s0 s' cu u1' c2 u2' Hs Hu w Hw').
Qed.

Lemma find_falls_back_to_prefix_route_witness :
  (do t <- register_all [("/a"%string, 1); ("/abcd"%string, 2)] newTree; find t "/abx/y")
  = Ok (Some (Endpoint 1 "/a" [], ∅)).
Proof.
  apply (proj2 (find_falls_back_to_prefix_route nat 1 2 "a" "b" "cd" "x/y"
                  eq_refl eq_refl eq_refl ltac:(discriminate) ltac:(discriminate) eq_refl)).
Defined.

(** ** Dispatch on the request method *)

Lemma methodLookup_reverse (m : method) : methodLookup (reverseMethodLookup m) = Some m.
Proof. destruct m; reflexivity. Qed.

Lemma methodLookup_inv (s : string) (m : method) :
  methodLookup s = Some m -> s = reverseMethodLookup m \/ (s = "HEAD"%string /\ m = mGET).
Proof.
  unfold methodLookup.
  repeat (match goal with
          | |- context [String.eqb s ?k] =>
              let E := fresh "E" in
              destruct (String.eqb s k) eqn:E;
              [apply String.eqb_eq in E; subst s; intros [= <-]; auto|]
          end).
  discriminate.
Qed.

Lemma withMethod_withParams (r : Request) (m : string) (p : gmap string string) :
  withMethod (withParams r p) m = withParams (withMethod r m) p.
Proof. reflexivity. Qed.

(** X11.  The method table.  Each of the six buckets is reached under its
    own method name, and [HEAD] is the only other name that reaches one: a
    [HEAD] request (without upgrade headers) is answered exactly as the
    [GET] request for the same path, by the same handler and with the same
    parameters.  [OPTIONS] never reaches a route: it goes to the options
    handler whatever is registered and whatever the headers say.  A method
    outside the table (as [TRACE] when tracing is off) goes to the
    method-not-allowed handler. *)
Theorem dispatch_by_method :
  forall (W : Type) (EqualFold : string -> string -> bool) (a : App (W := W)) (r : Request),
    (forall m, methodLookup (reverseMethodLookup m) = Some m) /\
    (forall s m, methodLookup s = Some m ->
       s = reverseMethodLookup m \/ (s = "HEAD"%string /\ m = mGET)) /\
    (Connection r = ""%string ->
     internalHandler EqualFold a (withMethod r "HEAD")
     = match internalHandler EqualFold a (withMethod r "GET") with
       | Ok (Serve h r') => Ok (Serve h (withMethod r' "HEAD"))
       | other => other
       end) /\
    (Method r = "OPTIONS"%string ->
     internalHandler EqualFold a r = Ok (Serve (options a) r)) /\
    (methodLookup (Method r) = None -> Method r <> "OPTIONS"%string ->
     (Method r = "TRACE"%string -> AllowTrace a = false) ->
     Connection r = ""%string ->
     internalHandler EqualFold a r = Ok (Serve (notAllowed a) r)).
Proof.
  intros W EqualFold a r.
  split; [exact methodLookup_reverse|]. split; [exact methodLookup_inv|].
  split; [|split].
  - intros Hc. unfold internalHandler.
    cbn [Method withMethod Connection Upgrade Path String.eqb Ascii.eqb Bool.eqb andb].
    rewrite Hc. cbn [String.eqb negb andb].
    change (methodLookup (Method (withMethod r "HEAD"))) with (Some mGET).
    change (methodLookup (Method (withMethod r "GET"))) with (Some mGET).
    change (Path (withMethod r "HEAD")) with (Path r).
    change (Path (withMethod r "GET")) with (Path r).
    cbn beta iota.
    destruct (trees_get (trees a) mGET) as [tr|]; [|reflexivity].
    destruct (find tr (Path r)) as [[[e p]|]| |]; reflexivity.
  - intros Hm. unfold internalHandler. rewrite Hm. reflexivity.
  - intros Hl Ho Ht Hc. unfold internalHandler.
    destruct (String.eqb (Method r) "TRACE") eqn:Et.
    + apply String.eqb_eq in Et. rewrite (Ht Et). cbn [andb].
      apply String.eqb_neq in Ho. rewrite Ho, Hc. cbn [String.eqb negb andb]. rewrite Hl.
      reflexivity.
    + cbn [andb]. apply String.eqb_neq in Ho. rewrite Ho, Hc. cbn [String.eqb negb andb].
      rewrite Hl. reflexivity.
Qed.

(** ** Composition of middleware lists *)

(** X12.  [chainMws] distributes over the concatenation of middleware
    lists, and the empty list wraps nothing.  A route created on a router
    therefore stores its handler wrapped in the route's own middlewares and,
    around that, in the router's. *)
Theorem chainMws_app :
  forall (R W : Type) (l1 l2 : list (Middleware R W)) (f : HandlerFunc R W),
    chainMws (l1 ++ l2) f = chainMws l1 (chainMws l2 f) /\
    chainMws [] f = f /\
    (forall (a : App (W := W)) (r : Router) (m : method) (p : string)
            (ms : list (Middleware Request W)) (h : HandlerFunc Request W),
        chainMws (route_mws (newRoute a r m p ms)) h = chainMws (rmws r) (chainMws ms h)).
Proof.
  intros R W l1 l2 f.
  assert (Happ : forall (R' W' : Type) (k1 k2 : list (Middleware R' W')) g,
             chainMws (k1 ++ k2) g = chainMws k1 (chainMws k2 g)).
  { intros R' W' k1 k2 g. rewrite !chainMws_fold. apply fold_right_app. }
  split; [apply Happ|]. split; [reflexivity|].
  intros a r m p ms h. cbn [newRoute route_mws]. apply Happ.
Qed.

(** ** [longestPrefix] *)

Lemma common_prefix_comm (a b : string) : common_prefix a b = common_prefix b a.
Proof.
  revert b. induction a as [|x a IH]; intros [|y b]; cbn [common_prefix]; try reflexivity.
  rewrite (Ascii.eqb_sym y x). destruct (Ascii.eqb x y) eqn:E; [|reflexivity].
  apply Ascii.eqb_eq in E. subst y. rewrite IH. reflexivity.
Qed.

(** X13.  [longestPrefix s1 s2] is the longest common prefix: both strings
    start with it, what is left of them does not start with the same byte,
    and the result does not depend on the order of the arguments. *)
Theorem longestPrefix_is_longest_common_prefix :
  forall s1 s2 : string,
    (exists r1 r2,
        s1 = (longestPrefix s1 s2 ++ r1)%string /\
        s2 = (longestPrefix s1 s2 ++ r2)%string /\
        match r1, r2 with
        | String a _, String b _ => a <> b
        | _, _ => True
        end) /\
    longestPrefix s1 s2 = longestPrefix s2 s1 /\
    String.length (longestPrefix s1 s2) <= Nat.min (String.length s1) (String.length s2).
Proof.
  intros s1 s2. rewrite !longestPrefix_spec.
  destruct (common_prefix_split s1 s2) as (r1 & r2 & E1 & E2 & Hd).
  split; [exists r1, r2; auto|]. split; [apply common_prefix_comm|].
  apply Nat.min_glb.
  - rewrite E1 at 2. rewrite length_append. lia.
  - rewrite E2 at 2. rewrite length_append. lia.
Qed.

(** ** [Listen] *)

Lemma internalHandler_hit {W : Type} (EqualFold : string -> string -> bool)
    (a : App (W := W)) (m : method) (q : string) tr e p :
  trees_get (trees a) m = Some tr -> find tr q = Ok (Some (e, p)) ->
  internalHandler EqualFold a (mkRequest (reverseMethodLookup m) q "" "" None)
  = Ok (Serve (fn e) (withParams (mkRequest (reverseMethodLookup m) q "" "" None) p)).
Proof. intros Ht Hf. rewrite internalHandler_plain, Ht, Hf. reflexivity. Qed.

Lemma internalHandler_miss {W : Type} (EqualFold : string -> string -> bool)
    (a : App (W := W)) (m : method) (q : string) tr :
  trees_get (trees a) m = Some tr -> find tr q = Ok None ->
  internalHandler EqualFold a (mkRequest (reverseMethodLookup m) q "" "" None)
  = Ok (Serve (notFound a) (mkRequest (reverseMethodLookup m) q "" "" None)).
Proof. intros Ht Hf. rewrite internalHandler_plain, Ht, Hf. reflexivity. Qed.

(** X14.  [Listen] on an application for which [Router] was never called
    dereferences the nil root router and panics.  Otherwise it changes the
    three fallback handlers and nothing else: a request that finds a route
    is answered as before, a request that finds none is answered by the
    not-found handler (the default or the one set with [NotFound]) wrapped
    in the middlewares of the root router, whatever the router's path
    prefix, and likewise for [OPTIONS] and for unknown methods.  The root
    router is the one made by the last call of [Router]. *)
Theorem Listen_wraps_fallbacks :
  forall (W : Type) (EqualFold : string -> string -> bool) (a : App (W := W)),
    (rootRouter a = None -> Listen a = Panic) /\
    (forall o nf na tr, Listen (New (W := W) o nf na tr) = Panic) /\
    (forall (path : string) (P : list (Middleware Request W)) (h404 : HandlerFunc Request W),
        exists a2,
          Listen (NotFound (snd (App_Router a path P)) h404) = Ok a2 /\
          trees a2 = trees a /\
          (forall m q tr e p,
              trees_get (trees a) m = Some tr -> find tr q = Ok (Some (e, p)) ->
              internalHandler EqualFold a2 (mkRequest (reverseMethodLookup m) q "" "" None)
              = internalHandler EqualFold a (mkRequest (reverseMethodLookup m) q "" "" None)) /\
          (forall m q tr,
              trees_get (trees a) m = Some tr -> find tr q = Ok None ->
              internalHandler EqualFold a2 (mkRequest (reverseMethodLookup m) q "" "" None)
              = Ok (Serve (chainMws P h404) (mkRequest (reverseMethodLookup m) q "" "" None))) /\
          (forall q,
              internalHandler EqualFold a2 (mkRequest "OPTIONS" q "" "" None)
              = Ok (Serve (chainMws P (options a)) (mkRequest "OPTIONS" q "" "" None))) /\
          (forall q,
              internalHandler EqualFold a2 (mkRequest "CONNECT" q "" "" None)
              = Ok (Serve (chainMws P (notAllowed a)) (mkRequest "CONNECT" q "" "" None)))) /\
    (forall p1 p2 (P1 P2 : list (Middleware Request W)),
        let '(r1, a1) := App_Router a p1 P1 in
        let '(r2, a2) := App_Router a1 p2 P2 in
        rootRouter a2 = Some r2 /\
        (do a3 <- Listen a2; Ok (notFound a3)) = Ok (chainMws P2 (notFound a))).
Proof.
  intros W EqualFold a. split; [|split; [|split]].
  - intros Hr. unfold Listen. rewrite Hr. reflexivity.
  - reflexivity.
  - intros path P h404. eexists. split; [reflexivity|]. split; [reflexivity|].
    split; [|split; [|split]].
    + intros m q tr e p Ht Hf.
      rewrite (internalHandler_hit EqualFold a m q tr e p Ht Hf).
      etransitivity; [apply (internalHandler_hit EqualFold _ m q tr e p); [exact Ht|exact Hf]|].
      reflexivity.
    + intros m q tr Ht Hf.
      etransitivity; [apply (internalHandler_miss EqualFold _ m q tr); [exact Ht|exact Hf]|].
      reflexivity.
    + reflexivity.
    + reflexivity.
  - intros p1 p2 P1 P2. cbn. split; reflexivity.
Qed.

(** The same on the run of [TestMiddlewareOrder], with no route bound: the
    request falls through to the not-found handler inside the root
    router's middleware. *)
Example Listen_trace :
  forall (EqualFold : string -> string -> bool)
         (echo : Request -> list string -> list string),
    (do a <- Listen (snd (App_Router (New trace_handler trace_handler trace_handler false)
                            "/api" [tracer "m1"]));
     ServeHTTP EqualFold echo a (GET_request "/nope") [])
    = Ok ["before_m1"; "handler"; "after_m1"]%string.
Proof. intros. vm_compute. reflexivity. Qed.

(** * Package middleware *)

(** ** ClientIP *)

Lemma SplitBy_first (sep : ascii) (ip rest : string) :
  all_chars (fun c => negb (Ascii.eqb c sep)) ip = true ->
  nth 0 (SplitBy sep (ip ++ String sep rest)) ""%string = ip.
Proof.
  induction ip as [|c ip IH]; cbn [String.append SplitBy all_chars].
  - intros _. rewrite Ascii.eqb_refl. reflexivity.
  - intros Hc. apply andb_true_iff in Hc as [Hc Hip]. apply negb_true_iff in Hc.
    rewrite Hc. specialize (IH Hip).
    destruct (SplitBy sep (ip ++ String sep rest)) as [|hd tl]; cbn [nth] in *.
    + subst ip. reflexivity.
    + subst hd. reflexivity.
Qed.

(** X15.  ClientIP sets the response header [X-Client-IP] to the address it
    chose and calls the next handler once, on a request from which
    [GetClientIP] returns that same address.  The address: with
    [TrustProxy] off no header is read, so two requests from the same
    [RemoteAddr] get the same address whatever they send; with it on, the
    text of [X-Forwarded-For] before its first comma wins, as it stands;
    if that text is empty the configured header is used, and the remote
    address only when that is empty too. *)
Theorem ClientIP_address :
  forall (SplitHostPort : string -> option (string * string))
         (cfg : list ClientIPConfig) (next : HandlerFunc HttpRequest World)
         (r : HttpRequest) (w : World),
    let header := fst (ClientIP_config cfg) in
    let trust := snd (ClientIP_config cfg) in
    let ip := clientIP_of SplitHostPort header trust r in
    ClientIP SplitHostPort cfg next r w
    = next (WithValue r clientIPKey ip) (call (HeaderSet "X-Client-IP" ip) w) /\
    GetClientIP (WithValue r clientIPKey ip) = ip /\
    (forall r', hRemoteAddr r' = hRemoteAddr r ->
       clientIP_of SplitHostPort header false r' = clientIP_of SplitHostPort header false r) /\
    (forall first rest,
       hHeader r "X-Forwarded-For" = (first ++ String ","%char rest)%string ->
       first <> ""%string ->
       all_chars (fun c => negb (Ascii.eqb c ","%char)) first = true ->
       clientIP_of SplitHostPort header true r = first) /\
    (forall rest,
       hHeader r "X-Forwarded-For" = String ","%char rest \/
       hHeader r "X-Forwarded-For" = ""%string ->
       header <> ""%string -> hHeader r header <> ""%string ->
       clientIP_of SplitHostPort header true r = hHeader r header).
Proof.
  intros SplitHostPort cfg next r w header trust ip.
  split; [reflexivity|]. split; [reflexivity|]. split; [|split].
  - intros r' Hr. unfold clientIP_of. cbn [String.eqb]. rewrite Hr. reflexivity.
  - intros first rest Hx Hne Hc. unfold clientIP_of. rewrite Hx.
    assert (Hnx : String.eqb (first ++ String ","%char rest) "" = false).
    { destruct first; [congruence|reflexivity]. }
    rewrite Hnx. cbn [negb]. rewrite (SplitBy_first ","%char first rest Hc).
    apply String.eqb_neq in Hne. rewrite Hne. cbn [andb]. rewrite Hne. reflexivity.
  - intros rest Hx Hh Hv. unfold clientIP_of.
    assert (Hfirst : (if negb (String.eqb (hHeader r "X-Forwarded-For") "")
                      then nth 0 (SplitBy ","%char (hHeader r "X-Forwarded-For")) ""%string
                      else ""%string) = ""%string).
    { destruct Hx as [-> | ->]; reflexivity. }
    rewrite Hfirst. apply String.eqb_neq in Hh, Hv. cbn [String.eqb]. rewrite Hh.
    cbn [negb andb]. rewrite Hv. reflexivity.
Qed.

(** ** RequestID *)

(** X16.  RequestID passes on a request identifier that the client sent
    (under the configured header) unchanged: it is set on the response and
    [GetRequestID] returns it in the handler.  When no identifier comes
    with the request, the one it makes is the same for every request, the
    rendering of the single UUID drawn at package initialisation; and the
    [Generator] of a configuration that is passed in is never called. *)
Theorem RequestID_identifier :
  forall (init_uuid : string) (cfg : list RequestIDConfig)
         (next : HandlerFunc HttpRequest World) (r : HttpRequest) (w : World),
    let header := fst (RequestID_config init_uuid cfg) in
    let id := if String.eqb (hHeader r header) "" then init_uuid else hHeader r header in
    RequestID init_uuid cfg next r w
    = next (WithValue r reqIDKey id) (call (HeaderSet header id) w) /\
    GetRequestID (WithValue r reqIDKey id) = id /\
    (forall r' w',
       hHeader r header = ""%string -> hHeader r' header = ""%string ->
       exists id0,
         RequestID init_uuid cfg next r w
         = next (WithValue r reqIDKey id0) (call (HeaderSet header id0) w) /\
         RequestID init_uuid cfg next r' w'
         = next (WithValue r' reqIDKey id0) (call (HeaderSet header id0) w')) /\
    (forall h g g' rest,
       RequestID init_uuid (mkRequestIDConfig h g :: rest) next r w
       = RequestID init_uuid (mkRequestIDConfig h g' :: rest) next r w).
Proof.
  intros init_uuid cfg next r w header id.
  split; [reflexivity|]. split; [reflexivity|]. split; [|reflexivity].
  intros r' w' Hr Hr'. exists init_uuid. unfold RequestID.
  fold header. rewrite Hr, Hr'. split; reflexivity.
Qed.

(** ** CORS *)

Lemma contains_In (slice : list string) (item : string) :
  contains slice item = true <-> In item slice.
Proof.
  induction slice as [|s slice IH]; cbn [contains In]; [split; [discriminate|tauto]|].
  destruct (String.eqb s item) eqn:E.
  - apply String.eqb_eq in E. tauto.
  - apply String.eqb_neq in E. rewrite IH. split; [tauto|]. intros [H|H]; [congruence|exact H].
Qed.

(** X17.  CORS.  With an empty list of allowed origins every request
    panics (index 0 of an empty slice) before anything is written.  The
    wildcard is only recognised as the first entry: when the first entry is
    not ["*"], the origin header is set exactly for the origins that are
    members of the list, even if ["*"] comes later in it.  A request from an
    origin that is not allowed is not stopped: unless it is a preflight it
    reaches the next handler, with no call made on the writer.  A preflight
    ([OPTIONS]) never reaches the next handler and ends with status 204.
    When the [Origin] header is missing, the [Referer] (a whole URL) is
    what is compared with the allowed origins. *)
Theorem CORS_behaviour :
  forall (next : HandlerFunc HttpRequest World) (r : HttpRequest) (w : World),
    (forall m h e rest, CORS (mkCorsConfig m h e (Some []) :: rest) next r w = Panic) /\
    (forall (cfg : list CorsConfig) o0 more,
        cors_field AllowedOrigins cfg = o0 :: more -> o0 <> "*"%string ->
        hMethod r <> "OPTIONS"%string ->
        let origin := if String.eqb (hHeader r "Origin") "" then GetOrigin r
                      else hHeader r "Origin" in
        (In origin (o0 :: more) ->
         CORS cfg next r w
         = Ok (next r (call (HeaderSet "Access-Control-Allow-Origin" origin) w))) /\
        (~ In origin (o0 :: more) -> CORS cfg next r w = Ok (next r w))) /\
    (hMethod r <> "OPTIONS"%string ->
     CORS [] next r w = Ok (next r (call (HeaderSet "Access-Control-Allow-Origin" "*") w))) /\
    (hMethod r = "OPTIONS"%string ->
     forall (cfg : list CorsConfig) (next' : HandlerFunc HttpRequest World),
       CORS cfg next r w = CORS cfg next' r w /\
       (forall w', CORS cfg next r w = Ok w' ->
          exists calls, out w' = out w ++ calls /\
                        last calls = Some (WriteHeader 204) /\
                        logged w' = logged w)) /\
    (hHeader r "Origin" = ""%string -> hHeader r "Referer" <> ""%string ->
     GetOrigin r = hHeader r "Referer").
Proof.
  intros next r w. split; [|split; [|split; [|split]]].
  - intros m h e rest. reflexivity.
  - intros cfg o0 more Ho Hstar Hm origin.
    apply String.eqb_neq in Hstar, Hm. unfold CORS. fold origin. rewrite Ho, Hstar, Hm.
    split; intros Hin.
    + rewrite (proj2 (contains_In _ _) Hin). reflexivity.
    + destruct (contains (o0 :: more) origin) eqn:E; [|reflexivity].
      apply contains_In in E. contradiction.
  - intros Hm. apply String.eqb_neq in Hm. unfold CORS.
    change (cors_field AllowedOrigins []) with ["*"%string]. cbn [String.eqb Ascii.eqb Bool.eqb].
    rewrite Hm. reflexivity.
  - intros Hm cfg next'. unfold CORS. rewrite Hm. cbn [String.eqb Ascii.eqb Bool.eqb].
    split; [destruct (cors_field AllowedOrigins cfg); reflexivity|].
    intros w'. destruct (cors_field AllowedOrigins cfg) as [|o0 more]; [discriminate|].
    intros [= <-].
    repeat match goal with
           | |- context [if ?b then _ else _] => destruct b
           end;
      cbn [call out logged]; rewrite <- ?app_assoc; eexists;
      (split; [reflexivity|split; reflexivity]).
  - intros Ho Hr. unfold GetOrigin. rewrite Ho. apply String.eqb_neq in Hr.
    cbn [String.eqb negb]. rewrite Hr. reflexivity.
Qed.

(** ** ErrRecover *)

(** X18.  ErrRecover leaves a handler that returns alone.  When the
    handler panics and the callback is not nil (no configuration, or one
    with [Cb] set), the panic stops there: the callback runs and status
    500 is written after whatever the handler had written.  With a
    configuration whose [Cb] is nil the deferred function itself panics on
    the call of the nil callback: no status is written and a panic still
    leaves the middleware. *)
Theorem ErrRecover_behaviour :
  forall (V : Type) (nil_call : V) (fmt_v : V -> string)
         (next : PanicHandler (V := V)) (r : HttpRequest) (w : World),
    (forall cfg, snd (next r w) = None -> ErrRecover nil_call fmt_v cfg next r w = next r w) /\
    (forall w' v, next r w = (w', Some v) ->
       ErrRecover nil_call fmt_v [] next r w
       = (call (WriteHeader 500) (defaultCb fmt_v v w'), None) /\
       (forall f rest,
          ErrRecover nil_call fmt_v (mkErrRecoverConfig (Some f) :: rest) next r w
          = (call (WriteHeader 500) (f v w'), None)) /\
       (forall rest,
          ErrRecover nil_call fmt_v (mkErrRecoverConfig None :: rest) next r w
          = (w', Some nil_call))).
Proof.
  intros V nil_call fmt_v next r w. split.
  - intros cfg Hn. unfold ErrRecover. destruct (next r w) as [w' [v|]]; [discriminate|].
    reflexivity.
  - intros w' v Hn. unfold ErrRecover. rewrite Hn. cbn [Cb]. auto.
Qed.

Lemma ErrRecover_behaviour_witness :
  ErrRecover (V := string) "nil" (fun v => v) []
    (fun _ w => (call (WriteBody "partial") w, Some "boom"%string))
    (mkHttpRequest "GET" "/" (fun _ => ""%string) "" "" false []) (mkWorld [] [])
  = (mkWorld [WriteBody "partial"; WriteHeader 500]
       [("Recovered from panic: boom" ++ String "010"%char "")%string], None).
Proof.
  apply (proj1 (proj2 (ErrRecover_behaviour string "nil"%string (fun v => v)
                         (fun _ w => (call (WriteBody "partial") w, Some "boom"%string))
                         (mkHttpRequest "GET" "/" (fun _ => ""%string) "" "" false [])
                         (mkWorld [] []))
                  (mkWorld [WriteBody "partial"] []) "boom"%string eq_refl)).
Defined.

(** ** The response writer of Logger *)

Lemma rw_calls_status (cs : list wcall) : forall (rw : responseWriter),
  forallb (fun c => negb (is_zero_header c)) cs = true ->
  status (rw_calls cs rw)
  = match last_code cs with
    | Some code => code
    | None => if Nat.eqb (status rw) 0 then (if wrote_body cs then 200 else 0) else status rw
    end.
Proof.
  induction cs as [|c cs IH]; intros rw Hz.
  - cbn. destruct (Nat.eqb (status rw) 0) eqn:E; [apply Nat.eqb_eq in E; auto|reflexivity].
  - cbn [forallb] in Hz. apply andb_true_iff in Hz as [Hc Hz].
    unfold rw_calls in *. cbn [fold_left last_code]. rewrite (IH _ Hz).
    destruct (last_code cs) as [code|]; [reflexivity|].
    destruct c as [k v|code|b]; cbn [rw_call rw_HeaderSet rw_WriteHeader rw_Write status
                                       wrote_body existsb orb].
    + reflexivity.
    + destruct code as [|code]; [discriminate|]. reflexivity.
    + destruct (Nat.eqb (status rw) 0) eqn:E; [reflexivity|]. rewrite E. reflexivity.
Qed.

Lemma rw_calls_out (cs : list wcall) : forall (rw : responseWriter),
  out (ResponseWriter (rw_calls cs rw)) = out (ResponseWriter rw) ++ cs /\
  logged (ResponseWriter (rw_calls cs rw)) = logged (ResponseWriter rw).
Proof.
  induction cs as [|c cs IH]; intros rw; unfold rw_calls in *; cbn [fold_left].
  - rewrite app_nil_r. auto.
  - destruct (IH (rw_call rw c)) as [Ho Hl]. rewrite Ho, Hl.
    destruct c; cbn [rw_call rw_HeaderSet rw_WriteHeader rw_Write ResponseWriter call out logged];
      rewrite <- app_assoc; auto.
Qed.

(** X19.  The writer that Logger hands to the next handler forwards every
    call unchanged, and the status it reports afterwards is the code of the
    last [WriteHeader] the handler made, else 200 if the handler wrote to
    the body, else 0: a handler that writes nothing is logged with status 0,
    and a [WriteHeader] made after the body has been written replaces the
    200 in the log. *)
Theorem responseWriter_status :
  forall (cs : list wcall) (w : World),
    forallb (fun c => negb (is_zero_header c)) cs = true ->
    out (ResponseWriter (rw_calls cs (mkResponseWriter w 0))) = out w ++ cs /\
    logged (ResponseWriter (rw_calls cs (mkResponseWriter w 0))) = logged w /\
    status (rw_calls cs (mkResponseWriter w 0))
    = match last_code cs with
      | Some code => code
      | None => if wrote_body cs then 200 else 0
      end.
Proof.
  intros cs w Hz. destruct (rw_calls_out cs (mkResponseWriter w 0)) as [Ho Hl].
  split; [exact Ho|]. split; [exact Hl|]. rewrite (rw_calls_status cs _ Hz). reflexivity.
Qed.

Lemma responseWriter_status_witness :
  status (rw_calls [WriteBody "ok"; WriteHeader 404] (mkResponseWriter (mkWorld [] []) 0)) = 404
  /\ status (rw_calls [HeaderSet "X" "y"] (mkResponseWriter (mkWorld [] []) 0)) = 0.
Proof.
  split.
  - apply (proj2 (proj2 (responseWriter_status [WriteBody "ok"; WriteHeader 404]
                           (mkWorld [] []) eq_refl))).
  - apply (proj2 (proj2 (responseWriter_status [HeaderSet "X" "y"] (mkWorld [] []) eq_refl))).
Defined.

(** ** The validator accepts exactly the well-formed patterns *)

Lemma static_is_lit (s : string) :
  seg_ok s = true -> getSegmentType s = Ok static -> lit_seg s = true.
Proof.
  unfold seg_ok, getSegmentType, lit_seg. destruct s as [|c s]; [discriminate|].
  cbn [sidx String.get String.eqb negb andb]. intros Hn.
  destruct (Ascii.eqb c ":"%char); [discriminate|].
  destruct (Ascii.eqb c "*"%char); [discriminate|]. intros _. exact Hn.
Qed.

Lemma dynamic_shape (s : string) (ty : nType) :
  getSegmentType s = Ok ty -> ty <> static ->
  exists s', (ty = param /\ s = String ":"%char s') \/ (ty = catchAll /\ s = String "*"%char s').
Proof.
  unfold getSegmentType. destruct s as [|c s]; [discriminate|]. cbn [sidx String.get].
  destruct (Ascii.eqb c ":"%char) eqn:E1.
  - apply Ascii.eqb_eq in E1. subst c. intros [= <-] _. eauto.
  - destruct (Ascii.eqb c "*"%char) eqn:E2.
    + apply Ascii.eqb_eq in E2. subst c. intros [= <-] _. eauto.
    + intros [= <-] Hs. congruence.
Qed.

Lemma no_adjacent_runs_head (a b : list string) (cs : list chunk) :
  no_adjacent_runs (Run a :: cs) -> no_adjacent_runs (Run b :: cs).
Proof. destruct cs as [|[r|d] cs]; cbn; auto. Qed.

Lemma chunks_ok (segs : list string) :
  forallb seg_ok segs = true ->
  Forall chunk_ok (chunks segs) /\ no_adjacent_runs (chunks segs).
Proof.
  induction segs as [|seg segs IH]; [intros _; split; [constructor|exact I]|].
  cbn [forallb]. intros Hok. apply andb_true_iff in Hok as [Hseg Hok].
  destruct (IH Hok) as [Hf Hn]. cbn [chunks].
  assert (Hne : negb (String.eqb seg "") = true).
  { unfold seg_ok in Hseg. apply andb_true_iff in Hseg as [H _]. exact H. }
  destruct (getSegmentType_ok seg Hne) as [ty Hty]. rewrite Hty.
  destruct ty.
  - pose proof (static_is_lit seg Hseg Hty) as Hlit.
    destruct (chunks segs) as [|[run|d] cs]; cbn beta iota.
    + split; [constructor; [|constructor]|exact I]. cbn. rewrite Hlit. split; [discriminate|reflexivity].
    + inversion Hf as [|x l Hr Hf']; subst. cbn [chunk_ok] in Hr. destruct Hr as [Hr1 Hr2].
      split.
      * constructor; [|exact Hf']. cbn [chunk_ok forallb]. rewrite Hlit, Hr2.
        split; [discriminate|reflexivity].
      * exact (no_adjacent_runs_head run (seg :: run) cs Hn).
    + split; [constructor; [|exact Hf]|exact Hn]. cbn. rewrite Hlit. split; [discriminate|reflexivity].
  - cbn beta iota. split; [constructor; [|exact Hf]|].
    + cbn. auto.
    + destruct (chunks segs); exact Hn.
  - cbn beta iota. split; [constructor; [|exact Hf]|].
    + cbn. auto.
    + destruct (chunks segs); exact Hn.
Qed.

Lemma concat_chunk_segs (segs : list string) :
  concat (map chunk_segs (chunks segs)) = segs.
Proof.
  induction segs as [|seg segs IH]; [reflexivity|]. cbn [chunks].
  destruct (getSegmentType seg) as [[| |]| |]; cbn [map concat chunk_segs app];
    try (rewrite IH; reflexivity);
    destruct (chunks segs) as [|[run|d] cs]; cbn [map concat chunk_segs app] in *;
    rewrite <- IH; reflexivity.
Qed.

Lemma glue_nil (cs : list chunk) : glue "" cs = map chunk_token cs.
Proof. destruct cs as [|[run|d] cs]; reflexivity. Qed.

Lemma splitPath_loop_chunks (segs : list string) : forall (acc : list string) (cur : string),
  forallb seg_ok segs = true ->
  splitPath_loop segs acc cur = Ok (acc ++ glue cur (chunks segs)).
Proof.
  induction segs as [|seg segs IH]; intros acc cur Hok.
  - cbn [splitPath_loop chunks glue map]. rewrite app_nil_r. unfold flush.
    destruct (String.eqb cur ""); [rewrite app_nil_r|]; reflexivity.
  - cbn [forallb] in Hok. apply andb_true_iff in Hok as [Hseg Hok].
    assert (Hne : negb (String.eqb seg "") = true).
    { unfold seg_ok in Hseg. apply andb_true_iff in Hseg as [H _]. exact H. }
    destruct (getSegmentType_ok seg Hne) as [ty Hty].
    cbn [splitPath_loop chunks]. rewrite Hty. cbn [obind]. cbn beta iota.
    assert (Hdyn : splitPath_loop segs
                     ((if String.eqb cur "" then acc else acc ++ [cur]) ++ [seg]) ""
                   = Ok (acc ++ glue cur (Dyn seg :: chunks segs))).
    { rewrite (IH _ _ Hok), glue_nil. cbn [glue map chunk_token]. unfold flush.
      destruct (String.eqb cur ""); rewrite <- ?app_assoc; reflexivity. }
    destruct ty; [|exact Hdyn|exact Hdyn].
    rewrite (IH _ _ Hok). f_equal. f_equal.
    destruct (chunks segs) as [|[run|d] cs]; cbn [glue map chunk_token cat fold_right].
    + unfold flush.
      assert (E : String.eqb (cur ++ seg) "" = false).
      { destruct seg; [discriminate|]. destruct cur; reflexivity. }
      rewrite E, append_nil_r. reflexivity.
    + rewrite append_assoc. reflexivity.
    + unfold flush.
      assert (E : String.eqb (cur ++ seg) "" = false).
      { destruct seg; [discriminate|]. destruct cur; reflexivity. }
      rewrite E, append_nil_r. reflexivity.
Qed.

Lemma chunk_token_not_empty (c : chunk) :
  chunk_ok c -> String.eqb (chunk_token c) "" = false.
Proof.
  destruct c as [run|seg]; cbn [chunk_ok chunk_token].
  - intros [Hne Hl]. destruct (cat_lits run Hne Hl) as (c0 & r & -> & _). reflexivity.
  - intros [Hs _]. unfold seg_ok in Hs. apply andb_true_iff in Hs as [Hs _].
    apply negb_true_iff in Hs. exact Hs.
Qed.

Lemma star_last_cons (x : piece) (ps : list piece) :
  x <> Star -> star_last ps = true -> star_last (x :: ps) = true.
Proof.
  intros Hx Hp. destruct x; [| |congruence]; (destruct ps as [|y ps]; [reflexivity|exact Hp]).
Qed.

Lemma regex_not_star (n : string) : paramRegex_MatchString n = true -> n <> "*"%string.
Proof. intros Hn ->. discriminate. Qed.

Lemma alternates_cons (x y : piece) (ps : list piece) :
  alternates (x :: y :: ps) = negb (Bool.eqb (is_lit x) (is_lit y)) && alternates (y :: ps).
Proof. reflexivity. Qed.

Lemma is_lit_dyn (d : string) : is_lit (to_piece (Dyn d)) = false.
Proof. cbn [to_piece]. destruct (getSegmentType d) as [[| |]| |]; reflexivity. Qed.

Lemma valid_chunks (cs : list chunk) :
  forall (i len : nat) (prev : option nType) (keys : gset string),
    Forall chunk_ok cs -> no_adjacent_runs cs ->
    len = i + List.length cs ->
    isValidPath_loop (map chunk_token cs) i len prev keys = Ok true ->
    forallb piece_ok (map to_piece cs) = true /\
    alternates (map to_piece cs) = true /\
    star_last (map to_piece cs) = true /\
    NoDup (names (map to_piece cs)) /\
    (forall n, n ∈ names (map to_piece cs) -> n = "*"%string \/ String ":"%char n ∉ keys) /\
    match prev, cs with
    | Some pt, Dyn _ :: _ => pt = static
    | _, _ => True
    end /\
    pattern_segs (map to_piece cs) = concat (map chunk_segs cs).
Proof.
  induction cs as [|c cs IH]; intros i len prev keys Hok Hadj Hlen Hv.
  { cbn [map forallb alternates star_last names concat pattern_segs].
    split; [reflexivity|]. split; [reflexivity|]. split; [reflexivity|].
    split; [apply NoDup_nil; exact I|]. split; [intros n Hn; inversion Hn|].
    split; [destruct prev; exact I|reflexivity]. }
  inversion Hok as [|x l Hc Hcs]; subst x l.
  pose proof (chunk_token_not_empty c Hc) as Hne.
  cbn [map isValidPath_loop] in Hv. rewrite Hne in Hv.
  destruct c as [run|seg]; cbn [chunk_ok chunk_token to_piece] in *.
  - (* a literal run *)
    destruct Hc as [Hrne Hlit].
    destruct (cat_lits run Hrne Hlit) as (c0 & r & Hcat & Hty & _).
    rewrite Hty in Hv. cbn [obind nType_eqb andb negb] in Hv.
    assert (Hv' : isValidPath_loop (map chunk_token cs) (S i) len (Some static) keys = Ok true).
    { destruct prev as [pt|]; [rewrite andb_false_r in Hv|]; exact Hv. }
    assert (Hadj' : no_adjacent_runs cs).
    { destruct cs as [|[r'|d'] cs']; [exact I|destruct Hadj|exact Hadj]. }
    destruct (IH (S i) len (Some static) keys Hcs Hadj' ltac:(cbn [List.length] in Hlen; lia) Hv')
      as (Hpo & Halt & Hstar & Hnd & Hkeys & _ & Hsegs).
    split. { cbn [map].
             change (piece_ok (Lit run) && forallb piece_ok (map to_piece cs) = true).
             rewrite Hpo. unfold piece_ok. rewrite Hlit.
             destruct run; [congruence|reflexivity]. }
    split. { destruct cs as [|[r'|d'] cs']; [reflexivity|destruct Hadj|].
             cbn [map] in Halt |- *. rewrite alternates_cons, Halt, is_lit_dyn. reflexivity. }
    split. { cbn [map]. apply star_last_cons; [discriminate|exact Hstar]. }
    split. { exact Hnd. }
    split. { exact Hkeys. }
    split. { destruct prev; exact I. }
    cbn [map concat chunk_segs]. unfold pattern_segs in *. cbn [map concat raw_of].
    rewrite Hsegs. reflexivity.
  - (* a dynamic segment *)
    destruct Hc as [Hseg Hdyn].
    destruct Hdyn as [Hty|Hty]; rewrite Hty in Hv; cbn [obind nType_eqb andb negb] in Hv;
      cbn [map to_piece]; rewrite Hty.
    + (* parameter *)
      destruct (dynamic_shape seg param Hty ltac:(discriminate)) as (s' & [[_ ->]|[E _]]);
        [|discriminate].
      assert (Hprev : match prev with Some pt => pt = static | None => True end).
      { destruct prev as [[| |]|]; cbn in Hv; try discriminate; auto. }
      assert (Hv1 : (if bool_decide (String ":"%char s' ∈ keys) then Ok false
                     else if negb (paramRegex_MatchString (sfrom 1 (String ":"%char s')))
                          then Ok false
                          else isValidPath_loop (map chunk_token cs) (S i) len (Some param)
                                 ({[String ":"%char s']} ∪ keys)) = Ok true).
      { destruct prev as [[| |]|]; cbn in Hv; try discriminate; exact Hv. }
      clear Hv. destruct (bool_decide (String ":"%char s' ∈ keys)) eqn:Ek; [discriminate|].
      apply bool_decide_eq_false in Ek. cbn [sfrom] in Hv1 |- *.
      destruct (paramRegex_MatchString s') eqn:Er; cbn [negb] in Hv1; [|discriminate].
      assert (Hadj' : no_adjacent_runs cs).
      { destruct cs; exact Hadj. }
      destruct (IH (S i) len (Some param) _ Hcs Hadj' ltac:(cbn [List.length] in Hlen; lia) Hv1)
        as (Hpo & Halt & Hstar & Hnd & Hkeys & Hnext & Hsegs).
      split. { cbn [map].
               change (piece_ok (Par s') && forallb piece_ok (map to_piece cs) = true).
               rewrite Hpo. unfold piece_ok. rewrite Er. reflexivity. }
      split. { destruct cs as [|[r'|d'] cs']; [reflexivity| |discriminate Hnext].
               cbn [map] in Halt |- *. rewrite alternates_cons, Halt. reflexivity. }
      split. { cbn [map]. apply star_last_cons; [discriminate|exact Hstar]. }
      split. { cbn [map names concat name_of app]. fold (names (map to_piece cs)).
               apply NoDup_cons. split; [|exact Hnd].
               intros Hin. destruct (Hkeys _ Hin) as [->|Hk]; [discriminate|].
               apply Hk. apply elem_of_union. left. apply elem_of_singleton. reflexivity. }
      split. { intros n Hn. cbn [map names concat name_of app] in Hn.
               fold (names (map to_piece cs)) in Hn.
               apply elem_of_cons in Hn as [->|Hn]; [right; exact Ek|].
               destruct (Hkeys _ Hn) as [->|Hk]; [left; reflexivity|right].
               intros Hin. apply Hk. apply elem_of_union. right. exact Hin. }
      split. { destruct prev; [exact Hprev|exact I]. }
      cbn [map concat chunk_segs]. unfold pattern_segs in *. cbn [map concat raw_of app].
      rewrite Hsegs. reflexivity.
    + (* catch-all *)
      destruct (dynamic_shape seg catchAll Hty ltac:(discriminate)) as (s' & [[E _]|[_ ->]]);
        [discriminate|].
      assert (Hprev : match prev with Some pt => pt = static | None => True end).
      { destruct prev as [[| |]|]; cbn in Hv; try discriminate; auto. }
      assert (Hv1 : (if negb (Nat.eqb i (len - 1)) then Ok false
                     else if negb (String.eqb (String "*"%char s') "*") then Ok false
                          else isValidPath_loop (map chunk_token cs) (S i) len (Some catchAll)
                                 keys) = Ok true).
      { destruct prev as [[| |]|]; cbn in Hv; try discriminate; exact Hv. }
      clear Hv. destruct (Nat.eqb i (len - 1)) eqn:Ei; cbn [negb] in Hv1; [|discriminate].
      apply Nat.eqb_eq in Ei. cbn [List.length] in Hlen.
      assert (cs = []) by (destruct cs; [reflexivity|cbn [List.length] in Hlen; lia]). subst cs.
      destruct (String.eqb (String "*"%char s') "*") eqn:Es; cbn [negb] in Hv1; [|discriminate].
      apply String.eqb_eq in Es. injection Es as ->.
      split; [reflexivity|]. split; [reflexivity|]. split; [reflexivity|].
      split; [apply NoDup_singleton|].
      split; [intros n Hn; apply list_elem_of_singleton in Hn; left; exact Hn|].
      split; [destruct prev; [exact Hprev|exact I]|reflexivity].
Qed.

Lemma insert_cleanPath {H : Type} (t : tree H) (p : string) (f : H) :
  insert t (cleanPath p) f = insert t p f.
Proof. unfold insert. rewrite cleanPath_idem. reflexivity. Qed.

Lemma valid_is_well_formed (p : string) :
  isValidPath (cleanPath p) = Ok true ->
  exists ps, well_formed ps = true /\ cleanPath p = render ps.
Proof.
  intros Hv.
  assert (Hroot : cleanPath p <> "/"%string).
  { intros E. rewrite E in Hv. discriminate. }
  pose proof (cleanPath_spec p) as Hspec. pose proof (cleanPath_segs_ok p) as Hok.
  pose proof (cleanPath_root_iff p) as Hiff.
  set (segs := List.filter (fun seg => negb (String.eqb seg "")) (Split p)) in *.
  assert (Hne : segs <> []) by (intros E; apply Hroot, Hiff, E).
  assert (Hsplit : splitPath (cleanPath p) = Ok (map chunk_token (chunks segs))).
  { rewrite Hspec. unfold splitPath.
    change (TrimPrefix (String slash (Join segs))) with (Join segs).
    rewrite (Split_Join segs Hne Hok), (splitPath_loop_chunks segs [] "" Hok), glue_nil.
    reflexivity. }
  unfold isValidPath in Hv. rewrite Hsplit in Hv. cbn [obind] in Hv.
  rewrite length_map in Hv.
  destruct (chunks_ok segs Hok) as [Hcok Hadj].
  destruct (valid_chunks (chunks segs) 0 (List.length (chunks segs)) None ∅ Hcok Hadj eq_refl Hv)
    as (Hpo & Halt & Hstar & Hnd & _ & _ & Hsegs).
  exists (map to_piece (chunks segs)). split.
  - unfold well_formed. rewrite Hpo, Halt, Hstar, (bool_decide_eq_true_2 _ Hnd), length_map.
    destruct (chunks segs) as [|c cs] eqn:Ec; [|reflexivity].
    exfalso. apply Hne. rewrite <- (concat_chunk_segs segs), Ec. reflexivity.
  - unfold render. rewrite Hsegs, concat_chunk_segs. exact Hspec.
Qed.

(** X20.  The validator accepts exactly the well-formed patterns: a
    cleaned pattern passes [isValidPath] if and only if it is the rendering
    of a list of pieces in which non-empty runs of literal segments
    alternate with single dynamic segments, parameter names match the
    name syntax and are distinct, and a catch-all comes last.  Hence what
    is proved for the patterns [render ps] holds for every pattern the
    router accepts; in particular each of them, inserted in the empty tree,
    gives the one chain of its pieces. *)
Theorem isValidPath_accepts_exactly_well_formed :
  forall p : string,
    (isValidPath (cleanPath p) = Ok true <->
     exists ps, well_formed ps = true /\ cleanPath p = render ps) /\
    (forall (H : Type) (f : H),
        isValidPath (cleanPath p) = Ok true ->
        exists ps, well_formed ps = true /\ cleanPath p = render ps /\
                   insert newTree p f
                   = Ok (graft newTree ps (Endpoint f (cleanPath p) (names ps)))).
Proof.
  intros p. split.
  - split; [apply valid_is_well_formed|].
    intros (ps & Hwf & E). rewrite E. apply isValidPath_render. exact Hwf.
  - intros H f Hv. destruct (valid_is_well_formed p Hv) as (ps & Hwf & E).
    exists ps. split; [exact Hwf|]. split; [exact E|].
    rewrite <- insert_cleanPath, E. apply insert_render. exact Hwf.
Qed.

(** ** The route table: what [insert] writes and what [find] reads *)

Section Table.
Context {H : Type}.
Implicit Types (t n v c leaf next : node H) (cur ext : cursor) (w u : list sym) (d : nat).

Lemma sym_eqb_eq (x y : sym) : sym_eqb x y = true <-> x = y.
Proof.
  destruct x as [a|s], y as [b|s']; cbn [sym_eqb]; try (split; [discriminate|congruence]).
  - rewrite Ascii.eqb_eq. split; congruence.
  - destruct s, s'; cbn [nType_eqb]; split; intros E; try reflexivity; discriminate.
Qed.

Lemma sym_eqb_refl (x : sym) : sym_eqb x x = true.
Proof. apply sym_eqb_eq. reflexivity. Qed.

Lemma strip_app_self u w : strip u (u ++ w) = Some w.
Proof.
  induction u as [|x u IH]; cbn [strip app]; [reflexivity|]. rewrite sym_eqb_refl. exact IH.
Qed.

Lemma strip_Some u : forall w w', strip u w = Some w' -> w = u ++ w'.
Proof.
  induction u as [|x u IH]; intros w w'; cbn [strip app].
  - intros [= ->]. reflexivity.
  - destruct w as [|y w]; [discriminate|]. destruct (sym_eqb x y) eqn:E; [|discriminate].
    apply sym_eqb_eq in E as <-. intros Hs. rewrite (IH _ _ Hs). reflexivity.
Qed.

Lemma strip_app u1 u2 : forall w,
  strip (u1 ++ u2) w = match strip u1 w with Some w1 => strip u2 w1 | None => None end.
Proof.
  induction u1 as [|x u1 IH]; intros w; cbn [strip app]; [reflexivity|].
  destruct w as [|y w]; [reflexivity|]. destruct (sym_eqb x y); [apply IH|reflexivity].
Qed.

Lemma bytes_app (a b : string) : bytes (a ++ b)%string = bytes a ++ bytes b.
Proof.
  induction a as [|x a IH]; cbn [bytes String.append app]; [reflexivity|].
  rewrite IH. reflexivity.
Qed.

Lemma bytes_inj (a : string) : forall b : string, bytes a = bytes b -> a = b.
Proof.
  induction a as [|x a IH]; intros [|y b]; cbn [bytes]; try discriminate; [reflexivity|].
  intros [= -> E]. rewrite (IH b E). reflexivity.
Qed.

Lemma strip_bytes (a : string) : forall (b : string) w',
  strip (bytes a) (bytes b) = Some w' -> exists s' : string, b = (a ++ s')%string /\ w' = bytes s'.
Proof.
  induction a as [|x a IH]; intros b w'; cbn [bytes strip].
  - intros [= <-]. exists b. split; reflexivity.
  - destruct b as [|y b]; cbn [bytes]; [discriminate|]. cbn [sym_eqb].
    destruct (Ascii.eqb x y) eqn:E; [|discriminate]. apply Ascii.eqb_eq in E as <-.
    intros Hs. destruct (IH b w' Hs) as (s' & -> & ->). exists s'. split; reflexivity.
Qed.

Lemma stored_unfold n w :
  stored n w =
  match w with
  | [] => endpt n
  | SByte a :: _ =>
      match lookup_child (children n) a with
      | Some c =>
          match strip (bytes (prefix c)) w with Some w' => stored c w' | None => None end
      | None => None
      end
  | SSlot ty :: w' =>
      match slot_get (special n) ty with Some c => stored c w' | None => None end
  end.
Proof.
  destruct n as [k pre cs sp ep].
  destruct w as [|[a|ty] w]; cbn [stored endpt children special]; try reflexivity.
  induction cs as [|[k' c'] cs IH]; cbn [lookup_child]; [reflexivity|].
  destruct (Ascii.eqb k' a); [reflexivity|exact IH].
Qed.

Lemma stored_fields n v w :
  children v = children n -> special v = special n -> endpt v = endpt n ->
  stored v w = stored n w.
Proof.
  intros Hc Hs He. rewrite (stored_unfold v), (stored_unfold n), Hc, Hs, He. reflexivity.
Qed.

Lemma stored_newNode (ty : nType) (pre : string) w : stored (newNode ty pre : node H) w = None.
Proof.
  rewrite stored_unfold. destruct w as [|[a|ty'] w]; cbn; try reflexivity.
  destruct ty'; reflexivity.
Qed.

Lemma lookup_put_child_ne (cs : list (ascii * node H)) (l a : ascii) c :
  Ascii.eqb l a = false -> lookup_child (put_child cs l c) a = lookup_child cs a.
Proof.
  intros Hla. induction cs as [|[k c0] cs IH]; cbn [put_child lookup_child].
  - rewrite Hla. reflexivity.
  - destruct (Ascii.eqb k l) eqn:E; cbn [lookup_child].
    + apply Ascii.eqb_eq in E. subst k. rewrite Hla. reflexivity.
    + destruct (Ascii.eqb k a); [reflexivity|exact IH].
Qed.

Lemma slot_get_set (sp : slots (node H)) (ty ty' : nType) v :
  slot_get (slot_set sp ty v) ty' = if nType_eqb ty ty' then Some v else slot_get sp ty'.
Proof. destruct ty, ty'; reflexivity. Qed.

Lemma stored_replace n (ed : edge) c v w :
  follow n ed = Some c ->
  match ed with EChild l => sidx (prefix c) 0 = Some l | ESpecial _ => True end ->
  prefix v = prefix c ->
  stored (replace_at n ed v) w
  = match strip (edge_key c ed) w with Some w' => stored v w' | None => stored n w end.
Proof.
  intros Hf Hk Hp. rewrite (stored_unfold (replace_at n ed v)), (stored_unfold n).
  destruct ed as [l|ty];
    cbn [replace_at addChild addSpecial children special endpt edge_key follow] in *.
  - destruct (prefix c) as [|l' pc] eqn:Epc; [discriminate|]. cbn in Hk. injection Hk as ->.
    destruct w as [|[a|ty'] w]; cbn [bytes strip sym_eqb]; try reflexivity.
    destruct (Ascii.eqb l a) eqn:Ela.
    + apply Ascii.eqb_eq in Ela. subst a.
      rewrite lookup_put_child, Hf, Hp, Epc. cbn [bytes strip sym_eqb].
      rewrite Ascii.eqb_refl. destruct (strip (bytes pc) w); reflexivity.
    + rewrite (lookup_put_child_ne _ _ _ _ Ela). reflexivity.
  - destruct w as [|[a|ty'] w]; cbn [strip sym_eqb]; try reflexivity.
    rewrite slot_get_set. destruct (nType_eqb ty ty'); reflexivity.
Qed.

Lemma stored_assign cur : forall d t n v w,
  node_ok d t -> deref t cur = Some n -> prefix v = prefix n ->
  stored (assign t cur v) w
  = match strip (cursor_key t cur) w with Some w' => stored v w' | None => stored t w end.
Proof.
  induction cur as [|ed cur IH]; intros d t n v w Ht Hn Hp;
    cbn [assign cursor_key deref strip] in *.
  - reflexivity.
  - destruct (follow t ed) as [c|] eqn:Ef; [|discriminate].
    destruct (ok_follow d t ed c Ht Ef) as [Hc Hk].
    assert (Hk' : match ed with
                  | EChild l => sidx (prefix c) 0 = Some l
                  | ESpecial _ => True
                  end).
    { destruct ed; [exact (proj1 Hk)|exact I]. }
    rewrite (stored_replace t ed c (assign c cur v) w Ef Hk' (assign_prefix c cur n v Hn Hp)).
    rewrite strip_app.
    destruct (strip (edge_key c ed) w) as [w1|] eqn:Es; [|reflexivity].
    rewrite (IH _ c n v w1 Hc Hn Hp).
    destruct (strip (cursor_key c cur) w1); [reflexivity|].
    pose proof (stored_replace t ed c c w Ef Hk' eq_refl) as Hr.
    rewrite (replace_at_self t ed c Ef), Es in Hr. symmetry. exact Hr.
Qed.

Lemma stored_assign_ext cur d t n v :
  node_ok d t -> deref t cur = Some n -> prefix v = prefix n ->
  (forall w, stored v w = stored n w) -> forall w, stored (assign t cur v) w = stored t w.
Proof.
  intros Ht Hn Hp Hv w. rewrite (stored_assign cur d t n v w Ht Hn Hp).
  pose proof (stored_assign cur d t n n w Ht Hn eq_refl) as Hs.
  rewrite (assign_self t cur n Hn) in Hs.
  destruct (strip (cursor_key t cur) w) as [w'|]; [|reflexivity].
  rewrite Hv. symmetry. exact Hs.
Qed.

Lemma cursor_key_app cur : forall t n ext,
  deref t cur = Some n -> cursor_key t (cur ++ ext) = cursor_key t cur ++ cursor_key n ext.
Proof.
  induction cur as [|ed cur IH]; intros t n ext; cbn [deref cursor_key app].
  - intros [= ->]. reflexivity.
  - destruct (follow t ed) as [c|]; [|discriminate]. intros Hn.
    rewrite (IH c n ext Hn), app_assoc. reflexivity.
Qed.

Lemma cursor_key_assign cur : forall t n v ext,
  deref t cur = Some n -> prefix v = prefix n ->
  cursor_key (assign t cur v) (cur ++ ext) = cursor_key t cur ++ cursor_key v ext.
Proof.
  induction cur as [|ed cur IH]; intros t n v ext; cbn [deref cursor_key app assign].
  - intros _ _. reflexivity.
  - destruct (follow t ed) as [c|] eqn:Ef; [|discriminate]. intros Hn Hp.
    rewrite follow_replace_at, (IH c n v ext Hn Hp), app_assoc.
    f_equal. f_equal. destruct ed; cbn [edge_key]; [|reflexivity].
    rewrite (assign_prefix c cur n v Hn Hp). reflexivity.
Qed.


Lemma stored_addChild_new n (l : ascii) (pre : string) w :
  lookup_child (children n) l = None ->
  stored (addChild n l (newNode static pre)) w = stored n w.
Proof.
  intros Hl. rewrite (stored_unfold (addChild _ _ _)), (stored_unfold n).
  cbn [addChild children special endpt].
  destruct w as [|[a|ty] w]; try reflexivity.
  destruct (Ascii.eqb l a) eqn:E.
  - apply Ascii.eqb_eq in E. subst a. rewrite lookup_put_child, Hl.
    destruct (strip _ _); [apply stored_newNode|reflexivity].
  - rewrite (lookup_put_child_ne _ _ _ _ E). reflexivity.
Qed.

Lemma stored_addSpecial_new n (ty : nType) w :
  slot_get (special n) ty = None ->
  stored (addSpecial n ty (newNode ty "")) w = stored n w.
Proof.
  intros Hs. rewrite (stored_unfold (addSpecial _ _ _)), (stored_unfold n).
  cbn [addSpecial children special endpt].
  destruct w as [|[a|ty'] w]; try reflexivity.
  rewrite slot_get_set. destruct (nType_eqb ty ty') eqn:E; [|reflexivity].
  assert (ty = ty') as <- by (destruct ty, ty'; cbn in E; congruence).
  rewrite Hs. apply stored_newNode.
Qed.

(** The node that takes the place of [next] when its edge is split after
    [lcp]: what was stored below [next] is stored below it, [rem]
    further down. *)
Lemma stored_split next (lcp : string) (r0 : ascii) (rem : string) w :
  stored (addChild (setEndpoint (clearChildren (setPrefix next lcp)) None) r0
            (copyFrom (newNode static (String r0 rem)) (setPrefix next lcp))) w
  = match strip (bytes (String r0 rem)) w with
    | Some w' => stored next w'
    | None => None
    end.
Proof.
  rewrite stored_unfold.
  cbn [addChild setEndpoint clearChildren setPrefix copyFrom newNode children special endpt
       put_child kind prefix].
  destruct w as [|[a|ty] w]; cbn [bytes strip sym_eqb lookup_child]; try reflexivity.
  - destruct (Ascii.eqb r0 a) eqn:E; [|reflexivity].
    change (prefix (copyFrom (newNode static (String r0 rem)) (setPrefix next lcp)))
      with (String r0 rem).
    cbn [bytes strip sym_eqb]. rewrite E.
    destruct (strip (bytes rem) w) as [w'|]; [|reflexivity].
    apply stored_fields; reflexivity.
  - destruct ty; reflexivity.
Qed.

Lemma stored_replace_split n next (c0 : ascii) (lcp rem : string) v :
  lookup_child (children n) c0 = Some next ->
  prefix next = (lcp ++ rem)%string -> prefix v = lcp ->
  (forall w, stored v w
             = match strip (bytes rem) w with Some w' => stored next w' | None => None end) ->
  forall w, stored (addChild n c0 v) w = stored n w.
Proof.
  intros Hl Hp Hv Hs w. rewrite (stored_unfold (addChild _ _ _)), (stored_unfold n).
  cbn [addChild children special endpt].
  destruct w as [|[a|ty] w]; try reflexivity.
  destruct (Ascii.eqb c0 a) eqn:E.
  - apply Ascii.eqb_eq in E. subst a. rewrite lookup_put_child, Hl, Hv, Hp, bytes_app, strip_app.
    destruct (strip (bytes lcp) _) as [w1|]; [|reflexivity]. apply Hs.
  - rewrite (lookup_put_child_ne _ _ _ _ E). reflexivity.
Qed.

Lemma cursor_key_addChild n (l : ascii) c ext :
  cursor_key (addChild n l c) (EChild l :: ext) = bytes (prefix c) ++ cursor_key c ext.
Proof.
  cbn [cursor_key follow]. change (children (addChild n l c)) with (put_child (children n) l c).
  rewrite lookup_put_child. reflexivity.
Qed.

Lemma static_table (fuel : nat) :
  forall d t cur n (search : string) t' cur',
    node_ok d t -> deref t cur = Some n ->
    insert_static fuel t cur search = Ok (t', cur') ->
    (forall w, stored t' w = stored t w) /\
    cursor_key t' cur' = cursor_key t cur ++ bytes search.
Proof.
  induction fuel as [|fuel IH]; intros d t cur n search t' cur' Ht Hn.
  { destruct search; cbn [insert_static]; [|discriminate].
    intros [= <- <-]. cbn [bytes]. rewrite app_nil_r. auto. }
  destruct search as [|c0 search]; cbn [insert_static].
  { intros [= <- <-]. cbn [bytes]. rewrite app_nil_r. auto. }
  rewrite Hn. pose proof (ok_deref cur d t n Ht Hn) as Hnok.
  destruct (lookup_child (children n) c0) as [next|] eqn:El.
  2:{ intros [= <- <-]. split.
      - apply (stored_assign_ext cur d t n); [exact Ht|exact Hn|reflexivity|].
        intros w. apply stored_addChild_new. exact El.
      - rewrite (cursor_key_assign cur) with (n := n); [|exact Hn|reflexivity].
        rewrite cursor_key_addChild. cbn [cursor_key]. rewrite app_nil_r. reflexivity. }
  destruct (ok_follow _ n (EChild c0) next Hnok El) as [Hnok' [Hhd Hkd]].
  assert (Hnext : deref t (cur ++ [EChild c0]) = Some next).
  { rewrite deref_app, Hn. cbn [deref follow]. rewrite El. reflexivity. }
  rewrite longestPrefix_spec.
  destruct (common_prefix_split (String c0 search) (prefix next)) as (r1 & r2 & E1 & E2 & Hd).
  set (lcp := common_prefix (String c0 search) (prefix next)) in *.
  assert (Hr1 : sfrom (String.length lcp) (String c0 search) = r1).
  { transitivity (sfrom (String.length lcp) (lcp ++ r1)%string);
      [f_equal; exact E1|apply sfrom_app_length]. }
  assert (Hr2 : sfrom (String.length lcp) (prefix next) = r2).
  { transitivity (sfrom (String.length lcp) (lcp ++ r2)%string);
      [f_equal; exact E2|apply sfrom_app_length]. }
  rewrite Hr1, Hr2. clear Hr1 Hr2.
  assert (L1 : String.length (String c0 search) = String.length lcp + String.length r1).
  { rewrite <- length_append. f_equal. exact E1. }
  assert (L2 : String.length (prefix next) = String.length lcp + String.length r2).
  { rewrite <- length_append. f_equal. exact E2. }
  assert (Hkey : bytes (String c0 search) = bytes lcp ++ bytes r1).
  { rewrite <- bytes_app. f_equal. exact E1. }
  destruct (Nat.ltb_spec (String.length lcp) (String.length (prefix next))) as [Hlt|Hge].
  - destruct r2 as [|r0 r2]; [cbn [String.length] in *; lia|].
    change (sidx (String r0 r2) 0) with (Some r0). cbn iota beta.
    destruct (Nat.ltb_spec (String.length lcp) (String.length (String c0 search))) as [Hls|Hgs].
    + destruct r1 as [|s0 r1]; [cbn [String.length] in *; lia|].
      change (sidx (String s0 r1) 0) with (Some s0). cbn iota beta.
      intros [= <- <-].
      rewrite (assign_snoc t cur n (EChild c0) next _ Hn El). cbn [replace_at]. split.
      * apply (stored_assign_ext cur d t n); [exact Ht|exact Hn|reflexivity|].
        apply (stored_replace_split n next c0 lcp (String r0 r2)); [exact El|exact E2|reflexivity|].
        intros w. rewrite stored_addChild_new; [apply stored_split|].
        cbn [addChild children put_child lookup_child setEndpoint clearChildren].
        destruct (Ascii.eqb_spec r0 s0) as [->|]; [contradiction|reflexivity].
      * change (cur ++ [EChild c0; EChild s0]) with (cur ++ ([EChild c0; EChild s0])).
        rewrite (cursor_key_assign cur) with (n := n); [|exact Hn|reflexivity].
        f_equal. rewrite Hkey, !cursor_key_addChild. cbn [cursor_key].
        rewrite app_nil_r. reflexivity.
    + assert (r1 = ""%string) by (apply length_zero; lia). subst r1.
      intros [= <- <-].
      rewrite (assign_snoc t cur n (EChild c0) next _ Hn El). cbn [replace_at]. split.
      * apply (stored_assign_ext cur d t n); [exact Ht|exact Hn|reflexivity|].
        apply (stored_replace_split n next c0 lcp (String r0 r2)); [exact El|exact E2|reflexivity|].
        intros w. apply stored_split.
      * rewrite (cursor_key_assign cur) with (n := n); [|exact Hn|reflexivity].
        f_equal. rewrite Hkey, cursor_key_addChild. reflexivity.
  - assert (r2 = ""%string) by (apply length_zero; lia). subst r2.
    rewrite append_nil_r in E2.
    intros E. destruct (IH d t _ next _ t' cur' Ht Hnext E) as [Hs Hk].
    split; [exact Hs|]. rewrite Hk, (cursor_key_app cur t n [EChild c0] Hn).
    cbn [cursor_key follow]. rewrite El. cbn [edge_key].
    rewrite app_nil_r, <- app_assoc, Hkey, E2. reflexivity.
Qed.

Lemma special_table d t cur n (ty : nType) t' cur' :
  node_ok d t -> deref t cur = Some n ->
  insert_special t cur ty = Ok (t', cur') ->
  (forall w, stored t' w = stored t w) /\
  cursor_key t' cur' = cursor_key t cur ++ [SSlot ty].
Proof.
  intros Ht Hn. unfold insert_special. rewrite Hn.
  destruct (slot_get (special n) ty) as [c|] eqn:Es; intros [= <- <-].
  - split; [reflexivity|]. rewrite (cursor_key_app cur t n _ Hn).
    cbn [cursor_key follow]. rewrite Es. reflexivity.
  - split.
    + apply (stored_assign_ext cur d t n); [exact Ht|exact Hn|reflexivity|].
      intros w. apply stored_addSpecial_new. exact Es.
    + rewrite (cursor_key_assign cur) with (n := n); [|exact Hn|reflexivity].
      cbn [cursor_key]. change (addSpecial n ty ?x) with (replace_at n (ESpecial ty) x).
      rewrite follow_replace_at. reflexivity.
Qed.

Lemma loop_table (segs : list string) :
  forall d t cur n (keys : list string) t' cur' keys',
    node_ok d t -> deref t cur = Some n ->
    insert_loop segs t cur keys = Ok (t', cur', keys') ->
    (forall w, stored t' w = stored t w) /\
    cursor_key t' cur' = cursor_key t cur ++ route_key segs.
Proof.
  induction segs as [|seg segs IH]; intros d t cur n keys t' cur' keys' Ht Hn;
    cbn [insert_loop route_key flat_map].
  { intros [= <- <- <-]. rewrite app_nil_r. auto. }
  unfold token_key.
  destruct (getSegmentType seg) as [ty| |] eqn:Ety; cbn [obind]; try discriminate.
  destruct ty.
  - destruct (insert_static (S (height t)) t cur seg) as [[t1 cur1]| |] eqn:E1;
      cbn [obind]; try discriminate.
    assert (Hh : height n <= S (height t)) by (pose proof (height_deref t n cur Hn); lia).
    destruct (insert_static_shape (S (height t)) t cur n seg Hn Hh)
      as (ext & v & leaf & E & _ & _ & _ & _ & Hd & _).
    rewrite E in E1. injection E1 as <- <-.
    destruct (ok_insert_static _ d t cur n seg _ _ Ht Hn E) as [Ht1 _].
    destruct (static_table _ d t cur n seg _ _ Ht Hn E) as [Hs1 Hk1].
    intros E2.
    destruct (IH d _ _ leaf _ _ _ _ Ht1
                (eq_trans (deref_assign_app t cur n ext v Hn) Hd) E2) as (Hs2 & Hk2).
    split; [intros w; rewrite Hs2; apply Hs1|].
    rewrite Hk2, Hk1, <- app_assoc. reflexivity.
  - destruct (insert_special t cur param) as [[t1 cur1]| |] eqn:E1;
      cbn [obind]; try discriminate.
    destruct (insert_special_shape t cur n param Hn) as (v & leaf & E & _ & _ & _ & _ & Hd).
    rewrite E in E1. injection E1 as <- <-.
    destruct (ok_insert_special d t cur n param _ _ Ht Hn ltac:(discriminate) E) as [Ht1 _].
    destruct (special_table d t cur n param _ _ Ht Hn E) as [Hs1 Hk1].
    intros E2.
    destruct (IH d _ _ leaf _ _ _ _ Ht1
                (eq_trans (deref_assign_app t cur n _ v Hn) Hd) E2) as (Hs2 & Hk2).
    split; [intros w; rewrite Hs2; apply Hs1|].
    rewrite Hk2, Hk1, <- app_assoc. reflexivity.
  - destruct (insert_special t cur catchAll) as [[t1 cur1]| |] eqn:E1;
      cbn [obind]; try discriminate.
    destruct (insert_special_shape t cur n catchAll Hn) as (v & leaf & E & _ & _ & _ & _ & Hd).
    rewrite E in E1. injection E1 as <- <-.
    destruct (ok_insert_special d t cur n catchAll _ _ Ht Hn ltac:(discriminate) E)
      as [Ht1 _].
    destruct (special_table d t cur n catchAll _ _ Ht Hn E) as [Hs1 Hk1].
    intros E2.
    destruct (IH d _ _ leaf _ _ _ _ Ht1
                (eq_trans (deref_assign_app t cur n _ v Hn) Hd) E2) as (Hs2 & Hk2).
    split; [intros w; rewrite Hs2; apply Hs1|].
    rewrite Hk2, Hk1, <- app_assoc. reflexivity.
Qed.

Lemma stored_setEndpoint n (e : endpoint H) w :
  stored (setEndpoint n (Some e)) w = match w with [] => Some e | _ => stored n w end.
Proof.
  rewrite (stored_unfold (setEndpoint _ _)), (stored_unfold n).
  destruct w as [|[a|ty] w]; reflexivity.
Qed.

(** What one registration does to the table: the key of the pattern now
    holds the new endpoint, and every other key holds what it held. *)
Lemma insert_table t (p : string) (f : H) t' :
  node_ok 0 t -> isValidPath (cleanPath p) = Ok true -> insert t p f = Ok t' ->
  exists segs,
    splitPath (cleanPath p) = Ok segs /\
    stored t' (route_key segs) = Some (Endpoint f (cleanPath p) (param_keys segs)) /\
    forall w, w <> route_key segs -> stored t' w = stored t w.
Proof.
  intros Ht Hv. unfold insert. rewrite Hv. cbn [obind negb].
  destruct (String.eqb (cleanPath p) "/") eqn:Eroot.
  { apply String.eqb_eq in Eroot. rewrite Eroot. discriminate. }
  apply String.eqb_neq in Eroot.
  destruct (splitPath_cleanPath p Eroot) as (toks & Es & Hne & Hnn). rewrite Es. cbn [obind].
  destruct (insert_loop_shape toks t [] t [] Hne eq_refl)
    as (ext & v & leaf & E & _ & Hpv & _ & Hd & _).
  cbn [assign app] in E. rewrite E. cbn [obind]. rewrite Hd. intros [= <-].
  destruct (ok_insert_loop toks 0 t [] t [] _ _ _ Ht eq_refl E) as (Hvok & _ & _).
  destruct (loop_table toks 0 t [] t [] _ _ _ Ht eq_refl E) as (Hs & Hk).
  cbn [cursor_key app] in Hk.
  exists toks. split; [reflexivity|].
  assert (Hw : forall w,
    stored (assign v ext (setEndpoint leaf (Some (newEndpoint (cleanPath p) f (param_keys toks))))) w
    = match strip (route_key toks) w with
      | Some [] => Some (Endpoint f (cleanPath p) (param_keys toks))
      | _ => stored t w
      end).
  { intros w. rewrite (stored_assign ext 0 v leaf (setEndpoint leaf _) w Hvok Hd eq_refl), Hk.
    pose proof (stored_assign ext 0 v leaf leaf w Hvok Hd eq_refl) as Hself.
    rewrite (assign_self v ext leaf Hd), Hk in Hself.
    destruct (strip (route_key toks) w) as [w'|]; [|apply Hs].
    rewrite stored_setEndpoint. destruct w' as [|x w']; [reflexivity|].
    rewrite <- Hself. apply Hs. }
  split.
  - pose proof (strip_app_self (route_key toks) []) as Hst. rewrite app_nil_r in Hst.
    rewrite Hw, Hst. reflexivity.
  - intros w Hne'. rewrite Hw. destruct (strip (route_key toks) w) as [w'|] eqn:Est; [|reflexivity].
    destruct w' as [|x w']; [|reflexivity].
    apply strip_Some in Est. rewrite app_nil_r in Est. contradiction.
Qed.


Lemma no_slash_unslash (q : string) : no_slash (unslash q) = true.
Proof.
  induction q as [|c q IH]; [reflexivity|]. cbn [unslash].
  destruct (Ascii.eqb c slash) eqn:E; [exact IH|]. apply no_slash_cons. auto.
Qed.

(** On a key made of bytes only, [find] returns what the table holds:
    at every node the literal child is tried first, and the bytes of the
    request between its slashes are matched against the prefix of the
    child, a part at a time. *)
Lemma find_loop_stored (fuel : nat) :
  forall d (params : list string) (nd : node H) (pl : option ascii) (start : nat)
         (q : string) (e : endpoint H),
    node_ok d nd -> String.length q <= fuel ->
    match pl with
    | None => start = 0 /\ stored nd (bytes (unslash q)) = Some e
    | Some l =>
        exists st (s' : string),
          lookup_child (children nd) l = Some st /\ start < String.length (prefix st) /\
          unslash q = (sfrom start (prefix st) ++ s')%string /\ stored st (bytes s') = Some e
    end ->
    find_loop fuel params nd pl start q = hit e params.
Proof.
  assert (Hend : forall (params : list string) (nd : node H) (pl : option ascii)
                        (start : nat) (e : endpoint H),
            match pl with
            | None => start = 0 /\ stored nd (bytes (unslash "")) = Some e
            | Some l =>
                exists st (s' : string),
                  lookup_child (children nd) l = Some st /\
                  start < String.length (prefix st) /\
                  unslash "" = (sfrom start (prefix st) ++ s')%string /\
                  stored st (bytes s') = Some e
            end -> find_result nd params = hit e params).
  { intros params nd pl start e Hinv. destruct pl as [l|].
    - destruct Hinv as (st & s' & _ & Hlt & Hu & _). exfalso.
      pose proof (length_sfrom start (prefix st)) as L.
      destruct (sfrom start (prefix st)); [cbn [String.length] in L; lia|discriminate]. 
    - destruct Hinv as [_ Hs]. apply find_result_hit.
      rewrite stored_unfold in Hs. exact Hs. }
  induction fuel as [|fuel IH]; intros d params nd pl start q e Hok Hq Hinv.
  { assert (q = ""%string) by (apply length_zero; lia). subst q. cbn [find_loop].
    exact (Hend params nd pl start e Hinv). }
  destruct q as [|c q]; [exact (Hend params nd pl start e Hinv)|].
  cbn [String.length] in Hq. cbn [find_loop]. cbn [unslash] in Hinv.
  destruct (Ascii.eqb c slash) eqn:Ec.
  { apply (IH d); [exact Hok|lia|exact Hinv]. }
  set (label := match pl with Some l => l | None => c end).
  assert (Hst : exists st (s' : string),
             lookup_child (children nd) label = Some st /\
             start < String.length (prefix st) /\
             String c (unslash q) = (sfrom start (prefix st) ++ s')%string /\
             stored st (bytes s') = Some e).
  { destruct pl as [l|]; [exact Hinv|]. destruct Hinv as [-> Hs]. subst label.
    rewrite stored_unfold in Hs. cbn [bytes] in Hs.
    destruct (lookup_child (children nd) c) as [st|] eqn:El; [|discriminate].
    change (SByte c :: bytes (unslash q)) with (bytes (String c (unslash q))) in Hs.
    destruct (strip (bytes (prefix st)) (bytes (String c (unslash q)))) as [w'|] eqn:Es;
      [|discriminate].
    destruct (strip_bytes _ _ _ Es) as (s' & Eq & ->).
    apply node_ok_unfold in Hok as (_ & Hcs & _).
    destruct (ok_lookup d _ c st Hcs El) as (Hhd & _ & _).
    exists st, s'. split; [reflexivity|]. split.
    - destruct (prefix st); [discriminate|]. cbn [String.length]. lia.
    - rewrite sfrom_0. split; [exact Eq|exact Hs]. }
  destruct Hst as (st & s' & El & Hlt & Hu & Hs). rewrite El.
  destruct (Nat.ltb_spec (String.length (prefix st)) start) as [|_]; [lia|].
  rewrite longestPrefix_spec.
  destruct (common_prefix_split (String c q) (sfrom start (prefix st)))
    as (r1 & r2 & E1 & E2 & Hd).
  set (l := common_prefix (String c q) (sfrom start (prefix st))) in *.
  assert (Hns : no_slash (sfrom start (prefix st)) = true).
  { pose proof (no_slash_unslash (String c q)) as Hn. cbn [unslash] in Hn.
    rewrite Ec, Hu in Hn. apply no_slash_app in Hn. exact (proj1 Hn). }
  assert (Hl : no_slash l = true) by (apply common_prefix_no_slash; exact Hns).
  assert (Hr1 : sfrom (String.length l) (String c q) = r1).
  { transitivity (sfrom (String.length l) (l ++ r1)%string);
      [f_equal; exact E1|apply sfrom_app_length]. }
  assert (Hu1 : unslash r1 = (r2 ++ s')%string).
  { apply (append_inj_l l). rewrite <- append_assoc, <- E2, <- Hu.
    rewrite <- (unslash_no_slash l Hl) at 1. rewrite <- unslash_app, <- E1.
    cbn [unslash]. rewrite Ec. reflexivity. }
  assert (L1 : String.length (String c q) = String.length l + String.length r1).
  { rewrite <- length_append. f_equal. exact E1. }
  assert (L2 : String.length (prefix st) - start = String.length l + String.length r2).
  { rewrite <- length_append, <- length_sfrom. f_equal. exact E2. }
  rewrite Hr1. cbn [String.length] in L1.
  destruct (Nat.eqb_spec (String.length l) 0) as [Hz|Hz].
  { exfalso. apply length_zero in Hz. rewrite Hz in E1, E2. cbn [String.append] in E1, E2.
    subst r1. cbn [unslash] in Hu1. rewrite Ec in Hu1.
    destruct r2 as [|b r2]; [rewrite Hz in L2; cbn [String.length] in L2; lia|].
    cbn [String.append] in Hu1. injection Hu1 as -> _. contradiction. }
  apply node_ok_unfold in Hok as Hok'. destruct Hok' as (_ & Hcs & _).
  destruct (ok_lookup d _ label st Hcs El) as (_ & _ & Hstok).
  destruct (Nat.eqb_spec (String.length l + start) (String.length (prefix st))) as [Hf|Hf].
  - assert (r2 = ""%string) by (apply length_zero; lia). subst r2.
    apply (IH d); [exact Hstok|lia|]. split; [reflexivity|]. rewrite Hu1. exact Hs.
  - apply (IH d); [exact Hok|lia|].
    exists st, s'. split; [exact El|]. split; [lia|]. split; [|exact Hs].
    rewrite sfrom_add, E2, sfrom_app_length. exact Hu1.
Qed.

Lemma stored_bytes_keys (k : nat) : forall (s : string) d n (e : endpoint H),
  String.length s <= k ->
  node_ok d n -> stored n (bytes s) = Some e -> List.length (pKeys e) = d.
Proof.
  induction k as [|k IH]; intros s d n e Hk Hok Hs; rewrite stored_unfold in Hs;
    apply node_ok_unfold in Hok as (He & Hcs & _);
    (destruct s as [|c s]; cbn [bytes] in Hs; [rewrite Hs in He; exact He|]).
  { cbn [String.length] in Hk. lia. }
  destruct (lookup_child (children n) c) as [st|] eqn:El; [|discriminate].
  change (SByte c :: bytes s) with (bytes (String c s)) in Hs.
  destruct (strip (bytes (prefix st)) (bytes (String c s))) as [w'|] eqn:Es; [|discriminate].
  destruct (strip_bytes _ _ _ Es) as (s' & Eq & ->).
  destruct (ok_lookup d _ c st Hcs El) as (Hhd & _ & Hstok).
  apply (IH s' d st e); [|exact Hstok|exact Hs].
  assert (L : String.length (String c s) = String.length (prefix st) + String.length s').
  { rewrite <- length_append. f_equal. exact Eq. }
  cbn [String.length] in Hk, L. destruct (prefix st); [discriminate|].
  cbn [String.length] in L. lia.
Qed.

Lemma find_stored t (q : string) (e : endpoint H) :
  node_ok 0 t -> stored t (bytes (unslash q)) = Some e -> find t q = Ok (Some (e, ∅)).
Proof.
  intros Hok Hs. unfold find.
  rewrite (find_loop_stored _ 0 [] t None 0 q e Hok (le_n _) (conj eq_refl Hs)).
  unfold hit. pose proof (stored_bytes_keys _ _ 0 t e (le_n _) Hok Hs) as Hk.
  destruct (pKeys e); [reflexivity|discriminate].
Qed.


Lemma lookup_child_NoDup (cs : list (ascii * node H)) (k : ascii) c :
  List.NoDup (map fst cs) -> In (k, c) cs -> lookup_child cs k = Some c.
Proof.
  induction cs as [|[k' c'] cs IH]; cbn [map fst In lookup_child]; [intros _ []|].
  intros Hnd Hin. inversion Hnd as [|x xs Hk Hnd']; subst.
  destruct Hin as [[= -> ->]|Hin]; [rewrite Ascii.eqb_refl; reflexivity|].
  destruct (Ascii.eqb_spec k' k) as [->|_]; [|exact (IH Hnd' Hin)].
  exfalso. apply Hk. apply in_map_iff. exists (k, c). split; [reflexivity|exact Hin].
Qed.

(** The table and the list of endpoints hold the same endpoints. *)
Lemma stored_In (k : nat) : forall n w (e : endpoint H),
  height n <= k -> stored n w = Some e -> In e (endpoints n).
Proof.
  induction k as [|k IH]; intros n w e Hh Hs.
  { destruct n; cbn [height] in Hh. lia. }
  rewrite stored_unfold in Hs. destruct w as [|[a|ty] w].
  - rewrite endpoints_unfold, Hs. left. reflexivity.
  - destruct (lookup_child (children n) a) as [c|] eqn:El; [|discriminate].
    destruct (strip _ _) as [w'|]; [|discriminate].
    apply (endpoints_follow n c (EChild a) e El).
    apply (IH c w' e); [|exact Hs]. pose proof (height_follow n c (EChild a) El). lia.
  - destruct (slot_get (special n) ty) as [c|] eqn:El; [|discriminate].
    apply (endpoints_follow n c (ESpecial ty) e El).
    apply (IH c w e); [|exact Hs]. pose proof (height_follow n c (ESpecial ty) El). lia.
Qed.

Lemma In_stored (k : nat) : forall d n (e : endpoint H),
  height n <= k -> node_ok d n -> In e (endpoints n) -> exists w, stored n w = Some e.
Proof.
  induction k as [|k IH]; intros d n e Hh Hok Hin.
  { destruct n; cbn [height] in Hh. lia. }
  apply node_ok_unfold in Hok as (_ & Hcs & Hnd & Hst & Hpa & Hca).
  rewrite endpoints_unfold, !in_app_iff in Hin.
  assert (Hslot : forall (ty : nType) c, slot_get (special n) ty = Some c ->
            node_ok (S d) c -> In e (endpoints c) -> exists w, stored n w = Some e).
  { intros ty c Hsl Hc Hi.
    destruct (IH (S d) c e) as [w' Hw']; [|exact Hc|exact Hi|].
    - pose proof (height_follow n c (ESpecial ty) Hsl). lia.
    - exists (SSlot ty :: w'). rewrite stored_unfold, Hsl. exact Hw'. }
  destruct Hin as [Hin|[Hin|[Hin|[Hin|Hin]]]].
  - exists []. rewrite stored_unfold. destruct (endpt n) as [e0|]; [|destruct Hin].
    destruct Hin as [->|[]]. reflexivity.
  - apply in_flat_map in Hin as ([k' c] & Hkc & Hi). cbn [snd] in Hi.
    destruct (proj1 (List.Forall_forall _ _) Hcs _ Hkc) as (Hhd & _ & Hc). cbn [fst snd] in *.
    destruct (IH d c e) as [w' Hw']; [|exact Hc|exact Hi|].
    + pose proof (height_child_In n (k', c) Hkc). cbn [snd] in *. lia.
    + exists (bytes (prefix c) ++ w'). rewrite stored_unfold.
      destruct (prefix c) as [|k0 pr] eqn:Ep; [discriminate|]. cbn in Hhd. injection Hhd as ->.
      cbn [bytes app]. rewrite (lookup_child_NoDup _ _ _ Hnd Hkc), Ep.
      change (SByte k' :: bytes pr ++ w') with (bytes (String k' pr) ++ w').
      rewrite strip_app_self. exact Hw'.
  - rewrite Hst in Hin. destruct Hin.
  - destruct (at_param (special n)) as [c|] eqn:Ec; [|destruct Hin].
    apply (Hslot param c); [exact Ec|exact (proj2 (proj2 Hpa))|exact Hin].
  - destruct (at_catchAll (special n)) as [c|] eqn:Ec; [|destruct Hin].
    apply (Hslot catchAll c); [exact Ec|exact (proj2 (proj2 Hca))|exact Hin].
Qed.

End Table.

Lemma register_all_app {H : Type} (r1 r2 : list (string * H)) : forall t,
  register_all (r1 ++ r2) t = (do t1 <- register_all r1 t; register_all r2 t1).
Proof.
  induction r1 as [|[p f] r1 IH]; intros t; cbn [app register_all obind]; [reflexivity|].
  destruct (insert t p f); cbn [obind]; [apply IH|reflexivity|reflexivity].
Qed.

Lemma bytes_no_slot (s : string) (ty : nType) : ~ In (SSlot ty) (bytes s).
Proof.
  induction s as [|c s IH]; cbn [bytes In]; [tauto|]. intros [E|E]; [discriminate|exact (IH E)].
Qed.

Lemma token_key_piece (x : piece) :
  piece_ok x = true ->
  token_key (token_of x)
  = match x with
    | Lit segs => bytes (cat segs)
    | Par _ => [SSlot param]
    | Star => [SSlot catchAll]
    end.
Proof.
  destruct x as [segs|name|]; cbn [piece_ok token_of]; intros Hx; [| reflexivity | reflexivity].
  apply andb_true_iff in Hx as [Hn Hl].
  assert (Hne : segs <> []) by (destruct segs; [discriminate|congruence]).
  destruct (cat_lits segs Hne Hl) as (c & r & _ & Hty & _).
  unfold token_key. rewrite Hty. reflexivity.
Qed.

(** A well-formed pattern whose key is made of bytes only is one literal
    run. *)
Lemma route_key_bytes (ps : list piece) (tok : string) :
  well_formed ps = true -> route_key (tokens ps) = bytes tok -> tokens ps = [tok].
Proof.
  unfold well_formed. rewrite !andb_true_iff. intros ((((Hlen & Hok) & Halt) & _) & _) Hk.
  destruct ps as [|x ps]; [discriminate|]. cbn [forallb] in Hok.
  apply andb_true_iff in Hok as [Hx Hok].
  cbn [tokens map route_key flat_map] in Hk |- *. rewrite (token_key_piece x Hx) in Hk.
  destruct x as [segs|name|].
  - destruct ps as [|y ps].
    + cbn [map flat_map] in Hk |- *. rewrite app_nil_r in Hk.
      f_equal. exact (bytes_inj _ _ Hk).
    + exfalso. cbn [forallb] in Hok. apply andb_true_iff in Hok as [Hy _].
      cbn [alternates is_lit] in Halt. apply andb_true_iff in Halt as [Hyl _].
      cbn [map flat_map] in Hk. rewrite (token_key_piece y Hy) in Hk.
      destruct y as [segs'|name|]; [discriminate| |].
      * apply (bytes_no_slot tok param). rewrite <- Hk. apply in_app_iff. right. left. reflexivity.
      * apply (bytes_no_slot tok catchAll). rewrite <- Hk. apply in_app_iff. right. left.
        reflexivity.
  - exfalso. apply (bytes_no_slot tok param). rewrite <- Hk. left. reflexivity.
  - exfalso. apply (bytes_no_slot tok catchAll). rewrite <- Hk. left. reflexivity.
Qed.

Lemma valid_tokens (p : string) :
  isValidPath (cleanPath p) = Ok true ->
  exists ps, well_formed ps = true /\ splitPath (cleanPath p) = Ok (tokens ps).
Proof.
  intros Hv. destruct (valid_is_well_formed p Hv) as (ps & Hwf & Ep).
  exists ps. split; [exact Hwf|]. rewrite Ep.
  unfold well_formed in Hwf. rewrite !andb_true_iff in Hwf.
  destruct Hwf as ((((Hlen & Hok) & Halt) & _) & _).
  apply splitPath_render; [|exact Hok|exact Halt]. destruct ps; [discriminate|congruence].
Qed.

(** Later registrations under other keys leave what a key holds. *)
Lemma stored_after {H : Type} (routes : list (string * H)) :
  forall (t t' : tree H) (K : list sym) (e : endpoint H),
    tree_ok t -> register_all routes t = Ok t' -> stored t K = Some e ->
    (forall p f segs, In (p, f) routes -> isValidPath (cleanPath p) = Ok true ->
                      splitPath (cleanPath p) = Ok segs -> route_key segs <> K) ->
    stored t' K = Some e.
Proof.
  induction routes as [|[p f] routes IH]; intros t t' K e Ht; cbn [register_all].
  - intros [= <-] Hs _. exact Hs.
  - destruct (insert t p f) as [t1| |] eqn:E1; cbn [obind]; try discriminate.
    intros Hr Hs Hkeys.
    apply (IH t1 t' K e (tree_ok_insert t p f t1 Ht E1) Hr).
    + destruct (isValidPath (cleanPath p)) as [[|]| |] eqn:Ev.
      * destruct (insert_table t p f t1 (proj1 Ht) Ev E1) as (segs & Es & _ & Hother).
        rewrite Hother; [exact Hs|]. intros ->.
        exact (Hkeys p f segs (or_introl eq_refl) Ev Es eq_refl).
      * rewrite (insert_invalid t p f Ev) in E1. injection E1 as <-. exact Hs.
      * unfold insert in E1. rewrite Ev in E1. discriminate.
      * unfold insert in E1. rewrite Ev in E1. discriminate.
    + intros p' f' segs Hin. apply (Hkeys p' f' segs). right. exact Hin.
Qed.

(** X21.  One registration is one update of the table.  On a tree built
    by registrations, inserting a pattern that the validator accepts puts
    the new endpoint under the key of the pattern (the bytes of its literal
    tokens and one symbol per dynamic token, whatever its name) and leaves
    what every other key holds: edges are split and nodes are added, but no
    other route is lost, moved or changed. *)
Theorem insert_is_a_table_update :
  forall (H : Type) (routes : list (string * H)) (t t' : tree H) (p : string) (f : H),
    register_all routes newTree = Ok t ->
    isValidPath (cleanPath p) = Ok true ->
    insert t p f = Ok t' ->
    exists segs,
      splitPath (cleanPath p) = Ok segs /\
      stored t' (route_key segs) = Some (Endpoint f (cleanPath p) (param_keys segs)) /\
      forall w, w <> route_key segs -> stored t' w = stored t w.
Proof.
  intros H routes t t' p f Hr Hv Hi.
  pose proof (tree_ok_register_all routes newTree t tree_ok_newTree Hr) as Ht.
  exact (insert_table t p f t' (proj1 Ht) Hv Hi).
Qed.

Lemma insert_is_a_table_update_witness :
  register_all [("/users"%string, 1)] newTree
  = Ok (one_edge "users" (Endpoint 1 "/users" [])) /\
  isValidPath (cleanPath "/us/:id") = Ok true /\
  insert (one_edge "users" (Endpoint 1 "/users" [])) "/us/:id" 2
  = Ok (Node static ""
          [("u"%char,
            Node static "us"
              [("e"%char, Node static "ers" [] no_slots (Some (Endpoint 1 "/users" [])))]
              (Slots None (Some (Node param "" [] no_slots
                                   (Some (Endpoint 2 "/us/:id" ["id"%string])))) None)
              None)]
          no_slots None) /\
  exists segs,
    splitPath (cleanPath "/us/:id") = Ok segs /\
    stored (Node static ""
          [("u"%char,
            Node static "us"
              [("e"%char, Node static "ers" [] no_slots (Some (Endpoint 1 "/users" [])))]
              (Slots None (Some (Node param "" [] no_slots
                                   (Some (Endpoint 2 "/us/:id" ["id"%string])))) None)
              None)]
          no_slots None) (route_key segs)
    = Some (Endpoint 2 (cleanPath "/us/:id") (param_keys segs)) /\
    forall w, w <> route_key segs ->
      stored (Node static ""
          [("u"%char,
            Node static "us"
              [("e"%char, Node static "ers" [] no_slots (Some (Endpoint 1 "/users" [])))]
              (Slots None (Some (Node param "" [] no_slots
                                   (Some (Endpoint 2 "/us/:id" ["id"%string])))) None)
              None)]
          no_slots None) w
      = stored (one_edge "users" (Endpoint 1 "/users" [])) w.
Proof.
  split; [reflexivity|]. split; [reflexivity|]. split; [reflexivity|].
  apply (insert_is_a_table_update nat [("/users"%string, 1)]); reflexivity.
Defined.

(** X22.  [find] reads the table on literal keys.  On a tree built by
    registrations, if the bytes of the request path other than ['/'] are a
    key that holds an endpoint, [find] returns that endpoint with no
    parameters: the literal child is tried first at every node, so no
    parameter or catch-all route can take the request. *)
Theorem find_reads_the_table_on_literal_keys :
  forall (H : Type) (routes : list (string * H)) (t : tree H) (q : string) (e : endpoint H),
    register_all routes newTree = Ok t ->
    stored t (bytes (unslash q)) = Some e ->
    find t q = Ok (Some (e, ∅)).
Proof.
  intros H routes t q e Hr Hs.
  pose proof (tree_ok_register_all routes newTree t tree_ok_newTree Hr) as Ht.
  exact (find_stored t q e (proj1 Ht) Hs).
Qed.

Lemma find_reads_the_table_on_literal_keys_witness :
  register_all [("/users/:id"%string, 1); ("/users/all"%string, 2)] newTree
  = Ok (Node static ""
          [("u"%char,
            Node static "users"
              [("a"%char, Node static "all" [] no_slots (Some (Endpoint 2 "/users/all" [])))]
              (Slots None (Some (Node param "" [] no_slots
                                   (Some (Endpoint 1 "/users/:id" ["id"%string])))) None)
              None)]
          no_slots None) /\
  find (Node static ""
          [("u"%char,
            Node static "users"
              [("a"%char, Node static "all" [] no_slots (Some (Endpoint 2 "/users/all" [])))]
              (Slots None (Some (Node param "" [] no_slots
                                   (Some (Endpoint 1 "/users/:id" ["id"%string])))) None)
              None)]
          no_slots None) "/users/all"
  = Ok (Some (Endpoint 2 "/users/all" [], ∅)).
Proof.
  split; [reflexivity|].
  apply (find_reads_the_table_on_literal_keys nat
           [("/users/:id"%string, 1); ("/users/all"%string, 2)]); reflexivity.
Defined.

(** A literal route, once registered, answers the requests that spell its
    token until a registration with the same token replaces it. *)
Lemma reachable_after_registrations :
  forall (H : Type) (before after : list (string * H)) (p : string) (f : H)
         (tok : string) (t : tree H) (q : string),
    register_all (before ++ (p, f) :: after) newTree = Ok t ->
    isValidPath (cleanPath p) = Ok true ->
    splitPath (cleanPath p) = Ok [tok] ->
    getSegmentType tok = Ok static ->
    (forall p' f', In (p', f') after -> splitPath (cleanPath p') <> Ok [tok]) ->
    unslash q = tok ->
    find t q = Ok (Some (Endpoint f (cleanPath p) [], ∅)).
Proof.
  intros H before after p f tok t q Hr Hv Htok Hty Hafter Hq.
  rewrite register_all_app in Hr.
  destruct (register_all before newTree) as [t0| |] eqn:E0; cbn [obind] in Hr; try discriminate.
  cbn [register_all] in Hr.
  destruct (insert t0 p f) as [t1| |] eqn:E1; cbn [obind] in Hr; try discriminate.
  pose proof (tree_ok_register_all before newTree t0 tree_ok_newTree E0) as Ht0.
  pose proof (tree_ok_insert t0 p f t1 Ht0 E1) as Ht1.
  pose proof (tree_ok_register_all after t1 t Ht1 Hr) as Ht.
  destruct (insert_table t0 p f t1 (proj1 Ht0) Hv E1) as (segs & Es & Hst & _).
  rewrite Htok in Es. injection Es as <-.
  assert (Hkey : route_key [tok] = bytes tok).
  { cbn [route_key flat_map]. unfold token_key. rewrite Hty. apply app_nil_r. }
  assert (Hkeys : param_keys [tok] = []) by (cbn [param_keys]; rewrite Hty; reflexivity).
  rewrite Hkey, Hkeys in Hst.
  apply (find_stored t q _ (proj1 Ht)). rewrite Hq.
  apply (stored_after after t1 t _ _ Ht1 Hr Hst).
  intros p' f' segs Hin Hv' Es' Hk.
  destruct (valid_tokens p' Hv') as (ps & Hwf & Eps).
  rewrite Eps in Es'. injection Es' as <-.
  apply (Hafter p' f' Hin). rewrite Eps, (route_key_bytes ps tok Hwf Hk). reflexivity.
Qed.

(** X23.  A literal route stays reachable.  Whatever is registered before
    and after an all-literal pattern, in whatever order, a request whose
    bytes other than ['/'] are the bytes of the pattern is answered by the
    handler of that pattern, unless a later registration has the very same
    token. *)
Theorem literal_route_stays_reachable :
  forall (H : Type) (before after : list (string * H)) (p : string) (f : H)
         (tok : string) (t : tree H) (q : string),
    register_all (before ++ (p, f) :: after) newTree = Ok t ->
    isValidPath (cleanPath p) = Ok true ->
    splitPath (cleanPath p) = Ok [tok] ->
    getSegmentType tok = Ok static ->
    (forall p' f', In (p', f') after -> splitPath (cleanPath p') <> Ok [tok]) ->
    unslash q = tok ->
    find t q = Ok (Some (Endpoint f (cleanPath p) [], ∅)).
Proof.
  intros H before after p f tok t q Hr Hv Htok Hty Hafter Hq.
  exact (reachable_after_registrations H before after p f tok t q Hr Hv Htok Hty Hafter Hq).
Qed.

Lemma literal_route_stays_reachable_witness :
  find (Node static ""
          [("u"%char,
            Node static "users"
              [("n"%char, Node static "new" [] no_slots (Some (Endpoint 3 "/users/new" [])))]
              (Slots None (Some (Node param "" [] no_slots
                                   (Some (Endpoint 1 "/users/:id" ["id"%string])))) None)
              (Some (Endpoint 2 "/users" [])))]
          no_slots None) "/users/"
  = Ok (Some (Endpoint 2 (cleanPath "/users") [], ∅)).
Proof.
  apply (literal_route_stays_reachable nat [("/users/:id"%string, 1)]
           [("/users/new"%string, 3)] "/users" 2 "users").
  - reflexivity.
  - reflexivity.
  - reflexivity.
  - reflexivity.
  - intros p' f' [[= <- <-]|[]]. vm_compute. discriminate.
  - reflexivity.
Defined.

(** X24.  The listing is the table.  On a tree built by registrations,
    [captureRoutes] lists a line exactly when it is the line of an endpoint
    that some key holds: no endpoint of the tree is out of reach of its
    key, and the table holds nothing that the listing leaves out. *)
Theorem captureRoutes_lists_the_table :
  forall (H : Type) (routes : list (string * H)) (t : tree H) (m line : string),
    register_all routes newTree = Ok t ->
    (In line (captureRoutes t m) <->
     exists (w : list sym) (e : endpoint H),
       stored t w = Some e /\ line = (m ++ " " ++ fullPath e)%string).
Proof.
  intros H routes t m line Hr.
  pose proof (tree_ok_register_all routes newTree t tree_ok_newTree Hr) as (Hok & _ & _ & He).
  pose proof (captureRoutes_endpoints t m) as Hp.
  rewrite (setEndpoint_None_id t He) in Hp.
  split.
  - intros Hin. apply (Permutation_in _ Hp) in Hin. apply in_map_iff in Hin as (e & <- & Hin).
    destruct (In_stored _ 0 t e (le_n _) Hok Hin) as [w Hw].
    exists w, e. split; [exact Hw|reflexivity].
  - intros (w & e & Hw & ->). apply (Permutation_in _ (Permutation_sym Hp)).
    apply in_map_iff. exists e. split; [reflexivity|].
    exact (stored_In _ t w e (le_n _) Hw).
Qed.

Lemma captureRoutes_lists_the_table_witness :
  register_all [("/users"%string, 1)] newTree
  = Ok (one_edge "users" (Endpoint 1 "/users" [])) /\
  (In "GET /users"%string (captureRoutes (one_edge "users" (Endpoint 1 "/users" [])) "GET") <->
   exists (w : list sym) (e : endpoint nat),
     stored (one_edge "users" (Endpoint 1 "/users" [])) w = Some e /\
     "GET /users"%string = ("GET" ++ " " ++ fullPath e)%string).
Proof.
  split; [reflexivity|].
  apply (captureRoutes_lists_the_table nat [("/users"%string, 1)]). reflexivity.
Defined.

(** ** The values in the parameter map *)

Lemma sym_eq_dec (x y : sym) : {x = y} + {x <> y}.
Proof. decide equality; [apply Ascii.ascii_dec|decide equality]. Qed.

Lemma slots_of_app (u w : list sym) : slots_of (u ++ w) = slots_of u ++ slots_of w.
Proof. unfold slots_of. apply flat_map_app. Qed.

Lemma slots_of_bytes (s : string) : slots_of (bytes s) = [].
Proof. induction s as [|c s IH]; [reflexivity|exact IH]. Qed.

Lemma sto_sfrom (n : nat) : forall s : string, s = (sto n s ++ sfrom n s)%string.
Proof.
  induction n as [|n IH]; intros [|c s]; cbn [sto sfrom String.append]; try reflexivity.
  f_equal. apply IH.
Qed.

Lemma IndexByte_None (p : string) : IndexByte p = None -> no_slash p = true.
Proof.
  induction p as [|c p IH]; [reflexivity|]. cbn [IndexByte].
  destruct (Ascii.eqb c slash) eqn:E; [discriminate|].
  destruct (IndexByte p); [discriminate|]. intros _. apply no_slash_cons. auto.
Qed.

Lemma IndexByte_Some (p : string) : forall j,
  IndexByte p = Some j ->
  no_slash (sto j p) = true /\ p = (sto j p ++ String slash (sfrom (j + 1) p))%string.
Proof.
  induction p as [|c p IH]; intros j; cbn [IndexByte]; [discriminate|].
  destruct (Ascii.eqb c slash) eqn:E.
  - intros [= <-]. apply Ascii.eqb_eq in E. subst c. cbn [sto sfrom Nat.add String.append].
    rewrite ?sfrom_0. split; reflexivity.
  - destruct (IndexByte p) as [j'|]; [|discriminate]. intros [= <-].
    destruct (IH j' eq_refl) as [Hn Hp]. cbn [sto sfrom Nat.add String.append]. split.
    + apply no_slash_cons. auto.
    + f_equal. exact Hp.
Qed.

Lemma Forall2_nth_error {A B : Type} (P : A -> B -> Prop) (l1 : list A) (l2 : list B) :
  Forall2 P l1 l2 -> forall j a b,
  nth_error l1 j = Some a -> nth_error l2 j = Some b -> P a b.
Proof.
  induction 1 as [|x y l1 l2 Hxy Hl IH]; intros [|j] a b; cbn [nth_error]; try discriminate.
  - intros [= <-] [= <-]. exact Hxy.
  - apply IH.
Qed.

Lemma fill_pMap_lookup (keys : list string) : forall (i : nat) (params : list string)
    (m0 m : gmap string string),
  fill_pMap keys i params m0 = Ok m ->
  forall k v, m !! k = Some v ->
    m0 !! k = Some v \/
    exists j, nth_error keys j = Some k /\ nth_error params (i + j) = Some v.
Proof.
  induction keys as [|k0 keys IH]; intros i params m0 m; cbn [fill_pMap].
  - intros [= <-] k v Hk. left. exact Hk.
  - destruct (nth_error params i) as [v0|] eqn:Ev; [|discriminate].
    intros Hf k v Hk. destruct (IH _ _ _ _ Hf k v Hk) as [H0|(j & Hj & Hv)].
    + destruct (String.eqb_spec k0 k) as [->|Hne].
      * rewrite lookup_insert_eq in H0. injection H0 as <-.
        right. exists 0. rewrite Nat.add_0_r. split; [reflexivity|exact Ev].
      * rewrite lookup_insert_ne in H0 by exact Hne. left. exact H0.
    + right. exists (S j). split; [exact Hj|]. rewrite Nat.add_succ_r. exact Hv.
Qed.

Section Values.
Context {H : Type} (t : tree H) (q : string).

(** The loop of [find] from a node that stands at the key [w], with one
    fitting value in [params] per slot of [w]: where it ends with a hit,
    it ends at a node further down, at the key [w ++ u], and with a list of
    values of which the same holds. *)
Lemma find_loop_walk (fuel : nat) :
  forall d (params : list string) (nd : node H) (pl : option ascii) (start : nat)
         (p : string) (w : list sym) (e : endpoint H) (m : gmap string string),
    node_ok d nd ->
    (forall w', stored t (w ++ w') = stored nd w') ->
    Forall2 (value_fits q) (slots_of w) params ->
    (exists a : string, q = (a ++ p)%string) ->
    find_loop fuel params nd pl start p = Ok (Some (e, m)) ->
    exists (nd' : node H) (u : list sym) (params' : list string),
      (forall w'', stored t ((w ++ u) ++ w'') = stored nd' w'') /\
      Forall2 (value_fits q) (slots_of (w ++ u)) params' /\
      find_result nd' params' = Ok (Some (e, m)).
Proof.
  assert (Hhere : forall (params : list string) (nd : node H) (w : list sym) e m,
            (forall w', stored t (w ++ w') = stored nd w') ->
            Forall2 (value_fits q) (slots_of w) params ->
            find_result nd params = Ok (Some (e, m)) ->
            exists (nd' : node H) (u : list sym) (params' : list string),
              (forall w'', stored t ((w ++ u) ++ w'') = stored nd' w'') /\
              Forall2 (value_fits q) (slots_of (w ++ u)) params' /\
              find_result nd' params' = Ok (Some (e, m))).
  { intros params nd w e m Hw Hv Hr. exists nd, [], params. rewrite app_nil_r. auto. }
  assert (Hlater : forall (x : list sym) (w : list sym) (e : endpoint H) m,
            (exists (nd' : node H) (u : list sym) (params' : list string),
               (forall w'', stored t (((w ++ x) ++ u) ++ w'') = stored nd' w'') /\
               Forall2 (value_fits q) (slots_of ((w ++ x) ++ u)) params' /\
               find_result nd' params' = Ok (Some (e, m))) ->
            exists (nd' : node H) (u : list sym) (params' : list string),
              (forall w'', stored t ((w ++ u) ++ w'') = stored nd' w'') /\
              Forall2 (value_fits q) (slots_of (w ++ u)) params' /\
              find_result nd' params' = Ok (Some (e, m))).
  { intros x w e m (nd' & u & params' & H1 & H2 & H3).
    exists nd', (x ++ u), params'. rewrite app_assoc. auto. }
  induction fuel as [|fuel IH]; intros d params nd pl start p w e m Hok Hw Hv Hsuf.
  { destruct p; cbn [find_loop]; [|discriminate]. apply Hhere; assumption. }
  destruct p as [|c p]; cbn [find_loop].
  { apply Hhere; assumption. }
  destruct Hsuf as [a Hq].
  destruct (Ascii.eqb c slash) eqn:Ec.
  { apply (IH d _ _ _ _ _ w); [exact Hok|exact Hw|exact Hv|].
    exists (a ++ String c "")%string. rewrite append_assoc. exact Hq. }
  assert (Hc : c <> slash) by (intros ->; rewrite Ascii.eqb_refl in Ec; discriminate).
  set (label := match pl with Some l => l | None => c end).
  destruct (lookup_child (children nd) label) as [st|] eqn:El.
  - destruct (Nat.ltb _ _); [discriminate|].
    set (lcp := longestPrefix (String c p) (sfrom start (prefix st))).
    assert (Hsuf' : exists a' : string,
               q = (a' ++ sfrom (String.length lcp) (String c p))%string).
    { exists (a ++ sto (String.length lcp) (String c p))%string.
      rewrite append_assoc, <- sto_sfrom. exact Hq. }
    destruct (Nat.eqb _ 0).
    { apply Hhere; assumption. }
    destruct (Nat.eqb _ _).
    + apply node_ok_unfold in Hok as Hok'. destruct Hok' as (_ & Hcs & _).
      destruct (ok_lookup d _ label st Hcs El) as (Hhd & _ & Hstok).
      intros Hr. apply (Hlater (bytes (prefix st))). revert Hr.
      apply (IH d _ _ _ _ _ (w ++ bytes (prefix st))); [exact Hstok| | |exact Hsuf'].
      * intros w'. rewrite <- app_assoc, Hw, stored_unfold.
        destruct (prefix st) as [|k pr] eqn:Ep; [discriminate|]. cbn in Hhd. injection Hhd as ->.
        cbn [bytes app]. rewrite El, Ep.
        change (SByte label :: bytes pr ++ w') with (bytes (String label pr) ++ w').
        rewrite strip_app_self. reflexivity.
      * rewrite slots_of_app, slots_of_bytes, app_nil_r. exact Hv.
    + apply (IH d _ _ _ _ _ w); [exact Hok|exact Hw|exact Hv|exact Hsuf'].
  - assert (Hfirst : exists c' r, String c p = String c' r /\ c' <> slash) by eauto.
    destruct (slot_get (special nd) param) as [pn|] eqn:Ep.
    + destruct (ok_follow d nd (ESpecial param) pn Hok Ep) as [Hpn _]. cbn [edepth] in Hpn.
      assert (Hwp : forall w', stored t ((w ++ [SSlot param]) ++ w') = stored pn w').
      { intros w'. rewrite <- app_assoc, Hw, stored_unfold. cbn [app]. rewrite Ep. reflexivity. }
      destruct (IndexByte (String c p)) as [j|] eqn:Ej.
      * destruct (IndexByte_Some _ _ Ej) as [Hns Hp].
        intros Hr. apply (Hlater [SSlot param]). revert Hr.
        apply (IH (1 + d) _ _ _ _ _ (w ++ [SSlot param])); [exact Hpn|exact Hwp| |].
        -- rewrite slots_of_app. apply Forall2_app; [exact Hv|]. constructor; [|constructor].
           split.
           ++ destruct j as [|j]; [cbn [IndexByte] in Ej; rewrite Ec in Ej;
                                   destruct (IndexByte p); discriminate|].
              cbn [sto]. eauto.
           ++ split; [exact Hns|]. exists a, (String slash (sfrom (j + 1) (String c p))).
              rewrite <- Hp. exact Hq.
        -- exists (a ++ sto j (String c p) ++ String slash "")%string.
           rewrite !append_assoc. cbn [String.append]. rewrite <- Hp. exact Hq.
      * intros Hr. apply (Hlater [SSlot param]). revert Hr.
        apply (IH (1 + d) _ _ _ _ _ (w ++ [SSlot param])); [exact Hpn|exact Hwp| |].
        -- rewrite slots_of_app. apply Forall2_app; [exact Hv|]. constructor; [|constructor].
           split; [exact Hfirst|]. split; [exact (IndexByte_None _ Ej)|].
           exists a, ""%string. rewrite append_nil_r. exact Hq.
        -- exists (a ++ String c p)%string. rewrite append_nil_r. exact Hq.
    + destruct (slot_get (special nd) catchAll) as [cn|] eqn:Ecn; [|discriminate].
      destruct (ok_follow d nd (ESpecial catchAll) cn Hok Ecn) as [Hcn _]. cbn [edepth] in Hcn.
      intros Hr. apply (Hlater [SSlot catchAll]). revert Hr.
      apply (IH (1 + d) _ _ _ _ _ (w ++ [SSlot catchAll])); [exact Hcn| | |].
      * intros w'. rewrite <- app_assoc, Hw, stored_unfold. cbn [app]. rewrite Ecn. reflexivity.
      * rewrite slots_of_app. apply Forall2_app; [exact Hv|]. constructor; [|constructor].
        split; [exact Hfirst|]. exists a. exact Hq.
      * exists (a ++ String c p)%string. rewrite append_nil_r. exact Hq.
Qed.

End Values.

Lemma keys_slots (ps : list piece) :
  forallb piece_ok ps = true ->
  map key_type (param_keys (tokens ps)) = slots_of (route_key (tokens ps)).
Proof.
  induction ps as [|x ps IH]; [reflexivity|]. cbn [forallb]. intros Hok.
  apply andb_true_iff in Hok as [Hx Hok]. specialize (IH Hok).
  cbn [tokens map route_key flat_map param_keys] in IH |- *.
  rewrite slots_of_app, (token_key_piece x Hx).
  destruct x as [segs|name|]; cbn [piece_ok token_of] in Hx |- *.
  - apply andb_true_iff in Hx as [Hn Hl].
    assert (Hne : segs <> []) by (destruct segs; [discriminate|congruence]).
    destruct (cat_lits segs Hne Hl) as (c & r & _ & Hty & _).
    rewrite Hty, slots_of_bytes. exact IH.
  - change (getSegmentType (String ":" name)) with (Ok param : outcome nType).
    cbn [map sfrom slots_of flat_map app]. f_equal; [|exact IH].
    unfold key_type. destruct (String.eqb_spec name "*") as [->|_]; [discriminate|reflexivity].
  - change (getSegmentType "*") with (Ok catchAll : outcome nType).
    cbn [map slots_of flat_map app]. f_equal. exact IH.
Qed.

Lemma table_ok_insert {H : Type} (t t' : tree H) (p : string) (f : H) :
  tree_ok t -> table_ok t -> insert t p f = Ok t' -> table_ok t'.
Proof.
  intros Ht Htab Hi. destruct (isValidPath (cleanPath p)) as [[|]| |] eqn:Ev.
  - destruct (insert_table t p f t' (proj1 Ht) Ev Hi) as (segs & Es & Hnew & Hother).
    destruct (valid_tokens p Ev) as (ps & Hwf & Eps). rewrite Eps in Es. injection Es as <-.
    intros w e Hs.
    destruct (List.list_eq_dec sym_eq_dec w (route_key (tokens ps))) as [->|Hne].
    + rewrite Hnew in Hs. injection Hs as <-. cbn [pKeys fullPath]. split.
      * apply keys_slots. unfold well_formed in Hwf. rewrite !andb_true_iff in Hwf. tauto.
      * exists (tokens ps). split; [exact Eps|reflexivity].
    + rewrite (Hother w Hne) in Hs. exact (Htab w e Hs).
  - rewrite (insert_invalid t p f Ev) in Hi. injection Hi as <-. exact Htab.
  - unfold insert in Hi. rewrite Ev in Hi. discriminate.
  - unfold insert in Hi. rewrite Ev in Hi. discriminate.
Qed.

Lemma table_ok_register_all {H : Type} (routes : list (string * H)) :
  forall t t' : tree H,
    tree_ok t -> table_ok t -> register_all routes t = Ok t' -> table_ok t'.
Proof.
  induction routes as [|[p f] routes IH]; intros t t' Ht Htab; cbn [register_all].
  - intros [= <-]. exact Htab.
  - destruct (insert t p f) as [t1| |] eqn:E1; cbn [obind]; try discriminate.
    apply (IH t1 t' (tree_ok_insert t p f t1 Ht E1) (table_ok_insert t t1 p f Ht Htab E1)).
Qed.

Lemma find_values {H : Type} (t : tree H) (q : string) (e : endpoint H)
    (m : gmap string string) :
  tree_ok t -> table_ok t -> find t q = Ok (Some (e, m)) ->
  forall k v, m !! k = Some v -> value_fits q (key_type k) v.
Proof.
  intros Ht Htab Hf k v Hk. unfold find in Hf.
  destruct (find_loop_walk t q _ 0 [] t None 0 q [] e m (proj1 Ht)
              (fun _ => eq_refl) (List.Forall2_nil _) (ex_intro _ ""%string eq_refl) Hf)
    as (nd & w & params & Hw & Hv & Hr).
  cbn [app] in Hw, Hv.
  unfold find_result in Hr. destruct (endpt nd) as [e'|] eqn:Ee; [|discriminate].
  destruct (fill_pMap (pKeys e') 0 params ∅) as [m'| |] eqn:Em; cbn [obind] in Hr;
    try discriminate.
  injection Hr as -> ->.
  assert (Hs : stored t w = Some e).
  { rewrite <- (app_nil_r w), Hw, stored_unfold. exact Ee. }
  pose proof (proj1 (Htab w e Hs)) as Hty.
  destruct (fill_pMap_lookup _ _ _ _ _ Em k v Hk) as [H0|(j & Hj & Hvj)].
  { rewrite lookup_empty in H0. discriminate. }
  apply (Forall2_nth_error _ _ _ Hv j); [|exact Hvj].
  rewrite <- Hty. apply map_nth_error. exact Hj.
Qed.

(** X25.  What [find] captures.  On a tree built by registrations, every
    value in the parameter map of a hit is a non-empty piece of the
    request path that does not start with ['/']; the value of a parameter
    (any name but ["*"]) contains no ['/'], and the value of the catch-all
    (the name ["*"]) is the whole rest of the request path, trailing
    ['/'] included. *)
Theorem captured_values_fit :
  forall (H : Type) (routes : list (string * H)) (t : tree H) (q : string)
         (e : endpoint H) (m : gmap string string) (k v : string),
    register_all routes newTree = Ok t ->
    find t q = Ok (Some (e, m)) ->
    m !! k = Some v ->
    (exists c r, v = String c r /\ c <> slash) /\
    (k = "*"%string -> exists a : string, q = (a ++ v)%string) /\
    (k <> "*"%string ->
     no_slash v = true /\ exists a b : string, q = (a ++ v ++ b)%string).
Proof.
  intros H routes t q e m k v Hr Hf Hk.
  pose proof (tree_ok_register_all routes newTree t tree_ok_newTree Hr) as Ht.
  assert (Htab : table_ok t).
  { apply (table_ok_register_all routes newTree t tree_ok_newTree); [|exact Hr].
    intros w e' Hs. change (@newTree H) with (@newNode H static ""%string) in Hs.
    rewrite stored_newNode in Hs. discriminate. }
  destruct (find_values t q e m Ht Htab Hf k v Hk) as [Hfirst Hty].
  split; [exact Hfirst|]. unfold key_type in Hty.
  destruct (String.eqb_spec k "*") as [->|Hne].
  - split; [intros _; exact Hty|]. intros Hn. congruence.
  - split; [intros Hn; congruence|]. intros _. exact Hty.
Qed.

Lemma captured_values_fit_witness :
  (exists c r, "a/b/"%string = String c r /\ c <> slash) /\
  ("*"%string = "*"%string -> exists a : string, "/files/a/b/"%string = (a ++ "a/b/")%string) /\
  ("*"%string <> "*"%string ->
   no_slash "a/b/" = true /\
   exists a b : string, "/files/a/b/"%string = (a ++ "a/b/" ++ b)%string).
Proof.
  apply (captured_values_fit nat [("/files/*"%string, 1)]
           (Node static ""
              [("f"%char,
                Node static "files" []
                  (Slots None None
                     (Some (Node catchAll "" [] no_slots
                              (Some (Endpoint 1 "/files/*" ["*"%string])))))
                  None)]
              no_slots None)
           "/files/a/b/" (Endpoint 1 "/files/*" ["*"%string])
           (<["*"%string := "a/b/"%string]> ∅) "*" "a/b/").
  - reflexivity.
  - vm_compute. reflexivity.
  - vm_compute. reflexivity.
Defined.

(** ** Literal children come first, and for good *)

Lemma common_prefix_within (q1 : string) : forall (rest R s' : string),
  unslash q1 = (R ++ s')%string ->
  common_prefix (q1 ++ rest) R = common_prefix q1 R.
Proof.
  induction q1 as [|c q1 IH]; intros rest R s'; cbn [unslash String.append].
  - destruct R as [|b R]; [rewrite !common_prefix_nil_r; reflexivity|discriminate].
  - destruct R as [|b R]; [reflexivity|]. cbn [common_prefix].
    destruct (Ascii.eqb c slash) eqn:Ec.
    + intros Hu. pose proof (no_slash_unslash q1) as Hn. rewrite Hu in Hn.
      cbn [String.append] in Hn. apply no_slash_cons in Hn as [Hb _].
      apply Ascii.eqb_eq in Ec. subst c.
      destruct (Ascii.eqb_spec slash b) as [<-|_]; [|reflexivity].
      rewrite Ascii.eqb_refl in Hb. discriminate.
    + cbn [String.append]. intros [= -> Hu]. rewrite Ascii.eqb_refl.
      rewrite (IH rest R s' Hu). reflexivity.
Qed.

Lemma strip_bytes_slot (a : string) : forall (b : string) (ty : nType) (w w' : list sym),
  strip (bytes a) (bytes b ++ SSlot ty :: w) = Some w' ->
  exists b' : string, b = (a ++ b')%string /\ w' = bytes b' ++ SSlot ty :: w.
Proof.
  induction a as [|x a IH]; intros b ty w w'; cbn [bytes strip].
  - intros [= <-]. exists b. split; reflexivity.
  - destruct b as [|y b]; cbn [bytes app sym_eqb]; [discriminate|].
    destruct (Ascii.eqb x y) eqn:E; [|discriminate]. apply Ascii.eqb_eq in E as <-.
    intros Hs. destruct (IH b ty w w' Hs) as (b' & -> & ->). exists b'. split; reflexivity.
Qed.

Section Committed.
Context {H : Type}.
Implicit Types (nd N st : node H) (ext : cursor).

(** A key that goes on with a slot after the bytes [s] passes through a
    node that stands at [s]. *)
Lemma stored_slot_path (k : nat) :
  forall (s : string) d nd (ty : nType) (w1 : list sym) (e : endpoint H),
    String.length s <= k -> node_ok d nd ->
    stored nd (bytes s ++ SSlot ty :: w1) = Some e ->
    exists ext N, spells nd ext s /\ deref nd ext = Some N /\ node_ok d N.
Proof.
  induction k as [|k IH]; intros s d nd ty w1 e Hk Hok Hs;
    (destruct s as [|c s]; [exists [], nd; cbn [spells deref]; auto|]).
  { cbn [String.length] in Hk. lia. }
  rewrite stored_unfold in Hs. cbn [bytes app] in Hs.
  destruct (lookup_child (children nd) c) as [st|] eqn:El; [|discriminate].
  change (SByte c :: bytes s ++ SSlot ty :: w1) with (bytes (String c s) ++ SSlot ty :: w1) in Hs.
  destruct (strip (bytes (prefix st)) (bytes (String c s) ++ SSlot ty :: w1)) as [w'|] eqn:Es;
    [|discriminate].
  destruct (strip_bytes_slot _ _ _ _ _ Es) as (s' & Eq & ->).
  apply node_ok_unfold in Hok as Hok'. destruct Hok' as (_ & Hcs & _).
  destruct (ok_lookup d _ c st Hcs El) as (Hhd & _ & Hstok).
  assert (L : String.length (String c s) = String.length (prefix st) + String.length s').
  { rewrite <- length_append. f_equal. exact Eq. }
  destruct (IH s' d st ty w1 e) as (ext & N & Hsp & Hd & HN); [|exact Hstok|exact Hs|].
  { cbn [String.length] in Hk, L. destruct (prefix st); [discriminate|].
    cbn [String.length] in L. lia. }
  exists (EChild c :: ext), N. split; [|split; [|exact HN]].
  - cbn [spells]. exists st, s'. auto.
  - cbn [deref follow]. rewrite El. exact Hd.
Qed.

Lemma spells_stored ext : forall nd N (s : string),
  spells nd ext s -> deref nd ext = Some N ->
  forall w, stored nd (bytes s ++ w) = stored N w.
Proof.
  induction ext as [|ed ext IH]; intros nd N s Hsp Hd w.
  - cbn [spells deref] in *. subst s. injection Hd as <-. reflexivity.
  - destruct ed as [c0|ty]; cbn [spells] in Hsp; [|contradiction].
    destruct Hsp as (next & s' & Hl & H0 & Es & Hs').
    cbn [deref follow] in Hd. rewrite Hl in Hd.
    rewrite stored_unfold. destruct s as [|c s]; [discriminate|]. cbn in H0. injection H0 as ->.
    cbn [bytes app]. rewrite Hl.
    change (SByte c0 :: bytes s ++ w) with (bytes (String c0 s) ++ w).
    rewrite Es, bytes_app, <- app_assoc, strip_app_self. exact (IH next N s' Hs' Hd w).
Qed.

(** The literal part of a request leads [find] to the node that stands at
    its bytes. *)
Lemma find_loop_to_node (fuel : nat) :
  forall d (params : list string) nd (pl : option ascii) (start : nat)
         (q1 rest s' : string) ext N,
    node_ok d nd -> String.length (q1 ++ rest) <= fuel ->
    match pl with
    | None => start = 0 /\ spells nd ext (unslash q1) /\ deref nd ext = Some N
    | Some l =>
        exists st,
          lookup_child (children nd) l = Some st /\ start < String.length (prefix st) /\
          unslash q1 = (sfrom start (prefix st) ++ s')%string /\
          spells st ext s' /\ deref st ext = Some N
    end ->
    find_loop fuel params nd pl start (q1 ++ rest)
    = find_loop (String.length rest) params N None 0 rest.
Proof.
  induction fuel as [|fuel IH]; intros d params nd pl start q1 rest s' ext N Hok Hq Hinv.
  { assert (E : (q1 ++ rest)%string = ""%string) by (apply length_zero; lia).
    destruct q1; [|discriminate]. cbn [String.append] in E. subst rest.
    destruct pl as [l|].
    - destruct Hinv as (st & _ & Hlt & Hu & _). exfalso. cbn [unslash] in Hu.
      pose proof (length_sfrom start (prefix st)) as L.
      destruct (sfrom start (prefix st)); [cbn [String.length] in L; lia|discriminate].
    - destruct Hinv as (_ & Hsp & Hd). cbn [unslash] in Hsp.
      destruct ext as [|[c0|ty] ext]; cbn [spells] in Hsp.
      + injection Hd as <-. reflexivity.
      + destruct Hsp as (? & ? & _ & ? & _). discriminate.
      + contradiction. }
  destruct q1 as [|c q1].
  { cbn [String.append] in *. destruct pl as [l|].
    - destruct Hinv as (st & _ & Hlt & Hu & _). exfalso. cbn [unslash] in Hu.
      pose proof (length_sfrom start (prefix st)) as L.
      destruct (sfrom start (prefix st)); [cbn [String.length] in L; lia|discriminate].
    - destruct Hinv as (-> & Hsp & Hd). cbn [unslash] in Hsp.
      destruct ext as [|[c0|ty] ext]; cbn [spells] in Hsp.
      + injection Hd as <-. apply find_loop_fuel; lia.
      + destruct Hsp as (? & ? & _ & ? & _). discriminate.
      + contradiction. }
  cbn [String.append String.length] in Hq |- *. cbn [find_loop]. cbn [unslash] in Hinv.
  destruct (Ascii.eqb c slash) eqn:Ec.
  { apply (IH d _ _ _ _ _ _ s' ext); [exact Hok|lia|exact Hinv]. }
  set (label := match pl with Some l => l | None => c end).
  assert (Hst : exists st (s'' : string) ext',
             lookup_child (children nd) label = Some st /\
             start < String.length (prefix st) /\
             String c (unslash q1) = (sfrom start (prefix st) ++ s'')%string /\
             spells st ext' s'' /\ deref st ext' = Some N).
  { destruct pl as [l|].
    - destruct Hinv as (st & ? & ? & ? & ? & ?). exists st, s', ext. auto.
    - destruct Hinv as (-> & Hsp & Hd). subst label.
      destruct ext as [|[c0|ty] ext]; cbn [spells] in Hsp; [discriminate| |contradiction].
      destruct Hsp as (next & s'' & Hl & H0 & Es & Hs'). cbn in H0. injection H0 as <-.
      cbn [deref follow] in Hd. rewrite Hl in Hd.
      apply node_ok_unfold in Hok as (_ & Hcs & _).
      destruct (ok_lookup d _ c next Hcs Hl) as (Hhd & _ & _).
      exists next, s'', ext. split; [exact Hl|]. split.
      + destruct (prefix next); [discriminate|]. cbn [String.length]. lia.
      + rewrite sfrom_0. auto. }
  destruct Hst as (st & s'' & ext' & El & Hlt & Hu & Hsp & Hd). rewrite El.
  destruct (Nat.ltb_spec (String.length (prefix st)) start) as [|_]; [lia|].
  rewrite longestPrefix_spec.
  change (String c (q1 ++ rest)) with (String c q1 ++ rest)%string.
  assert (Hu' : unslash (String c q1) = (sfrom start (prefix st) ++ s'')%string).
  { cbn [unslash]. rewrite Ec. exact Hu. }
  rewrite (common_prefix_within (String c q1) rest _ _ Hu').
  destruct (common_prefix_split (String c q1) (sfrom start (prefix st)))
    as (r1 & r2 & E1 & E2 & Hdiff).
  set (l := common_prefix (String c q1) (sfrom start (prefix st))) in *.
  assert (Hns : no_slash (sfrom start (prefix st)) = true).
  { pose proof (no_slash_unslash (String c q1)) as Hn. rewrite Hu' in Hn.
    apply no_slash_app in Hn. exact (proj1 Hn). }
  assert (Hl : no_slash l = true) by (apply common_prefix_no_slash; exact Hns).
  assert (Hr1 : sfrom (String.length l) (String c q1 ++ rest) = (r1 ++ rest)%string).
  { transitivity (sfrom (String.length l) (l ++ (r1 ++ rest))%string);
      [f_equal; rewrite <- append_assoc; f_equal; exact E1|apply sfrom_app_length]. }
  assert (Hu1 : unslash r1 = (r2 ++ s'')%string).
  { apply (append_inj_l l). rewrite <- append_assoc, <- E2, <- Hu'.
    rewrite <- (unslash_no_slash l Hl) at 1. rewrite <- unslash_app. f_equal.
    symmetry. exact E1. }
  assert (L1 : String.length (String c q1) = String.length l + String.length r1).
  { rewrite <- length_append. f_equal. exact E1. }
  assert (L2 : String.length (prefix st) - start = String.length l + String.length r2).
  { rewrite <- length_append, <- length_sfrom. f_equal. exact E2. }
  assert (L3 : String.length (r1 ++ rest) = String.length r1 + String.length rest)
    by apply length_append.
  rewrite Hr1. cbn [String.length] in L1. rewrite length_append in Hq.
  destruct (Nat.eqb_spec (String.length l) 0) as [Hz|Hz].
  { exfalso. apply length_zero in Hz. rewrite Hz in E1, E2. cbn [String.append] in E1, E2.
    subst r1. cbn [unslash] in Hu1. rewrite Ec in Hu1.
    destruct r2 as [|b r2]; [rewrite Hz in L2; cbn [String.length] in L2; lia|].
    cbn [String.append] in Hu1. injection Hu1 as -> _. contradiction. }
  apply node_ok_unfold in Hok as Hok'. destruct Hok' as (_ & Hcs & _).
  destruct (ok_lookup d _ label st Hcs El) as (_ & _ & Hstok).
  destruct (Nat.eqb_spec (String.length l + start) (String.length (prefix st))) as [Hf|Hf].
  - assert (r2 = ""%string) by (apply length_zero; lia). subst r2.
    apply (IH d _ _ _ _ _ _ ""%string ext'); [exact Hstok|lia|].
    split; [reflexivity|]. rewrite Hu1. auto.
  - apply (IH d _ _ _ _ _ _ s'' ext'); [exact Hok|lia|].
    exists st. split; [exact El|]. split; [lia|]. split; [|auto].
    rewrite sfrom_add, E2, sfrom_app_length. exact Hu1.
Qed.

(** Once [find] has found a literal child under the byte it looks at, it
    ends at the node it stands on or below that child: the slots of the
    node are not tried. *)
Lemma find_loop_committed (t : tree H) (q : string) (fuel : nat) :
  forall d (params : list string) nd (pl : option ascii) (start : nat)
         (p : string) (w : list sym) (e : endpoint H) (m : gmap string string),
    node_ok d nd ->
    (forall w', stored t (w ++ w') = stored nd w') ->
    Forall2 (value_fits q) (slots_of w) params ->
    (exists a : string, q = (a ++ p)%string) ->
    match pl with
    | Some l => is_Some (lookup_child (children nd) l)
    | None => exists c r, p = String c r /\ c <> slash /\
                          is_Some (lookup_child (children nd) c)
    end ->
    find_loop fuel params nd pl start p = Ok (Some (e, m)) ->
    exists u, stored t (w ++ u) = Some e /\
              match u with SSlot _ :: _ => False | _ => True end.
Proof.
  assert (Hhere : forall (params : list string) nd (w : list sym) (e : endpoint H) m,
            (forall w', stored t (w ++ w') = stored nd w') ->
            find_result nd params = Ok (Some (e, m)) ->
            exists u, stored t (w ++ u) = Some e /\
                      match u with SSlot _ :: _ => False | _ => True end).
  { intros params nd w e m Hw Hr. exists []. split; [|exact I].
    rewrite Hw, stored_unfold. unfold find_result in Hr.
    destruct (endpt nd) as [e'|]; [|discriminate].
    destruct (fill_pMap _ _ _ _); cbn [obind] in Hr; try discriminate.
    injection Hr as -> _. reflexivity. }
  induction fuel as [|fuel IH]; intros d params nd pl start p w e m Hok Hw Hv Hsuf Hcom.
  { destruct p; cbn [find_loop]; [|discriminate]. apply (Hhere params nd w e m Hw). }
  destruct p as [|c p]; cbn [find_loop].
  { apply (Hhere params nd w e m Hw). }
  destruct Hsuf as [a Hq].
  destruct (Ascii.eqb c slash) eqn:Ec.
  { destruct pl as [l|].
    - apply (IH d _ _ _ _ _ w); [exact Hok|exact Hw|exact Hv| |exact Hcom].
      exists (a ++ String c "")%string. rewrite append_assoc. exact Hq.
    - destruct Hcom as (c' & r & [= -> ->] & Hc' & _). apply Ascii.eqb_eq in Ec. contradiction. }
  set (label := match pl with Some l => l | None => c end).
  assert (El : is_Some (lookup_child (children nd) label)).
  { destruct pl as [l|]; [exact Hcom|]. destruct Hcom as (c' & r & [= -> ->] & _ & Hc').
    exact Hc'. }
  destruct El as [st El]. rewrite El.
  destruct (Nat.ltb _ _); [discriminate|].
  set (lcp := longestPrefix (String c p) (sfrom start (prefix st))).
  assert (Hsuf' : exists a' : string,
             q = (a' ++ sfrom (String.length lcp) (String c p))%string).
  { exists (a ++ sto (String.length lcp) (String c p))%string.
    rewrite append_assoc, <- sto_sfrom. exact Hq. }
  destruct (Nat.eqb _ 0).
  { apply (Hhere params nd w e m Hw). }
  destruct (Nat.eqb _ _).
  - apply node_ok_unfold in Hok as Hok'. destruct Hok' as (_ & Hcs & _).
    destruct (ok_lookup d _ label st Hcs El) as (Hhd & _ & Hstok).
    intros Hr.
    destruct (find_loop_walk t q fuel d params st None 0
                (sfrom (String.length lcp) (String c p)) (w ++ bytes (prefix st)) e m
                Hstok) as (nd' & u & params' & Hw' & _ & Hr'); [| |exact Hsuf'|exact Hr|].
    + intros w'. rewrite <- app_assoc, Hw, stored_unfold.
      destruct (prefix st) as [|k pr] eqn:Ep; [discriminate|]. cbn in Hhd. injection Hhd as ->.
      cbn [bytes app]. rewrite El, Ep.
      change (SByte label :: bytes pr ++ w') with (bytes (String label pr) ++ w').
      rewrite strip_app_self. reflexivity.
    + rewrite slots_of_app, slots_of_bytes, app_nil_r. exact Hv.
    + exists (bytes (prefix st) ++ u). split.
      * destruct (Hhere params' nd' ((w ++ bytes (prefix st)) ++ u) e m Hw' Hr')
          as (u0 & Hs0 & _).
        unfold find_result in Hr'. destruct (endpt nd') as [e'|] eqn:Ee; [|discriminate].
        destruct (fill_pMap _ _ _ _); cbn [obind] in Hr'; try discriminate.
        injection Hr' as -> _.
        rewrite app_assoc, <- (app_nil_r ((w ++ bytes (prefix st)) ++ u)), Hw', stored_unfold.
        exact Ee.
      * destruct (prefix st); [discriminate|]. exact I.
  - apply (IH d _ _ _ _ _ w); [exact Hok|exact Hw|exact Hv|exact Hsuf'|].
    exists st. exact El.
Qed.

End Committed.

(** X26.  No way back from a literal child.  On a tree built by
    registrations, let a dynamic route (parameter or catch-all) hang at the
    node that stands at the bytes [s], and let a literal route go on below
    that node with the byte [c].  Then no request that spells [s] and goes
    on with [c] is answered by the dynamic route, whatever follows [c]:
    [find] takes the literal child for its first byte alone and never
    returns to the slots of the node. *)
Theorem literal_child_shadows_dynamic_route :
  forall (H : Type) (routes : list (string * H)) (t : tree H) (s : string) (c : ascii)
         (ty : nType) (w1 w2 : list sym) (e1 e2 : endpoint H) (qs r : string)
         (m : gmap string string),
    register_all routes newTree = Ok t ->
    stored t (bytes s ++ SSlot ty :: w1) = Some e1 ->
    stored t (bytes s ++ SByte c :: w2) = Some e2 ->
    unslash qs = s -> c <> slash ->
    find t (qs ++ String c r) <> Ok (Some (e1, m)).
Proof.
  intros H routes t s c ty w1 w2 e1 e2 qs r m Hr Hs1 Hs2 Hqs Hc Hf.
  pose proof (tree_ok_register_all routes newTree t tree_ok_newTree Hr) as Ht.
  assert (Htab : table_ok t).
  { apply (table_ok_register_all routes newTree t tree_ok_newTree); [|exact Hr].
    intros w e' Hs. change (@newTree H) with (@newNode H static ""%string) in Hs.
    rewrite stored_newNode in Hs. discriminate. }
  destruct (stored_slot_path _ s 0 t ty w1 e1 (le_n _) (proj1 Ht) Hs1)
    as (ext & N & Hsp & Hd & HN).
  pose proof (spells_stored ext t N s Hsp Hd) as HwN.
  rewrite HwN, stored_unfold in Hs2.
  destruct (lookup_child (children N) c) as [st|] eqn:El; [|discriminate].
  unfold find in Hf.
  rewrite (find_loop_to_node _ 0 [] t None 0 qs (String c r) ""%string ext N
             (proj1 Ht) (le_n _)) in Hf.
  2:{ split; [reflexivity|]. rewrite Hqs. auto. }
  destruct (find_loop_committed t (qs ++ String c r) (String.length (String c r)) 0 [] N
              None 0 (String c r)
              (bytes s) e1 m HN HwN) as (u & Hu & Hnot); [| | |exact Hf|].
  - rewrite slots_of_bytes. constructor.
  - exists qs. reflexivity.
  - exists c, r. split; [reflexivity|]. split; [exact Hc|]. exists st. exact El.
  - destruct (proj2 (Htab _ _ Hs1)) as (segs1 & E1 & K1).
    destruct (proj2 (Htab _ _ Hu)) as (segs2 & E2 & K2).
    rewrite E1 in E2. injection E2 as <-. rewrite K1 in K2.
    apply app_inv_head in K2. subst u. exact Hnot.
Qed.

Lemma literal_child_shadows_dynamic_route_witness :
  find (Node static ""
          [("u"%char,
            Node static "users"
              [("n"%char, Node static "new" [] no_slots (Some (Endpoint 2 "/users/new" [])))]
              (Slots None (Some (Node param "" [] no_slots
                                   (Some (Endpoint 1 "/users/:id" ["id"%string])))) None)
              None)]
          no_slots None) "/users/nobody"
  <> Ok (Some (Endpoint 1 "/users/:id" ["id"%string], <["id"%string := "nobody"%string]> ∅)).
Proof.
  apply (literal_child_shadows_dynamic_route nat
           [("/users/:id"%string, 1); ("/users/new"%string, 2)]
           (Node static ""
              [("u"%char,
                Node static "users"
                  [("n"%char, Node static "new" [] no_slots (Some (Endpoint 2 "/users/new" [])))]
                  (Slots None (Some (Node param "" [] no_slots
                                       (Some (Endpoint 1 "/users/:id" ["id"%string])))) None)
                  None)]
              no_slots None)
           "users" "n"%char param [] (bytes "ew")
           (Endpoint 1 "/users/:id" ["id"%string]) (Endpoint 2 "/users/new" [])
           "/users/" "obody").
  - reflexivity.
  - reflexivity.
  - reflexivity.
  - reflexivity.
  - discriminate.
Defined.

(** ** Sessions of registrations, end to end *)

Section Session.
Context {W : Type}.
Implicit Types (a : App (W := W)) (r : Router (W := W)) (m : method).

Lemma Handle_unfold a m r (p : string) (ms : list (Middleware Request W))
    (h : HandlerFunc Request W) stored :
  trees_get (trees a) m = Some stored ->
  Handle (newRoute a r m p ms) h a
  = do n' <- insert stored (cleanPath (rpath r ++ p)) (chainMws (rmws r ++ ms) h);
    Ok (write_back a (mkTreeRef m stored) n').
Proof.
  intros Eg. unfold Handle, newRoute, getTree. rewrite Eg.
  cbn [route_t route_path route_mws]. unfold through. cbn [bucket copy].
  rewrite Eg, node_eta. reflexivity.
Qed.

(** One registration, seen from the tree of a method. *)
Lemma Handle_bucket a a' m r (p : string) (ms : list (Middleware Request W))
    (h : HandlerFunc Request W) :
  Handle (newRoute a r m p ms) h a = Ok a' ->
  forall m' stored, trees_get (trees a) m' = Some stored ->
  exists stored',
    trees_get (trees a') m' = Some stored' /\
    register_all (tree_route m' (m, r, p, ms, h)) stored = Ok stored'.
Proof.
  intros Hh m' stored Eg'.
  destruct (trees_get (trees a) m) as [st|] eqn:Eg.
  2:{ unfold Handle, newRoute, getTree in Hh. rewrite Eg in Hh. discriminate. }
  set (full := (rpath r ++ p)%string) in *.
  destruct (isValidPath (cleanPath (cleanPath full))) as [[|]| |] eqn:Hv.
  - assert (Hroot : cleanPath full <> "/"%string).
    { intros E. rewrite E in Hv. vm_compute in Hv. discriminate. }
    destruct (splitPath_cleanPath full Hroot) as (toks & Es & Hne & Hnn).
    destruct toks as [|seg segs]; [congruence|]. cbn [forallb] in Hne.
    apply andb_true_iff in Hne as [Hseg _].
    destruct (getSegmentType_ok seg Hseg) as [ty Ety].
    assert (Hfs : first_static full = match ty with static => true | _ => false end).
    { unfold first_static. rewrite Es, Ety. reflexivity. }
    unfold tree_route. fold full. rewrite Hfs.
    destruct ty.
    + rewrite (Handle_first_static a m r p ms h st seg segs Eg Es Ety) in Hh. fold full in Hh.
      destruct (insert st (cleanPath full) _) as [n'| |] eqn:Ei; cbn [obind] in Hh;
        try discriminate.
      injection Hh as <-. cbn [trees]. rewrite andb_true_r.
      destruct (method_eqb m m') eqn:Em.
      * apply method_eqb_eq in Em. subst m'. rewrite Eg in Eg'. injection Eg' as <-.
        exists n'. split; [apply trees_get_set_same|].
        cbn [register_all]. rewrite Ei. reflexivity.
      * exists stored. split; [|reflexivity]. rewrite trees_get_set_other; [exact Eg'|].
        intros ->. rewrite (proj2 (method_eqb_eq m m) eq_refl) in Em. discriminate.
    + rewrite <- (cleanPath_idem full) in Es.
      rewrite (Handle_first_dynamic a a' m r p ms h seg segs param Es Ety
                 ltac:(discriminate) Hh).
      rewrite andb_false_r. exists stored. split; [exact Eg'|reflexivity].
    + rewrite <- (cleanPath_idem full) in Es.
      rewrite (Handle_first_dynamic a a' m r p ms h seg segs catchAll Es Ety
                 ltac:(discriminate) Hh).
      rewrite andb_false_r. exists stored. split; [exact Eg'|reflexivity].
  - rewrite (Handle_invalid a m r p ms h Hv (ex_intro _ st Eg)) in Hh. injection Hh as <-.
    exists stored. split; [exact Eg'|]. unfold tree_route. fold full.
    destruct (method_eqb m m' && first_static full) eqn:E; [|reflexivity].
    apply andb_true_iff in E as [Em _]. apply method_eqb_eq in Em. subst m'.
    cbn [register_all]. rewrite (insert_invalid stored (cleanPath full) _ Hv). reflexivity.
  - rewrite (Handle_unfold a m r p ms h st Eg) in Hh. fold full in Hh.
    unfold insert in Hh. rewrite Hv in Hh. discriminate.
  - rewrite (Handle_unfold a m r p ms h st Eg) in Hh. fold full in Hh.
    unfold insert in Hh. rewrite Hv in Hh. discriminate.
Qed.

(** A session, seen from the tree of a method: the registrations of that
    method whose first token is literal, inserted in order. *)
Lemma register_regs_bucket (regs : list (registration W)) :
  forall a a', register_regs regs a = Ok a' ->
  forall m stored, trees_get (trees a) m = Some stored ->
  exists stored',
    trees_get (trees a') m = Some stored' /\
    register_all (tree_routes m regs) stored = Ok stored'.
Proof.
  induction regs as [|[[[[m0 r] p] ms] h] regs IH]; intros a a'; cbn [register_regs].
  - intros [= <-] m stored Eg. exists stored. split; [exact Eg|reflexivity].
  - destruct (Handle (newRoute a r m0 p ms) h a) as [a1| |] eqn:Eh; cbn [obind];
      try discriminate.
    intros Hr m stored Eg.
    destruct (Handle_bucket a a1 m0 r p ms h Eh m stored Eg) as (st1 & Eg1 & Er1).
    destruct (IH a1 a' Hr m st1 Eg1) as (st' & Eg2 & Er2).
    exists st'. split; [exact Eg2|].
    unfold tree_routes. cbn [flat_map]. rewrite register_all_app, Er1. exact Er2.
Qed.


Lemma write_back_fields a (ref : treeRef (W := W)) (n' : tree (HandlerFunc Request W)) :
  AllowTrace (write_back a ref n') = AllowTrace a /\
  notAllowed (write_back a ref n') = notAllowed a /\
  notFound (write_back a ref n') = notFound a /\
  options (write_back a ref n') = options a /\
  rootRouter (write_back a ref n') = rootRouter a.
Proof. unfold write_back. destruct (trees_get (trees a) (bucket ref)); auto. Qed.

Lemma register_regs_fields (regs : list (registration W)) :
  forall a a', register_regs regs a = Ok a' ->
  AllowTrace a' = AllowTrace a /\ notAllowed a' = notAllowed a /\ notFound a' = notFound a /\
  options a' = options a /\ rootRouter a' = rootRouter a.
Proof.
  induction regs as [|[[[[m0 r] p] ms] h] regs IH]; intros a a'; cbn [register_regs].
  - intros [= <-]. auto.
  - destruct (Handle (newRoute a r m0 p ms) h a) as [a1| |] eqn:Eh; cbn [obind];
      try discriminate.
    intros Hr. destruct (IH a1 a' Hr) as (H1 & H2 & H3 & H4 & H5).
    destruct (trees_get (trees a) m0) as [st|] eqn:Eg.
    2:{ unfold Handle, newRoute, getTree in Eh. rewrite Eg in Eh. discriminate. }
    rewrite (Handle_unfold a m0 r p ms h st Eg) in Eh.
    destruct (insert st _ _) as [n'| |]; cbn [obind] in Eh; try discriminate.
    injection Eh as <-.
    destruct (write_back_fields a (mkTreeRef m0 st) n') as (G1 & G2 & G3 & G4 & G5).
    repeat split; congruence.
Qed.

End Session.


(** X27.  What a session leaves in the application.  After registrations
    made through routers on a new application, the tree of each method is
    the tree built from [newTree] by inserting, in order, the cleaned full
    paths of the registrations of that method whose first token is literal,
    each with its handler wrapped in the middlewares of its router followed
    by its own; a registration whose first token is a parameter or the
    catch-all leaves no trace, and the fallback handlers are as [New] set
    them. *)
Theorem session_builds_method_trees :
  forall (W : Type) (o nf na : HandlerFunc Request W) (tr : bool)
         (regs : list (registration W)) (a : App (W := W)) (m : method),
    register_regs regs (New o nf na tr) = Ok a ->
    (exists t, trees_get (trees a) m = Some t /\
               register_all (tree_routes m regs) newTree = Ok t) /\
    notFound a = nf /\ notAllowed a = na /\ options a = o.
Proof.
  intros W o nf na tr regs a m Hr.
  assert (Eg : trees_get (trees (New o nf na tr)) m = Some newTree) by (destruct m; reflexivity).
  split; [exact (register_regs_bucket regs _ _ Hr m newTree Eg)|].
  destruct (register_regs_fields regs _ _ Hr) as (_ & H2 & H3 & H4 & _).
  rewrite H2, H3, H4. auto.
Qed.

Lemma session_builds_method_trees_witness :
  (exists t,
      trees_get (trees (mkApp false idle_handler idle_handler idle_handler
                          (trees_set (trees (New idle_handler idle_handler idle_handler false))
                             mGET (one_edge "apiv1ping"
                                     (Endpoint (chainMws ([] ++ []) idle_handler)
                                        "/api/v1/ping" [])))
                          None)) mGET = Some t /\
      register_all
        (tree_routes mGET
           [(mGET, Group (mkRouter "/api" [counting_mw]) "/v1" [], "/ping"%string, [],
             idle_handler);
            (mGET, mkRouter "/" [], "/:id"%string, [], idle_handler)]) newTree = Ok t) /\
  notFound (mkApp false idle_handler idle_handler idle_handler
              (trees_set (trees (New idle_handler idle_handler idle_handler false))
                 mGET (one_edge "apiv1ping"
                         (Endpoint (chainMws ([] ++ []) idle_handler) "/api/v1/ping" [])))
              None) = idle_handler /\
  notAllowed (mkApp false idle_handler idle_handler idle_handler
                (trees_set (trees (New idle_handler idle_handler idle_handler false))
                   mGET (one_edge "apiv1ping"
                           (Endpoint (chainMws ([] ++ []) idle_handler) "/api/v1/ping" [])))
                None) = idle_handler /\
  options (mkApp false idle_handler idle_handler idle_handler
             (trees_set (trees (New idle_handler idle_handler idle_handler false))
                mGET (one_edge "apiv1ping"
                        (Endpoint (chainMws ([] ++ []) idle_handler) "/api/v1/ping" [])))
             None) = idle_handler.
Proof.
  apply (session_builds_method_trees nat idle_handler idle_handler idle_handler false
           [(mGET, Group (mkRouter "/api" [counting_mw]) "/v1" [], "/ping"%string, [],
             idle_handler);
            (mGET, mkRouter "/" [], "/:id"%string, [], idle_handler)]).
  reflexivity.
Defined.

(** X28.  A literal route is served through the router.  On a new
    application, after any session of registrations made through routers
    and groups, a request of the method of an all-literal route whose
    bytes other than ['/'] are the bytes of the route's cleaned full path
    is handed to the route's handler wrapped in the middlewares of the
    route's own router followed by the route's, with an empty parameter
    map, unless a later registration of the same method has the very same
    token. *)
Theorem literal_route_is_served :
  forall (W : Type) (EqualFold : string -> string -> bool)
         (o nf na : HandlerFunc Request W) (tr : bool)
         (before after : list (registration W)) (m : method) (r : Router (W := W))
         (p : string) (ms : list (Middleware Request W)) (h : HandlerFunc Request W)
         (tok : string) (a : App (W := W)) (q : string),
    register_regs (before ++ (m, r, p, ms, h) :: after) (New o nf na tr) = Ok a ->
    isValidPath (cleanPath (rpath r ++ p)) = Ok true ->
    splitPath (cleanPath (rpath r ++ p)) = Ok [tok] ->
    getSegmentType tok = Ok static ->
    (forall m' r' p' ms' h',
        In (m', r', p', ms', h') after -> m' = m ->
        splitPath (cleanPath (rpath r' ++ p')) <> Ok [tok]) ->
    unslash q = tok ->
    internalHandler EqualFold a (mkRequest (reverseMethodLookup m) q "" "" None)
    = Ok (Serve (chainMws (rmws r ++ ms) h)
            (withParams (mkRequest (reverseMethodLookup m) q "" "" None) ∅)).
Proof.
  intros W EqualFold o nf na tr before after m r p ms h tok a q Hr Hv Htok Hty Hafter Hq.
  assert (Eg : trees_get (trees (New o nf na tr)) m = Some newTree) by (destruct m; reflexivity).
  destruct (register_regs_bucket _ _ _ Hr m newTree Eg) as (t & Et & Ert).
  unfold tree_routes in Ert. rewrite flat_map_app in Ert. cbn [flat_map] in Ert.
  assert (Hone : tree_route m (m, r, p, ms, h)
                 = [(cleanPath (rpath r ++ p), chainMws (rmws r ++ ms) h)]).
  { unfold tree_route, first_static.
    rewrite (proj2 (method_eqb_eq m m) eq_refl), Htok, Hty. reflexivity. }
  rewrite Hone in Ert. cbn [app] in Ert.
  rewrite <- (cleanPath_idem (rpath r ++ p)) in Hv, Htok.
  pose proof (reachable_after_registrations _ _ _ _ _ tok t q Ert Hv Htok Hty) as Hfind.
  assert (Hothers : forall (p' : string) (f' : HandlerFunc Request W),
             In (p', f') (flat_map (tree_route m) after) ->
             splitPath (cleanPath p') <> Ok [tok]).
  2:{ rewrite (internalHandler_hit EqualFold a m q t _ ∅ Et (Hfind Hothers Hq)).
      reflexivity. }
  intros p' f' Hin. apply in_flat_map in Hin as ([[[[m' r'] p0] ms'] h'] & Hg & Hin).
  unfold tree_route in Hin.
  destruct (method_eqb m' m && first_static (rpath r' ++ p0)) eqn:E; [|destruct Hin].
  apply andb_true_iff in E as [Em _]. apply method_eqb_eq in Em.
  destruct Hin as [[= <- _]|[]]. rewrite cleanPath_idem.
  exact (Hafter m' r' p0 ms' h' Hg Em).
Qed.

Lemma literal_route_is_served_witness :
  internalHandler (fun _ _ => false)
    (mkApp false idle_handler idle_handler idle_handler
       (trees_set (trees (New idle_handler idle_handler idle_handler false))
          mGET (one_edge "apiv1ping"
                  (Endpoint (chainMws ([] ++ []) idle_handler) "/api/v1/ping" [])))
       None)
    (mkRequest "GET" "/api/v1/ping/" "" "" None)
  = Ok (Serve (chainMws ([] ++ []) idle_handler)
          (withParams (mkRequest "GET" "/api/v1/ping/" "" "" None) ∅)).
Proof.
  apply (literal_route_is_served nat (fun _ _ => false) idle_handler idle_handler
           idle_handler false []
           [(mGET, mkRouter "/" [], "/:id"%string, [], idle_handler)]
           mGET (Group (mkRouter "/api" [counting_mw]) "/v1" []) "/ping" [] idle_handler
           "apiv1ping").
  - reflexivity.
  - reflexivity.
  - reflexivity.
  - reflexivity.
  - intros m' r' p' ms' h' [[= <- <- <- <- <-]|[]] _. vm_compute. discriminate.
  - reflexivity.
Defined.

(** ** Live trees, and reaching a dynamic route *)

Section Live.
Context {H : Type}.
Implicit Types (t n v c leaf next A : node H) (cur ext : cursor).

Lemma live_unfold n :
  live n <->
  Forall child_live (children n) /\ slot_live (at_static (special n))
  /\ slot_live (at_param (special n)) /\ slot_live (at_catchAll (special n)).
Proof.
  destruct n as [k pre cs sp ep]. cbn [children special live].
  match goal with
  | |- ?o /\ _ <-> _ => assert (Ho : o <-> Forall child_live cs)
  end.
  { induction cs as [|[k' c'] cs IH].
    - split; [constructor|exact (fun _ => I)].
    - split.
      + intros [Hc Hcs]. constructor; [exact Hc|]. apply IH. exact Hcs.
      + intros Hf. inversion Hf as [|x l Hc Hcs]; subst. split; [exact Hc|].
        apply IH. exact Hcs. }
  unfold slot_live. rewrite Ho. reflexivity.
Qed.

Lemma live_follow n (ed : edge) c : live n -> follow n ed = Some c -> full c /\ live c.
Proof.
  intros Hn. apply live_unfold in Hn as (Hcs & Hst & Hpa & Hca).
  destruct ed as [l|ty]; cbn [follow].
  - intros Hl. destruct (lookup_child_In _ _ _ Hl) as [k Hk].
    exact (proj1 (List.Forall_forall _ _) Hcs _ Hk).
  - destruct ty; cbn [slot_get]; intros Hs; rewrite Hs in *; assumption.
Qed.

Lemma live_deref cur : forall t n, live t -> deref t cur = Some n -> live n.
Proof.
  induction cur as [|ed cur IH]; intros t n Ht; cbn [deref].
  - intros [= <-]. exact Ht.
  - destruct (follow t ed) as [c|] eqn:E; [|discriminate].
    apply IH. exact (proj2 (live_follow t ed c Ht E)).
Qed.

Lemma Forall_put_child (P : ascii * node H -> Prop) (cs : list (ascii * node H))
    (l : ascii) v :
  (forall k, P (k, v)) -> Forall P cs -> Forall P (put_child cs l v).
Proof.
  intros Hv Hcs. induction Hcs as [|[k c0] cs Hc Hcs IH]; cbn [put_child].
  - constructor; [apply Hv|constructor].
  - destruct (Ascii.eqb k l); constructor; auto.
Qed.

Lemma live_replace n (ed : edge) v : live n -> live v -> full v -> live (replace_at n ed v).
Proof.
  intros Hn Hv Hf. apply live_unfold in Hn as (Hcs & Hst & Hpa & Hca). apply live_unfold.
  destruct ed as [l|ty]; cbn [replace_at addChild addSpecial children special].
  - split; [|auto]. apply Forall_put_child; [|exact Hcs]. intros k. split; assumption.
  - split; [exact Hcs|].
    destruct ty; cbn [slot_set at_static at_param at_catchAll slot_live]; auto.
Qed.

Lemma full_replace n (ed : edge) v : full v -> full (replace_at n ed v).
Proof.
  unfold full. intros Hv He. destruct (endpoints v) as [|e l] eqn:Ev; [congruence|].
  assert (Hin : In e (endpoints (replace_at n ed v))).
  { apply (endpoints_follow _ v ed e (follow_replace_at n ed v)). rewrite Ev. left. reflexivity. }
  rewrite He in Hin. destruct Hin.
Qed.

Lemma live_fields n v : children v = children n -> special v = special n -> live n -> live v.
Proof. intros Hc Hs Hn. apply live_unfold. rewrite Hc, Hs. apply live_unfold. exact Hn. Qed.

Lemma full_fields n v :
  children v = children n -> special v = special n -> endpt v = endpt n -> full n -> full v.
Proof.
  unfold full. intros Hc Hs He. rewrite (endpoints_unfold v), (endpoints_unfold n), Hc, Hs, He.
  auto.
Qed.

Lemma live_newNode (ty : nType) (pre : string) : live (newNode ty pre : node H).
Proof. apply live_unfold. cbn. repeat split; constructor. Qed.

Lemma assign_one A (ed : edge) c v : follow A ed = Some c -> assign A [ed] v = replace_at A ed v.
Proof. intros Hf. cbn [assign]. rewrite Hf. reflexivity. Qed.

(** One step of the pointer: the tree keeps a live context when what is
    written under the old pointer is live whatever is put under the new
    one. *)
Lemma ctx_step t cur n A ext :
  ctx_live t cur -> deref t cur = Some n ->
  (forall v, live v -> full v -> live (assign A ext v) /\ full (assign A ext v)) ->
  ctx_live (assign t cur A) (cur ++ ext).
Proof.
  intros Hctx Hn HA v Hv Hf. rewrite (assign_trans t cur n ext A v Hn).
  destruct (HA v Hv Hf). apply Hctx; assumption.
Qed.

Lemma ctx_edge t cur n (ed : edge) A :
  ctx_live t cur -> deref t cur = Some n -> live n ->
  (A = n /\ is_Some (follow n ed) \/ exists new, A = replace_at n ed new) ->
  ctx_live (assign t cur A) (cur ++ [ed]).
Proof.
  intros Hctx Hn Hl HA. apply (ctx_step t cur n); [exact Hctx|exact Hn|].
  intros v Hv Hf.
  assert (E : assign A [ed] v = replace_at n ed v).
  { destruct HA as [[-> [c Hc]]|[new ->]].
    - apply (assign_one n ed c). exact Hc.
    - rewrite (assign_one _ ed new v (follow_replace_at n ed new)).
      apply replace_replace_at. }
  rewrite E. split; [apply live_replace; assumption|apply full_replace; exact Hf].
Qed.

Lemma static_live (fuel : nat) :
  forall t cur n (search : string) t' cur',
    deref t cur = Some n -> live n -> ctx_live t cur ->
    insert_static fuel t cur search = Ok (t', cur') ->
    exists n', deref t' cur' = Some n' /\ live n' /\ ctx_live t' cur'.
Proof.
  induction fuel as [|fuel IH]; intros t cur n search t' cur' Hn Hl Hctx.
  { destruct search; cbn [insert_static]; [|discriminate]. intros [= <- <-]. eauto. }
  destruct search as [|c0 search]; cbn [insert_static]; [intros [= <- <-]; eauto|].
  rewrite Hn.
  destruct (lookup_child (children n) c0) as [next|] eqn:El.
  2:{ intros [= <- <-]. exists (newNode static (String c0 search)). split; [|split].
      - rewrite (deref_assign_app t cur n [EChild c0] _ Hn). cbn [deref follow].
        change (children (addChild n c0 ?x)) with (put_child (children n) c0 x).
        rewrite lookup_put_child. reflexivity.
      - apply live_newNode.
      - apply (ctx_edge t cur n (EChild c0)); [exact Hctx|exact Hn|exact Hl|].
        right. eexists. reflexivity. }
  destruct (live_follow n (EChild c0) next Hl El) as [Hfn Hln].
  assert (Hnext : deref t (cur ++ [EChild c0]) = Some next).
  { rewrite deref_app, Hn. cbn [deref follow]. rewrite El. reflexivity. }
  set (lcp := longestPrefix (String c0 search) (prefix next)).
  destruct (Nat.ltb (String.length lcp) (String.length (prefix next))).
  - destruct (sidx (sfrom (String.length lcp) (prefix next)) 0) as [r0|]; [|discriminate].
    set (new := copyFrom (newNode static (sfrom (String.length lcp) (prefix next)))
                  (setPrefix next lcp)).
    set (next2 := setEndpoint (clearChildren (setPrefix next lcp)) None).
    assert (Hnew : live new /\ full new).
    { split; [apply (live_fields next); auto|apply (full_fields next); auto]. }
    assert (H3 : live (addChild next2 r0 new) /\ full (addChild next2 r0 new)).
    { split.
      - apply (live_replace next2 (EChild r0)); [|tauto|tauto].
        apply live_unfold. cbn. repeat split; constructor.
      - apply (full_replace next2 (EChild r0)). tauto. }
    destruct (Nat.ltb (String.length lcp) (String.length (String c0 search))).
    + destruct (sidx (sfrom (String.length lcp) (String c0 search)) 0) as [s0|];
        [|discriminate].
      intros [= <- <-].
      set (newSearch := newNode static (sfrom (String.length lcp) (String c0 search))).
      rewrite (assign_snoc t cur n (EChild c0) next _ Hn El).
      exists newSearch. split; [|split; [apply live_newNode|]].
      * change (cur ++ [EChild c0; EChild s0]) with (cur ++ ([EChild c0; EChild s0])).
        rewrite (deref_assign_app t cur n _ _ Hn). cbn [deref].
        rewrite follow_replace_at.
        change (addChild (addChild next2 r0 new) s0 newSearch)
          with (replace_at (addChild next2 r0 new) (EChild s0) newSearch).
        rewrite follow_replace_at. reflexivity.
      * apply (ctx_step t cur n _ [EChild c0; EChild s0] Hctx Hn).
        intros v Hv Hf.
        assert (E : assign (replace_at n (EChild c0) (addChild (addChild next2 r0 new) s0 newSearch))
                      [EChild c0; EChild s0] v
                    = replace_at n (EChild c0)
                        (replace_at (addChild next2 r0 new) (EChild s0) v)).
        { cbn [assign]. rewrite follow_replace_at.
          change (addChild (addChild next2 r0 new) s0 newSearch)
            with (replace_at (addChild next2 r0 new) (EChild s0) newSearch).
          rewrite follow_replace_at, !replace_replace_at. reflexivity. }
        rewrite E. split.
        -- apply live_replace; [exact Hl| |apply full_replace; exact Hf].
           apply live_replace; tauto.
        -- apply full_replace, full_replace. exact Hf.
    + intros [= <- <-].
      rewrite (assign_snoc t cur n (EChild c0) next _ Hn El).
      exists (addChild next2 r0 new). split; [|split; [tauto|]].
      * rewrite (deref_assign_app t cur n _ _ Hn). cbn [deref].
        rewrite follow_replace_at. reflexivity.
      * apply (ctx_edge t cur n (EChild c0)); [exact Hctx|exact Hn|exact Hl|].
        right. eexists. reflexivity.
  - intros E. apply (IH t (cur ++ [EChild c0]) next
                       (sfrom (String.length lcp) (String c0 search)) t' cur' Hnext Hln);
      [|exact E].
    rewrite <- (assign_self t cur n Hn) at 1.
    apply (ctx_edge t cur n (EChild c0)); [exact Hctx|exact Hn|exact Hl|].
    left. split; [reflexivity|]. exists next. exact El.
Qed.

Lemma special_live t cur n (ty : nType) t' cur' :
  deref t cur = Some n -> live n -> ctx_live t cur ->
  insert_special t cur ty = Ok (t', cur') ->
  exists n', deref t' cur' = Some n' /\ live n' /\ ctx_live t' cur'.
Proof.
  intros Hn Hl Hctx. unfold insert_special. rewrite Hn.
  destruct (slot_get (special n) ty) as [c|] eqn:Es; intros [= <- <-].
  - exists c. split; [|split].
    + rewrite deref_app, Hn. cbn [deref follow]. rewrite Es. reflexivity.
    + exact (proj2 (live_follow n (ESpecial ty) c Hl Es)).
    + rewrite <- (assign_self t cur n Hn) at 1.
      apply (ctx_edge t cur n (ESpecial ty)); [exact Hctx|exact Hn|exact Hl|].
      left. split; [reflexivity|]. exists c. exact Es.
  - exists (newNode ty ""). split; [|split; [apply live_newNode|]].
    + rewrite (deref_assign_app t cur n _ _ Hn). cbn [deref].
      change (addSpecial n ty ?x) with (replace_at n (ESpecial ty) x).
      rewrite follow_replace_at. reflexivity.
    + apply (ctx_edge t cur n (ESpecial ty)); [exact Hctx|exact Hn|exact Hl|].
      right. eexists. reflexivity.
Qed.

Lemma loop_live (segs : list string) :
  forall t cur n (keys : list string) t' cur' keys',
    deref t cur = Some n -> live n -> ctx_live t cur ->
    insert_loop segs t cur keys = Ok (t', cur', keys') ->
    exists n', deref t' cur' = Some n' /\ live n' /\ ctx_live t' cur'.
Proof.
  induction segs as [|seg segs IH]; intros t cur n keys t' cur' keys' Hn Hl Hctx;
    cbn [insert_loop].
  { intros [= <- <- <-]. eauto. }
  destruct (getSegmentType seg) as [ty| |]; cbn [obind]; try discriminate.
  destruct ty.
  - destruct (insert_static (S (height t)) t cur seg) as [[t1 cur1]| |] eqn:E1;
      cbn [obind]; try discriminate.
    destruct (static_live _ t cur n seg t1 cur1 Hn Hl Hctx E1) as (n1 & H1 & H2 & H3).
    apply (IH t1 cur1 n1); assumption.
  - destruct (insert_special t cur param) as [[t1 cur1]| |] eqn:E1;
      cbn [obind]; try discriminate.
    destruct (special_live t cur n param t1 cur1 Hn Hl Hctx E1) as (n1 & H1 & H2 & H3).
    apply (IH t1 cur1 n1); assumption.
  - destruct (insert_special t cur catchAll) as [[t1 cur1]| |] eqn:E1;
      cbn [obind]; try discriminate.
    destruct (special_live t cur n catchAll t1 cur1 Hn Hl Hctx E1) as (n1 & H1 & H2 & H3).
    apply (IH t1 cur1 n1); assumption.
Qed.

Lemma live_insert t (p : string) (f : H) t' : live t -> insert t p f = Ok t' -> live t'.
Proof.
  intros Ht. unfold insert.
  destruct (isValidPath (cleanPath p)) as [[|]| |]; cbn [obind negb]; try discriminate.
  2:{ intros [= <-]. exact Ht. }
  destruct (splitPath (cleanPath p)) as [segs| |]; cbn [obind]; try discriminate.
  destruct (insert_loop segs t [] []) as [[[t1 cur1] keys1]| |] eqn:E; cbn [obind];
    try discriminate.
  destruct (loop_live segs t [] t [] t1 cur1 keys1 eq_refl Ht (fun v Hv _ => Hv) E)
    as (n1 & H1 & H2 & H3).
  rewrite H1. intros [= <-]. apply H3.
  - apply (live_fields n1); auto.
  - unfold full. rewrite endpoints_unfold. cbn [setEndpoint endpt]. discriminate.
Qed.

Lemma live_register_all (routes : list (string * H)) :
  forall t t', live t -> register_all routes t = Ok t' -> live t'.
Proof.
  induction routes as [|[p f] routes IH]; intros t t' Ht; cbn [register_all].
  - intros [= <-]. exact Ht.
  - destruct (insert t p f) as [t1| |] eqn:E1; cbn [obind]; try discriminate.
    apply IH. exact (live_insert t p f t1 Ht E1).
Qed.

(** On a live tree, a child is there only if some key goes through it. *)
Lemma no_key_no_child d n (c : ascii) :
  node_ok d n -> live n -> (forall w, stored n (SByte c :: w) = None) ->
  lookup_child (children n) c = None.
Proof.
  intros Hok Hl Hnone. destruct (lookup_child (children n) c) as [st|] eqn:El; [|reflexivity].
  exfalso. destruct (live_follow n (EChild c) st Hl El) as [Hf _].
  apply node_ok_unfold in Hok as (_ & Hcs & _).
  destruct (ok_lookup d _ c st Hcs El) as (Hhd & _ & Hstok).
  unfold full in Hf. destruct (endpoints st) as [|e l] eqn:Ee; [congruence|].
  destruct (In_stored _ d st e (le_n _) Hstok) as [w Hw]; [rewrite Ee; left; reflexivity|].
  destruct (prefix st) as [|k pr] eqn:Ep; [discriminate|]. cbn in Hhd. injection Hhd as ->.
  specialize (Hnone (bytes pr ++ w)). rewrite stored_unfold, El, Ep in Hnone.
  change (SByte c :: bytes pr ++ w) with (bytes (String c pr) ++ w) in Hnone.
  rewrite strip_app_self, Hw in Hnone. discriminate.
Qed.

Lemma find_loop_end (fuel : nat) (params : list string) (nd : node H) (pl : option ascii)
    (start : nat) :
  find_loop fuel params nd pl start "" = find_result nd params.
Proof. destruct fuel; reflexivity. Qed.

Lemma find_loop_slashes (fuel : nat) :
  forall (params : list string) (nd : node H) (pl : option ascii) (start : nat)
         (tail : string),
    unslash tail = ""%string -> String.length tail <= fuel ->
    find_loop fuel params nd pl start tail = find_result nd params.
Proof.
  induction fuel as [|fuel IH]; intros params nd pl start tail Hu Hlen.
  { destruct tail; [reflexivity|cbn [String.length] in Hlen; lia]. }
  destruct tail as [|x tail]; [reflexivity|]. cbn [find_loop]. cbn [unslash] in Hu.
  destruct (Ascii.eqb x slash); [|discriminate].
  apply IH; [exact Hu|cbn [String.length] in Hlen; lia].
Qed.

End Live.
Section Reached.
Context {H : Type}.

Lemma no_key_no_slot d (n : node H) (ty : nType) :
  node_ok d n -> live n -> (forall w, stored n (SSlot ty :: w) = None) ->
  slot_get (special n) ty = None.
Proof.
  intros Hok Hl Hnone. destruct (slot_get (special n) ty) as [st|] eqn:Es; [|reflexivity].
  exfalso. destruct (live_follow n (ESpecial ty) st Hl Es) as [Hf _].
  destruct (ok_follow d n (ESpecial ty) st Hok Es) as [Hstok _].
  unfold full in Hf. destruct (endpoints st) as [|e l] eqn:Ee; [congruence|].
  destruct (In_stored _ _ st e (le_n _) Hstok) as [w Hw]; [rewrite Ee; left; reflexivity|].
  specialize (Hnone w). rewrite stored_unfold, Es, Hw in Hnone. discriminate.
Qed.

(** The node at the end of a literal key that goes on with a slot, on a
    registered tree: where [find] stands after the literal part of the
    request. *)
Lemma node_at_slot (routes : list (string * H)) (t : tree H) (s : string) (ty : nType)
    (e : endpoint H) (qs rest : string) :
  register_all routes newTree = Ok t ->
  stored t (bytes s ++ [SSlot ty]) = Some e ->
  unslash qs = s ->
  exists N P,
    node_ok 0 N /\ live N /\ (forall w, stored t (bytes s ++ w) = stored N w) /\
    slot_get (special N) ty = Some P /\ endpt P = Some e /\
    map key_type (pKeys e) = [ty] /\
    find t (qs ++ rest) = find_loop (String.length rest) [] N None 0 rest.
Proof.
  intros Hr Hs Hqs.
  pose proof (tree_ok_register_all routes newTree t tree_ok_newTree Hr) as Ht.
  assert (Htab : table_ok t).
  { apply (table_ok_register_all routes newTree t tree_ok_newTree); [|exact Hr].
    intros w e' Hs'. change (@newTree H) with (@newNode H static ""%string) in Hs'.
    rewrite stored_newNode in Hs'. discriminate. }
  assert (Hlive : live t).
  { apply (live_register_all routes newTree t); [|exact Hr].
    apply live_unfold. cbn. repeat split; constructor. }
  destruct (stored_slot_path _ s 0 t ty [] e (le_n _) (proj1 Ht) Hs)
    as (ext & N & Hsp & Hd & HN).
  pose proof (spells_stored ext t N s Hsp Hd) as HwN.
  pose proof Hs as Hs'. rewrite HwN, stored_unfold in Hs'.
  destruct (slot_get (special N) ty) as [P|] eqn:EP; [|discriminate].
  rewrite stored_unfold in Hs'.
  exists N, P. split; [exact HN|]. split; [exact (live_deref ext t N Hlive Hd)|].
  split; [exact HwN|]. split; [exact EP|]. split; [exact Hs'|]. split.
  - rewrite (proj1 (Htab _ _ Hs)), slots_of_app, slots_of_bytes. reflexivity.
  - unfold find.
    apply (find_loop_to_node _ 0 [] t None 0 qs rest ""%string ext N (proj1 Ht) (le_n _)).
    split; [reflexivity|]. rewrite Hqs. auto.
Qed.

End Reached.

(** X29.  Where no literal child stands in the way, the dynamic route is
    reached.  On a tree built by registrations, let no literal route go on
    with the byte [c] below the node that stands at the bytes [s].  A
    request that spells [s] and goes on with a segment that starts with [c]
    is answered by the parameter route that ends at that node, with the
    segment as the value of its parameter (trailing ['/'] are ignored).  If
    no parameter route hangs there, a request that goes on with [c] is
    answered by the catch-all route of the node, with the whole rest of the
    path under ["*"]. *)
Theorem dynamic_route_is_reached :
  forall (H : Type) (routes : list (string * H)) (t : tree H) (s : string) (c : ascii)
         (e : endpoint H) (qs : string),
    register_all routes newTree = Ok t ->
    unslash qs = s -> c <> slash ->
    (forall w, stored t (bytes s ++ SByte c :: w) = None) ->
    (forall v' tail : string,
        stored t (bytes s ++ [SSlot param]) = Some e ->
        no_slash v' = true -> unslash tail = ""%string ->
        exists x, pKeys e = [x] /\
                  find t (qs ++ String c v' ++ tail)
                  = Ok (Some (e, {[ x := String c v' ]}))) /\
    (forall r : string,
        stored t (bytes s ++ [SSlot catchAll]) = Some e ->
        (forall w, stored t (bytes s ++ SSlot param :: w) = None) ->
        find t (qs ++ String c r) = Ok (Some (e, {[ "*"%string := String c r ]}))).
Proof.
  intros H routes t s c e qs Hr Hqs Hc Hnolit.
  assert (Ec : Ascii.eqb c slash = false).
  { destruct (Ascii.eqb_spec c slash); [contradiction|reflexivity]. }
  split.
  - intros v' tail Hs Hv Htail.
    destruct (node_at_slot routes t s param e qs (String c v' ++ tail) Hr Hs Hqs)
      as (N & P & HN & HlN & HwN & EP & Ee & Hkeys & Hf).
    assert (Hx : exists x, pKeys e = [x]).
    { destruct (pKeys e) as [|x [|y l]]; try discriminate. eauto. }
    destruct Hx as [x Hx]. exists x. split; [exact Hx|]. rewrite Hf.
    assert (El : lookup_child (children N) c = None).
    { apply (no_key_no_child 0 N c HN HlN). intros w. rewrite <- HwN. apply Hnolit. }
    assert (Hres : find_result P [String c v'] = Ok (Some (e, {[ x := String c v' ]}))).
    { unfold find_result. rewrite Ee, Hx. reflexivity. }
    assert (Hvs : no_slash (String c v') = true) by (apply no_slash_cons; auto).
    change (String c v' ++ tail)%string with (String c (v' ++ tail)).
    cbn [String.length find_loop]. rewrite Ec, El, EP.
    change (String c (v' ++ tail)) with (String c v' ++ tail)%string.
    destruct tail as [|x0 tail].
    + rewrite append_nil_r, (IndexByte_no_slash _ Hvs). cbn [app].
      rewrite find_loop_end. exact Hres.
    + cbn [unslash] in Htail. destruct (Ascii.eqb x0 slash) eqn:E0; [|discriminate].
      apply Ascii.eqb_eq in E0. subst x0.
      rewrite (IndexByte_app _ tail Hvs), sto_app_length, sfrom_add, sfrom_app_length.
      cbn [sfrom app]. rewrite find_loop_slashes; [exact Hres|exact Htail|].
      rewrite length_append. cbn [String.length]. lia.
  - intros r Hs Hnopar.
    destruct (node_at_slot routes t s catchAll e qs (String c r) Hr Hs Hqs)
      as (N & P & HN & HlN & HwN & EP & Ee & Hkeys & Hf).
    assert (Hx : pKeys e = ["*"%string]).
    { destruct (pKeys e) as [|x [|y l]]; try discriminate. cbn [map] in Hkeys.
      assert (Hk : key_type x = catchAll) by congruence.
      unfold key_type in Hk.
      destruct (String.eqb_spec x "*") as [Hxs|_]; [|discriminate].
      rewrite Hxs. reflexivity. }
    rewrite Hf.
    assert (El : lookup_child (children N) c = None).
    { apply (no_key_no_child 0 N c HN HlN). intros w. rewrite <- HwN. apply Hnolit. }
    assert (Epar : slot_get (special N) param = None).
    { apply (no_key_no_slot 0 N param HN HlN). intros w. rewrite <- HwN. apply Hnopar. }
    cbn [String.length find_loop]. rewrite Ec, El, Epar, EP. cbn [app].
    rewrite find_loop_end. unfold find_result. rewrite Ee, Hx. reflexivity.
Qed.

Lemma dynamic_route_is_reached_witness :
  find (Node static ""
          [("u"%char,
            Node static "users"
              [("n"%char, Node static "new" [] no_slots (Some (Endpoint 2 "/users/new" [])))]
              (Slots None (Some (Node param "" [] no_slots
                                   (Some (Endpoint 1 "/users/:id" ["id"%string])))) None)
              None)]
          no_slots None) "/users/42/"
  = Ok (Some (Endpoint 1 "/users/:id" ["id"%string], {[ "id"%string := "42"%string ]})).
Proof.
  destruct (dynamic_route_is_reached nat
              [("/users/:id"%string, 1); ("/users/new"%string, 2)]
              (Node static ""
                 [("u"%char,
                   Node static "users"
                     [("n"%char,
                       Node static "new" [] no_slots (Some (Endpoint 2 "/users/new" [])))]
                     (Slots None (Some (Node param "" [] no_slots
                                          (Some (Endpoint 1 "/users/:id" ["id"%string])))) None)
                     None)]
                 no_slots None)
              "users" "4"%char (Endpoint 1 "/users/:id" ["id"%string]) "/users/"
              eq_refl eq_refl ltac:(discriminate) (fun w => eq_refl)) as [Hp _].
  destruct (Hp "2"%string "/"%string eq_refl eq_refl eq_refl) as (x & Hx & Hf).
  injection Hx as <-. exact Hf.
Defined.

(** ** What a refused registration leaves *)

Section Refused.
Context {W : Type}.
Implicit Types (a : App (W := W)) (m : method).

Lemma register_regs_app (r1 r2 : list (registration W)) : forall a,
  register_regs (r1 ++ r2) a = (do a' <- register_regs r1 a; register_regs r2 a').
Proof.
  induction r1 as [|[[[[m0 r] p] ms] h] r1 IH]; intros a; cbn [app register_regs obind];
    [reflexivity|].
  destruct (Handle (newRoute a r m0 p ms) h a); cbn [obind]; [apply IH|reflexivity|reflexivity].
Qed.

Lemma trees_set_keys (ts : list (method * tree (HandlerFunc Request W))) m
    (t : tree (HandlerFunc Request W)) :
  is_Some (trees_get ts m) -> map fst (trees_set ts m t) = map fst ts.
Proof.
  induction ts as [|[k t0] ts IH]; cbn [trees_get trees_set]; [intros [? [=]]|].
  destruct (method_eqb k m); intros Hs; cbn [map fst]; [reflexivity|].
  rewrite IH by exact Hs. reflexivity.
Qed.

Lemma Handle_keys a a' m r (p : string) (ms : list (Middleware Request W))
    (h : HandlerFunc Request W) :
  Handle (newRoute a r m p ms) h a = Ok a' -> map fst (trees a') = map fst (trees a).
Proof.
  intros Hh. destruct (trees_get (trees a) m) as [st|] eqn:Eg.
  2:{ unfold Handle, newRoute, getTree in Hh. rewrite Eg in Hh. discriminate. }
  rewrite (Handle_unfold a m r p ms h st Eg) in Hh.
  destruct (insert st _ _) as [n'| |]; cbn [obind] in Hh; try discriminate.
  injection Hh as <-. unfold write_back. cbn [bucket]. rewrite Eg. cbn [trees].
  apply trees_set_keys. rewrite Eg. eauto.
Qed.

Lemma register_regs_keys (regs : list (registration W)) :
  forall a a', register_regs regs a = Ok a' -> map fst (trees a') = map fst (trees a).
Proof.
  induction regs as [|[[[[m0 r] p] ms] h] regs IH]; intros a a'; cbn [register_regs].
  - intros [= <-]. reflexivity.
  - destruct (Handle (newRoute a r m0 p ms) h a) as [a1| |] eqn:Eh; cbn [obind];
      try discriminate.
    intros Hr. rewrite (IH a1 a' Hr). exact (Handle_keys a a1 m0 r p ms h Eh).
Qed.

Lemma trees_get_In (ts : list (method * tree (HandlerFunc Request W))) m
    (t : tree (HandlerFunc Request W)) :
  List.NoDup (map fst ts) -> In (m, t) ts -> trees_get ts m = Some t.
Proof.
  induction ts as [|[k t0] ts IH]; cbn [map fst In trees_get]; [tauto|].
  intros Hnd [E|Hin].
  - injection E as -> ->. rewrite (proj2 (method_eqb_eq m m) eq_refl). reflexivity.
  - apply List.NoDup_cons_iff in Hnd as [Hk Hnd].
    destruct (method_eqb k m) eqn:E.
    + apply method_eqb_eq in E. subst k. exfalso. apply Hk.
      apply in_map_iff. exists (m, t). split; [reflexivity|exact Hin].
    + exact (IH Hnd Hin).
Qed.

Lemma route_line_inj (m l : method) (x y : string) :
  (reverseMethodLookup m ++ " " ++ x)%string = (reverseMethodLookup l ++ " " ++ y)%string ->
  x = y.
Proof.
  destruct m, l; cbn [reverseMethodLookup String.append]; intros E; try discriminate;
    injection E; auto.
Qed.

(** The listing of an application built by registrations holds no pattern
    that the validator refuses. *)
Lemma refused_never_listed (o nf na : HandlerFunc Request W) (tr : bool)
    (regs : list (registration W)) a m (p : string) :
  register_regs regs (New o nf na tr) = Ok a ->
  isValidPath (cleanPath p) = Ok false ->
  ~ In (reverseMethodLookup m ++ " " ++ p)%string (Routes a).
Proof.
  intros Hr Hv Hin. unfold Routes in Hin.
  apply (Permutation_in _ (merge_sort_Permutation _ _)) in Hin.
  apply in_concat in Hin as (ls & Hls & Hin).
  apply in_map_iff in Hls as ([l t] & <- & Hlt).
  assert (Eg : trees_get (trees a) l = Some t).
  { apply trees_get_In; [|exact Hlt]. rewrite (register_regs_keys regs _ _ Hr).
    cbn. repeat constructor; cbn; intuition discriminate. }
  assert (Eg0 : trees_get (trees (New o nf na tr)) l = Some newTree)
    by (destruct l; reflexivity).
  destruct (register_regs_bucket regs _ _ Hr l newTree Eg0) as (t' & Eg' & Ert).
  rewrite Eg in Eg'. injection Eg' as <-.
  destruct (tree_ok_register_all _ newTree t tree_ok_newTree Ert) as (_ & _ & _ & He).
  pose proof (captureRoutes_endpoints t (reverseMethodLookup l)) as Hp.
  rewrite (setEndpoint_None_id t He) in Hp.
  apply (Permutation_in _ Hp) in Hin. apply in_map_iff in Hin as (e & E & Hine).
  destruct (endpoints_register_all_valid _ newTree t e Ert Hine)
    as [[]|(p' & f & _ & Hfull & _ & Hv')].
  unfold route_entry in E. rewrite Hfull in E. apply route_line_inj in E. subst p.
  rewrite cleanPath_idem in Hv. congruence.
Qed.

(** A session with a refused registration builds what the session without
    it builds. *)
Lemma refused_registration_skipped (o nf na : HandlerFunc Request W) (tr : bool)
    (before after : list (registration W)) m r (p : string)
    (ms : list (Middleware Request W)) (h : HandlerFunc Request W) :
  isValidPath (cleanPath (cleanPath (rpath r ++ p))) = Ok false ->
  register_regs (before ++ (m, r, p, ms, h) :: after) (New o nf na tr)
  = register_regs (before ++ after) (New o nf na tr).
Proof.
  intros Hv. rewrite !register_regs_app.
  destruct (register_regs before (New o nf na tr)) as [a1| |] eqn:E1; cbn [obind];
    try reflexivity.
  cbn [register_regs].
  assert (Eg0 : trees_get (trees (New o nf na tr)) m = Some newTree)
    by (destruct m; reflexivity).
  destruct (register_regs_bucket before _ _ E1 m newTree Eg0) as (st & Eg & _).
  rewrite (Handle_invalid a1 m r p ms h Hv (ex_intro _ st Eg)). reflexivity.
Qed.

End Refused.

(** ** C8 *)

(** C8 as stated fails: with [/users/*] registered, the refused pattern
    [/users/:123id] leaves the tree as it was, and the request for that
    path is answered by the handler of the catch-all route, not by the
    not-found handler. *)
Lemma C8_counterexample :
  In "/users/:123id"%string rejected_patterns /\
  (do a <- register_regs
             [(mGET, mkRouter "/" [], "/users/*"%string, [], fun _ w => S w);
              (mGET, mkRouter "/" [], "/users/:123id"%string, [], idle_handler)]
             (New idle_handler idle_handler idle_handler false);
   internalHandler (fun _ _ => false) a (GET_request "/users/:123id"))
  = Ok (Serve (fun _ w => S w)
          (withParams (GET_request "/users/:123id") {[ "*"%string := ":123id"%string ]})) /\
  (do a <- register_regs
             [(mGET, mkRouter "/" [], "/users/*"%string, [], fun _ w => S w);
              (mGET, mkRouter "/" [], "/users/:123id"%string, [], idle_handler)]
             (New idle_handler idle_handler idle_handler false);
   internalHandler (fun _ _ => false) a (GET_request "/users/:123id"))
  <> Ok (Serve idle_handler (GET_request "/users/:123id")).
Proof.
  split; [vm_compute; tauto|].
  assert (E : (do a <- register_regs
                         [(mGET, mkRouter "/" [], "/users/*"%string, [], fun _ w => S w);
                          (mGET, mkRouter "/" [], "/users/:123id"%string, [], idle_handler)]
                         (New idle_handler idle_handler idle_handler false);
               internalHandler (fun _ _ => false) a (GET_request "/users/:123id"))
              = Ok (Serve (fun _ w => S w)
                      (withParams (GET_request "/users/:123id")
                         {[ "*"%string := ":123id"%string ]})))
    by (vm_compute; reflexivity).
  split; [exact E|]. rewrite E. discriminate.
Qed.

(** C8 (amended): each of the seven malformed patterns is dropped
    silently.  [insert] returns every tree unchanged, so registering the
    pattern through a ["/"] router leaves any application as it was, and a
    session of registrations on a new application builds with the attempt
    what it builds without it.  After any such session the pattern is not
    in the list returned by [Routes], under any method.  A request is
    answered after the attempt as it was before: by the not-found handler
    on a new application, where [Routes] is empty, and by whatever route
    took the path before otherwise. *)
Theorem C8_rejected_patterns_are_dropped :
  forall p : string, In p rejected_patterns ->
    (forall (H : Type) (t : tree H) (f : H), insert t p f = Ok t) /\
    (forall (W : Type) (a : App (W := W)) (P ms : list (Middleware Request W))
            (h : HandlerFunc Request W),
        is_Some (trees_get (trees a) mGET) ->
        Handle (Get a (mkRouter "/" P) p ms) h a = Ok a) /\
    (forall (W : Type) (o nf na : HandlerFunc Request W) (tr : bool)
            (before after : list (registration W)) (m : method)
            (P ms : list (Middleware Request W)) (h : HandlerFunc Request W),
        register_regs (before ++ (m, mkRouter "/" P, p, ms, h) :: after) (New o nf na tr)
        = register_regs (before ++ after) (New o nf na tr)) /\
    (forall (W : Type) (o nf na : HandlerFunc Request W) (tr : bool)
            (regs : list (registration W)) (a : App (W := W)) (m : method),
        register_regs regs (New o nf na tr) = Ok a ->
        ~ In (reverseMethodLookup m ++ " " ++ p)%string (Routes a)) /\
    (forall (W : Type) (EqualFold : string -> string -> bool) (a : App (W := W))
            (P ms : list (Middleware Request W)) (h : HandlerFunc Request W) (req : Request),
        is_Some (trees_get (trees a) mGET) ->
        (do a' <- Handle (Get a (mkRouter "/" P) p ms) h a;
         Ok (Routes a', internalHandler EqualFold a' req))
        = Ok (Routes a, internalHandler EqualFold a req)) /\
    (forall (W : Type) (EqualFold : string -> string -> bool)
            (o nf na h : HandlerFunc Request W) (P ms : list (Middleware Request W)),
        let a1 := snd (App_Router (New o nf na false) "/" P) in
        let r := fst (App_Router (New o nf na false) "/" P) in
        Handle (Get a1 r p ms) h a1 = Ok a1 /\
        Routes a1 = [] /\
        ~ In ("GET " ++ p)%string (Routes a1) /\
        internalHandler EqualFold a1 (GET_request p) = Ok (Serve nf (GET_request p))).
Proof.
  intros p Hin.
  assert (Hv : isValidPath (cleanPath (cleanPath ("/" ++ p))) = Ok false /\
               isValidPath (cleanPath p) = Ok false).
  { simpl in Hin.
    repeat (destruct Hin as [<- | Hin]; [split; vm_compute; reflexivity|]).
    contradiction. }
  destruct Hv as [Hv1 Hv2].
  split; [|split; [|split; [|split; [|split]]]].
  - intros. apply insert_invalid; assumption.
  - intros. apply Handle_invalid; [exact Hv1 | assumption].
  - intros. apply refused_registration_skipped. exact Hv1.
  - intros W o nf na tr regs a m Hr. exact (refused_never_listed o nf na tr regs a m p Hr Hv2).
  - intros W EqualFold a P ms h req Hs.
    unfold Get. rewrite (Handle_invalid a mGET (mkRouter "/" P) p ms h Hv1 Hs). reflexivity.
  - intros. split; [|split; [|split]].
    + apply Handle_invalid; [exact Hv1 | vm_compute; eauto].
    + vm_compute. reflexivity.
    + vm_compute. intros [].
    + simpl in Hin.
      repeat (destruct Hin as [<- | Hin]; [vm_compute; reflexivity|]).
      contradiction.
Qed.

Lemma C8_rejected_patterns_are_dropped_witness :
  In "/users/:id/:name"%string rejected_patterns /\
  insert (newTree (H := nat)) "/users/:id/:name" 0 = Ok newTree /\
  register_regs [(mGET, mkRouter "/" [], "/users/*"%string, [], idle_handler);
                 (mPOST, mkRouter "/" [], "/users/:id/:name"%string, [], idle_handler)]
    (New idle_handler idle_handler idle_handler false)
  = register_regs [(mGET, mkRouter "/" [], "/users/*"%string, [], idle_handler)]
      (New idle_handler idle_handler idle_handler false).
Proof.
  assert (Hin : In "/users/:id/:name"%string rejected_patterns) by (vm_compute; tauto).
  split; [exact Hin|].
  destruct (C8_rejected_patterns_are_dropped "/users/:id/:name" Hin) as (H1 & _ & H3 & _).
  split; [exact (H1 nat newTree 0)|].
  exact (H3 nat idle_handler idle_handler idle_handler false
           [(mGET, mkRouter "/" [], "/users/*"%string, [], idle_handler)] []
           mPOST [] [] idle_handler).
Defined.

(** ** A registered pattern and the requests that instantiate it *)

Lemma strip_bytes_tail (a : string) : forall (b : string) (w w' : list sym),
  match w with SByte _ :: _ => False | _ => True end ->
  strip (bytes a) (bytes b ++ w) = Some w' ->
  exists b' : string, b = (a ++ b')%string /\ w' = bytes b' ++ w.
Proof.
  induction a as [|x a IH]; intros b w w' Hw; cbn [bytes strip].
  - intros [= <-]. exists b. split; reflexivity.
  - destruct b as [|y b]; cbn [bytes app].
    + destruct w as [|[c|ty] w]; [discriminate|contradiction|cbn [sym_eqb]; discriminate].
    + cbn [sym_eqb]. destruct (Ascii.eqb x y) eqn:E; [|discriminate].
      apply Ascii.eqb_eq in E as <-.
      intros Hs. destruct (IH b w w' Hw Hs) as (b' & -> & ->). exists b'. split; reflexivity.
Qed.

Lemma unslash_Join (segs : list string) :
  forallb lit_seg segs = true -> unslash (Join segs) = cat segs.
Proof.
  induction segs as [|s segs IH]; [reflexivity|]. cbn [forallb]. intros Hall.
  apply andb_true_iff in Hall as [Hs Hall].
  destruct (lit_seg_inv s Hs) as (c & r & -> & _ & _ & _ & Hns).
  destruct segs as [|s2 segs].
  - cbn [Join cat fold_right]. rewrite append_nil_r. apply unslash_no_slash. exact Hns.
  - rewrite Join_cons2, unslash_app, (unslash_no_slash _ Hns).
    change (unslash (String slash (Join (s2 :: segs))))
      with (if Ascii.eqb slash slash then unslash (Join (s2 :: segs))
            else String slash (unslash (Join (s2 :: segs)))).
    rewrite Ascii.eqb_refl, (IH Hall). reflexivity.
Qed.

Lemma param_keys_tokens (ps : list piece) :
  forallb piece_ok ps = true -> param_keys (tokens ps) = names ps.
Proof.
  induction ps as [|x ps IH]; [reflexivity|]. cbn [forallb]. intros Hok.
  apply andb_true_iff in Hok as [Hx Hok]. specialize (IH Hok).
  unfold tokens, names in *. cbn [map concat param_keys].
  destruct x as [segs|name|]; cbn [token_of name_of app].
  - cbn [piece_ok] in Hx. apply andb_true_iff in Hx as [Hn Hl].
    assert (Hne : segs <> []) by (destruct segs; [discriminate|congruence]).
    destruct (cat_lits segs Hne Hl) as (c & r & _ & Hty & _). rewrite Hty. exact IH.
  - change (getSegmentType (String ":"%char name)) with (Ok param : outcome nType).
    change (sfrom 1 (String ":"%char name)) with (sfrom 0 name).
    rewrite sfrom_0, IH. reflexivity.
  - change (getSegmentType "*") with (Ok catchAll : outcome nType). rewrite IH. reflexivity.
Qed.

Lemma key_cons (x : piece) (ps : list piece) :
  piece_ok x = true ->
  route_key (tokens (x :: ps))
  = match x with
    | Lit segs => bytes (cat segs)
    | Par _ => [SSlot param]
    | Star => [SSlot catchAll]
    end ++ route_key (tokens ps).
Proof.
  intros Hx. unfold tokens. cbn [map route_key flat_map].
  rewrite (token_key_piece x Hx). reflexivity.
Qed.

(** After a literal run, the key of a well-formed pattern ends or goes on
    with a slot. *)
Lemma key_after_lit (segs : list string) (ps : list piece) :
  alternates (Lit segs :: ps) = true -> forallb piece_ok ps = true ->
  match route_key (tokens ps) with SByte _ :: _ => False | _ => True end.
Proof.
  destruct ps as [|y ps]; [intros; exact I|]. cbn [alternates is_lit forallb].
  intros Ha Hok. apply andb_true_iff in Ha as [Hy _]. apply andb_true_iff in Hok as [Hy' _].
  rewrite (key_cons y ps Hy').
  destruct y as [segs'|name|]; [discriminate|exact I|exact I].
Qed.

Lemma registered_tree {H : Type} (routes : list (string * H)) (t : tree H) :
  register_all routes newTree = Ok t -> tree_ok t /\ table_ok t /\ live t.
Proof.
  intros Hr. split; [exact (tree_ok_register_all routes newTree t tree_ok_newTree Hr)|]. split.
  - apply (table_ok_register_all routes newTree t tree_ok_newTree); [|exact Hr].
    intros w e' Hs. change (@newTree H) with (@newNode H static ""%string) in Hs.
    rewrite stored_newNode in Hs. discriminate.
  - apply (live_register_all routes newTree t); [|exact Hr].
    apply live_unfold. cbn. repeat split; constructor.
Qed.

Section Pieces.
Context {H : Type}.
Implicit Types (nd N st : node H) (ext : cursor).

(** A key that ends or goes on with a slot after the bytes [s] passes
    through a node that stands at [s]. *)
Lemma stored_bytes_path (k : nat) :
  forall (s : string) d nd (w1 : list sym) (e : endpoint H),
    String.length s <= k -> node_ok d nd ->
    match w1 with SByte _ :: _ => False | _ => True end ->
    stored nd (bytes s ++ w1) = Some e ->
    exists ext N, spells nd ext s /\ deref nd ext = Some N /\ node_ok d N.
Proof.
  induction k as [|k IH]; intros s d nd w1 e Hk Hok Hw1 Hs;
    (destruct s as [|c s]; [exists [], nd; cbn [spells deref]; auto|]).
  { cbn [String.length] in Hk. lia. }
  rewrite stored_unfold in Hs. cbn [bytes app] in Hs.
  destruct (lookup_child (children nd) c) as [st|] eqn:El; [|discriminate].
  change (SByte c :: bytes s ++ w1) with (bytes (String c s) ++ w1) in Hs.
  destruct (strip (bytes (prefix st)) (bytes (String c s) ++ w1)) as [w'|] eqn:Es;
    [|discriminate].
  destruct (strip_bytes_tail _ _ _ _ Hw1 Es) as (s' & Eq & ->).
  apply node_ok_unfold in Hok as Hok'. destruct Hok' as (_ & Hcs & _).
  destruct (ok_lookup d _ c st Hcs El) as (Hhd & _ & Hstok).
  assert (L : String.length (String c s) = String.length (prefix st) + String.length s').
  { rewrite <- length_append. f_equal. exact Eq. }
  destruct (IH s' d st w1 e) as (ext & N & Hsp & Hd & HN); [|exact Hstok|exact Hw1|exact Hs|].
  { cbn [String.length] in Hk, L. destruct (prefix st); [discriminate|].
    cbn [String.length] in L. lia. }
  exists (EChild c :: ext), N. split; [|split; [|exact HN]].
  - cbn [spells]. exists st, s'. auto.
  - cbn [deref follow]. rewrite El. exact Hd.
Qed.

(** The resolver on a tree built by registrations, from the node that
    stands at the key [K], on a request that instantiates the rest [ps] of
    a pattern of the table: where no other route stands before the
    pattern, the endpoint of the pattern is reached with the values in
    order. *)
Lemma find_loop_pieces (t : tree H) (e : endpoint H) (ps : list piece) :
  forall (vals : list string) (K : list sym) d nd params (fuel : nat),
    forallb piece_ok ps = true -> alternates ps = true -> star_last ps = true ->
    values_ok ps vals = true ->
    node_ok d nd -> live nd ->
    (forall w, stored t (K ++ w) = stored nd w) ->
    stored nd (route_key (tokens ps)) = Some e ->
    unshadowed t K ps vals ->
    String.length (Join (request_segs ps vals)) <= fuel ->
    find_loop fuel params nd None 0 (Join (request_segs ps vals)) = hit e (params ++ vals).
Proof.
  induction ps as [|x ps IH];
    intros vals K d nd params fuel Hok Halt Hstar Hv Hnd Hlive Hw Hs Hun Hfuel.
  - destruct vals; [|discriminate]. cbn [request_segs Join]. rewrite app_nil_r, find_loop_end.
    apply find_result_hit. rewrite stored_unfold in Hs. exact Hs.
  - cbn [forallb] in Hok. apply andb_true_iff in Hok as [Hx Hok].
    assert (Hstar' : star_last ps = true).
    { destruct ps; [reflexivity|]. destruct x; cbn [star_last] in Hstar;
        try exact Hstar; discriminate. }
    assert (Halt' : alternates ps = true).
    { destruct ps as [|y ps]; [reflexivity|]. cbn [alternates] in Halt.
      apply andb_true_iff in Halt as [_ Halt]. exact Halt. }
    pose proof Hs as Hkey. rewrite (key_cons x ps Hx) in Hkey.
    destruct x as [segs|name|].
    + (* a literal run *)
      pose proof (key_after_lit segs ps Halt Hok) as Htail.
      cbn [piece_ok] in Hx. apply andb_true_iff in Hx as [Hne Hall].
      assert (Hne' : segs <> []) by (destruct segs; [discriminate | congruence]).
      cbn [values_ok] in Hv. cbn [request_segs] in Hfuel |- *. cbn [unshadowed] in Hun.
      destruct (stored_bytes_path _ (cat segs) d nd _ e (le_n _) Hnd Htail Hkey)
        as (ext & N & Hsp & Hd & HN).
      pose proof (spells_stored ext nd N (cat segs) Hsp Hd) as HwN.
      assert (IH' : forall fuel', String.length (Join (request_segs ps vals)) <= fuel' ->
                 find_loop fuel' params N None 0 (Join (request_segs ps vals))
                 = hit e (params ++ vals)).
      { intros fuel' Hf. apply (IH vals (K ++ bytes (cat segs)) d N params fuel'); auto.
        - exact (live_deref ext nd N Hlive Hd).
        - intros w. rewrite <- app_assoc, Hw. apply HwN.
        - rewrite <- HwN. exact Hkey. }
      rewrite Join_app in Hfuel |- * by exact Hne'.
      rewrite (find_loop_to_node fuel d params nd None 0 (Join segs) _ ""%string ext N
                 Hnd Hfuel).
      2:{ split; [reflexivity|]. rewrite (unslash_Join segs Hall). auto. }
      destruct (request_segs ps vals) as [|m more] eqn:Em.
      * apply IH'. cbn. lia.
      * cbn [String.length find_loop]. rewrite Ascii.eqb_refl.
        apply IH'. apply le_n.
    + (* a parameter *)
      destruct vals as [|v vals]; [discriminate|].
      cbn [values_ok value_ok] in Hv. apply andb_true_iff in Hv as [Hval Hv].
      apply andb_true_iff in Hval as [Hv1 Hv2]. apply negb_true_iff, String.eqb_neq in Hv1.
      destruct v as [|c r]; [congruence|]. pose proof Hv2 as Hv2'.
      apply no_slash_cons in Hv2' as [Hc _].
      cbn [request_segs] in Hfuel |- *. cbn [unshadowed] in Hun. destruct Hun as [Hnolit Hun].
      cbn [app] in Hkey. rewrite stored_unfold in Hkey.
      destruct (slot_get (special nd) param) as [P|] eqn:EP; [|discriminate].
      assert (El : lookup_child (children nd) c = None).
      { apply (no_key_no_child d nd c Hnd Hlive). intros w. rewrite <- Hw.
        exact (Hnolit c r w eq_refl). }
      destruct (ok_follow d nd (ESpecial param) P Hnd EP) as [HP _].
      destruct (live_follow nd (ESpecial param) P Hlive EP) as [_ HlP].
      assert (IH' : forall fuel', String.length (Join (request_segs ps vals)) <= fuel' ->
                 find_loop fuel' (params ++ [String c r]) P None 0
                   (Join (request_segs ps vals))
                 = hit e (params ++ String c r :: vals)).
      { intros fuel' Hf. change (String c r :: vals) with ([String c r] ++ vals).
        rewrite app_assoc.
        apply (IH vals (K ++ [SSlot param]) (edepth (ESpecial param) + d) P
                 (params ++ [String c r]) fuel'); auto.
        intros w. rewrite <- app_assoc. cbn [app]. rewrite Hw, stored_unfold, EP.
        reflexivity. }
      destruct fuel as [|fuel]; [destruct (request_segs ps vals); cbn in Hfuel; lia|].
      destruct (request_segs ps vals) as [|m more] eqn:Em.
      * cbn [Join find_loop]. rewrite Hc, El, EP.
        rewrite IndexByte_no_slash by exact Hv2.
        apply IH'. cbn. lia.
      * rewrite Join_cons2 in Hfuel |- *.
        change (String c r ++ String slash (Join (m :: more)))%string
          with (String c (r ++ String slash (Join (m :: more)))).
        cbn [find_loop]. rewrite Hc, El, EP.
        change (String c (r ++ String slash (Join (m :: more))))
          with (String c r ++ String slash (Join (m :: more)))%string.
        rewrite IndexByte_app by exact Hv2.
        rewrite sto_app_length, sfrom_add, sfrom_app_length. cbn [sfrom].
        apply IH'.
        rewrite length_append in Hfuel. cbn [String.length] in Hfuel. lia.
    + (* the catch-all *)
      destruct ps; [|discriminate].
      destruct vals as [|v vals]; [discriminate|].
      cbn [values_ok] in Hv. apply andb_true_iff in Hv as [Hv Hv'].
      destruct vals; [|discriminate].
      cbn [value_ok] in Hv. destruct v as [|c r]; [discriminate|].
      apply negb_true_iff in Hv.
      cbn [request_segs Join] in Hfuel |- *. cbn [unshadowed] in Hun.
      destruct Hun as (Hnolit & Hnopar & _).
      unfold tokens in Hkey. cbn [map route_key flat_map app] in Hkey.
      rewrite stored_unfold in Hkey.
      destruct (slot_get (special nd) catchAll) as [C|] eqn:EC; [|discriminate].
      rewrite stored_unfold in Hkey.
      assert (El : lookup_child (children nd) c = None).
      { apply (no_key_no_child d nd c Hnd Hlive). intros w. rewrite <- Hw.
        exact (Hnolit c r w eq_refl). }
      assert (Epar : slot_get (special nd) param = None).
      { apply (no_key_no_slot d nd param Hnd Hlive). intros w. rewrite <- Hw. apply Hnopar. }
      destruct fuel as [|fuel]; [cbn in Hfuel; lia|].
      cbn [find_loop]. rewrite Hv, El, Epar, EC. rewrite find_loop_end.
      apply find_result_hit. exact Hkey.
Qed.

End Pieces.

(** A well-formed pattern, once registered, answers the requests that
    instantiate it with its endpoint and the values under its names, as
    long as no later registration has its key and no other route stands
    before it on the way of the request. *)
Lemma find_registered_pattern {H : Type} (before after : list (string * H))
    (ps : list piece) (f : H) (vals : list string) (t : tree H) :
  register_all (before ++ (render ps, f) :: after) newTree = Ok t ->
  well_formed ps = true -> values_ok ps vals = true ->
  (forall p' f' segs, In (p', f') after -> isValidPath (cleanPath p') = Ok true ->
     splitPath (cleanPath p') = Ok segs -> route_key segs <> route_key (tokens ps)) ->
  unshadowed t [] ps vals ->
  find t (request ps vals)
  = Ok (Some (Endpoint f (render ps) (names ps), list_to_map (zip (names ps) vals))).
Proof.
  intros Hr Hwf Hv Hafter Hun.
  destruct (well_formed_inv ps Hwf) as (Hne & Hok & Halt & Hstar & Hnd).
  pose proof Hr as Hr0. rewrite register_all_app in Hr0.
  destruct (register_all before newTree) as [t0| |] eqn:E0; cbn [obind] in Hr0;
    try discriminate.
  cbn [register_all] in Hr0.
  destruct (insert t0 (render ps) f) as [t1| |] eqn:E1; cbn [obind] in Hr0; try discriminate.
  pose proof (tree_ok_register_all before newTree t0 tree_ok_newTree E0) as Ht0.
  pose proof (tree_ok_insert t0 _ f t1 Ht0 E1) as Ht1.
  destruct (registered_tree _ t Hr) as (Ht & _ & Hlive).
  assert (Hvalid : isValidPath (cleanPath (render ps)) = Ok true).
  { rewrite cleanPath_render by assumption. apply isValidPath_render. exact Hwf. }
  destruct (insert_table t0 (render ps) f t1 (proj1 Ht0) Hvalid E1) as (segs & Es & Hst & _).
  rewrite (cleanPath_render ps Hne Hok) in Es, Hst.
  rewrite (splitPath_render ps Hne Hok Halt) in Es. injection Es as <-.
  rewrite (param_keys_tokens ps Hok) in Hst.
  pose proof (stored_after after t1 t _ _ Ht1 Hr0 Hst Hafter) as Hs.
  unfold find, request. cbn [String.length find_loop]. rewrite Ascii.eqb_refl.
  rewrite (find_loop_pieces t _ ps vals [] 0 t [] _ Hok Halt Hstar Hv (proj1 Ht) Hlive
             (fun w => eq_refl) Hs Hun (le_n _)).
  unfold hit. cbn [pKeys app].
  rewrite (fill_pMap_zip (names ps) vals [] ∅ Hnd (values_ok_length ps vals Hv)).
  cbn [obind]. rewrite (right_id_L ∅ (∪)). reflexivity.
Qed.

(** ** C6 *)

(** C6 as stated fails: [/users/nobody] matches the registered pattern
    [/users/:id], but with [/users/new] registered too [find] takes the
    literal child for the byte [n] and returns no endpoint and no map. *)
Lemma C6_counterexample :
  well_formed [Lit ["users"%string]; Par "id"] = true /\
  values_ok [Lit ["users"%string]; Par "id"] ["nobody"%string] = true /\
  render [Lit ["users"%string]; Par "id"] = "/users/:id"%string /\
  request [Lit ["users"%string]; Par "id"] ["nobody"%string] = "/users/nobody"%string /\
  (do t <- register_all [("/users/:id"%string, 1); ("/users/new"%string, 2)] newTree;
   find t "/users/nobody") = Ok None /\
  (do t <- register_all [("/users/:id"%string, 1); ("/users/new"%string, 2)] newTree;
   find t "/users/nobody")
  <> Ok (Some (Endpoint 1 "/users/:id" ["id"%string], {[ "id"%string := "nobody"%string ]})).
Proof.
  assert (E : (do t <- register_all [("/users/:id"%string, 1); ("/users/new"%string, 2)]
                         newTree;
               find t "/users/nobody") = Ok None) by (vm_compute; reflexivity).
  split; [vm_compute; reflexivity|]. split; [vm_compute; reflexivity|].
  split; [vm_compute; reflexivity|]. split; [vm_compute; reflexivity|].
  split; [exact E|]. rewrite E. discriminate.
Qed.

(** C6 (amended): let a well-formed pattern be registered and let a request
    instantiate its dynamic segments with [vals] (a non-empty run without
    ['/'] for a parameter, a non-empty remainder not starting with ['/']
    for the catch-all).  If the pattern is alone in the tree, [find]
    returns its endpoint and the map from its parameter names, ["*"] for
    the catch-all, to these values: the key set is the set of names and
    the name at each position is mapped to the value at that position.
    Among other routes, registered before or after it, [find] returns the
    same as long as no later registration has the key of the pattern and
    no other route stands before it: at each dynamic segment no route goes
    on with the first byte of the value as a literal, and at the catch-all
    no route goes on with a parameter.  Whatever request [find] resolves
    on a tree built by registrations, the endpoint is that of a registered
    route, the key set of the map is the list of parameter names of that
    route's pattern, and each value is a non-empty piece of the request
    path that does not start with ['/']: a run without ['/'] for a
    parameter, the rest of the path for the catch-all.  For [/files/*] and
    [/files/a/b/c] the map is [{"*": "a/b/c"}]. *)
Theorem C6_parameter_extraction :
  forall (H : Type) (f : H) (ps : list piece) (vals : list string),
    well_formed ps = true -> values_ok ps vals = true ->
    (do t <- insert newTree (render ps) f; find t (request ps vals))
      = Ok (Some (Endpoint f (render ps) (names ps),
                  list_to_map (zip (names ps) vals))) /\
    dom (list_to_map (zip (names ps) vals) : gmap string string) = list_to_set (names ps) /\
    (forall (i : nat) (k v : string),
        names ps !! i = Some k -> vals !! i = Some v ->
        (list_to_map (zip (names ps) vals) : gmap string string) !! k = Some v) /\
    (forall (before after : list (string * H)) (t : tree H),
        register_all (before ++ (render ps, f) :: after) newTree = Ok t ->
        (forall p' f' segs, In (p', f') after -> isValidPath (cleanPath p') = Ok true ->
           splitPath (cleanPath p') = Ok segs -> route_key segs <> route_key (tokens ps)) ->
        unshadowed t [] ps vals ->
        find t (request ps vals)
        = Ok (Some (Endpoint f (render ps) (names ps),
                    list_to_map (zip (names ps) vals)))) /\
    (forall (routes : list (string * H)) (t : tree H) (q : string)
            (e : endpoint H) (m : gmap string string),
        register_all routes newTree = Ok t -> find t q = Ok (Some (e, m)) ->
        (exists p g, In (p, g) routes /\ registered e p g) /\
        dom m = list_to_set (pKeys e) /\
        (forall k v, m !! k = Some v -> value_fits q (key_type k) v)) /\
    (do t <- insert newTree "/files/*" f; find t "/files/a/b/c")
      = Ok (Some (Endpoint f "/files/*" ["*"%string], {[ "*"%string := "a/b/c"%string ]})).
Proof.
  intros H f ps vals Hwf Hv.
  destruct (well_formed_inv ps Hwf) as (_ & _ & _ & _ & Hnd).
  pose proof (values_ok_length ps vals Hv) as Hlen.
  split; [apply find_insert_render; assumption|]. split; [|split; [|split; [|split]]].
  - rewrite dom_list_to_map_L. rewrite fst_zip by lia. reflexivity.
  - intros i k v Hk Hval. apply elem_of_list_to_map_1.
    + rewrite fst_zip by lia. exact Hnd.
    + apply list_elem_of_lookup. exists i. apply lookup_zip_with_Some. eauto.
  - intros before after t Hr Hafter Hun.
    exact (find_registered_pattern before after ps f vals t Hr Hwf Hv Hafter Hun).
  - intros routes t q e m Hr Hf.
    destruct (find_registered routes t q e m Hr Hf) as [Hreg Hdom].
    split; [exact Hreg|]. split; [exact Hdom|].
    destruct (registered_tree routes t Hr) as (Ht & Htab & _).
    exact (find_values t q e m Ht Htab Hf).
  - vm_compute. reflexivity.
Qed.

Lemma C6_parameter_extraction_witness :
  well_formed [Lit ["users"%string]; Par "id"; Lit ["files"%string]; Star] = true /\
  values_ok [Lit ["users"%string]; Par "id"; Lit ["files"%string]; Star]
    ["42"%string; "a/b.txt"%string] = true /\
  (do t <- insert newTree "/users/:id/files/*" 0; find t "/users/42/files/a/b.txt")
  = Ok (Some (Endpoint 0 "/users/:id/files/*" ["id"%string; "*"%string],
              list_to_map [("id"%string, "42"%string); ("*"%string, "a/b.txt"%string)])) /\
  find (Node static ""
          [("u"%char,
            Node static "users"
              [("n"%char, Node static "new" [] no_slots (Some (Endpoint 2 "/users/new" [])))]
              (Slots None
                 (Some (Node param ""
                          [("f"%char,
                            Node static "files" []
                              (Slots None None
                                 (Some (Node catchAll "" [] no_slots
                                          (Some (Endpoint 0 "/users/:id/files/*"
                                                   ["id"%string; "*"%string])))))
                              None)]
                          no_slots (Some (Endpoint 1 "/users/:id" ["id"%string]))))
                 None)
              None)]
          no_slots None) "/users/42/files/a/b.txt"
  = Ok (Some (Endpoint 0 "/users/:id/files/*" ["id"%string; "*"%string],
              list_to_map [("id"%string, "42"%string); ("*"%string, "a/b.txt"%string)])).
Proof.
  assert (Hwf : well_formed [Lit ["users"%string]; Par "id"; Lit ["files"%string]; Star] = true)
    by (vm_compute; reflexivity).
  assert (Hv : values_ok [Lit ["users"%string]; Par "id"; Lit ["files"%string]; Star]
                 ["42"%string; "a/b.txt"%string] = true) by (vm_compute; reflexivity).
  split; [exact Hwf|]. split; [exact Hv|].
  destruct (C6_parameter_extraction nat 0
              [Lit ["users"%string]; Par "id"; Lit ["files"%string]; Star]
              ["42"%string; "a/b.txt"%string] Hwf Hv) as (Halone & _ & _ & Hamong & _).
  split; [exact Halone|].
  apply (Hamong [("/users/new"%string, 2)] [("/users/:id"%string, 1)]).
  - vm_compute. reflexivity.
  - intros p' f' segs [[= <- <-]|[]] _ Hs. vm_compute in Hs. injection Hs as <-.
    vm_compute. discriminate.
  - cbn [unshadowed]. split; [intros c r w [= <- <-]; reflexivity|].
    split; [intros c r w [= <- <-]; reflexivity|]. split; [intros w; reflexivity|exact I].
Defined.
